(* ===== verification/_CoqProject ===== *)
-Q . S2P
Prelude.v
GoStrings.v
Urls.v
Fs.v
Counter.v
Watch.v
Keys.v
Store.v
StoreFacts.v
StoreSpec.v
StoreList.v
StoreRuns.v
StoreWatch.v
ListHelpers.v
Samples.v
Writers.v
Interleave.v
Races.v
ListRaces.v
StoreSamples.v
RaceSamples.v
ListRaceSamples.v
Translate.v
Projection.v
Docker.v
Reconciler.v
ReconcilerFacts.v
ReconcilerReap.v
ReconcilerEnd.v
KubeRaces.v
KubeReturns.v
Worker.v
Lifecycle.v
Logs.v
Streams.v
Strategy.v
Deletion.v
Tables.v
Fields.v
Apiserver.v
ApiSamples.v
Pki.v
Commands.v
PkiSamples.v
CommandSamples.v
KubeSamples.v
KubeRaceSamples.v
WorkerSamples.v
DeletionSamples.v
