(* ===== verification/Prelude.v ===== *)
(** * Verification of the filesystem-backed API server and its kubelet

    The program is a Kubernetes API server that keeps its objects in files
    instead of etcd, and a small kubelet that runs its Pods as Docker
    containers.  [internal/fsstorage] implements [storage.Interface];
    [internal/apiserver] wires it to the generic registry of k8s.io/apiserver;
    [internal/kubelet] watches Pods, starts, stops and reaps containers, and
    serves logs, which the API server proxies.

    ** How the program is modelled

    A statement is a computation [M S A]: from the state it shares to the state
    it leaves and an outcome, a value, or a stop by panic, by deadlock, or by
    the death of the process.  A call that can fail returns a [res]; [let*]
    binds, [let?] returns on an error.  [zoom] runs a component's code on its
    part of a larger state.  Everything is executable.  What the language or
    the runtime leaves open is an argument: the outcome of each system call (a
    schedule in the file system, with failures, partial writes and crashes),
    the order of a [range] over a map, the case of a [select], clocks and
    uuids.  Code outside the repository is a class of operations, and what the
    proofs rely on a class of laws, or hypotheses of the theorem:
    - [ApiObject] (Store), [ApiObjectLaws] (StoreFacts): codec, versioner,
      [meta.Accessor]; instance [kobj] in Samples;
    - [KubeAPI] (Projection): the client-go requests the kubelet makes;
    - [DockerSDK], [SDKLaws] (Docker): the Docker client and its daemon;
    - [PodLister], [WorkQueue] (Reconciler), [PodListerLaws], [WorkQueueLaws]
      (Worker): client-go's cache and queue; [LogSDK] and [std_copier] (Logs);
    - [FieldScheme], [FieldSchemeLaws] (Fields): apimachinery's scheme;
    - [PkiLib], [PkiLaws] (Pki), [ConfigLaws] (Commands): crypto, x509, PEM,
      [net] and clientcmd.
    Instances for the witnesses are in KubeSamples, WorkerSamples, PkiSamples,
    Fields and Logs.

    ** The files

    - Prelude: errors, results, the monad and its weakest preconditions, the
      tactics, uint64.  GoStrings: [strings], [strconv].  Urls: [net/url]
      query strings.  Fs: [path/filepath] and [os] on a map from paths.
    - Counter ([fsstorage/counter.go]): the resourceVersion counter and its
      file; versions increase strictly across failures, crashes and restarts.
    - Watch ([fsstorage/watch.go]): ring, subscribers, channels, [publish],
      [deliver], replay, [Stop]; the self-deadlock of a full subscriber and the
      panic of a closed one.
    - Keys ([fsstorage/store.go], [apiserver/storage.go]): keys and paths.
    - Store ([fsstorage/store.go]): [create], [get], [delete_obj],
      [guaranteed_update], [get_list], [count], [watch] on [world].
      StoreFacts: the layout of a data directory.  StoreSpec: the abstract
      state (objects, version, log of events), the operations on it, the
      relation [R] and the refinement of each operation.  StoreList: lists and
      counts.  ListHelpers ([fsstorage/list.go]): the list object a list fills,
      by reflection.  StoreRuns: runs of requests and consumers.  StoreWatch: opening
      a watch, and list-then-watch.  Samples, StoreSamples: concrete states
      and the witnesses.
    - Writers: the atomic sections of the requests that write, [prepare] and
      [phase_step], and that they compose to the operations of Store.
      Interleave: interleavings of any number of writers as a step relation,
      and its invariant.  Races: what the invariant gives, and what breaks.
      ListRaces: a list whose system calls fall between their sections.
      RaceSamples, ListRaceSamples: concrete interleavings.
    - Translate ([kubelet/translate.go]): container names, labels, pull
      policies, specifications, Pod status.  Projection
      ([kubelet/projection.go]): environments and volumes.
    - Docker ([kubelet/docker.go]): the interface [DockerRuntime], its promise
      [RuntimeLaws], the implementation [dockerRT] and the proof that it keeps
      the promise ([rt_laws]).
    - Reconciler ([kubelet/reconciler.go], [kubelet/events.go]): the handlers,
      on [rstate].  ReconcilerFacts: safety and convergence of
      [reconcile_pod].  ReconcilerReap: the reapers.  ReconcilerEnd:
      termination, reported failures, event names.  KubeRaces: the worker, the
      reaper and the handlers interleaved at the daemon.  KubeReturns: that a
      reconciliation returns, and what it leaves alone.  Worker: the loop over
      the queue, and [Run] around it.  Their theorems are proved against
      [RuntimeLaws], not against Docker.
    - Lifecycle ([run] of [cmd/kubelet-lite], [Run] of [kubelet/logs.go] and of
      [kubelet/reconciler.go]): the goroutines of the kubelet's process.
    - Logs ([kubelet/logs.go], [Logs] of [kubelet/docker.go],
      [apiserver/podlogs.go]): options, proxy, endpoint, byte limit.  Streams:
      the same request as four parties that pass the bytes on, step by step.
    - Strategy ([apiserver/strategy.go]): the REST strategies and their
      interface.  Deletion: a DELETE of a Pod through the strategy and the
      kubelet.  DeletionSamples: its witness.
    - Tables ([apiserver/tables.go]): the tables kubectl prints, ages in float64.
    - Fields ([apiserver/fields.go], [getAttrs] of [apiserver.go]): selectable
      fields.
    - Apiserver ([apiserver/apiserver.go], [storage.go]): options, the five
      stores over one directory and one counter, the storages of /api/v1, the
      OpenAPI definitions ([openapi.go]), [Build], [WaitForReady].  ApiSamples:
      its witnesses.
    - Pki ([pki/pki.go]): certificates and the kubeconfig.  PkiSamples: a
      certificate library that satisfies the laws, and the witnesses.
    - Commands ([cmd/apiserver], [cmd/kubelet-lite]): what [run] of each command
      prepares, and whom the kubeconfig trusts.  CommandSamples: its witness.
    - KubeSamples, KubeRaceSamples, WorkerSamples: a concrete daemon, API client
      and queue, the kubelet's witnesses.

    ** What the theorems show

    Storage: each operation does what the abstract one does, on every branch;
    a run of requests publishes exactly its changes as events; a consumer that
    lists and then watches, while the ring still covers the list's version and
    at most 100 selected events wait, sees every later change it selects, once
    and in order; one that selects a whole collection reconstructs the objects
    stored there, and for any other it takes the events it does not select too;
    versions are never reused.
    Writers on different keys interleave as they like: versions stay distinct,
    the events of an object stay in order, no update is lost, all writers
    finish, and at rest the files agree with the events; a list taken among them
    with the events since its start is what is stored in the end; the stores of all
    resources start in the state these theorems assume and share one sequence
    of versions.
    Kubelet: reconciling adds only the Pod's containers, in order, and
    converges; the calls of a termination are given exactly, stops in reverse and
    the deletion last, none of it after an inspection that failed; reaping removes
    exactly what it should; volumes and environments are exact; worker and
    reaper touch only containers of their own whatever happens between their
    calls, and what a late start leaves behind the next reap removes.  From its
    start the kubelet gives every healthy Pod its containers and removes those of
    Pods that are gone; its worker stops when the queue is shut down; the process
    ends after a signal or a failed server, with the status the failure gives.
    A DELETE through the API server stops the Pod with its own grace period and
    then removes it.  Logs: the proxy is transparent, the limit exact, the
    container the Pod's own; whatever the schedule the client has a prefix of the
    log, all of it if nothing fails, and no party is left waiting.
    Commands: the kubeconfig trusts the CA of the serving certificate.
    Tables are well typed and show what the kubelet reported; the fields that
    can be selected are the fields published; certificates are made once,
    and asked for again within their validity they are left as they are.
    Some theorems state a defect: a full subscriber blocks [publish] for ever
    and a closed one makes it panic (Watch); the snapshot of a watch is not
    filtered, a watch after a restart misses events without an error, and a
    watch of one cluster-scoped object selects nothing (StoreWatch); a list
    taken while a write is under way makes the watch after it miss the write,
    and events of two keys can be published out of order (Races, RaceSamples);
    a version another resource took counts as a lost event (Apiserver); a
    failure after a recovery is not reported (ReconcilerEnd); the process ends
    while its worker may be at work, and a signal before the sync leaves the
    exit status to the scheduler (Lifecycle).

    ** Bounds and fuel

    uint64 and int64 wrap where the source's do.  The walk of a directory has
    fuel for the longest path, which is enough ([StoreList.walk_visits]), and
    that of a list among writers for the depth no writer exceeds; the
    printers have fuel for the digits of 64 bits, and [wait_for_ready] for the
    turns its timeout allows.  A writer has at most three sections after it has
    its lock ([Writers.rank]).  The loop of the worker has fuel for one turn more
    than the keys queued when the queue is shut down (Worker).  A
    run of the kubelet's process awaits at most nine events of main, the log
    server and the reconciler ([Lifecycle.rank]); a log request takes at most
    [Streams.cost] steps.

    ** What is not modelled

    The goroutines of the kubelet interleave between the calls of the container
    runtime, each of which is one step, and not inside them; in Lifecycle a whole
    reconciliation is one step.  A list among writers is interleaved with them
    call by call (ListRaces), a watch is opened in one step (Races).  A log is a
    finite stream, and the connections of its request take what is written to
    them: a client that stops reading without closing is not in Streams.
    Lifecycle begins at the go statements of [run]; what [run] prepares and how
    that fails is in Commands.
    Not modelled at all: HTTP itself and its routing, TLS, the flags of the
    commands, the generic server, file modes. *)

From stdpp Require Export base gmap strings list fin_maps sorting.
From Stdlib Require Export ZArith NArith Ascii Lia.

#[global] Open Scope string_scope.
#[global] Open Scope list_scope.
#[global] Arguments String.append : simpl nomatch.

(** ** Go errors

    An [error] value is the constructor of the call that makes it, carrying
    the arguments of the format string; [ErrExt] is an error returned by a
    package outside the repository. *)

Inductive err :=
  | ErrNotExist                              (* os.ErrNotExist *)
  | ErrIO (op : string)                      (* any other *fs.PathError *)
  | ErrSyntax                                (* strconv.ErrSyntax *)
  | ErrRange                                 (* strconv.ErrRange *)
  | ErrInvalidKey (key : string)             (* "invalid key: %q" *)
  | ErrTooManySegments (key : string)        (* "invalid key %q: too many segments" *)
  | ErrNameRequired (op key : string)        (* "fsstorage: %s requires a name in key %q" *)
  | ErrKeyExists (key : string) (rv : N)     (* storage.NewKeyExistsError *)
  | ErrKeyNotFound (key : string) (rv : N)   (* storage.NewKeyNotFoundError *)
  | ErrBadRequest (cause : err)              (* apierrors.NewBadRequest *)
  | ErrExpired (asked current : N)           (* apierrors.NewResourceExpired *)
  | ErrText (msg : string)                   (* fmt.Errorf / errors.New *)
  | ErrWrap (what : string) (cause : err)    (* fmt.Errorf("...: %w", cause) *)
  | ErrExt (code : string).

#[export] Instance err_eq_dec : EqDecision err.
Proof. solve_decision. Defined.

Inductive res (A : Type) :=
  | Ok (a : A)
  | Err (e : err).
Arguments Ok {A} a.
Arguments Err {A} e.

#[export] Instance res_eq_dec {A} `{EqDecision A} : EqDecision (res A).
Proof. solve_decision. Defined.

Definition is_ok {A} (r : res A) : bool :=
  match r with Ok _ => true | Err _ => false end.

(** [errors.Is(err, os.ErrNotExist)]: [%w] keeps the chain. *)
Fixpoint is_not_exist (e : err) : bool :=
  match e with
  | ErrNotExist => true
  | ErrWrap _ e' => is_not_exist e'
  | _ => false
  end.

(** ** The effect monad

    A statement of the program takes the shared state to the state it leaves
    and an outcome.  [Panicked] is a Go panic, [Deadlocked] a goroutine
    blocked for ever on a lock it holds itself, [Crashed] the death of the
    process between two system calls, [OutOfFuel] the end of the fuel of a
    recursion that the source does not bound syntactically. *)

Inductive stuck := Panicked | Deadlocked | Crashed | OutOfFuel.

Inductive outcome (A : Type) :=
  | Val (a : A)
  | Stuck (k : stuck).
Arguments Val {A} a.
Arguments Stuck {A} k.

Definition M (S A : Type) : Type := S → S * outcome A.

Definition ret {S A} (a : A) : M S A := λ s, (s, Val a).

Definition bind {S A B} (m : M S A) (f : A → M S B) : M S B := λ s,
  match m s with
  | (s', Val a) => f a s'
  | (s', Stuck k) => (s', Stuck k)
  end.

(** A statement whose last result is an [error]: a non-nil error returns. *)
Definition ebind {S A B} (m : M S (res A)) (f : A → M S (res B)) : M S (res B) :=
  bind m (λ r, match r with Ok a => f a | Err e => ret (Err e) end).

Definition fail {S A} (e : err) : M S (res A) := ret (Err e).
Definition ok {S A} (a : A) : M S (res A) := ret (Ok a).
Definition of_res {S A} (r : res A) : M S (res A) := ret r.
Definition stop_with {S A} (k : stuck) : M S A := λ s, (s, Stuck k).
Definition get_st {S} : M S S := λ s, (s, Val s).
Definition gets {S A} (f : S → A) : M S A := λ s, (s, Val (f s)).
Definition modify {S} (f : S → S) : M S unit := λ s, (f s, Val tt).

(** Run a component's code on its part of a larger state. *)
Definition zoom {S T A} (getT : S → T) (setT : T → S → S) (m : M T A) : M S A := λ s,
  let '(t, o) := m (getT s) in (setT t s, o).

(** [defer c()]: [c] runs on return and on panic, not when the goroutine is
    blocked or the process dies. *)
Definition deferred {S A} (c : S → S) (m : M S A) : M S A := λ s,
  match m s with
  | (s', Val a) => (c s', Val a)
  | (s', Stuck Panicked) => (c s', Stuck Panicked)
  | (s', Stuck k) => (s', Stuck k)
  end.

Declare Scope go_scope.
Delimit Scope go_scope with go.
#[global] Open Scope go_scope.

Notation "'let*' x ':=' c 'in' k" := (bind c (λ x, k))
  (at level 10, x name, c at level 100, k at level 200) : go_scope.
Notation "'let*' ' p ':=' c 'in' k" := (bind c (λ p, k))
  (at level 10, p strict pattern, c at level 100, k at level 200) : go_scope.
Notation "'let?' x ':=' c 'in' k" := (ebind c (λ x, k))
  (at level 10, x name, c at level 100, k at level 200) : go_scope.
Notation "'let?' ' p ':=' c 'in' k" := (ebind c (λ p, k))
  (at level 10, p strict pattern, c at level 100, k at level 200) : go_scope.
Notation "c1 ;;; c2" := (bind c1 (λ _, c2))
  (at level 199, right associativity) : go_scope.

(** [fmt.Errorf("what: %w", err)] around a call. *)
Definition wrap {S A} (what : string) (m : M S (res A)) : M S (res A) :=
  let* r := m in match r with Ok a => ok a | Err e => fail (ErrWrap what e) end.

(** ** Weakest preconditions *)

Definition wp {S A} (m : M S A) (Q : S → outcome A → Prop) (s : S) : Prop :=
  Q (m s).1 (m s).2.

Section wp_rules.
Context {S : Type}.

Lemma wp_ret {A} (a : A) Q (s : S) : Q s (Val a) → wp (ret a) Q s.
Proof. done. Qed.

Lemma wp_bind {A B} (m : M S A) (f : A → M S B) Q s :
  wp m (λ s' o, match o with Val a => wp (f a) Q s' | Stuck k => Q s' (Stuck k) end) s →
  wp (bind m f) Q s.
Proof. unfold wp, bind. by destruct (m s) as [s' [a|k]]. Qed.

Lemma wp_ebind {A B} (m : M S (res A)) (f : A → M S (res B)) Q s :
  wp m (λ s' o, match o with
                | Val (Ok a) => wp (f a) Q s'
                | Val (Err e) => Q s' (Val (Err e))
                | Stuck k => Q s' (Stuck k)
                end) s →
  wp (ebind m f) Q s.
Proof. unfold wp, ebind, bind. by destruct (m s) as [s' [[a|e]|k]]. Qed.

Lemma wp_mono {A} (m : M S A) (P Q : S → outcome A → Prop) s :
  (∀ s' o, P s' o → Q s' o) → wp m P s → wp m Q s.
Proof. unfold wp. auto. Qed.

Lemma wp_gets {A} (f : S → A) Q (s : S) : Q s (Val (f s)) → wp (gets f) Q s.
Proof. done. Qed.

Lemma wp_modify (f : S → S) Q (s : S) : Q (f s) (Val tt) → wp (modify f) Q s.
Proof. done. Qed.

Lemma wp_stop {A} k (Q : S → outcome A → Prop) s : Q s (Stuck k) → wp (stop_with k) Q s.
Proof. done. Qed.

Lemma wp_zoom {T A} (getT : S → T) setT (m : M T A) Q s :
  wp m (λ t o, Q (setT t s) o) (getT s) → wp (zoom getT setT m) Q s.
Proof. unfold wp, zoom. by destruct (m (getT s)). Qed.

Lemma wp_deferred {A} c (m : M S A) Q s :
  wp m (λ s' o, match o with
                | Val _ | Stuck Panicked => Q (c s') o
                | _ => Q s' o
                end) s →
  wp (deferred c m) Q s.
Proof. unfold wp, deferred. by destruct (m s) as [s' [a|[]]]. Qed.

Lemma wp_run {A} (m : M S A) Q s s' o : m s = (s', o) → wp m Q s → Q s' o.
Proof. unfold wp. by intros ->. Qed.

Lemma bind_val {A B} (m : M S A) (f : A → M S B) s s' a :
  m s = (s', Val a) → bind m f s = f a s'.
Proof. unfold bind. by intros ->. Qed.

Lemma bind_stuck {A B} (m : M S A) (f : A → M S B) s s' k :
  m s = (s', Stuck k) → bind m f s = (s', Stuck k).
Proof. unfold bind. by intros ->. Qed.

Lemma ebind_ok {A B} (m : M S (res A)) (f : A → M S (res B)) s s' a :
  m s = (s', Val (Ok a)) → ebind m f s = f a s'.
Proof. unfold ebind, bind. by intros ->. Qed.

Lemma ebind_err {A B} (m : M S (res A)) (f : A → M S (res B)) s s' e :
  m s = (s', Val (Err e)) → ebind m f s = (s', Val (Err e)).
Proof. unfold ebind, bind. by intros ->. Qed.

Lemma bind_assoc {A B C} (m : M S A) (f : A → M S B) (g : B → M S C) s :
  bind (bind m f) g s = bind m (λ a, bind (f a) g) s.
Proof. unfold bind. by destruct (m s) as [s' [a|k]]. Qed.

Lemma zoom_run {T A} (getT : S → T) setT (m : M T A) s t o :
  m (getT s) = (t, o) → zoom getT setT m s = (setT t s, o).
Proof. unfold zoom. by intros ->. Qed.

Lemma deferred_val {A} c (m : M S A) s s' a :
  m s = (s', Val a) → deferred c m s = (c s', Val a).
Proof. unfold deferred. by intros ->. Qed.
End wp_rules.

Create HintDb go.
Create Rewrite HintDb go.
#[export] Hint Resolve wp_ret wp_gets wp_modify wp_stop : go.
#[export] Hint Rewrite @bind_assoc : go.

(** One statement of a [wp] goal. *)
Ltac wp_step :=
  lazymatch goal with
  | |- wp (bind _ _) _ _ => apply wp_bind
  | |- wp (ebind _ _) _ _ => apply wp_ebind
  | |- wp (ret _) _ _ => apply wp_ret
  | |- wp (ok _) _ _ => apply wp_ret
  | |- wp (fail _) _ _ => apply wp_ret
  | |- wp (of_res _) _ _ => apply wp_ret
  | |- wp (gets _) _ _ => apply wp_gets
  | |- wp get_st _ _ => apply wp_gets
  | |- wp (modify _) _ _ => apply wp_modify
  | |- wp (stop_with _) _ _ => apply wp_stop
  | |- wp (zoom _ _ _) _ _ => apply wp_zoom
  | |- wp (deferred _ _) _ _ => apply wp_deferred
  end.

(** Rewrite the first statement of a run to its result, proved by [tac]. *)
Ltac run_ok tac :=
  first [ erewrite ebind_ok by tac | erewrite bind_val by tac ]; cbv beta iota zeta.

Ltac run_err tac := erewrite ebind_err by tac; cbv beta iota zeta.

Ltac wp_steps := repeat (wp_step; cbv beta iota).

(** [Forall P [x1; ...; xn]] by proving each [P xi]. *)
Ltac each tac := repeat (apply Forall_cons_2; [tac|]); apply Forall_nil_2.

(** ** What a whole computation does to the state

    [moves R m]: however [m] ends, it takes the state along [R].  [returns I m]:
    from a state with [I], [m] returns, and leaves a state with [I]. *)

Definition moves {S A} (R : relation S) (m : M S A) : Prop :=
  ∀ s, wp m (λ s' _, R s s') s.

Definition returns {S A} (I : S → Prop) (m : M S A) : Prop :=
  ∀ s, I s → wp m (λ s' o, I s' ∧ ∃ a, o = Val a) s.

Section whole.
Context {S : Type}.

Section moves.
Context (R : relation S) `{!PreOrder R}.

Lemma moves_pure {A} (m : M S A) : (∀ s, (m s).1 = s) → moves R m.
Proof. intros Hm s. unfold wp. by rewrite Hm. Qed.

Lemma moves_bind {A B} (m : M S A) (f : A → M S B) :
  moves R m → (∀ a, moves R (f a)) → moves R (bind m f).
Proof.
  intros Hm Hf s. apply wp_bind. eapply wp_mono; [|apply Hm]. intros s1 [a|k] Hs; [|done].
  eapply wp_mono; [|apply Hf]. simpl. intros s2 o Hs2. by etransitivity.
Qed.

Lemma moves_ebind {A B} (m : M S (res A)) (f : A → M S (res B)) :
  moves R m → (∀ a, moves R (f a)) → moves R (ebind m f).
Proof.
  intros Hm Hf. apply moves_bind; [done|]. intros [a|e]; [apply Hf|by apply moves_pure].
Qed.

Lemma moves_wrap {A} what (m : M S (res A)) : moves R m → moves R (wrap what m).
Proof. intros Hm. apply moves_bind; [done|]. intros [a|e]; by apply moves_pure. Qed.

Lemma moves_modify f : (∀ s, R s (f s)) → moves R (modify f).
Proof. intros Hf s. apply Hf. Qed.

Lemma moves_zoom {T A} (getT : S → T) setT (m : M T A) :
  (∀ s t, R s (setT t s)) → moves R (zoom getT setT m).
Proof. intros HR s. apply wp_zoom. unfold wp. by destruct (m (getT s)). Qed.
End moves.

Section returns.
Context (I : S → Prop).

Lemma returns_bind {A B} (m : M S A) (f : A → M S B) :
  returns I m → (∀ a, returns I (f a)) → returns I (bind m f).
Proof.
  intros Hm Hf s Hs. apply wp_bind. eapply wp_mono; [|by apply Hm]. simpl.
  intros s1 o [H1 [a ->]]. by apply Hf.
Qed.

Lemma returns_pure {A} (m : M S A) : (∀ s, ∃ a, m s = (s, Val a)) → returns I m.
Proof. intros Hm s Hs. unfold wp. destruct (Hm s) as [a ->]. eauto. Qed.

Lemma returns_ret {A} (a : A) : returns I (ret a).
Proof. apply returns_pure. eauto. Qed.

Lemma returns_ebind {A B} (m : M S (res A)) (f : A → M S (res B)) :
  returns I m → (∀ a, returns I (f a)) → returns I (ebind m f).
Proof. intros Hm Hf. apply returns_bind; [done|]. intros [a|e]; [apply Hf|apply returns_ret]. Qed.

Lemma returns_wrap {A} what (m : M S (res A)) : returns I m → returns I (wrap what m).
Proof. intros Hm. apply returns_bind; [done|]. intros [a|e]; apply returns_ret. Qed.

Lemma returns_modify f : (∀ s, I s → I (f s)) → returns I (modify f).
Proof. intros Hf s Hs. split; [by apply Hf|eauto]. Qed.

Lemma returns_zoom {T A} (J : T → Prop) (getT : S → T) setT (m : M T A) :
  (∀ s, I s → J (getT s)) → (∀ s t, I s → J t → I (setT t s)) →
  returns J m → returns I (zoom getT setT m).
Proof.
  intros Hg Hset Hm s Hs. apply wp_zoom. eapply wp_mono; [|by apply Hm, Hg]. simpl. naive_solver.
Qed.

Lemma returns_run {A} (m : M S A) s : returns I m → I s → ∃ s' a, m s = (s', Val a) ∧ I s'.
Proof.
  intros Hm Hs. specialize (Hm s Hs). unfold wp in Hm. destruct (m s) as [s' o].
  destruct Hm as (HI & a & E). simpl in *. subst o. eauto.
Qed.
End returns.

(** A run, and what the computation does to the state. *)
Lemma moves_run {A} R (m : M S A) s s' o : moves R m → m s = (s', o) → R s s'.
Proof. intros Hm E. specialize (Hm s). unfold wp in Hm. by rewrite E in Hm. Qed.
End whole.

#[export] Hint Resolve returns_ret : go.

(** Take the statements of a [moves] or [returns] goal apart; [tac] closes the
    calls. *)
Ltac whole_steps tac :=
  repeat first
    [ solve [tac]
    | apply returns_bind; [|intros ?]
    | apply returns_ebind; [|intros ?]
    | apply returns_wrap
    | apply returns_ret
    | apply moves_bind; [exact _| |intros ?]
    | apply moves_ebind; [exact _| |intros ?]
    | apply moves_wrap; [exact _|]
    | match goal with
      | |- returns _ (match ?x with _ => _ end) => destruct x
      | |- returns _ (if ?b then _ else _) => destruct b
      | |- moves _ (match ?x with _ => _ end) => destruct x
      | |- moves _ (if ?b then _ else _) => destruct b
      end
    | apply returns_pure; by eauto
    | apply moves_pure; [exact _|done] ].

(** ** A run that succeeds, taken apart *)

Section inversion.
Context {S : Type}.

Lemma bind_inv {A B} (m : M S A) (f : A → M S B) s s' b : bind m f s = (s', Val b) →
  ∃ s1 a, m s = (s1, Val a) ∧ f a s1 = (s', Val b).
Proof. unfold bind. destruct (m s) as [s1 [a|k]]; [eauto|done]. Qed.

Lemma ebind_inv {A B} (m : M S (res A)) (f : A → M S (res B)) s s' b :
  ebind m f s = (s', Val (Ok b)) →
  ∃ s1 a, m s = (s1, Val (Ok a)) ∧ f a s1 = (s', Val (Ok b)).
Proof. unfold ebind. intros (s1 & [a|e] & E & E')%bind_inv; [eauto|done]. Qed.

Lemma wrap_inv {A} what (m : M S (res A)) s s' a : wrap what m s = (s', Val (Ok a)) →
  m s = (s', Val (Ok a)).
Proof. unfold wrap. intros (s1 & [b|e] & E & E')%bind_inv; [|done]. by injection E' as <- <-. Qed.

Lemma zoom_inv {T A} (getT : S → T) setT (m : M T A) s s' o : zoom getT setT m s = (s', o) →
  ∃ t, m (getT s) = (t, o) ∧ s' = setT t s.
Proof. unfold zoom. destruct (m (getT s)) as [t o']. intros [= <- <-]. eauto. Qed.
End inversion.

(** A [time.Duration] is in nanoseconds. *)
Definition second : Z := 1000000000.

(** ** Lists *)

#[export] Instance filter_perm {A} (P : A → bool) : Proper ((≡ₚ) ==> (≡ₚ)) (List.filter P).
Proof.
  intros l l' Hp. induction Hp as [|x l l' Hp IH|x y l|l l1 l2 H1 IH1 H2 IH2]; simpl.
  - done.
  - by destruct (P x); rewrite IH.
  - destruct (P x), (P y); try done. by constructor.
  - by rewrite IH1.
Qed.

Lemma exists_cons {A} (P : A → Prop) e0 es :
  (∃ e, e ∈ e0 :: es ∧ P e) ↔ P e0 ∨ ∃ e, e ∈ es ∧ P e.
Proof.
  split.
  - intros (e & [->|Hin]%elem_of_cons & He); [by left|right; eauto].
  - intros [He|(e & Hin & He)]; [exists e0|exists e]; (split; [|done]); by constructor.
Qed.

Lemma elem_of_rev {A} (x : A) l : x ∈ rev l ↔ x ∈ l.
Proof. by rewrite !list_elem_of_In, <- List.in_rev. Qed.

Lemma NoDup_rev {A} (l : list A) : NoDup l → NoDup (rev l).
Proof. rewrite List.rev_alt. change (NoDup l → NoDup (reverse l)). by rewrite reverse_Permutation. Qed.

(** ** uint64 *)

Definition max_u64 : N := 18446744073709551615.
Definition u64 (n : N) : N := (n mod 18446744073709551616)%N.
Definition u64_inc (n : N) : N := u64 (n + 1).
Definition u64_dec (n : N) : N := u64 (n + max_u64).

Lemma u64_small n : (n <= max_u64)%N → u64 n = n.
Proof. unfold u64, max_u64. intros. apply N.mod_small. lia. Qed.

Lemma u64_bound n : (u64 n <= max_u64)%N.
Proof. unfold u64, max_u64. pose proof (N.mod_lt n 18446744073709551616). lia. Qed.

Lemma u64_inc_dec n : (n <= max_u64)%N → u64_dec (u64_inc n) = n.
Proof.
  unfold u64_dec, u64_inc, u64, max_u64. intros H.
  destruct (decide (n = 18446744073709551615%N)) as [->|]; [done|].
  rewrite (N.mod_small (n + 1)) by lia.
  replace (n + 1 + 18446744073709551615)%N with (n + 1 * 18446744073709551616)%N by lia.
  rewrite N.Div0.mod_add. apply N.mod_small. lia.
Qed.

Lemma u64_inc_small n : (n < max_u64)%N → u64_inc n = (n + 1)%N.
Proof. intros. apply u64_small. lia. Qed.

#[export] Hint Rewrite u64_inc_small u64_small using lia : go.
