(* ===== verification/GoStrings.v ===== *)
(** * The parts of Go's [strings], [strconv] and [unicode] the program uses

    Strings are byte strings.  Everything here is executable; the lemmas at
    the end of each section are the ones the components need. *)

From S2P Require Import Prelude.

Definition slash : ascii := "/"%char.

(** ** [strings.Split], [strings.Join], [strings.Trim], prefixes, suffixes *)

(** [strings.Split(s, sep)] for a separator of one byte. *)
Fixpoint split (sep : ascii) (s : string) : list string :=
  match s with
  | "" => [""]
  | String c s' =>
      if Ascii.eqb c sep then "" :: split sep s'
      else match split sep s' with
           | h :: t => String c h :: t
           | [] => [String c ""]
           end
  end.

(** [strings.Join(l, sep)] for a separator of one byte. *)
Fixpoint join (sep : ascii) (l : list string) : string :=
  match l with
  | [] => ""
  | [x] => x
  | x :: l' => x +:+ String sep (join sep l')
  end.

(** [strings.TrimLeft] and [strings.TrimRight] for a cutset of one byte. *)
Fixpoint trim_left (c : ascii) (s : string) : string :=
  match s with
  | String a s' => if Ascii.eqb a c then trim_left c s' else s
  | "" => ""
  end.

Fixpoint trim_right (c : ascii) (s : string) : string :=
  match s with
  | "" => ""
  | String a s' =>
      match trim_right c s' with
      | "" => if Ascii.eqb a c then "" else String a ""
      | r => String a r
      end
  end.

(** [strings.Trim(s, c)]. *)
Definition trim (c : ascii) (s : string) : string := trim_right c (trim_left c s).

Fixpoint has_prefix (p s : string) : bool :=
  match p, s with
  | "", _ => true
  | String a p', String b s' => Ascii.eqb a b && has_prefix p' s'
  | _, "" => false
  end.

Fixpoint str_drop (n : nat) (s : string) : string :=
  match n, s with
  | 0, _ => s
  | S n', String _ s' => str_drop n' s'
  | S _, "" => ""
  end.

Definition has_suffix (p s : string) : bool :=
  (String.length p <=? String.length s)%nat &&
  String.eqb (str_drop (String.length s - String.length p) s) p.

(** [strings.TrimPrefix]. *)
Definition trim_prefix (p s : string) : string :=
  if has_prefix p s then str_drop (String.length p) s else s.

Fixpoint contains_byte (c : ascii) (s : string) : bool :=
  match s with
  | "" => false
  | String a s' => Ascii.eqb a c || contains_byte c s'
  end.

Lemma append_nil_r s : s +:+ "" = s.
Proof. induction s as [|a s IH]; simpl; congruence. Qed.

Lemma append_assoc s1 s2 s3 : (s1 +:+ s2) +:+ s3 = s1 +:+ (s2 +:+ s3).
Proof. induction s1 as [|a s IH]; simpl; congruence. Qed.

Lemma length_append s1 s2 :
  String.length (s1 +:+ s2) = (String.length s1 + String.length s2)%nat.
Proof. induction s1; simpl; lia. Qed.

Lemma append_inj_l s s1 s2 : s +:+ s1 = s +:+ s2 → s1 = s2.
Proof. induction s; simpl; [done|]. intros [=]. auto. Qed.

Lemma append_inj_r s1 s2 s : s1 +:+ s = s2 +:+ s → s1 = s2.
Proof.
  revert s2. induction s1 as [|a s1 IH]; intros [|b s2] H; simpl in *; [done| | |].
  - apply (f_equal String.length) in H. rewrite ?length_append in H. simpl in H.
    rewrite ?length_append in H. lia.
  - apply (f_equal String.length) in H. rewrite ?length_append in H. simpl in H.
    rewrite ?length_append in H. lia.
  - injection H as -> H. by rewrite (IH s2 H).
Qed.

Lemma str_drop_append s1 s2 : str_drop (String.length s1) (s1 +:+ s2) = s2.
Proof. by induction s1. Qed.

Lemma has_suffix_app s p : has_suffix p (s +:+ p) = true.
Proof.
  unfold has_suffix. rewrite length_append.
  replace (_ - _)%nat with (String.length s) by lia.
  rewrite str_drop_append, String.eqb_refl, andb_true_r. apply Nat.leb_le. lia.
Qed.

Lemma str_drop_take s n : (n <= String.length s)%nat →
  ∃ s1, s = s1 +:+ str_drop n s ∧ String.length s1 = n.
Proof.
  revert n. induction s as [|a s IH]; intros [|n] H; simpl in *; try lia.
  - by exists "".
  - by exists "".
  - destruct (IH n) as (s1 & E & L); [lia|]. exists (String a s1). simpl. by rewrite <- E, L.
Qed.

Lemma has_suffix_spec p s : has_suffix p s = true ↔ ∃ s1, s = s1 +:+ p.
Proof.
  split.
  - unfold has_suffix. intros [H1 H2]%andb_prop. apply Nat.leb_le in H1.
    apply String.eqb_eq in H2.
    destruct (str_drop_take s (String.length s - String.length p)) as (s1 & E & _); [lia|].
    exists s1. by rewrite H2 in E.
  - intros [s1 ->]. apply has_suffix_app.
Qed.

Lemma snoc_last s1 s2 a b : s1 +:+ String a "" = s2 +:+ String b "" → a = b.
Proof.
  revert s2. induction s1 as [|x s1 IH]; intros [|y s2] H; simpl in *; [congruence| | |].
  - by destruct s2.
  - by destruct s1.
  - injection H as _ H. by apply (IH s2).
Qed.

(** A string that ends in [a] has no suffix that ends in another byte. *)
Lemma has_suffix_last s t p a b :
  a ≠ b → has_suffix (p +:+ String b "") ((s +:+ t) +:+ String a "") = false.
Proof.
  intros Hab. apply not_true_iff_false. rewrite has_suffix_spec. intros [s1 E].
  rewrite <- append_assoc in E. by apply snoc_last in E.
Qed.

Lemma has_prefix_app p s : has_prefix p (p +:+ s) = true.
Proof. induction p; simpl; [done|]. by rewrite Ascii.eqb_refl. Qed.

Lemma trim_prefix_app p s : trim_prefix p (p +:+ s) = s.
Proof. unfold trim_prefix. by rewrite has_prefix_app, str_drop_append. Qed.

Lemma contains_byte_app c s1 s2 :
  contains_byte c (s1 +:+ s2) = contains_byte c s1 || contains_byte c s2.
Proof. induction s1 as [|a s1 IH]; simpl; [done|]. by rewrite IH, orb_assoc. Qed.

(** Splitting *)

Lemma split_nonempty c s : split c s ≠ [].
Proof.
  destruct s; simpl; [done|]. destruct (Ascii.eqb _ _); [done|]. by destruct (split c s).
Qed.

Lemma split_clean c s : contains_byte c s = false → split c s = [s].
Proof.
  induction s as [|a s IH]; simpl; [done|]. intros [-> H]%orb_false_elim. by rewrite IH.
Qed.

Lemma split_app c s1 s2 :
  contains_byte c s1 = false → split c (s1 +:+ String c s2) = s1 :: split c s2.
Proof.
  induction s1 as [|a s1 IH]; simpl.
  - by rewrite Ascii.eqb_refl.
  - intros [-> H]%orb_false_elim. by rewrite IH.
Qed.

Lemma split_join c l :
  l ≠ [] → Forall (λ s, contains_byte c s = false) l → split c (join c l) = l.
Proof.
  intros Hne Hl. induction Hl as [|x l Hx Hl IH]; [done|].
  destruct l as [|y l]; simpl in *.
  - by apply split_clean.
  - rewrite split_app by done. f_equal. by apply IH.
Qed.

Lemma join_split c s : join c (split c s) = s.
Proof.
  induction s as [|a s IH]; simpl; [done|].
  destruct (Ascii.eqb a c) eqn:E.
  - apply Ascii.eqb_eq in E as ->. simpl.
    destruct (split c s) eqn:Es; [by apply split_nonempty in Es|]. by rewrite IH.
  - destruct (split c s) as [|h t] eqn:Es; [by apply split_nonempty in Es|].
    destruct t; simpl in *; by rewrite <- IH.
Qed.

Lemma split_no_sep c s : Forall (λ x, contains_byte c x = false) (split c s).
Proof.
  induction s as [|a s IH]; simpl; [by repeat constructor|].
  destruct (Ascii.eqb a c) eqn:E; [by constructor|].
  destruct (split c s) as [|h t]; [constructor; [simpl; by rewrite E|done]|].
  inversion IH; subst. constructor; [simpl; by rewrite E|done].
Qed.

(** Trimming *)

Definition last_byte (s : string) : option ascii :=
  String.get (String.length s - 1) s.

Lemma trim_right_snoc c s a :
  trim_right c (s +:+ String a "") =
  if Ascii.eqb a c then trim_right c s else s +:+ String a "".
Proof.
  induction s as [|b s IH]; simpl.
  - by destruct (Ascii.eqb a c).
  - rewrite IH. destruct (Ascii.eqb a c); [done|]. by destruct s.
Qed.

Lemma trim_right_app c s s' :
  contains_byte c s' = false → s' ≠ "" → trim_right c (s +:+ s') = s +:+ s'.
Proof.
  intros H Hne. induction s as [|b s IH]; simpl.
  - clear Hne. induction s' as [|a s' IH]; simpl in *; [done|].
    apply orb_false_elim in H as [Ha H]. rewrite IH by done. rewrite Ha. by destruct s'.
  - rewrite IH. destruct (s +:+ s') eqn:E; [|done]. by destruct s, s'.
Qed.

Lemma trim_left_nop c a s : Ascii.eqb a c = false → trim_left c (String a s) = String a s.
Proof. simpl. by intros ->. Qed.

Lemma trim_left_slash c s : trim_left c (String c s) = trim_left c s.
Proof. simpl. by rewrite Ascii.eqb_refl. Qed.

Lemma trim_left_head c s a : contains_byte c s = false → s ≠ "" →
  trim_left c (s +:+ a) = s +:+ a.
Proof. destruct s as [|b s]; simpl; [done|]. by intros [-> _]%orb_false_elim. Qed.

(** ** [strconv.FormatUint], [strconv.ParseUint], [strconv.ParseInt] in base 10 *)

Definition digit (n : N) : ascii := ascii_of_N (48 + n).

Definition digit_val (c : ascii) : option N :=
  let n := N_of_ascii c in
  if ((48 <=? n) && (n <=? 57))%N then Some (n - 48)%N else None.

(** Twenty digits hold every uint64 ([10^20 > 2^64]). *)
Fixpoint format_go (fuel : nat) (n : N) (acc : string) : string :=
  match fuel with
  | O => acc
  | S fuel' =>
      if (n <? 10)%N then String (digit n) acc
      else format_go fuel' (n / 10) (String (digit (n mod 10)) acc)
  end.

Definition format_uint (n : N) : string := format_go 20 n "".

(** [strconv.FormatInt(i, 10)] on int64. *)
Definition format_int (z : Z) : string :=
  if (z <? 0)%Z then String "-" (format_uint (Z.to_N (- z)))
  else format_uint (Z.to_N z).

(** The loop of [strconv.ParseUint] for base 10 and 64 bits: the cutoff test
    comes before the multiplication, the wrap test after the addition. *)
Fixpoint parse_go (s : string) (n : N) : res N :=
  match s with
  | "" => Ok n
  | String c s' =>
      match digit_val c with
      | None => Err ErrSyntax
      | Some d =>
          if (1844674407370955162 <=? n)%N then Err ErrRange
          else let n1 := u64 (n * 10 + d) in
               if (n1 <? n * 10)%N then Err ErrRange else parse_go s' n1
      end
  end.

Definition parse_uint (s : string) : res N :=
  match s with "" => Err ErrSyntax | _ => parse_go s 0 end.

(** [strconv.ParseInt(s, 10, 64)]. *)
Definition parse_int (s : string) : res Z :=
  let '(neg, t) :=
    match s with
    | String "+" t => (false, t)
    | String "-" t => (true, t)
    | _ => (false, s)
    end in
  match s with
  | "" => Err ErrSyntax
  | _ =>
      match parse_uint t with
      | Err e => Err e
      | Ok un =>
          if negb neg && (9223372036854775808 <=? un)%N then Err ErrRange
          else if neg && (9223372036854775808 <? un)%N then Err ErrRange
          else Ok (if neg then (- Z.of_N un)%Z else Z.of_N un)
      end
  end.

Lemma digit_val_digit d : (d < 10)%N → digit_val (digit d) = Some d.
Proof.
  intros H. unfold digit_val, digit. rewrite N_ascii_embedding by lia.
  destruct (48 <=? 48 + d)%N eqn:E1; [|apply N.leb_gt in E1; lia].
  destruct (48 + d <=? 57)%N eqn:E2; [|apply N.leb_gt in E2; lia].
  simpl. f_equal. lia.
Qed.

Lemma parse_go_digit d s n :
  (d < 10)%N → (n * 10 + d <= max_u64)%N →
  parse_go (String (digit d) s) n = parse_go s (n * 10 + d).
Proof.
  intros Hd Hn. unfold max_u64 in Hn. simpl. rewrite digit_val_digit by done.
  destruct (_ <=? _)%N eqn:E; [apply N.leb_le in E; lia|].
  rewrite u64_small by (unfold max_u64; lia).
  destruct (_ <? _)%N eqn:E'; [apply N.ltb_lt in E'; lia|done].
Qed.

Lemma parse_format_go fuel n acc :
  (n < 10 ^ N.of_nat fuel)%N → (n <= max_u64)%N →
  parse_go (format_go fuel n acc) 0 = parse_go acc n.
Proof.
  revert n acc. induction fuel as [|fuel IH]; intros n acc Hf Hn.
  - simpl in Hf. by replace n with 0%N by lia.
  - cbn [format_go]. destruct (n <? 10)%N eqn:E.
    + apply N.ltb_lt in E. by rewrite parse_go_digit by lia.
    + apply N.ltb_ge in E.
      pose proof (N.div_mod' n 10). pose proof (N.mod_lt n 10 ltac:(done)).
      assert (n / 10 <= n)%N by (apply N.Div0.div_le_upper_bound; lia).
      rewrite IH; [|apply N.Div0.div_lt_upper_bound|lia].
      * rewrite parse_go_digit by lia. f_equal. lia.
      * rewrite Nat2N.inj_succ, N.pow_succ_r' in Hf. lia.
Qed.

Lemma format_go_nonempty fuel n acc : fuel ≠ O ∨ acc ≠ "" → format_go fuel n acc ≠ "".
Proof.
  revert n acc. induction fuel as [|fuel IH]; simpl; intros n acc [H|H]; try done;
    destruct (n <? 10)%N; try done; apply IH; by right.
Qed.

Lemma parse_uint_nonempty s : s ≠ "" → parse_uint s = parse_go s 0.
Proof. by destruct s. Qed.

Lemma parse_format_uint n : (n <= max_u64)%N → parse_uint (format_uint n) = Ok n.
Proof.
  intros H. unfold format_uint.
  rewrite parse_uint_nonempty by (apply format_go_nonempty; by left).
  rewrite parse_format_go; [done|unfold max_u64 in *; simpl; lia|done].
Qed.

Lemma parse_go_bound s n v : (n <= max_u64)%N → parse_go s n = Ok v → (v <= max_u64)%N.
Proof.
  revert n. induction s as [|c s IH]; simpl; intros n Hn H; [by injection H as <-|].
  destruct (digit_val c); [|done]. repeat case_match; try done.
  eapply IH; [|done]. apply u64_bound.
Qed.

Lemma parse_uint_bound s v : parse_uint s = Ok v → (v <= max_u64)%N.
Proof.
  destruct s; [done|]. apply parse_go_bound. unfold max_u64; lia.
Qed.

(** A string of decimal digits. *)
Fixpoint all_digits (s : string) : bool :=
  match s with
  | "" => true
  | String c s' => match digit_val c with Some _ => all_digits s' | None => false end
  end.

Lemma all_digits_format_go fuel n acc :
  all_digits acc = true → all_digits (format_go fuel n acc) = true.
Proof.
  revert n acc. induction fuel as [|fuel IH]; intros n acc H; [done|]. cbn [format_go].
  destruct (n <? 10)%N eqn:E.
  - simpl. rewrite digit_val_digit by (apply N.ltb_lt; done). done.
  - apply IH. simpl. rewrite digit_val_digit; [done|apply N.mod_lt; lia].
Qed.

Lemma all_digits_format n : all_digits (format_uint n) = true.
Proof. by apply all_digits_format_go. Qed.

(** ** [strings.TrimSpace] and [strconv.ParseBool] *)

(** The UTF-8 encodings of the code points of [unicode.IsSpace]. *)
Definition byte_str (l : list N) : string :=
  fold_right (λ n s, String (ascii_of_N n) s) "" l.

Definition spaces : list string :=
  Eval vm_compute in map byte_str
    ([[9]; [10]; [11]; [12]; [13]; [32]; [194; 133]; [194; 160]; [225; 154; 128];
      [226; 128; 168]; [226; 128; 169]; [226; 128; 175]; [226; 129; 159]; [227; 128; 128]] ++
     map (λ k, [226; 128; 128 + k]) [0; 1; 2; 3; 4; 5; 6; 7; 8; 9; 10])%N.

Definition strip_any_prefix (s : string) : option string :=
  match List.find (λ p, has_prefix p s) spaces with
  | Some p => Some (str_drop (String.length p) s)
  | None => None
  end.

Definition str_take (n : nat) (s : string) : string := String.substring 0 n s.

Definition strip_any_suffix (s : string) : option string :=
  match List.find (λ p, has_suffix p s) spaces with
  | Some p => Some (str_take (String.length s - String.length p) s)
  | None => None
  end.

(** Each round removes at least one byte, so the length is enough fuel. *)
Fixpoint strip_all (strip : string → option string) (fuel : nat) (s : string) : string :=
  match fuel with
  | O => s
  | S fuel' => match strip s with Some s' => strip_all strip fuel' s' | None => s end
  end.

Definition trim_space (s : string) : string :=
  let s1 := strip_all strip_any_prefix (String.length s) s in
  strip_all strip_any_suffix (String.length s1) s1.

Definition parse_bool (s : string) : res bool :=
  if existsb (String.eqb s) ["1"; "t"; "T"; "true"; "TRUE"; "True"] then Ok true
  else if existsb (String.eqb s) ["0"; "f"; "F"; "false"; "FALSE"; "False"] then Ok false
  else Err ErrSyntax.

Example trim_space_ex : trim_space (String "010" " 42 " +:+ String "010" "") = "42".
Proof. reflexivity. Qed.

Lemma has_prefix_contains c p s :
  contains_byte c p = true → has_prefix p s = true → contains_byte c s = true.
Proof.
  revert s. induction p as [|a p IH]; intros [|b s]; simpl; try done.
  intros H [E%Ascii.eqb_eq Hp]%andb_prop. subst b.
  apply orb_true_iff in H as [->|H]; [done|]. by rewrite (IH s H Hp), orb_true_r.
Qed.

Lemma all_digits_no_byte c s :
  digit_val c = None → all_digits s = true → contains_byte c s = false.
Proof.
  intros Hc. induction s as [|a s IH]; simpl; [done|].
  destruct (digit_val a) eqn:E; [|done]. intros H. rewrite (IH H), orb_false_r.
  destruct (Ascii.eqb a c) eqn:Ea; [|done]. apply Ascii.eqb_eq in Ea. congruence.
Qed.

(** Every encoding of a space has a byte that is not a digit. *)
Definition non_digit (p : string) : option ascii :=
  match p with String c _ => match digit_val c with None => Some c | _ => None end | _ => None end.

Lemma spaces_non_digit :
  Forall (λ p, ∃ c, digit_val c = None ∧ contains_byte c p = true) spaces.
Proof.
  repeat (apply Forall_cons; split;
    [match goal with |- ∃ c, _ ∧ contains_byte c (String ?a _) = true => by exists a end|]).
  apply Forall_nil_2.
Qed.

Lemma find_space_digits (f : string → string → bool) s :
  (∀ c p, contains_byte c p = true → f p s = true → contains_byte c s = true) →
  all_digits s = true → List.find (λ p, f p s) spaces = None.
Proof.
  intros Hf Hs. destruct (List.find _ _) as [p|] eqn:E; [|done].
  apply List.find_some in E as [Hin Hp].
  pose proof spaces_non_digit as Hall. rewrite List.Forall_forall in Hall.
  destruct (Hall p Hin) as (c & Hc & Hcp).
  pose proof (Hf c p Hcp Hp) as H. by rewrite (all_digits_no_byte c s Hc Hs) in H.
Qed.

Lemma strip_all_none strip fuel s : strip s = None → strip_all strip fuel s = s.
Proof. destruct fuel; simpl; [done|]. by intros ->. Qed.

Lemma trim_space_digits s : all_digits s = true → trim_space s = s.
Proof.
  intros H. unfold trim_space. rewrite !strip_all_none; [done| |].
  - unfold strip_any_prefix. rewrite find_space_digits; [done| |done].
    intros c p. apply has_prefix_contains.
  - rewrite strip_all_none.
    + unfold strip_any_suffix. rewrite find_space_digits; [done| |done].
      intros c p Hc [s1 ->]%has_suffix_spec. by rewrite contains_byte_app, Hc, orb_true_r.
    + unfold strip_any_prefix. rewrite find_space_digits; [done| |done].
      intros c p. apply has_prefix_contains.
Qed.

(** The texts that a formatted counter round-trips through. *)
Lemma parse_trim_format n :
  (n <= max_u64)%N → parse_uint (trim_space (format_uint n)) = Ok n.
Proof.
  intros H. rewrite trim_space_digits by apply all_digits_format. by apply parse_format_uint.
Qed.

Lemma trim_format_nonempty n : trim_space (format_uint n) ≠ "".
Proof.
  rewrite trim_space_digits by apply all_digits_format.
  apply format_go_nonempty. by left.
Qed.

(** ** int64 *)

Definition is_int64 (z : Z) : Prop := (-9223372036854775808 <= z < 9223372036854775808)%Z.

Lemma parse_int_bound s z : parse_int s = Ok z → is_int64 z.
Proof.
  unfold parse_int, is_int64. destruct s as [|c s]; [done|].
  match goal with |- context [let '(neg, t) := ?e in _] => destruct e as [neg t] end.
  destruct (parse_uint t) as [un|e]; [|done].
  destruct neg; simpl.
  - destruct (9223372036854775808 <? un)%N eqn:E; [done|]. apply N.ltb_ge in E. intros [= <-]. lia.
  - destruct (9223372036854775808 <=? un)%N eqn:E; [done|]. apply N.leb_gt in E. intros [= <-]. lia.
Qed.

(** The text of a natural number starts with a digit, not a sign. *)
Lemma format_uint_head n : ∃ c s, format_uint n = String c s ∧ is_Some (digit_val c).
Proof.
  pose proof (all_digits_format n) as Hd.
  assert (Hne : format_uint n ≠ "") by (apply format_go_nonempty; by left).
  destruct (format_uint n) as [|c s]; [done|]. exists c, s. split; [done|]. simpl in Hd.
  by destruct (digit_val c).
Qed.

Lemma parse_format_int z : is_int64 z → parse_int (format_int z) = Ok z.
Proof.
  intros Hz. unfold is_int64 in Hz. unfold format_int. destruct (Z.ltb_spec z 0) as [Hn|Hn].
  - unfold parse_int. rewrite parse_format_uint by (unfold max_u64; lia). simpl.
    destruct (9223372036854775808 <? Z.to_N (- z))%N eqn:E; [apply N.ltb_lt in E; lia|].
    f_equal. lia.
  - pose proof (parse_format_uint (Z.to_N z) ltac:(unfold max_u64; lia)) as Hp.
    destruct (format_uint_head (Z.to_N z)) as (c & s & E & Hc). rewrite E in *.
    assert (Hs : parse_int (String c s) = match parse_uint (String c s) with
                   | Err e => Err e
                   | Ok un => if (9223372036854775808 <=? un)%N then Err ErrRange else Ok (Z.of_N un)
                   end).
    { unfold parse_int. destruct c as [[] [] [] [] [] [] [] []]; try done; by destruct Hc. }
    rewrite Hs, Hp. destruct (9223372036854775808 <=? Z.to_N z)%N eqn:El; [apply N.leb_le in El; lia|].
    f_equal. lia.
Qed.
