(* ===== verification/Urls.v ===== *)
(** * Query strings ([net/url], as the source uses it)

    [url.Values] with [Encode] and [URL.Query]: the standard library's, as
    far as the log endpoint and its proxy use them, and their round trip. *)

From S2P Require Import Prelude GoStrings.

Abbreviation values := (gmap string (list string)).

Definition in_range (lo hi n : N) : bool := ((lo <=? n) && (n <=? hi))%N.

(** Letters, digits, and [- _ . ~]. *)
Definition unreserved (c : ascii) : bool :=
  let n := N_of_ascii c in
  in_range 48 57 n || in_range 65 90 n || in_range 97 122 n
  || Ascii.eqb c "-" || Ascii.eqb c "_" || Ascii.eqb c "." || Ascii.eqb c "~".

Definition upper_hex (n : N) : ascii :=
  if (n <? 10)%N then ascii_of_N (48 + n) else ascii_of_N (55 + n).

Definition unhex (c : ascii) : option N :=
  let n := N_of_ascii c in
  if in_range 48 57 n then Some (n - 48)%N
  else if in_range 65 70 n then Some (n - 55)%N
  else if in_range 97 102 n then Some (n - 87)%N
  else None.

Definition escape_char (c : ascii) (rest : string) : string :=
  if unreserved c then String c rest
  else if Ascii.eqb c " " then String "+" rest
  else String "%" (String (upper_hex (N_of_ascii c / 16)) (String (upper_hex (N_of_ascii c mod 16)) rest)).

(** [url.QueryEscape], [url.QueryUnescape]. *)
Fixpoint query_escape (s : string) : string :=
  match s with "" => "" | String c s' => escape_char c (query_escape s') end.

Fixpoint query_unescape (s : string) : option string :=
  match s with
  | "" => Some ""
  | String c s' =>
      if Ascii.eqb c "%" then
        match s' with
        | String a (String b s'') =>
            match unhex a, unhex b with
            | Some x, Some y => String (ascii_of_N (x * 16 + y)) <$> query_unescape s''
            | _, _ => None
            end
        | _ => None
        end
      else String (if Ascii.eqb c "+" then " "%char else c) <$> query_unescape s'
  end.

(** [strings.Cut] at the first occurrence of a byte. *)
Fixpoint cut (c : ascii) (s : string) : string * string :=
  match s with
  | "" => ("", "")
  | String a s' => if Ascii.eqb a c then ("", s') else let '(x, y) := cut c s' in (String a x, y)
  end.

Definition text_le (a b : string) : Prop := String.le a b.
#[export] Instance text_le_dec : RelDecision text_le.
Proof. intros a b. unfold text_le. apply _. Defined.

(** The pairs in the order [Encode] writes them. *)
Definition pairs_of (v : values) : list (string * string) :=
  List.concat (map (λ k, map (λ x, (k, x)) (default [] (v !! k))) (merge_sort text_le (map fst (map_to_list v)))).

Definition pair_text (kx : string * string) : string :=
  query_escape kx.1 +:+ "=" +:+ query_escape kx.2.

(** [Values.Encode]. *)
Definition encode (v : values) : string := join "&" (map pair_text (pairs_of v)).

(** One [key=value] of a query; a malformed one is skipped. *)
Definition parse_pair (t : string) : option (string * string) :=
  if contains_byte ";" t || String.eqb t "" then None
  else let '(k, x) := cut "=" t in
       match query_unescape k, query_unescape x with
       | Some k, Some x => Some (k, x)
       | _, _ => None
       end.

Definition add_pair (m : values) (kx : string * string) : values :=
  <[kx.1 := default [] (m !! kx.1) ++ [kx.2]]> m.

(** [URL.Query] of a raw query. *)
Definition query (s : string) : values := fold_left add_pair (omap parse_pair (split "&" s)) ∅.

(** ** The round trip *)

Lemma unescape_char c rest : query_unescape (escape_char c rest) = String c <$> query_unescape rest.
Proof. by destruct c as [[] [] [] [] [] [] [] []]. Qed.

Lemma unescape_escape s : query_unescape (query_escape s) = Some s.
Proof. induction s as [|c s IH]; [done|]. cbn [query_escape]. by rewrite unescape_char, IH. Qed.

(** The bytes that separate pairs, keys and values. *)
Definition separator (b : ascii) : Prop := b = "&"%char ∨ b = "="%char ∨ b = ";"%char.

Lemma escape_char_clean b c rest : separator b →
  contains_byte b (escape_char c rest) = contains_byte b rest.
Proof. intros [->|[->| ->]]; by destruct c as [[] [] [] [] [] [] [] []]. Qed.

Lemma escape_clean b s : separator b → contains_byte b (query_escape s) = false.
Proof.
  intros Hb. induction s as [|c s IH]; [done|]. cbn [query_escape]. by rewrite escape_char_clean.
Qed.

Lemma cut_app c s t : contains_byte c s = false → cut c (s +:+ String c t) = (s, t).
Proof.
  induction s as [|a s IH]; simpl; [by rewrite Ascii.eqb_refl|]. intros [-> Hs]%orb_false_iff.
  by rewrite IH.
Qed.

Lemma pair_text_clean b kx : b = "&"%char ∨ b = ";"%char → contains_byte b (pair_text kx) = false.
Proof.
  intros Hb. assert (Hs : separator b) by (unfold separator; tauto). unfold pair_text.
  rewrite !contains_byte_app, !escape_clean by done. by destruct Hb as [->| ->].
Qed.

Lemma parse_pair_text kx : parse_pair (pair_text kx) = Some kx.
Proof.
  unfold parse_pair. rewrite pair_text_clean by by right.
  assert (Hne : String.eqb (pair_text kx) "" = false).
  { apply String.eqb_neq. unfold pair_text. by destruct (query_escape kx.1). }
  rewrite Hne. simpl. unfold pair_text. change ("=" +:+ query_escape kx.2) with (String "=" (query_escape kx.2)).
  rewrite cut_app by (apply escape_clean; unfold separator; tauto).
  rewrite !unescape_escape. by destruct kx.
Qed.

Lemma split_pairs l : omap parse_pair (split "&" (join "&" (map pair_text l))) = l.
Proof.
  destruct l as [|kx l]; [done|]. rewrite split_join; [|done|].
  2:{ apply Forall_fmap, Forall_true. intros x. simpl. apply pair_text_clean. by left. }
  induction (kx :: l) as [|x xs IH]; [done|]. cbn [map omap list_omap]. by rewrite parse_pair_text, IH.
Qed.

(** What a list of pairs holds under a key. *)
Definition under (k : string) (l : list (string * string)) : list string :=
  map snd (List.filter (λ kx, String.eqb kx.1 k) l).

Lemma add_pairs l m k : fold_left add_pair l m !! k =
  match under k l with [] => m !! k | xs => Some (default [] (m !! k) ++ xs) end.
Proof.
  revert m. induction l as [|[j x] l IH]; intros m; [done|]. cbn [fold_left]. rewrite IH.
  unfold under. cbn [List.filter fst]. unfold add_pair. cbn [fst snd].
  destruct (String.eqb_spec j k) as [->|Hj].
  - rewrite lookup_insert_eq. cbn [map snd]. destruct (map snd (List.filter _ l)) as [|y ys]; [done|].
    f_equal. simpl. by rewrite <- app_assoc.
  - by rewrite lookup_insert_ne.
Qed.

Lemma under_app k l1 l2 : under k (l1 ++ l2) = under k l1 ++ under k l2.
Proof. unfold under. by rewrite List.filter_app, map_app. Qed.

Lemma under_same k xs : under k (map (λ x, (k, x)) xs) = xs.
Proof.
  induction xs as [|x xs IH]; [done|]. unfold under in *. simpl. rewrite String.eqb_refl. simpl. by rewrite IH.
Qed.

Lemma under_other k j xs : j ≠ k → under k (map (λ x, (j, x)) xs) = [].
Proof.
  intros Hj. induction xs as [|x xs IH]; [done|]. unfold under in *. simpl.
  by rewrite (proj2 (String.eqb_neq _ _)).
Qed.

Lemma under_concat (f : string → list string) ks k : NoDup ks →
  under k (List.concat (map (λ j, map (λ x, (j, x)) (f j)) ks)) = if decide (k ∈ ks) then f k else [].
Proof.
  induction ks as [|j ks IH]; intros Hnd; [by rewrite decide_False by apply not_elem_of_nil|].
  apply NoDup_cons in Hnd as [Hj Hnd]. cbn [map List.concat]. rewrite under_app, IH by done.
  destruct (decide (j = k)) as [->|Hne].
  - rewrite under_same, decide_False, decide_True by (done || by left). by rewrite app_nil_r.
  - rewrite under_other by done. simpl. apply decide_ext. rewrite elem_of_cons. naive_solver.
Qed.

(** Values with no empty list, as [Set] and [Add] make them. *)
Definition full (v : values) : Prop := ∀ k l, v !! k = Some l → l ≠ [].

Lemma query_encode v : full v → query (encode v) = v.
Proof.
  intros Hv. unfold query, encode. rewrite split_pairs. apply map_eq. intros k.
  rewrite add_pairs, lookup_empty. unfold pairs_of. rewrite under_concat.
  2:{ rewrite merge_sort_Permutation. apply NoDup_fst_map_to_list. }
  destruct (v !! k) as [l|] eqn:E.
  - rewrite decide_True. { simpl. pose proof (Hv k l E). by destruct l. }
    rewrite merge_sort_Permutation. apply list_elem_of_fmap. exists (k, l). split; [done|].
    by apply elem_of_map_to_list.
  - by case_decide.
Qed.
