(* ===== verification/Fs.v ===== *)
(** * Go's [path/filepath] and [os]: the file system the program runs on

    A path is kept lexically clean, as the list of its elements; an absolute
    path starts with the empty element.  [Join] cleans, as [filepath.Join]
    does.  A file system maps paths to files and directories and carries the
    outcomes of the system calls to come: each call succeeds, fails with an
    I/O error, or is where the process dies ([SysCrash]); an exhausted schedule
    means success.  A failing or interrupted write leaves a prefix of the
    data, of the length the schedule says. *)

From S2P Require Import Prelude GoStrings.

(** ** [path/filepath] *)

Abbreviation path := (list string).

(** The loop of [filepath.Clean] over the elements, output reversed. *)
Fixpoint clean_go (rooted : bool) (out : list string) (segs : list string) : list string :=
  match segs with
  | [] => rev out
  | s :: segs' =>
      if String.eqb s "" || String.eqb s "." then clean_go rooted out segs'
      else if String.eqb s ".." then
        match out with
        | o :: out' =>
            if String.eqb o ".." then clean_go rooted (".." :: out) segs'
            else clean_go rooted out' segs'
        | [] => if rooted then clean_go rooted [] segs' else clean_go rooted [".."] segs'
        end
      else clean_go rooted (s :: out) segs'
  end.

Definition clean (s : string) : path :=
  match s with
  | "" => []
  | String c _ =>
      if Ascii.eqb c slash then "" :: clean_go true [] (split slash s)
      else clean_go false [] (split slash s)
  end.

(** [filepath.Join(base, elems...)] where [base] is already a clean path. *)
Definition join_path (base : path) (elems : list string) : path :=
  let segs := List.concat (map (split slash) elems) in
  match base with
  | "" :: b => "" :: clean_go true [] (b ++ segs)
  | [] => clean (join slash (List.filter (λ e, negb (String.eqb e "")) elems))
  | b => clean_go false [] (b ++ segs)
  end.

(** [filepath.Dir] of a clean path. *)
Definition dir_of (p : path) : path := removelast p.

(** The last element of a clean path. *)
Definition base_name (p : path) : string := List.last p ".".

(** [path + suffix] for a suffix without a slash. *)
Definition path_append (p : path) (suffix : string) : path :=
  match p with
  | [] => ["." +:+ suffix]
  | _ => removelast p ++ [List.last p "" +:+ suffix]
  end.

(** An element that [Clean] keeps as it is. *)
Definition good_seg (s : string) : Prop :=
  s ≠ "" ∧ s ≠ "." ∧ s ≠ ".." ∧ contains_byte slash s = false.

#[export] Instance good_seg_dec s : Decision (good_seg s).
Proof. unfold good_seg. apply _. Defined.

(** A clean relative path without [..], or such a path under the root. *)
Definition good_base (p : path) : Prop :=
  match p with
  | [] => False
  | "" :: b => Forall good_seg b
  | b => Forall good_seg b
  end.

Lemma clean_go_good rooted out segs :
  Forall good_seg segs → clean_go rooted out segs = rev out ++ segs.
Proof.
  intros H. revert out. induction H as [|s segs (H1 & H2 & H3 & _) H IH]; intros out; simpl.
  - by rewrite app_nil_r.
  - rewrite (proj2 (String.eqb_neq _ _) H1), (proj2 (String.eqb_neq _ _) H2),
      (proj2 (String.eqb_neq _ _) H3). simpl.
    rewrite IH. simpl. by rewrite <- app_assoc.
Qed.

Lemma split_segs_good elems : Forall good_seg elems → List.concat (map (split slash) elems) = elems.
Proof.
  induction 1 as [|e elems (_ & _ & _ & H) _ IH]; [done|]. simpl.
  by rewrite split_clean, IH.
Qed.

(** Joining good elements below a good base appends them. *)
Lemma join_path_good base elems :
  good_base base → Forall good_seg elems → join_path base elems = base ++ elems.
Proof.
  intros Hb He. unfold join_path. rewrite split_segs_good by done.
  destruct base as [|b base]; [done|]. destruct b as [|c b].
  - simpl in Hb. rewrite clean_go_good; [done|]. by apply Forall_app.
  - rewrite clean_go_good; [done|]. apply Forall_app. by split.
Qed.

Lemma good_seg_suffix s suf :
  s ≠ "" → contains_byte slash s = false → contains_byte slash suf = false →
  (2 < String.length suf)%nat → good_seg (s +:+ suf).
Proof.
  intros Hne Hs Hf Hl.
  assert (Hlen : String.length (s +:+ suf) ≠ 2%nat ∧ String.length (s +:+ suf) ≠ 1%nat
                 ∧ String.length (s +:+ suf) ≠ 0%nat) by (rewrite length_append; lia).
  unfold good_seg. repeat split; try (intros E; rewrite E in Hlen; simpl in Hlen; lia).
  rewrite contains_byte_app, Hs. by apply Hf.
Qed.

Lemma path_append_snoc p s suf : path_append (p ++ [s]) suf = p ++ [s +:+ suf].
Proof.
  unfold path_append. destruct (p ++ [s]) eqn:E; [by destruct p|]. rewrite <- E.
  by rewrite removelast_last, List.last_last.
Qed.

Lemma dir_of_snoc p s : dir_of (p ++ [s]) = p.
Proof. apply removelast_last. Qed.

Lemma base_name_snoc p s : base_name (p ++ [s]) = s.
Proof. apply List.last_last. Qed.

(** ** The file tree and the system-call schedule *)

Inductive node := File (data : string) | Dir.

#[export] Instance node_eq_dec : EqDecision node.
Proof. solve_decision. Defined.

Inductive sysres := SysOk | SysErr (n : nat) | SysCrash (n : nat).

Record fs := MkFs { fs_nodes : gmap path node; fs_sched : list sysres }.

Definition set_nodes (m : gmap path node) (f : fs) : fs := MkFs m (fs_sched f).

(** [.] and [/] always exist. *)
Definition lookup_node (m : gmap path node) (p : path) : option node :=
  match p with [] => Some Dir | [""] => Some Dir | _ => m !! p end.

(** The proper prefixes of a path, shortest first. *)
Fixpoint prefixes (pre rest : path) : list path :=
  match rest with
  | [] => []
  | s :: rest' => pre :: prefixes (pre ++ [s]) rest'
  end.

Definition is_file (o : option node) : bool :=
  match o with Some (File _) => true | _ => false end.

(** Resolve a path: [ENOTDIR] below a file, [ENOENT] when it is missing. *)
Definition resolve (m : gmap path node) (p : path) : res node :=
  if existsb (λ q, is_file (lookup_node m q)) (prefixes [] p) then Err (ErrIO "ENOTDIR")
  else match lookup_node m p with Some n => Ok n | None => Err ErrNotExist end.

(** One system call: [op] is its effect, [part] what a failing call leaves. *)
Definition syscall {A} (what : string) (op : gmap path node → gmap path node * res A)
    (part : nat → gmap path node → gmap path node) : M fs (res A) := λ s,
  match fs_sched s with
  | SysErr n :: sched => (MkFs (part n (fs_nodes s)) sched, Val (Err (ErrIO what)))
  | SysCrash n :: sched => (MkFs (part n (fs_nodes s)) sched, Stuck Crashed)
  | SysOk :: sched => let '(m, r) := op (fs_nodes s) in (MkFs m sched, Val r)
  | [] => let '(m, r) := op (fs_nodes s) in (MkFs m [], Val r)
  end.

Definition no_part (_ : nat) (m : gmap path node) : gmap path node := m.

(** [os.Stat]. *)
Definition os_stat (p : path) : M fs (res node) :=
  syscall "stat" (λ m, (m, resolve m p)) no_part.

(** [os.ReadFile]. *)
Definition os_read_file (p : path) : M fs (res string) :=
  syscall "read" (λ m, (m, match resolve m p with
                           | Ok (File d) => Ok d
                           | Ok Dir => Err (ErrIO "EISDIR")
                           | Err e => Err e
                           end)) no_part.

(** [os.MkdirAll]. *)
Fixpoint mkdirs (todo : list path) (m : gmap path node) : gmap path node * res unit :=
  match todo with
  | [] => (m, Ok tt)
  | q :: todo' =>
      match lookup_node m q with
      | Some Dir => mkdirs todo' m
      | Some (File _) => (m, Err (ErrIO "ENOTDIR"))
      | None => mkdirs todo' (<[q := Dir]> m)
      end
  end.

Definition os_mkdir_all (p : path) : M fs (res unit) :=
  syscall "mkdir" (mkdirs (prefixes [] p ++ [p])) no_part.

(** [os.Create]: create or truncate. *)
Definition create_node (p : path) (m : gmap path node) : gmap path node * res unit :=
  match resolve m (dir_of p) with
  | Err e => (m, Err e)
  | Ok (File _) => (m, Err (ErrIO "ENOTDIR"))
  | Ok Dir =>
      match lookup_node m p with
      | Some Dir => (m, Err (ErrIO "EISDIR"))
      | _ => (<[p := File ""]> m, Ok tt)
      end
  end.

Definition os_create (p : path) : M fs (res unit) := syscall "open" (create_node p) no_part.

(** [f.Write] on a file just created: a failing write keeps a prefix. *)
Definition os_write (p : path) (d : string) : M fs (res unit) :=
  syscall "write" (λ m, (<[p := File d]> m, Ok tt)) (λ n m, <[p := File (str_take n d)]> m).

Definition os_sync : M fs (res unit) := syscall "sync" (λ m, (m, Ok tt)) no_part.
Definition os_close : M fs (res unit) := syscall "close" (λ m, (m, Ok tt)) no_part.

(** [os.Remove]: a file or an empty directory. *)
Definition has_child (p : path) (m : gmap path node) : bool :=
  existsb (λ '(q, _), bool_decide (dir_of q = p) && negb (bool_decide (q = p))) (map_to_list m).

Definition remove_node (p : path) (m : gmap path node) : gmap path node * res unit :=
  match resolve m p with
  | Err e => (m, Err e)
  | Ok (File _) => (delete p m, Ok tt)
  | Ok Dir => if has_child p m then (m, Err (ErrIO "ENOTEMPTY")) else (delete p m, Ok tt)
  end.

Definition os_remove (p : path) : M fs (res unit) := syscall "remove" (remove_node p) no_part.

(** [os.Rename] of a file. *)
Definition rename_node (p q : path) (m : gmap path node) : gmap path node * res unit :=
  match resolve m p with
  | Err e => (m, Err e)
  | Ok n =>
      match lookup_node m q with
      | Some Dir => (m, Err (ErrIO "EEXIST"))
      | _ => (<[q := n]> (delete p m), Ok tt)
      end
  end.

Definition os_rename (p q : path) : M fs (res unit) :=
  syscall "rename" (rename_node p q) no_part.

(** [os.RemoveAll]: the tree at a path; a failing call has removed some of it. *)
Definition in_tree (p : path) (q : path) : bool := bool_decide (p `prefix_of` q).

Definition remove_tree (p : path) (m : gmap path node) : gmap path node :=
  filter (λ x, in_tree p x.1 = false) m.

Definition os_remove_all (p : path) : M fs (res unit) :=
  syscall "removeall" (λ m, (remove_tree p m, Ok tt))
    (λ n m, fold_right (λ x m', delete x.1 m') m
              (take n (List.filter (λ x, in_tree p x.1) (map_to_list m)))).

(** [os.ReadDir]: the entries sorted by name, with [IsDir]. *)
Definition children (d : path) (m : gmap path node) : list (string * bool) :=
  omap (λ '(q, n),
    match q with
    | [] => None
    | _ => if bool_decide (removelast q = d) then
             Some (List.last q "", match n with Dir => true | File _ => false end)
           else None
    end) (map_to_list m).

Definition entry_le (a b : string * bool) : Prop := String.le a.1 b.1.

#[export] Instance entry_le_dec : RelDecision entry_le.
Proof. intros a b. unfold entry_le. apply _. Defined.

Definition list_dir (d : path) (m : gmap path node) : list (string * bool) :=
  merge_sort entry_le (children d m).

Definition os_read_dir (d : path) : M fs (res (list (string * bool))) :=
  syscall "readdir" (λ m, (m, match resolve m d with
                              | Ok Dir => Ok (list_dir d m)
                              | Ok (File _) => Err (ErrIO "ENOTDIR")
                              | Err e => Err e
                              end)) no_part.

(** [os.Create(tmp)], [Write], [Sync], [Close] and [os.Rename(tmp, dst)], with
    the temporary file removed when writing, syncing or closing it fails. *)
Definition replace_file (tmp dst : path) (data : string) : M fs (res unit) :=
  let? _ := os_create tmp in
  let* w := os_write tmp data in
  match w with
  | Err e => os_close ;;; os_remove tmp ;;; fail e
  | Ok _ =>
      let* y := os_sync in
      match y with
      | Err e => os_close ;;; os_remove tmp ;;; fail e
      | Ok _ =>
          let* c := os_close in
          match c with
          | Err e => os_remove tmp ;;; fail e
          | Ok _ => os_rename tmp dst
          end
      end
  end.

(** ** Lemmas on one call *)

Lemma wp_syscall {A} (what : string) (op : gmap path node → gmap path node * res A)
    (part : nat → gmap path node → gmap path node) (Q : fs → outcome (res A) → Prop) s :
  (∀ sched, Q (MkFs (op (fs_nodes s)).1 sched) (Val (op (fs_nodes s)).2)) →
  (∀ n sched, Q (MkFs (part n (fs_nodes s)) sched) (Val (Err (ErrIO what)))) →
  (∀ n sched, Q (MkFs (part n (fs_nodes s)) sched) (Stuck Crashed)) →
  wp (syscall what op part) Q s.
Proof.
  unfold wp, syscall. intros H1 H2 H3.
  destruct (fs_sched s) as [|[]]; simpl; auto;
    specialize (H1 l) || specialize (H1 []); by destruct (op (fs_nodes s)).
Qed.

Definition quiet (s : fs) : Prop := fs_sched s = [].

(** No crash is scheduled: system calls may fail, but each returns. *)
Definition no_crash (s : fs) : Prop :=
  Forall (λ o, match o with SysCrash _ => False | _ => True end) (fs_sched s).

Lemma quiet_no_crash s : quiet s → no_crash s.
Proof. unfold quiet, no_crash. by intros ->. Qed.

Lemma returns_syscall {A} (what : string) (op : gmap path node → gmap path node * res A)
    (part : nat → gmap path node → gmap path node) : returns no_crash (syscall what op part).
Proof.
  intros [m sched] Hs. unfold no_crash in *. unfold wp, syscall. simpl in *.
  destruct sched as [|[|n|n] sched]; [destruct (op m)..| |by apply Forall_cons in Hs as [[] _]];
    simpl; (split; [|by eexists]); [done|by apply Forall_cons in Hs as [_ Hs]..].
Qed.

Lemma syscall_quiet {A} (what : string) (op : gmap path node → gmap path node * res A)
    (part : nat → gmap path node → gmap path node) (s : fs) (m : gmap path node) (r : res A) :
  quiet s → op (fs_nodes s) = (m, r) → syscall what op part s = (MkFs m [], Val r).
Proof. unfold syscall. intros -> ->. done. Qed.

Lemma set_nodes_quiet s : quiet s → s = MkFs (fs_nodes s) [].
Proof. destruct s; unfold quiet; simpl. by intros ->. Qed.

(** Paths that name a node of the map. *)
Definition proper (p : path) : Prop := p ≠ [] ∧ p ≠ [""].

Lemma lookup_node_proper m p : proper p → lookup_node m p = m !! p.
Proof. intros [H1 H2]. destruct p as [|[|a s] [|b p]]; done. Qed.

Lemma proper_snoc p s : s ≠ "" → proper (p ++ [s]).
Proof. intros Hs. split; [by destruct p|]. destruct p as [|? []]; simpl; congruence. Qed.

Lemma snoc_inv (p : path) : p ≠ [] → ∃ q s, p = q ++ [s].
Proof. intros H. exists (removelast p), (List.last p ""). by apply List.app_removelast_last. Qed.

Lemma prefixes_app pre p s : prefixes pre (p ++ [s]) = prefixes pre p ++ [pre ++ p].
Proof.
  revert pre. induction p as [|x p IH]; intros pre; simpl.
  - by rewrite app_nil_r.
  - rewrite IH. by rewrite <- app_assoc.
Qed.

(** No proper prefix of the path is a file. *)
Definition no_file_above (m : gmap path node) (p : path) : Prop :=
  Forall (λ q, is_file (lookup_node m q) = false) (prefixes [] p).

Lemma resolve_open m p : no_file_above m p →
  resolve m p = match lookup_node m p with Some n => Ok n | None => Err ErrNotExist end.
Proof.
  unfold resolve, no_file_above. intros H.
  replace (existsb _ _) with false; [done|]. symmetry. apply not_true_iff_false.
  rewrite List.existsb_exists. intros (q & Hq & Hf). rewrite List.Forall_forall in H.
  by rewrite H in Hf.
Qed.

Lemma resolve_ok m p n : resolve m p = Ok n → lookup_node m p = Some n ∧ no_file_above m p.
Proof.
  unfold resolve, no_file_above. destruct (existsb _ _) eqn:E; [done|].
  destruct (lookup_node m p); [|done]. intros [= ->]. split; [done|].
  rewrite List.Forall_forall. intros q Hq. apply not_true_iff_false. intros Hf.
  apply not_true_iff_false in E. apply E, List.existsb_exists. eauto.
Qed.

Lemma prefixes_length q pre p : In q (prefixes pre p) → (length q < length pre + length p)%nat.
Proof.
  revert pre. induction p as [|s p IH]; intros pre; simpl; [done|].
  intros [->|H]; [lia|]. specialize (IH _ H). rewrite length_app in IH. simpl in IH. lia.
Qed.

Lemma lookup_node_insert_ne m p q n :
  p ≠ q → lookup_node (<[p := n]> m) q = lookup_node m q.
Proof. intros H. destruct q as [|[|] [|]]; simpl; by rewrite ?lookup_insert_ne. Qed.

Lemma lookup_node_delete_ne m p q :
  p ≠ q → lookup_node (delete p m) q = lookup_node m q.
Proof. intros H. destruct q as [|[|] [|]]; simpl; by rewrite ?lookup_delete_ne. Qed.

Lemma no_file_above_insert m p n : no_file_above m p → no_file_above (<[p := n]> m) p.
Proof.
  unfold no_file_above. rewrite !List.Forall_forall. intros H q Hq.
  rewrite lookup_node_insert_ne; [by apply H|]. intros <-.
  apply prefixes_length in Hq. simpl in Hq. lia.
Qed.

(** ** Replacing a file is atomic

    Whatever call fails, and wherever the process dies, the file at [dst]
    holds either what it held or all of the new data, and nothing but [dst]
    and [tmp] changes. *)

Definition replaced (tmp dst : path) (data : string) (m m' : gmap path node)
    (o : outcome (res unit)) : Prop :=
  (∀ p, p ≠ tmp → p ≠ dst → m' !! p = m !! p) ∧
  match o with
  | Val (Ok _) => m' !! dst = Some (File data) ∧ m' !! tmp = None
  | Val (Err _) => m' !! dst = m !! dst
  | Stuck k => k = Crashed ∧ m' !! dst = m !! dst
  end.

Lemma replaced_except tmp dst data m m' o :
  (∀ p, p ≠ tmp → m' !! p = m !! p) → tmp ≠ dst →
  match o with Val (Ok _) => False | Stuck k => k = Crashed | _ => True end →
  replaced tmp dst data m m' o.
Proof. intros H Hne Ho. split; [auto|]. destruct o as [[]|]; [done|auto|split; auto]. Qed.

Lemma wp_no_effect {A} what (r : res A) Q s :
  (∀ sched, Q (MkFs (fs_nodes s) sched) (Val r)) →
  (∀ sched, Q (MkFs (fs_nodes s) sched) (Val (Err (ErrIO what)))) →
  (∀ sched, Q (MkFs (fs_nodes s) sched) (Stuck Crashed)) →
  wp (syscall what (λ m, (m, r)) no_part) Q s.
Proof. intros. apply wp_syscall; simpl; auto. Qed.

(** Closing and removing the temporary file touches nothing else. *)
Lemma wp_remove_tmp tmp (Q : fs → outcome (res unit) → Prop) s :
  (∀ m sched o, (∀ p, p ≠ tmp → m !! p = fs_nodes s !! p) →
     match o with Stuck k => k = Crashed | _ => True end → Q (MkFs m sched) o) →
  wp (os_remove tmp) Q s.
Proof.
  intros H. apply wp_syscall; intros; [|apply H; [done|by simpl]..].
  apply H; [|done]. intros p Hp. unfold remove_node.
  destruct (resolve _ _) as [[]|]; simpl; [by apply lookup_delete_ne| |done].
  destruct (has_child _ _); [done|]. by apply lookup_delete_ne.
Qed.

Section replace_file.
Context (tmp dst : path) (data : string).
Hypothesis Hne : tmp ≠ dst.
Hypothesis Htmp : proper tmp.

Let cleanup e m s :
  (∀ p, p ≠ tmp → fs_nodes s !! p = m !! p) →
  wp (os_remove tmp ;;; fail e) (λ s' o, replaced tmp dst data m (fs_nodes s') o) s.
Proof.
  intros H. apply wp_bind, wp_remove_tmp. intros m' sched [r|k] Hm Hk; simpl in *.
  - apply replaced_except; [|done..]. intros p Hp. by rewrite Hm, H.
  - subst k. apply replaced_except; [|done..]. intros p Hp. by rewrite Hm, H.
Qed.

Let close_cleanup e m s :
  (∀ p, p ≠ tmp → fs_nodes s !! p = m !! p) →
  wp (os_close ;;; os_remove tmp ;;; fail e)
     (λ s' o, replaced tmp dst data m (fs_nodes s') o) s.
Proof.
  intros H. apply wp_bind, wp_no_effect; intros sched; simpl; [by apply cleanup..|].
  by apply replaced_except.
Qed.

Lemma rename_replaced m0 m :
  (∀ p, p ≠ tmp → m !! p = m0 !! p) → m !! tmp = Some (File data) →
  replaced tmp dst data m0 (rename_node tmp dst m).1 (Val (rename_node tmp dst m).2).
Proof.
  intros H Ht. unfold rename_node.
  destruct (resolve m tmp) as [n|] eqn:Er; [|by apply replaced_except].
  apply resolve_ok in Er as [Er _]. rewrite lookup_node_proper, Ht in Er by done.
  injection Er as <-.
  assert (replaced tmp dst data m0 (<[dst := File data]> (delete tmp m)) (Val (Ok tt))).
  { split; [intros p H1 H2; by rewrite lookup_insert_ne, lookup_delete_ne, H|].
    split; [by rewrite lookup_insert_eq|].
    by rewrite lookup_insert_ne, lookup_delete_eq by done. }
  destruct (lookup_node m dst) as [[]|]; [done|by apply replaced_except|done].
Qed.

Lemma wp_replace_file s :
  wp (replace_file tmp dst data)
     (λ s' o, replaced tmp dst data (fs_nodes s) (fs_nodes s') o) s.
Proof.
  destruct s as [m sched]. unfold replace_file. simpl.
  apply wp_ebind, wp_syscall; simpl; intros; [|by apply replaced_except..].
  unfold create_node. destruct (resolve _ _) as [[]|]; simpl; [by apply replaced_except| |by apply replaced_except].
  destruct (lookup_node m tmp) as [[]|]; simpl; [|by apply replaced_except|].
  all: apply wp_bind, wp_syscall; simpl; intros;
    [|apply close_cleanup; simpl; intros; by rewrite !lookup_insert_ne
     |apply replaced_except; [intros; by rewrite !lookup_insert_ne|done..]].
  all: assert (∀ p, p ≠ tmp → <[tmp:=File data]> (<[tmp:=File ""]> m) !! p = m !! p)
    by (intros; by rewrite !lookup_insert_ne).
  all: apply wp_bind, wp_no_effect; simpl; intros;
    [|by apply close_cleanup|by apply replaced_except].
  all: apply wp_bind, wp_no_effect; simpl; intros;
    [|by apply cleanup|by apply replaced_except].
  all: apply wp_syscall; simpl; intros; [|by apply replaced_except..].
  all: apply rename_replaced; [done|by rewrite lookup_insert_eq].
Qed.
End replace_file.

(** ** Calls on a schedule without failures *)

Lemma resolve_dir_above m d x : resolve m d = Ok Dir → no_file_above m (d ++ [x]).
Proof.
  intros [Hl Ha]%resolve_ok. unfold no_file_above. rewrite prefixes_app.
  apply Forall_app. split; [done|]. by repeat constructor; simpl; rewrite Hl.
Qed.

Lemma replace_file_quiet d x dst data s :
  quiet s → resolve (fs_nodes s) d = Ok Dir → x ≠ "" → d ++ [x] ≠ dst →
  fs_nodes s !! (d ++ [x]) ≠ Some Dir → lookup_node (fs_nodes s) dst ≠ Some Dir →
  replace_file (d ++ [x]) dst data s
  = (MkFs (<[dst := File data]> (delete (d ++ [x]) (fs_nodes s))) [], Val (Ok tt)).
Proof.
  destruct s as [m sched]. unfold quiet; simpl. intros -> Hd Hx Hne Ht Hdst.
  pose proof (proper_snoc d x Hx) as Hp.
  assert (Hc : create_node (d ++ [x]) m = (<[d ++ [x] := File ""]> m, Ok tt)).
  { unfold create_node. rewrite dir_of_snoc, Hd, lookup_node_proper by done.
    by destruct (m !! _) as [[]|]. }
  unfold replace_file.
  do 4 run_ok ltac:(by apply syscall_quiet).
  apply syscall_quiet; [done|]. simpl. rewrite insert_insert_eq.
  unfold rename_node. rewrite resolve_open, lookup_node_proper, lookup_insert_eq;
    [|done|by apply no_file_above_insert, resolve_dir_above].
  rewrite lookup_node_insert_ne by done. rewrite delete_insert_eq.
  by destruct (lookup_node m dst) as [[]|].
Qed.

Definition grown (todo : list path) (m m' : gmap path node) : Prop :=
  ∀ q, m' !! q = m !! q ∨ (m !! q = None ∧ m' !! q = Some Dir ∧ In q todo ∧ proper q).

Lemma lookup_node_grown todo m m' q : grown todo m m' →
  lookup_node m q = Some Dir → lookup_node m' q = Some Dir.
Proof.
  intros H. destruct (decide (proper q)) as [Hp|Hp].
  - rewrite !lookup_node_proper by done. destruct (H q) as [->|(-> & -> & _)]; done.
  - unfold proper in Hp. destruct q as [|[|] [|]]; simpl; try done; exfalso; apply Hp; done.
Qed.

Lemma mkdirs_spec todo m :
  Forall (λ q, is_file (lookup_node m q) = false) todo →
  ∃ m', mkdirs todo m = (m', Ok tt) ∧ grown todo m m' ∧
        Forall (λ q, lookup_node m' q = Some Dir) todo.
Proof.
  revert m. induction todo as [|q todo IH]; intros m Hf.
  - exists m. split; [done|]. split; [by left|constructor].
  - inversion Hf as [|? ? Hq Hf']; subst. simpl.
    destruct (lookup_node m q) as [[d|]|] eqn:El; [done| |].
    + destruct (IH m Hf') as (m' & -> & Hg & Hd). exists m'. split; [done|]. split.
      * intros p. destruct (Hg p) as [|(?&?&?&?)]; [by left|right]. simpl; auto.
      * constructor; [by eapply lookup_node_grown|done].
    + assert (Hpq : proper q) by (split; intros ->; done).
      rewrite lookup_node_proper in El by done.
      destruct (IH (<[q := Dir]> m)) as (m' & -> & Hg & Hd).
      { rewrite List.Forall_forall in Hf' |- *. intros p Hp.
        destruct (decide (q = p)) as [<-|]; [|rewrite lookup_node_insert_ne by done; auto].
        by rewrite lookup_node_proper, lookup_insert_eq. }
      exists m'. split; [done|]. split.
      * intros p. destruct (decide (q = p)) as [<-|Hn].
        -- right. split; [done|]. split; [|by split; [left|]].
           destruct (Hg q) as [->|(_ & -> & _)]; [by rewrite lookup_insert_eq|done].
        -- destruct (Hg p) as [->|(E & -> & Hin & Hpp)].
           ++ left. by rewrite lookup_insert_ne.
           ++ right. rewrite lookup_insert_ne in E by done. simpl; auto.
      * constructor; [|done]. eapply lookup_node_grown; [done|].
        by rewrite lookup_node_proper, lookup_insert_eq.
Qed.

Lemma mkdirs_noop todo m :
  Forall (λ q, lookup_node m q = Some Dir) todo → mkdirs todo m = (m, Ok tt).
Proof. induction 1 as [|q todo Hq _ IH]; simpl; [done|]. by rewrite Hq. Qed.

(** [os.MkdirAll] succeeds when no file is in the way. *)
Lemma mkdir_all_quiet p s :
  quiet s → no_file_above (fs_nodes s) p → is_file (lookup_node (fs_nodes s) p) = false →
  ∃ m, os_mkdir_all p s = (MkFs m [], Val (Ok tt)) ∧
       grown (prefixes [] p ++ [p]) (fs_nodes s) m ∧ resolve m p = Ok Dir ∧
       Forall (λ q, lookup_node m q = Some Dir) (prefixes [] p ++ [p]).
Proof.
  intros Hs Ha Hp. destruct (mkdirs_spec (prefixes [] p ++ [p]) (fs_nodes s)) as (m & E & Hg & Hd).
  { apply Forall_app. split; [done|by repeat constructor]. }
  exists m. split; [by apply syscall_quiet|]. split; [done|]. split; [|done].
  apply Forall_app in Hd as [Hd1 Hd2]. inversion Hd2; subst.
  rewrite resolve_open; [by rewrite H1|].
  unfold no_file_above. eapply Forall_impl; [exact Hd1|]. simpl. by intros q ->.
Qed.
