(* ===== verification/Counter.v ===== *)
(** * The resourceVersion counter ([internal/fsstorage/counter.go])

    The counter is the in-memory [rv] and the file [<root>/.rv].  Its mutex
    makes [Next] and [Current] atomic; they are run to completion here. *)

From S2P Require Import Prelude GoStrings Fs.

Record counter := MkCounter { ct_fs : fs; ct_rv : N }.

Definition set_ct_fs (f : fs) (c : counter) : counter := MkCounter f (ct_rv c).
Definition set_ct_rv (g : N → N) (c : counter) : counter := MkCounter (ct_fs c) (g (ct_rv c)).

Section counter.
Context (root : path).

Definition file : path := join_path root [".rv"].

(** The part of [load] after the file has been read. *)
Definition load_text (b : string) : res N :=
  let str := trim_space b in
  if String.eqb str "" then Ok 1%N
  else match parse_uint str with
       | Err e => Err (ErrWrap "fsstorage: parse .rv" e)
       | Ok v => Ok (if (v <? 1)%N then 1%N else v)
       end.

Definition load : M fs (res N) :=
  let* r := os_read_file file in
  match r with
  | Err e => if is_not_exist e then ok 1%N else fail e
  | Ok b => of_res (load_text b)
  end.

Definition persist (rv : N) : M fs (res unit) :=
  replace_file (path_append file ".tmp") file (format_uint rv).

(** [NewCounter(root)], run on a file system. *)
Definition new_counter (f : fs) : fs * outcome (res counter) :=
  match load f with
  | (f', Val (Ok rv)) => (f', Val (Ok (MkCounter f' rv)))
  | (f', Val (Err e)) => (f', Val (Err e))
  | (f', Stuck k) => (f', Stuck k)
  end.

Definition next : M counter (res N) :=
  modify (set_ct_rv u64_inc) ;;;
  let* rv := gets ct_rv in
  let* r := zoom ct_fs set_ct_fs (persist rv) in
  match r with
  | Err e => modify (set_ct_rv u64_dec) ;;; fail e
  | Ok _ => let* rv' := gets ct_rv in ok rv'
  end.

Definition current : M counter N := gets ct_rv.

(** What a restarted process would load. *)
Definition durable (m : gmap path node) : res N :=
  match resolve m file with
  | Ok (File b) => load_text b
  | Ok Dir => Err (ErrIO "EISDIR")
  | Err e => if is_not_exist e then Ok 1%N else Err e
  end.
End counter.

(** ** Lemmas *)

Lemma load_text_format n : (1 <= n)%N → (n <= max_u64)%N → load_text (format_uint n) = Ok n.
Proof.
  intros H1 H2. unfold load_text.
  rewrite (proj2 (String.eqb_neq _ _)) by apply trim_format_nonempty.
  rewrite parse_trim_format by done.
  destruct (n <? 1)%N eqn:E; [apply N.ltb_lt in E; lia|done].
Qed.

Lemma load_text_bound b v : load_text b = Ok v → (1 <= v <= max_u64)%N.
Proof.
  unfold load_text. destruct (String.eqb _ _); [intros [= <-]; unfold max_u64; lia|].
  destruct (parse_uint _) eqn:E; [|done]. apply parse_uint_bound in E.
  destruct (_ <? 1)%N eqn:E1; intros [= <-]; [unfold max_u64; lia|].
  apply N.ltb_ge in E1. lia.
Qed.

Lemma durable_bound root m v : durable root m = Ok v → (1 <= v <= max_u64)%N.
Proof.
  unfold durable. destruct (resolve _ _) as [[b|]|e]; [apply load_text_bound|done|].
  destruct (is_not_exist e); [|done]. intros [= <-]. unfold max_u64; lia.
Qed.

Section lemmas.
Context (root : path) (Hroot : good_base root).

Lemma file_eq : file root = root ++ [".rv"].
Proof. apply join_path_good; [done|]. constructor; [by apply (bool_decide_unpack _)|done]. Qed.

Lemma tmp_eq : path_append (file root) ".tmp" = root ++ [".rv.tmp"].
Proof. by rewrite file_eq, path_append_snoc. Qed.

Lemma load_quiet f v : quiet f → durable root (fs_nodes f) = Ok v →
  load root f = (f, Val (Ok v)).
Proof.
  destruct f as [m sched]. unfold quiet, load, durable. simpl. intros -> H.
  run_ok ltac:(by apply syscall_quiet).
  simpl. destruct (resolve m _) as [[b|]|e]; simpl in *; [|done|].
  - unfold of_res. by rewrite H.
  - destruct (is_not_exist e); [by injection H as <-|done].
Qed.

Lemma durable_open m v : durable root m = Ok v → no_file_above m (file root).
Proof.
  unfold durable. destruct (resolve m _) as [n|e] eqn:E; [by apply resolve_ok in E as [_ E]|].
  revert E. unfold resolve, no_file_above. destruct (existsb _ _) eqn:Ex; [by intros [= <-]|].
  intros _ _. rewrite List.Forall_forall. intros q Hq. apply not_true_iff_false. intros Hf.
  apply not_true_iff_false in Ex. apply Ex, List.existsb_exists. eauto.
Qed.

Lemma open_frame m m' :
  no_file_above m (file root) → (∀ q, In q (prefixes [] (file root)) → m' !! q = m !! q) →
  no_file_above m' (file root).
Proof.
  unfold no_file_above. rewrite !List.Forall_forall. intros Ho Hq q Hin.
  rewrite <- (Ho q Hin). destruct q as [|[|] [|]]; simpl; rewrite ?Hq; done.
Qed.

Lemma file_proper : proper (file root).
Proof. rewrite file_eq. by apply proper_snoc. Qed.

(** The counter's value depends on nothing but its own file. *)
Lemma durable_frame m m' v :
  durable root m = Ok v → (∀ q, In q (prefixes [] (file root)) → m' !! q = m !! q) →
  m' !! file root = m !! file root → durable root m' = Ok v.
Proof.
  intros H Hq Hf. pose proof (durable_open m v H) as Ho.
  pose proof (open_frame m m' Ho Hq) as Ho'. pose proof file_proper.
  revert H. unfold durable. rewrite !resolve_open by done.
  by rewrite !lookup_node_proper, Hf by done.
Qed.

Lemma durable_written m n :
  no_file_above m (file root) → (1 <= n <= max_u64)%N →
  m !! file root = Some (File (format_uint n)) → durable root m = Ok n.
Proof.
  intros H Hn Hf. pose proof file_proper. unfold durable. rewrite resolve_open by done.
  rewrite lookup_node_proper, Hf by done. apply load_text_format; lia.
Qed.

Lemma not_above_file q x : In q (prefixes [] (file root)) → q ≠ root ++ [x].
Proof.
  intros Hq ->. rewrite file_eq in Hq. apply prefixes_length in Hq.
  rewrite !length_app in Hq. simpl in Hq. lia.
Qed.

(** The state between two operations: memory and disk agree. *)
Definition counter_ok (c : counter) : Prop := durable root (fs_nodes (ct_fs c)) = Ok (ct_rv c).

(** The paths [Next] may touch. *)
Definition counter_path (p : path) : Prop := p = root ++ [".rv"] ∨ p = root ++ [".rv.tmp"].

Definition next_post (c c' : counter) (o : outcome (res N)) : Prop :=
  (∀ p, ¬ counter_path p →
     fs_nodes (ct_fs c') !! p = fs_nodes (ct_fs c) !! p) ∧
  match o with
  | Val (Ok v) => v = (ct_rv c + 1)%N ∧ ct_rv c' = v ∧ counter_ok c'
  | Val (Err _) => ct_rv c' = ct_rv c ∧ counter_ok c'
  | Stuck k => k = Crashed ∧ durable root (fs_nodes (ct_fs c')) = Ok (ct_rv c)
  end.

Lemma wp_next c : counter_ok c → (ct_rv c < max_u64)%N →
  wp (next root) (next_post c) c.
Proof.
  intros Hc Hb. destruct c as [f rv]; simpl in *. unfold next.
  pose proof (u64_inc_small rv Hb) as Ei.
  apply wp_bind, wp_modify, wp_bind, wp_gets. simpl.
  apply wp_bind, wp_zoom. simpl. unfold persist. rewrite tmp_eq.
  eapply wp_mono; [|apply wp_replace_file; rewrite ?file_eq;
                      [by intros [_ [=]]%app_inj_tail|by apply proper_snoc]].
  intros f' o [Hframe Ho]. rewrite <- ?file_eq in *.
  assert (Hpre : ∀ q, In q (prefixes [] (file root)) → fs_nodes f' !! q = fs_nodes f !! q).
  { intros q Hq. apply Hframe; [by apply not_above_file|].
    rewrite file_eq. by apply not_above_file. }
  assert (Hfr : ∀ p, ¬ counter_path p → fs_nodes f' !! p = fs_nodes f !! p).
  { intros p Hp. apply Hframe; intros ->; apply Hp; [by right|left; by rewrite file_eq]. }
  assert (Hsame : fs_nodes f' !! file root = fs_nodes f !! file root →
                  durable root (fs_nodes f') = Ok rv)
    by (intros; by apply (durable_frame (fs_nodes f))).
  pose proof (durable_bound root _ _ Hc) as Hrv. simpl in Hrv.
  destruct o as [[[]|e]|k]; simpl in *.
  - apply wp_bind, wp_gets. split; [done|]. split; [done|]. split; [done|].
    destruct Ho as [Ho _]. apply durable_written; [|simpl; lia|done].
    apply durable_open in Hc. by eapply open_frame.
  - assert (Ed : u64_dec (u64_inc rv) = rv) by (apply u64_inc_dec; lia).
    apply wp_bind, wp_modify. split; [done|]. split; [done|].
    unfold counter_ok. simpl. rewrite Ed. by apply Hsame.
  - destruct Ho as [-> Ho]. split; [done|]. split; [done|]. by apply Hsame.
Qed.
End lemmas.

(** ** Runs of the process, crashes and restarts included *)

(** A step of the counter's life: [Next] returns a value ([Some v]) or fails;
    the process dies during [Next], or after it before the value is used, and
    a new process loads the file; an idle process restarts. *)
Inductive counter_step (root : path) : counter → option N → counter → Prop :=
  | step_next c c' v :
      next root c = (c', Val (Ok v)) → counter_step root c (Some v) c'
  | step_next_err c c' e :
      next root c = (c', Val (Err e)) → counter_step root c None c'
  | step_crash c c' c'' o sched f :
      next root c = (c', o) →
      new_counter root (MkFs (fs_nodes (ct_fs c')) sched) = (f, Val (Ok c'')) →
      counter_step root c None c''
  | step_restart c c' sched f :
      new_counter root (MkFs (fs_nodes (ct_fs c)) sched) = (f, Val (Ok c')) →
      counter_step root c None c'.

Inductive counter_run (root : path) : counter → list (option N) → counter → Prop :=
  | run_nil c : counter_run root c [] c
  | run_cons c e c' tr c'' :
      counter_step root c e c' → counter_run root c' tr c'' →
      counter_run root c (e :: tr) c''.

Definition issued (tr : list (option N)) : list N := omap id tr.

Lemma wp_load root f :
  wp (load root) (λ f' o, fs_nodes f' = fs_nodes f ∧
    match o with
    | Val (Ok v) => durable root (fs_nodes f) = Ok v
    | Val (Err _) => True
    | Stuck k => k = Crashed
    end) f.
Proof.
  unfold load. apply wp_bind. unfold os_read_file.
  apply wp_syscall; simpl; intros; [|by split..].
  unfold durable. destruct (resolve _ _) as [[b|]|e]; simpl.
  - apply wp_ret. split; [done|]. by destruct (load_text b).
  - by apply wp_ret.
  - destruct (is_not_exist e); by apply wp_ret.
Qed.

Lemma new_counter_ok root f f' c :
  new_counter root f = (f', Val (Ok c)) →
  durable root (fs_nodes f) = Ok (ct_rv c) ∧ counter_ok root c.
Proof.
  unfold new_counter. pose proof (wp_load root f) as H. unfold wp in H.
  destruct (load root f) as [f1 [[v|]|]]; simpl in H; intros [= <- <-].
  destruct H as [E Hd]. unfold counter_ok. simpl. by rewrite E.
Qed.

Lemma counter_step_ok root c e c' :
  good_base root → counter_ok root c → (ct_rv c < max_u64)%N → counter_step root c e c' →
  counter_ok root c' ∧ (ct_rv c <= ct_rv c' <= ct_rv c + 1)%N ∧
  match e with Some v => v = ct_rv c' ∧ (ct_rv c < v)%N | None => True end.
Proof.
  intros Hr Hc Hb Hs.
  assert (Hn : ∀ c1 o, next root c = (c1, o) → next_post root c c1 o)
    by (intros c1 o E; by apply (wp_run _ _ _ _ _ E), wp_next).
  destruct Hs as [c c1 v E|c c1 e E|c c1 c2 o sched f E E2|c c1 sched f E].
  - apply Hn in E as [_ (-> & E2 & Hok)]. rewrite E2. split; [done|lia].
  - apply Hn in E as [_ (E2 & Hok)]. rewrite E2. split; [done|lia].
  - apply Hn in E as [_ H]. apply new_counter_ok in E2 as [Hd Hok]. simpl in Hd.
    split; [done|]. split; [|done].
    destruct o as [[v|e]|k]; [destruct H as (-> & E3 & Hok2)|destruct H as (E3 & Hok2)|
      destruct H as (-> & E3)]; unfold counter_ok in *; try congruence.
    + rewrite Hd in Hok2. injection Hok2 as ->. lia.
    + rewrite Hd in Hok2. injection Hok2 as ->. lia.
    + rewrite Hd in E3. injection E3 as ->. lia.
  - apply new_counter_ok in E as [Hd Hok]. simpl in Hd. unfold counter_ok in Hc.
    rewrite Hd in Hc. injection Hc as E. rewrite E in *. split; [done|]. split; [lia|done].
Qed.

(** C10: however many times [Next] fails, the process dies and restarts, the
    resourceVersions handed out are strictly increasing, and larger than the
    value the first process started from (as long as the uint64 does not
    wrap). *)
Theorem issued_increasing root c tr c' :
  good_base root → counter_ok root c → counter_run root c tr c' →
  (ct_rv c + N.of_nat (length tr) <= max_u64)%N →
  StronglySorted N.lt (ct_rv c :: issued tr).
Proof.
  intros Hr Hc Hrun. induction Hrun as [c|c e c1 tr c2 Hs Hrun IH]; intros Hb; simpl in Hb.
  { repeat constructor. }
  destruct (counter_step_ok root c e c1) as (Hc1 & Hle & He); [done..|lia|done|].
  specialize (IH Hc1 ltac:(lia)). unfold issued in *. simpl.
  apply StronglySorted_inv in IH as [Hs1 Hall].
  destruct e as [v|]; simpl.
  - destruct He as [-> Hlt]. constructor; [by constructor|]. constructor; [done|].
    eapply Forall_impl; [exact Hall|]. simpl. lia.
  - constructor; [done|]. eapply Forall_impl; [exact Hall|]. simpl. lia.
Qed.

(** A fresh tree: two values are issued, the process dies while writing the
    third, and the next process goes on from the last one issued. *)
Definition ex_root : path := ["data"].
Definition ex_fs (sched : list sysres) : fs := MkFs {[ ex_root := Dir ]} sched.

Definition ex_c0 : counter := MkCounter (ex_fs
  [SysOk; SysOk; SysOk; SysOk; SysOk; SysOk; SysOk; SysOk; SysOk; SysOk; SysOk; SysCrash 0]) 1.

Lemma issued_increasing_witness :
  ∃ c', counter_run ex_root ex_c0 [Some 2; Some 3; None; Some 4]%N c' ∧
        StronglySorted N.lt [1; 2; 3; 4]%N.
Proof.
  assert (R : ∃ c', counter_run ex_root ex_c0 [Some 2; Some 3; None; Some 4]%N c').
  { eexists. eapply run_cons; [apply step_next; vm_compute; reflexivity|].
    eapply run_cons; [apply step_next; vm_compute; reflexivity|].
    eapply run_cons;
      [eapply step_crash with (sched := []); vm_compute; reflexivity|].
    eapply run_cons; [apply step_next; vm_compute; reflexivity|].
    apply run_nil. }
  destruct R as [c' R]. exists c'. split; [exact R|].
  apply (issued_increasing ex_root ex_c0 [Some 2; Some 3; None; Some 4]%N c');
    [apply (bool_decide_unpack (Forall good_seg ["data"])); exact I|
     vm_compute; reflexivity|exact R|vm_compute; discriminate].
Defined.
