(* ===== verification/Watch.v ===== *)
(** * Watch fan-out ([internal/fsstorage/watch.go])

    A broadcaster keeps a ring of recent events and the set of subscribed
    watchers; a watcher is a shared object (a heap cell) with a buffered
    channel.  What Go leaves open is read from an oracle: the iteration order
    of a [range] over a map, and the case of a [select] with several ready
    communications.  A send on a closed channel panics; locking a mutex the
    goroutine already holds blocks for ever.

    Objects are values here: the source hands every watcher a [DeepCopyObject]
    of the event's object, so no two holders share one. *)

From S2P Require Import Prelude.

Inductive etype := Added | Modified | Deleted | Bookmark | Error.

#[export] Instance etype_eq_dec : EqDecision etype.
Proof. solve_decision. Defined.

(** A [metav1.Status]: the one inside a [*StatusError], or one built from the
    error's text with reason InternalError. *)
Inductive status := StatusOf (e : err) | StatusInternal (e : err).

Section watch.
Context {Obj : Type}.

(** [type event struct]. *)
Record event := MkEvent { ev_rv : N; ev_type : etype; ev_obj : Obj }.

(** [watch.Event]: the object is an API object or a status. *)
Inductive wobject := WObj (o : Obj) | WStatus (s : status).
Record wevent := MkWEvent { we_type : etype; we_object : wobject }.

(** [type watcher struct]: the channel is its buffered contents, capacity and
    closed flag; [w_once] is [stopOnce], [w_onstop] whether [onStop] is set. *)
Record watcher := MkWatcher {
  w_predicate : Obj → res bool;
  w_matches_key : Obj → bool;
  w_ch : list wevent;
  w_cap : nat;
  w_ch_closed : bool;
  w_stop_closed : bool;
  w_once : bool;
  w_onstop : bool
}.

(** [type broadcaster struct]. *)
Record broadcaster := MkBroadcaster {
  b_locked : bool;
  b_capacity : nat;
  b_ring : list event;
  b_subs : gset nat
}.

(** The broadcaster, the heap of watchers and the next free address. *)
Record wstate := MkWState {
  ws_b : broadcaster;
  ws_heap : gmap nat watcher;
  ws_next : nat;
  ws_oracle : list nat
}.

Definition new_broadcaster (capacity : nat) : broadcaster := MkBroadcaster false capacity [] ∅.

(** ** Primitive statements *)

Definition set_b (g : broadcaster → broadcaster) (s : wstate) : wstate :=
  MkWState (g (ws_b s)) (ws_heap s) (ws_next s) (ws_oracle s).
Definition set_heap (g : gmap nat watcher → gmap nat watcher) (s : wstate) : wstate :=
  MkWState (ws_b s) (g (ws_heap s)) (ws_next s) (ws_oracle s).
Definition set_oracle (l : list nat) (s : wstate) : wstate :=
  MkWState (ws_b s) (ws_heap s) (ws_next s) l.

Definition set_locked (l : bool) (b : broadcaster) : broadcaster :=
  MkBroadcaster l (b_capacity b) (b_ring b) (b_subs b).
Definition set_ring (r : list event) (b : broadcaster) : broadcaster :=
  MkBroadcaster (b_locked b) (b_capacity b) r (b_subs b).
Definition set_subs (g : gset nat → gset nat) (b : broadcaster) : broadcaster :=
  MkBroadcaster (b_locked b) (b_capacity b) (b_ring b) (g (b_subs b)).

(** A choice among [n] alternatives. *)
Definition pick (n : nat) : M wstate nat := λ s,
  match ws_oracle s with
  | [] => (s, Val 0)
  | k :: l => (set_oracle l s, Val (k mod n))
  end.

(** [b.mu.Lock()], [b.mu.Unlock()]. *)
Definition lock : M wstate unit :=
  let* l := gets (λ s, b_locked (ws_b s)) in
  if l then stop_with Deadlocked else modify (set_b (set_locked true)).
Definition unlock (s : wstate) : wstate := set_b (set_locked false) s.

(** Dereference a watcher pointer. *)
Definition deref (w : nat) : M wstate watcher :=
  let* h := gets (λ s, ws_heap s !! w) in
  match h with Some x => ret x | None => stop_with Panicked end.
Definition update (w : nat) (g : watcher → watcher) : M wstate unit :=
  modify (set_heap (alter g w)).

Definition set_ch (c : list wevent) (x : watcher) : watcher :=
  MkWatcher (w_predicate x) (w_matches_key x) c (w_cap x)
    (w_ch_closed x) (w_stop_closed x) (w_once x) (w_onstop x).
Definition set_ch_closed (x : watcher) : watcher :=
  MkWatcher (w_predicate x) (w_matches_key x) (w_ch x) (w_cap x)
    true (w_stop_closed x) (w_once x) (w_onstop x).
Definition set_stopping (x : watcher) : watcher :=
  MkWatcher (w_predicate x) (w_matches_key x) (w_ch x) (w_cap x)
    (w_ch_closed x) true true (w_onstop x).
Definition set_onstop (x : watcher) : watcher :=
  MkWatcher (w_predicate x) (w_matches_key x) (w_ch x) (w_cap x)
    (w_ch_closed x) (w_stop_closed x) (w_once x) true.
Definition push (ev : wevent) (x : watcher) : watcher := set_ch (w_ch x ++ [ev]) x.

(** [range] over a map: any element first, then the rest. *)
Fixpoint range {A} (n : nat) (l : list A) (body : A → M wstate unit) : M wstate unit :=
  match n with
  | 0 => ret tt
  | S n' =>
      let* i := pick (length l) in
      match l !! i with
      | Some a => body a ;;; range n' (delete i l) body
      | None => ret tt
      end
  end.

(** ** Watchers *)

(** [w.ch <- ev] once [select] has chosen it. *)
Definition send (w : nat) (ev : wevent) : M wstate unit :=
  let* x := deref w in
  if w_ch_closed x then stop_with Panicked else update w (push ev).

(** A send can proceed when there is room, or (to panic) when [ch] is closed. *)
Definition can_send (x : watcher) : bool :=
  w_ch_closed x || (length (w_ch x) <? w_cap x)%nat.

(** [onStop]: the closure of [subscribeLocked]. *)
Definition on_stop (w : nat) : M wstate unit :=
  lock ;;; modify (set_b (set_subs (λ d, d ∖ {[w]}))) ;;; modify unlock.

Definition stop (w : nat) : M wstate unit :=
  let* x := deref w in
  if w_once x then ret tt
  else
    update w set_stopping ;;;
    (if w_onstop x then on_stop w else ret tt) ;;;
    let* y := deref w in
    if w_ch_closed y then stop_with Panicked else update w set_ch_closed.

Definition deliver (w : nat) (ev : wevent) : M wstate unit :=
  let* x := deref w in
  match w_stop_closed x, can_send x with
  | false, false => stop w
  | true, false => ret tt
  | false, true => send w ev
  | true, true => let* i := pick 2 in if (i =? 0)%nat then ret tt else send w ev
  end.

Definition is_status_error (e : err) : bool :=
  match e with ErrBadRequest _ | ErrExpired _ _ => true | _ => false end.

Definition error_status (e : err) : wobject :=
  WStatus (if is_status_error e then StatusOf e else StatusInternal e).

Definition stop_with_error (w : nat) (e : err) : M wstate unit :=
  let* x := deref w in
  (if can_send x then send w (MkWEvent Error (error_status e)) else ret tt) ;;;
  stop w.

(** [newWatcher]: the goroutine that stops the watcher when its context is
    done is the separate step [stop]. *)
Definition new_watcher (p : Obj → res bool) (mk : Obj → bool) (buf : nat) : M wstate nat := λ s,
  (MkWState (ws_b s)
     (<[ws_next s := MkWatcher p mk [] buf false false false false]> (ws_heap s))
     (S (ws_next s)) (ws_oracle s),
   Val (ws_next s)).

(** ** The broadcaster *)

(** [b.ring = append(b.ring, ev)] and the truncation to the capacity. *)
Definition append_ring (ev : event) (b : broadcaster) : broadcaster :=
  let r := b_ring b ++ [ev] in
  if (b_capacity b <? length r)%nat then set_ring (drop (length r - b_capacity b) r) b
  else set_ring r b.

(** One turn of the delivery loop of [publish]. *)
Definition offer (ev : event) (w : nat) : M wstate unit :=
  let* x := deref w in
  if negb (w_matches_key x (ev_obj ev)) then ret tt
  else match w_predicate x (ev_obj ev) with
       | Ok true => deliver w (MkWEvent (ev_type ev) (WObj (ev_obj ev)))
       | _ => ret tt
       end.

Definition publish (ev : event) : M wstate unit :=
  lock ;;;
  deferred unlock (
    modify (set_b (append_ring ev)) ;;;
    let* subs := gets (λ s, elements (b_subs (ws_b s))) in
    range (length subs) subs (offer ev)).

(** [replayLocked]: [None] is [ok = false]. *)
Definition replay_locked (start : N) (ring : list event) : option (list event) :=
  match ring with
  | [] => Some []
  | e :: _ =>
      if (u64_inc start <? ev_rv e)%N then None
      else Some (List.filter (λ ev, (start <? ev_rv ev)%N) ring)
  end.

Definition subscribe_locked (w : nat) : M wstate unit :=
  modify (set_b (set_subs (λ d, {[w]} ∪ d))) ;;; update w set_onstop.

(** The consumer's side: a receive from [ResultChan()]. *)
Definition recv (w : nat) : M wstate (option wevent) :=
  let* x := deref w in
  match w_ch x with
  | [] => ret None
  | ev :: c => update w (set_ch c) ;;; ret (Some ev)
  end.
End watch.

Arguments event : clear implicits.
Arguments wobject : clear implicits.
Arguments wevent : clear implicits.
Arguments watcher : clear implicits.
Arguments broadcaster : clear implicits.
Arguments wstate : clear implicits.

(** ** The ring holds the most recent events *)

Section ring.
Context {Obj : Type}.
Implicit Types (hist ring : list (event Obj)) (b : broadcaster Obj).

(** What the ring should be after the events [hist] have been published. *)
Definition recent (cap : nat) hist : list (event Obj) := drop (length hist - cap) hist.

Lemma recent_length cap hist : length (recent cap hist) = Nat.min cap (length hist).
Proof. unfold recent. rewrite length_drop. lia. Qed.

Lemma append_ring_recent b hist ev :
  b_ring b = recent (b_capacity b) hist →
  b_ring (append_ring ev b) = recent (b_capacity b) (hist ++ [ev]) ∧
  b_capacity (append_ring ev b) = b_capacity b ∧ b_subs (append_ring ev b) = b_subs b ∧
  b_locked (append_ring ev b) = b_locked b.
Proof.
  intros H. unfold append_ring. rewrite H.
  set (n := b_capacity b). unfold recent. rewrite !length_app. cbn [length].
  rewrite length_drop. destruct (Nat.ltb_spec n (length hist - (length hist - n) + 1)); simpl.
  - split; [|done]. rewrite !drop_app, drop_drop, length_drop. f_equal; f_equal; lia.
  - split; [|done]. replace (length hist - n) with 0 by lia.
    replace (length hist + 1 - n) with 0 by lia. by rewrite !drop_0.
Qed.

Lemma filter_none (P : event Obj → bool) l :
  Forall (λ e, P e = false) l → List.filter P l = [].
Proof. induction 1 as [|e l H _ IH]; simpl; [done|]. by rewrite H. Qed.

Lemma replay_exact cap hist start out :
  (0 < cap)%nat → hist ≠ [] → (start < max_u64)%N →
  StronglySorted N.lt (map ev_rv hist) →
  replay_locked start (recent cap hist) = Some out →
  out = List.filter (λ ev, (start <? ev_rv ev)%N) hist.
Proof.
  intros Hcap Hne Hst Hs. unfold replay_locked.
  destruct (recent cap hist) as [|e ring] eqn:Er.
  { apply (f_equal length) in Er. rewrite recent_length in Er. destruct hist; [done|].
    simpl in Er. lia. }
  destruct (N.ltb_spec (u64_inc start) (ev_rv e)) as [|Hold]; [done|]. intros [= <-].
  rewrite u64_inc_small in Hold by done.
  set (k := length hist - cap).
  assert (E : hist = take k hist ++ e :: ring) by (rewrite <- Er; symmetry; apply take_drop).
  assert (Hs' := Hs). rewrite E, map_app in Hs'. clearbody k.
  rewrite E, List.filter_app, (filter_none _ (take k hist)); [done|]. rewrite List.Forall_forall. intros e' Hin.
  assert (ev_rv e' < ev_rv e)%N; [|apply N.ltb_ge; lia].
  eapply StronglySorted_app_1_elem_of; [exact Hs'| |by apply elem_of_cons; left].
  by apply list_elem_of_In, List.in_map.
Qed.

(** As long as the history is in resourceVersion order, a replay that
    [replayLocked] does not refuse returns every event of the whole history
    after the requested version, in order: nothing that has fallen out of the
    ring is missed. *)
Theorem replay_complete cap hist start out :
  (0 < cap)%nat → hist ≠ [] → (start < max_u64)%N →
  StronglySorted N.lt (map ev_rv hist) →
  replay_locked start (recent cap hist) = Some out →
  out = List.filter (λ ev, (start <? ev_rv ev)%N) hist.
Proof. apply replay_exact. Qed.
End ring.

(** ** Delivery *)

Section delivery.
Context {Obj : Type}.
Implicit Types (s : wstate Obj) (x : watcher Obj) (ev : event Obj).

(** A watcher that has not been stopped, with room in its channel. *)
Definition live x : Prop :=
  w_ch_closed x = false ∧ w_stop_closed x = false ∧ w_once x = false.
Definition has_room x : Prop := (length (w_ch x) < w_cap x)%nat.

#[export] Instance live_dec x : Decision (live x).
Proof. unfold live. apply _. Defined.

#[export] Instance has_room_dec x : Decision (has_room x).
Proof. unfold has_room. apply _. Defined.

(** The watcher's selection: its key and its predicate match. *)
Definition wants ev x : bool :=
  w_matches_key x (ev_obj ev) &&
  match w_predicate x (ev_obj ev) with Ok true => true | _ => false end.

Definition wevent_of ev : wevent Obj := MkWEvent (ev_type ev) (WObj (ev_obj ev)).

(** What one published event does to a watcher's channel. *)
Definition offered ev x : watcher Obj := if wants ev x then push (wevent_of ev) x else x.

Lemma deref_run s w x : ws_heap s !! w = Some x → deref w s = (s, Val x).
Proof. unfold deref, bind, gets, ret. by intros ->. Qed.

Lemma pick_run n s : ∃ l k, pick n s = (set_oracle l s, Val k) ∧ (0 < n → k < n)%nat.
Proof.
  unfold pick. destruct s as [b h nx [|k l]]; simpl.
  - exists [], 0. done.
  - exists l, (k mod n). split; [done|]. intros. apply Nat.mod_upper_bound. lia.
Qed.

Lemma deliver_live s w x e :
  ws_heap s !! w = Some x → live x → has_room x →
  deliver w e s = (set_heap (alter (push e) w) s, Val tt).
Proof.
  intros Hx (H1 & H2 & H3) Hr. unfold deliver.
  run_ok ltac:(by apply deref_run). unfold can_send. rewrite H1, H2.
  rewrite (proj2 (Nat.ltb_lt _ _) Hr). simpl. unfold send.
  run_ok ltac:(by apply deref_run). by rewrite H1.
Qed.

(** A [range] loop keeps an invariant indexed by the elements still to come,
    whatever the iteration order. *)
Lemma wp_range {A} (P : list A → wstate Obj → Prop) (body : A → M (wstate Obj) unit) Q
    (n : nat) (l : list A) s :
  (length l ≤ n)%nat →
  (∀ l l' s, l ≡ₚ l' → P l s → P l' s) →
  (∀ l s o, P l s → P l (set_oracle o s)) →
  (∀ a l s, P (a :: l) s →
     wp (body a) (λ s' o, match o with Val _ => P l s' | Stuck k => Q s' (Stuck k) end) s) →
  (∀ s, P [] s → Q s (Val tt)) →
  P l s → wp (range n l body) Q s.
Proof.
  intros Hn Hperm Hor Hbody Hnil. revert l s Hn. induction n as [|n IH]; intros l s Hn HP; simpl.
  { apply wp_ret. destruct l; [by apply Hnil|simpl in Hn; lia]. }
  apply wp_bind. destruct (pick_run (length l) s) as (o & k & E & Hk).
  unfold wp at 1. rewrite E. simpl.
  destruct (l !! k) as [a|] eqn:El.
  - apply wp_bind. eapply wp_mono; [|apply (Hbody a (delete k l)), (Hperm l)].
    + intros s' [[]|st] H; [|done]. apply IH; [|done].
      rewrite length_delete by eauto. lia.
    + by apply delete_Permutation.
    + by apply Hor.
  - apply wp_ret, Hnil. apply lookup_ge_None in El. destruct l; [by apply Hor|].
    simpl in *. lia.
Qed.

Lemma lock_run s : b_locked (ws_b s) = false → lock s = (set_b (set_locked true) s, Val tt).
Proof. unfold lock, bind, gets, modify. by intros ->. Qed.

(** [publish], its lock taken and the event appended, from the loop on. *)
Lemma wp_publish Q ev s :
  b_locked (ws_b s) = false →
  (let s1 := set_b (append_ring ev) (set_b (set_locked true) s) in
   wp (range (length (elements (b_subs (ws_b s)))) (elements (b_subs (ws_b s))) (offer ev))
      (λ s' o, match o with
               | Val _ | Stuck Panicked => Q (unlock s') o
               | _ => Q s' o
               end) s1) →
  wp (publish ev) Q s.
Proof.
  intros Hl H. unfold publish. apply wp_bind. unfold wp at 1. rewrite lock_run by done. simpl.
  apply wp_deferred, wp_bind, wp_modify, wp_bind, wp_gets.
  assert (E : b_subs (ws_b (set_b (append_ring ev) (set_b (set_locked true) s)))
              = b_subs (ws_b s)).
  { simpl. unfold append_ring. by destruct (_ <? _)%nat. }
  by rewrite E.
Qed.

(** Every subscriber can take the event: stopped watchers and full channels
    occur only among those that do not want it. *)
Definition deliverable ev s : Prop :=
  ∀ w, w ∈ b_subs (ws_b s) →
    ∃ x, ws_heap s !! w = Some x ∧ (wants ev x = true → live x ∧ has_room x).

Definition published ev s s' : Prop :=
  ws_b s' = append_ring ev (ws_b s) ∧ ws_next s' = ws_next s ∧
  ∀ w, ws_heap s' !! w =
    if decide (w ∈ b_subs (ws_b s)) then offered ev <$> ws_heap s !! w else ws_heap s !! w.

Lemma offer_run ev w s x :
  ws_heap s !! w = Some x → (wants ev x = true → live x ∧ has_room x) →
  offer ev w s = (set_heap (alter (offered ev) w) s, Val tt).
Proof.
  intros Hx Hw. unfold offer. run_ok ltac:(by apply deref_run).
  assert (Hid : wants ev x = false → set_heap (alter (offered ev) w) s = s).
  { intros Hf. destruct s as [b h nx o]; unfold set_heap; simpl in *. f_equal.
    apply map_eq. intros i. rewrite lookup_alter. case_decide as Ei; [|done].
    subst i. rewrite Hx. simpl. unfold offered. by rewrite Hf. }
  assert (Hyes : wants ev x = true →
      deliver w (wevent_of ev) s = (set_heap (alter (offered ev) w) s, Val tt)).
  { intros Ht. destruct (Hw Ht). rewrite (deliver_live s w x) by done. f_equal.
    unfold set_heap. f_equal. apply map_eq. intros i. rewrite !lookup_alter.
    case_decide as Ei; [|done]. subst i. rewrite Hx. simpl. unfold offered. by rewrite Ht. }
  unfold wants in *. destruct (w_matches_key x (ev_obj ev)); simpl in *;
    [|by rewrite Hid].
  destruct (w_predicate x (ev_obj ev)) as [[|]|]; [by apply Hyes|by rewrite Hid..].
Qed.

(** The state of the loop when the subscribers [l] are still to come. *)
Definition offering ev s (l : list nat) t : Prop :=
  NoDup l ∧ (∀ w, w ∈ l → w ∈ b_subs (ws_b s)) ∧
  ws_b t = append_ring ev (set_locked true (ws_b s)) ∧ ws_next t = ws_next s ∧
  ∀ w, ws_heap t !! w =
    if decide (w ∈ b_subs (ws_b s) ∧ w ∉ l) then offered ev <$> ws_heap s !! w
    else ws_heap s !! w.

Lemma offering_perm ev s l l' t : l ≡ₚ l' → offering ev s l t → offering ev s l' t.
Proof.
  intros Hp (H1 & H2 & H3 & H4 & H5). split; [by rewrite <- Hp|].
  split; [intros w; rewrite <- Hp; auto|]. split; [done|]. split; [done|].
  intros w. rewrite H5. apply decide_ext. by rewrite Hp.
Qed.

Lemma offering_start ev s :
  offering ev s (elements (b_subs (ws_b s)))
    (set_b (append_ring ev) (set_b (set_locked true) s)).
Proof.
  split; [apply NoDup_elements|]. split; [set_solver|]. split; [done|]. split; [done|].
  intros w. rewrite decide_False; [done|]. rewrite elem_of_elements. tauto.
Qed.

Lemma offering_step ev s w l t :
  deliverable ev s → offering ev s (w :: l) t →
  ∃ t', offer ev w t = (t', Val tt) ∧ offering ev s l t'.
Proof.
  intros Hd (H1 & H2 & H3 & H4 & H5). apply NoDup_cons in H1 as [Hnin H1].
  assert (Hin : w ∈ b_subs (ws_b s)) by (apply H2; by left).
  destruct (Hd w Hin) as (x & Hx & Hok).
  assert (Hx' : ws_heap t !! w = Some x).
  { rewrite H5, decide_False; [done|]. intros [_ Hn]. by apply Hn; left. }
  rewrite (offer_run ev w t x) by done. eexists. split; [done|].
  split; [done|]. split; [intros v Hv; apply H2; by right|]. split; [done|]. split; [done|].
  intros v. simpl. rewrite lookup_alter. case_decide as Ev; [subst v|].
  - rewrite Hx', Hx, decide_True by done. done.
  - rewrite H5. apply decide_ext. rewrite not_elem_of_cons. naive_solver.
Qed.

Lemma append_ring_unlock ev (b : broadcaster Obj) :
  b_locked b = false →
  set_locked false (append_ring ev (set_locked true b)) = append_ring ev b.
Proof.
  destruct b as [k n r u]. simpl. intros ->. unfold append_ring. simpl.
  by destruct (_ <? _)%nat.
Qed.

Lemma offering_done ev s t :
  b_locked (ws_b s) = false → offering ev s [] t → published ev s (unlock t).
Proof.
  intros Hl (_ & _ & H3 & H4 & H5). unfold published. simpl. rewrite H3.
  split; [by apply append_ring_unlock|]. split; [done|].
  intros w. rewrite H5. apply decide_ext. set_solver.
Qed.

Lemma publish_offers ev s :
  b_locked (ws_b s) = false → deliverable ev s →
  ∃ s', publish ev s = (s', Val tt) ∧ published ev s s'.
Proof.
  intros Hl Hd.
  assert (H : wp (publish ev) (λ s' o, o = Val tt ∧ published ev s s') s).
  { apply wp_publish; [done|]. apply (wp_range (offering ev s)).
    - done.
    - apply offering_perm.
    - done.
    - intros w l t Ht. destruct (offering_step ev s w l t) as (t' & E & Ht'); [done..|].
      unfold wp. by rewrite E.
    - intros t Ht. split; [done|]. by apply offering_done.
    - apply offering_start. }
  unfold wp in H. destruct (publish ev s) as [s' o]; simpl in H. destruct H as [-> H]. eauto.
Qed.

(** When every subscriber that wants the event has room, [publish]
    returns, whatever the iteration order of the subscriber map: the event is
    appended to the ring, each subscriber whose key and predicate match gets it
    at the end of its channel, nobody else's channel changes, and the lock is
    free again. *)
Theorem publish_delivers ev s :
  b_locked (ws_b s) = false → deliverable ev s →
  ∃ s', publish ev s = (s', Val tt) ∧ published ev s s'.
Proof. apply publish_offers. Qed.
End delivery.

(** ** Stopping, and the watchers that publishing cannot get past *)

Section stopping.
Context {Obj : Type}.
Implicit Types (s : wstate Obj) (x : watcher Obj) (ev : event Obj).

Definition stopped x : Prop :=
  w_ch_closed x = true ∧ w_stop_closed x = true ∧ w_once x = true.

(** The watcher as [Stop] leaves it: what is buffered can still be received. *)
Definition closed_of x : watcher Obj := set_ch_closed (set_stopping x).

Lemma update_run s w g : update w g s = (set_heap (alter g w) s, Val tt).
Proof. done. Qed.

Lemma alter_twice (h : gmap nat (watcher Obj)) (w : nat) f g :
  alter f w (alter g w h) = alter (λ x, f (g x)) w h.
Proof.
  apply map_eq. intros i. destruct (decide (w = i)) as [<-|].
  - rewrite !lookup_alter_eq. by destruct (h !! w).
  - by rewrite !lookup_alter_ne.
Qed.

(** [Stop] on a running, subscribed watcher closes its channel (keeping
    what is buffered), unsubscribes it and leaves every other watcher alone;
    a second [Stop] does nothing. *)
Theorem stop_unsubscribes w x s :
  b_locked (ws_b s) = false → ws_heap s !! w = Some x → live x → w_onstop x = true →
  ∃ s', stop w s = (s', Val tt) ∧ stop w s' = (s', Val tt) ∧
    w ∉ b_subs (ws_b s') ∧ (∀ v, v ≠ w → v ∈ b_subs (ws_b s') ↔ v ∈ b_subs (ws_b s)) ∧
    b_locked (ws_b s') = false ∧ b_ring (ws_b s') = b_ring (ws_b s) ∧
    ws_heap s' = <[w := closed_of x]> (ws_heap s).
Proof.
  intros Hl Hx (H1 & H2 & H3) Ho.
  exists (set_heap (alter set_ch_closed w) (unlock (set_b (set_subs (λ d, d ∖ {[w]}))
           (set_b (set_locked true) (set_heap (alter set_stopping w) s))))).
  assert (E : ∀ h, h = ws_heap s → alter set_ch_closed w (alter set_stopping w h)
                   = <[w := closed_of x]> h).
  { intros h ->. rewrite alter_twice. apply map_eq. intros i.
    rewrite lookup_alter, lookup_insert. case_decide as Ei; [subst i|done]. by rewrite Hx. }
  split; [|split; [|split; [|split; [|split; [|split]]]]]; simpl; [| |set_solver..|done|done|by apply E].
  - unfold stop. run_ok ltac:(by apply deref_run). rewrite H3.
    run_ok ltac:(apply update_run). rewrite Ho. unfold on_stop.
    rewrite bind_assoc. run_ok ltac:(by apply lock_run). rewrite bind_assoc.
    run_ok ltac:(reflexivity). run_ok ltac:(reflexivity).
    erewrite bind_val by (apply deref_run; simpl; by rewrite lookup_alter_eq, Hx).
    simpl. by rewrite H1.
  - unfold stop. erewrite bind_val.
    2:{ apply deref_run. simpl. rewrite alter_twice, lookup_alter_eq, Hx. reflexivity. }
    done.
Qed.

(** A stop in the middle of a [publish] blocks on the broadcaster's lock. *)
Lemma stop_locked w x s :
  b_locked (ws_b s) = true → ws_heap s !! w = Some x → w_once x = false → w_onstop x = true →
  stop w s = (set_heap (alter set_stopping w) s, Stuck Deadlocked).
Proof.
  intros Hl Hx H1 H2. unfold stop. run_ok ltac:(by apply deref_run). rewrite H1.
  run_ok ltac:(apply update_run). rewrite H2. apply bind_stuck. unfold on_stop, lock.
  apply bind_stuck. run_ok ltac:(reflexivity). simpl. by rewrite Hl.
Qed.

Definition jammed x : Prop := live x ∧ ¬ has_room x ∧ w_onstop x = true.

(** The subscribers still to come: one of them is jammed, and none is closed. *)
Definition jam ev (w0 : nat) (l : list nat) t : Prop :=
  NoDup l ∧ w0 ∈ l ∧ b_locked (ws_b t) = true ∧
  (∃ x, ws_heap t !! w0 = Some x ∧ wants ev x = true ∧ jammed x) ∧
  ∀ w, w ∈ l → ∃ x, ws_heap t !! w = Some x ∧ (wants ev x = true → live x ∧ w_onstop x = true).

Lemma offer_jammed ev w s x :
  b_locked (ws_b s) = true → ws_heap s !! w = Some x → wants ev x = true → jammed x →
  ∃ s', offer ev w s = (s', Stuck Deadlocked) ∧ b_locked (ws_b s') = true.
Proof.
  intros Hl Hx Hw ((H1 & H2 & H3) & Hr & Ho).
  exists (set_heap (alter set_stopping w) s). split; [|exact Hl].
  unfold offer. run_ok ltac:(by apply deref_run). unfold wants in Hw.
  destruct (w_matches_key x (ev_obj ev)); [|done]. simpl in *.
  destruct (w_predicate x (ev_obj ev)) as [[|]|]; [|done..].
  unfold deliver. run_ok ltac:(by apply deref_run). unfold can_send. rewrite H1, H2.
  unfold has_room in Hr. rewrite (proj2 (Nat.ltb_ge _ _)) by lia. simpl.
  by eapply stop_locked.
Qed.

Lemma jam_step ev w0 w l t :
  jam ev w0 (w :: l) t →
  wp (offer ev w) (λ t' o, match o with
    | Val _ => jam ev w0 l t'
    | Stuck k => k = Deadlocked ∧ b_locked (ws_b t') = true
    end) t.
Proof.
  intros (Hnd & Hin & Hl & (x0 & Hx0 & Hw0 & Hj0) & Hall).
  apply NoDup_cons in Hnd as [Hnin Hnd].
  destruct (Hall w) as (x & Hx & Hok); [by left|].
  destruct (decide (wants ev x = true ∧ ¬ has_room x)) as [[Hw Hr]|Hn].
  - destruct (Hok Hw) as [Hlv Hos].
    destruct (offer_jammed ev w t x) as (t' & E & Hl'); [done..| |].
    { by split. }
    unfold wp. by rewrite E.
  - assert (Hne : w ≠ w0).
    { intros ->. rewrite Hx0 in Hx. injection Hx as ->. destruct Hj0 as (_ & Hr & _). tauto. }
    unfold wp. rewrite (offer_run ev w t x); [simpl|done|].
    2:{ intros Hw. destruct (Hok Hw). split; [done|].
        destruct (decide (has_room x)); [done|tauto]. }
    split; [done|]. split; [set_solver|]. split; [done|]. split.
    + exists x0. simpl. by rewrite lookup_alter_ne.
    + intros v Hv. assert (v ≠ w) by (intros ->; done).
      simpl. rewrite lookup_alter_ne by done. apply Hall. by right.
Qed.

(** C32: a subscriber that does not read: once its channel is full, the next
    event it wants makes [publish] wait for the lock it holds, for ever, in
    whatever order the subscribers are served; the lock is never released, so
    every later [publish] blocks as well. *)
Theorem slow_watcher_deadlocks ev w0 x0 s :
  b_locked (ws_b s) = false → w0 ∈ b_subs (ws_b s) →
  ws_heap s !! w0 = Some x0 → wants ev x0 = true → jammed x0 →
  (∀ w, w ∈ b_subs (ws_b s) →
     ∃ x, ws_heap s !! w = Some x ∧ (wants ev x = true → live x ∧ w_onstop x = true)) →
  ∃ s', publish ev s = (s', Stuck Deadlocked) ∧
        ∀ ev', publish ev' s' = (s', Stuck Deadlocked).
Proof.
  intros Hl Hin Hx Hw Hj Hall.
  assert (H : wp (publish ev) (λ s' o, o = Stuck Deadlocked ∧ b_locked (ws_b s') = true) s).
  { apply wp_publish; [done|].
    apply (wp_range (jam ev w0)); [done| | | | |].
    - intros l l' t Hp (H1 & H2 & H3 & H4 & H5). split; [by rewrite <- Hp|].
      split; [by rewrite <- Hp|]. split; [done|]. split; [done|].
      intros w. rewrite <- Hp. auto.
    - done.
    - intros w l t Ht. eapply wp_mono; [|by apply (jam_step ev w0)].
      intros t' [a|k]; [done|]. by intros [-> H].
    - intros t (_ & H & _). by apply not_elem_of_nil in H.
    - split; [apply NoDup_elements|]. split; [by apply elem_of_elements|].
      split; [simpl; unfold append_ring; by destruct (_ <? _)%nat|]. split; [eauto|].
      intros w H. apply elem_of_elements in H. auto. }
  unfold wp in H. destruct (publish ev s) as [s' o]. simpl in H. destruct H as [-> H].
  exists s'. split; [done|]. intros ev'. unfold publish, lock. apply bind_stuck.
  run_ok ltac:(reflexivity). simpl. by rewrite H.
Qed.

Lemma deliver_stopped s w x e c l :
  ws_heap s !! w = Some x → stopped x → ws_oracle s = c :: l →
  deliver w e s = (set_oracle l s, if c mod 2 =? 0 then Val tt else Stuck Panicked)%nat.
Proof.
  intros Hx (H1 & H2 & H3) Ho. unfold deliver. run_ok ltac:(by apply deref_run).
  unfold can_send. rewrite H1, H2. cbn [orb].
  assert (Ep : pick 2 s = (set_oracle l s, Val (c mod 2))) by (unfold pick; by rewrite Ho).
  run_ok ltac:(exact Ep). destruct (c mod 2 =? 0)%nat; [done|].
  unfold send. run_ok ltac:(by apply deref_run). by rewrite H1.
Qed.

Lemma offer_wanting s w x ev :
  ws_heap s !! w = Some x → wants ev x = true → offer ev w s = deliver w (wevent_of ev) s.
Proof.
  intros Hx Hw. unfold offer. run_ok ltac:(by apply deref_run). unfold wants in Hw.
  destruct (w_matches_key x (ev_obj ev)); [|done]. simpl in *.
  by destruct (w_predicate x (ev_obj ev)) as [[|]|].
Qed.

(** A watcher that is stopped before it is subscribed stays subscribed with
    a closed channel; the next event it wants panics with "send on closed
    channel" whenever [select] takes the send, and does nothing when it takes
    the stop channel. *)
Theorem closed_subscriber_panics ev w x s k c l :
  b_locked (ws_b s) = false → b_subs (ws_b s) = {[w]} → ws_heap s !! w = Some x →
  stopped x → wants ev x = true → ws_oracle s = k :: c :: l →
  (publish ev s).2 = (if c mod 2 =? 0 then Val tt else Stuck Panicked)%nat ∧
  b_locked (ws_b (publish ev s).1) = false.
Proof.
  intros Hl Hs Hx Hst Hw Ho. remember (c mod 2 =? 0)%nat as d eqn:Hd.
  assert (H : wp (publish ev) (λ s' o,
    o = (if d then Val tt else Stuck Panicked) ∧ b_locked (ws_b s') = false) s);
    [|by unfold wp in H].
  apply wp_publish; [done|]. rewrite Hs, elements_singleton. simpl range.
  set (s1 := set_b _ _).
  assert (Ep : pick 1 s1 = (set_oracle (c :: l) s1, Val 0))
    by (unfold pick; cbn [s1 ws_oracle set_b]; by rewrite Ho, Nat.mod_1_r).
  apply wp_bind. unfold wp at 1. rewrite Ep. apply wp_bind. simpl.
  unfold wp at 1. rewrite (offer_wanting _ w x) by done.
  rewrite (deliver_stopped _ w x _ c l), <- Hd by done. by destruct d.
Qed.
End stopping.

(** ** What the consumer of one watcher sees *)

Section consumer.
Context {Obj : Type}.
Implicit Types (s : wstate Obj) (x : watcher Obj) (ev : event Obj).

(** The watcher [i] is subscribed, running, and [q] waits in its channel. *)
Definition follows (i : nat) (p : Obj → res bool) (mk : Obj → bool) (q : list (wevent Obj)) s : Prop :=
  i ∈ b_subs (ws_b s) ∧
  ∃ x, ws_heap s !! i = Some x ∧ live x ∧ w_predicate x = p ∧ w_matches_key x = mk ∧ w_ch x = q.

(** What the watcher is to see of an event. *)
Definition sees (p : Obj → res bool) (mk : Obj → bool) ev : bool :=
  mk (ev_obj ev) && match p (ev_obj ev) with Ok true => true | _ => false end.

Lemma follows_published i p mk q ev s s' :
  follows i p mk q s → published ev s s' →
  follows i p mk (q ++ map wevent_of (List.filter (sees p mk) [ev])) s'.
Proof.
  intros (Hin & x & Hx & Hl & Hp & Hmk & Hq) (Hb & _ & Hh). split.
  - rewrite Hb. unfold append_ring. by destruct (_ <? _)%nat.
  - exists (offered ev x). rewrite Hh, decide_True, Hx by done. split; [done|].
    subst p mk q. unfold offered. simpl. change (sees _ _ ev) with (wants ev x).
    destruct (wants ev x); simpl; [done|]. by rewrite app_nil_r.
Qed.

Lemma follows_recv i p mk q s s' e :
  follows i p mk q s → recv i s = (s', Val (Some e)) →
  ∃ q', q = e :: q' ∧ follows i p mk q' s' ∧ ws_b s' = ws_b s.
Proof.
  intros (Hin & x & Hx & Hl & Hp & Hmk & Hq). unfold recv.
  erewrite bind_val by (by apply deref_run). destruct (w_ch x) as [|e' q'] eqn:Ec; [done|].
  intros [= <- <-]. exists q'. split; [congruence|]. split; [|done]. split; [done|].
  exists (set_ch q' x). simpl. rewrite lookup_alter_eq, Hx. done.
Qed.
End consumer.
