(* ===== verification/Keys.v ===== *)
(** * Storage keys and object paths

    [parseKey], [parsePrefix], [objectPath] and [resourceDir] of
    [internal/fsstorage/store.go], and the key functions that
    [newStore] of [internal/apiserver/storage.go] gives the registry. *)

From S2P Require Import Prelude GoStrings Fs.

(** [parseKey(key)]: resource, namespace, name. *)
Definition parse_key (key : string) : res (string * string * string) :=
  let k := trim slash key in
  if String.eqb k "" then Err (ErrInvalidKey key)
  else match split slash k with
       | [a] => Ok (a, "", "")
       | [a; b] => Ok (a, "", b)
       | [a; b; c] => Ok (a, b, c)
       | _ => Err (ErrTooManySegments key)
       end.

(** [parsePrefix(key)]: resource, namespace, single, name. *)
Definition parse_prefix (key : string) : string * string * bool * string :=
  let k := trim slash key in
  if String.eqb k "" then ("", "", false, "")
  else match split slash k with
       | [] => ("", "", false, "")
       | [a] => (a, "", false, "")
       | [a; b] => (a, b, false, "")
       | a :: b :: c :: _ => (a, b, true, c)
       end.

Definition object_path (root : path) (resource namespace name : string) : path :=
  if String.eqb namespace "" then join_path root [resource; name +:+ ".json"]
  else join_path root [resource; namespace; name +:+ ".json"].

Definition resource_dir (root : path) (resource namespace : string) : path :=
  if String.eqb namespace "" then join_path root [resource]
  else join_path root [resource; namespace].

(** [KeyRootFunc] and [KeyFunc]: [ns] is [request.NamespaceFrom(ctx)]. *)
Definition key_root_func (prefix : string) (namespaced : bool) (ns : option string) : string :=
  if negb namespaced then prefix
  else match ns with
       | None | Some "" => prefix
       | Some n => prefix +:+ "/" +:+ n
       end.

Definition key_func (resource prefix : string) (namespaced : bool) (ns : option string)
    (name : string) : res string :=
  if namespaced then
    match ns with
    | None | Some "" => Err (ErrWrap "namespace required for resource" (ErrText resource))
    | Some n => Ok (prefix +:+ "/" +:+ n +:+ "/" +:+ name)
    end
  else Ok (prefix +:+ "/" +:+ name).

(** ** Names as the API server validates them *)

(** A name without a slash. *)
Definition seg (s : string) : Prop := s ≠ "" ∧ contains_byte slash s = false.

Lemma good_seg_seg s : good_seg s → seg s.
Proof. intros (H1 & _ & _ & H4). by split. Qed.

Lemma trim_key l : l ≠ [] → Forall seg l → trim slash (String slash (join slash l)) = join slash l.
Proof.
  intros Hne Hl. unfold trim. rewrite trim_left_slash.
  destruct l as [|x l]; [done|]. inversion Hl as [|? ? [Hx1 Hx2] Hl']; subst.
  assert (E : trim_left slash (join slash (x :: l)) = join slash (x :: l)).
  { simpl. destruct l; [|by apply trim_left_head].
    rewrite <- (append_nil_r x). by apply trim_left_head. }
  rewrite E. clear E Hne Hx1 Hx2.
  assert (H : ∀ l, l ≠ [] → Forall seg l → trim_right slash (join slash l) = join slash l);
    [|by apply H].
  clear. intros l Hne Hl. induction Hl as [|x l [H1 H2] Hl IH]; [done|]. simpl.
  destruct l as [|y l].
  - apply (trim_right_app slash "" x); done.
  - specialize (IH ltac:(done)). remember (join slash (y :: l)) as j eqn:Ej.
    assert (Hj : j ≠ "").
    { subst j. inversion Hl as [|? ? [Hy _] _]; subst. simpl.
      destruct l; [done|]. by destruct y. }
    clear - IH Hj. induction x as [|a x IHx]; simpl.
    + rewrite IH. by destruct j.
    + rewrite IHx. by destruct x.
Qed.

Lemma join_nonempty l : l ≠ [] → Forall seg l → join slash l ≠ "".
Proof.
  destruct l as [|x l]; [done|]. intros _ H. inversion H as [|? ? [Hx _] _]; subst.
  simpl. destruct l; [done|]. by destruct x.
Qed.

Lemma split_key l : l ≠ [] → Forall seg l →
  split slash (trim slash (String slash (join slash l))) = l.
Proof.
  intros Hne Hl. rewrite trim_key by done. apply split_join; [done|].
  eapply Forall_impl; [exact Hl|]. by intros x [].
Qed.

Section keys.
Context (resource : string) (Hr : seg resource).

Lemma parse_key_join l : l ≠ [] → Forall seg l →
  parse_key (String slash (join slash l)) =
    match l with
    | [a] => Ok (a, "", "")
    | [a; b] => Ok (a, "", b)
    | [a; b; c] => Ok (a, b, c)
    | _ => Err (ErrTooManySegments (String slash (join slash l)))
    end.
Proof.
  intros Hne Hl. unfold parse_key. rewrite split_key by done.
  rewrite trim_key by done. by rewrite (proj2 (String.eqb_neq _ _)) by by apply join_nonempty.
Qed.

Lemma parse_prefix_join l : l ≠ [] → Forall seg l →
  parse_prefix (String slash (join slash l)) =
    match l with
    | [] => ("", "", false, "")
    | [a] => (a, "", false, "")
    | [a; b] => (a, b, false, "")
    | a :: b :: c :: _ => (a, b, true, c)
    end.
Proof.
  intros Hne Hl. unfold parse_prefix. rewrite split_key by done.
  rewrite trim_key by done. by rewrite (proj2 (String.eqb_neq _ _)) by by apply join_nonempty.
Qed.

(** C39: the keys the registry builds are the keys the store takes apart: with
    names that hold no slash, [KeyFunc] then [parseKey] gives back the
    resource, the namespace (empty for a cluster-scoped kind) and the name,
    and [KeyRootFunc] then [parsePrefix] the resource and the namespace of a
    collection. *)
Theorem key_roundtrip namespaced ns name :
  seg ns → seg name →
  let prefix := "/" +:+ resource in
  (∀ key, key_func resource prefix namespaced (Some ns) name = Ok key →
     parse_key key = Ok (resource, if namespaced then ns else "", name)) ∧
  is_ok (key_func resource prefix namespaced (Some ns) name) = true ∧
  parse_prefix (key_root_func prefix namespaced (Some ns)) =
    (resource, if namespaced then ns else "", false, "").
Proof.
  intros Hns Hn. cbv zeta. destruct ns as [|c ns]; [by destruct Hns|].
  destruct namespaced; simpl.
  - split; [|split; [done|]].
    + intros key [= <-].
      apply (parse_key_join [resource; String c ns; name]); [done|each done].
    + apply (parse_prefix_join [resource; String c ns]); [done|each done].
  - split; [|split; [done|]].
    + intros key [= <-].
      apply (parse_key_join [resource; name]); [done|each done].
    + apply (parse_prefix_join [resource]); [done|each done].
Qed.
End keys.

Lemma key_roundtrip_witness :
  seg "pods" ∧ parse_key "/pods/default/nginx" = Ok ("pods", "default", "nginx").
Proof.
  split; [by split|].
  apply (key_roundtrip "pods" ltac:(by split) true "default" "nginx" ltac:(by split) ltac:(by split)).
  reflexivity.
Defined.

(** ** Object paths *)

Lemma json_good name : seg name → good_seg (name +:+ ".json").
Proof. intros [H1 H2]. apply good_seg_suffix; simpl; [done..|lia]. Qed.

(** The directory and file of an object: resource, namespace when there is
    one, and name. *)
Definition tail_of (resource namespace name : string) : path :=
  if String.eqb namespace "" then [resource; name +:+ ".json"]
  else [resource; namespace; name +:+ ".json"].

Definition good_ns (ns : string) : Prop := ns = "" ∨ good_seg ns.

Lemma object_path_eq root r ns n :
  good_base root → good_seg r → good_ns ns → seg n →
  object_path root r ns n = root ++ tail_of r ns n.
Proof.
  intros Hb Hr Hns Hn%json_good. unfold object_path, tail_of.
  destruct (String.eqb_spec ns "") as [->|Hne].
  - apply join_path_good; [done|each done].
  - destruct Hns as [->|Hns]; [done|]. apply join_path_good; [done|each done].
Qed.

Lemma resource_dir_eq root r ns :
  good_base root → good_seg r → good_ns ns →
  resource_dir root r ns = root ++ (if String.eqb ns "" then [r] else [r; ns]).
Proof.
  intros Hb Hr Hns. unfold resource_dir. destruct (String.eqb_spec ns "") as [->|Hne].
  - apply join_path_good; [done|each done].
  - destruct Hns as [->|Hns]; [done|]. apply join_path_good; [done|each done].
Qed.

(** Two objects share a file only if they are the same object: on names
    the API server accepts, [objectPath] is injective in the resource, the
    namespace and the name, and never the counter's [.rv] file. *)
Theorem object_path_injective root r1 ns1 n1 r2 ns2 n2 :
  good_base root → good_seg r1 → good_seg r2 → good_ns ns1 → good_ns ns2 → seg n1 → seg n2 →
  (object_path root r1 ns1 n1 = object_path root r2 ns2 n2 → r1 = r2 ∧ ns1 = ns2 ∧ n1 = n2) ∧
  object_path root r1 ns1 n1 ≠ join_path root [".rv"].
Proof.
  intros Hb Hr1 Hr2 Hns1 Hns2 Hn1 Hn2. rewrite !object_path_eq by done.
  rewrite join_path_good by (done || (constructor; [by apply (bool_decide_unpack _)|done])).
  unfold tail_of. destruct (String.eqb_spec ns1 "") as [->|], (String.eqb_spec ns2 "") as [->|].
  - split; [intros [= -> E%append_inj_r]%app_inv_head; done|by intros [= ]%app_inv_head].
  - split; [by intros [= ]%app_inv_head|by intros [= ]%app_inv_head].
  - split; [by intros [= ]%app_inv_head|by intros [= ]%app_inv_head].
  - split; [intros [= -> -> E%append_inj_r]%app_inv_head; done|by intros [= ]%app_inv_head].
Qed.

Lemma object_path_injective_witness :
  object_path ["data"] "pods" "default" "a" ≠ object_path ["data"] "pods" "kube-system" "a".
Proof.
  intros E.
  destruct (object_path_injective ["data"] "pods" "default" "a" "pods" "kube-system" "a")
    as [H _]; [each ltac:(by apply (bool_decide_unpack _))
              |by apply (bool_decide_unpack _)..
              |right; by apply (bool_decide_unpack _)
              |right; by apply (bool_decide_unpack _)|by split|by split|].
  destruct (H E) as (_ & F & _). discriminate F.
Defined.
