(* ===== verification/Store.v ===== *)
(** * The storage backend ([internal/fsstorage/store.go])

    The operations of [storage.Interface], one definition each, on the state a
    store shares with the rest of the process: the file system, the counter,
    its broadcaster and watchers, its per-key mutexes and the uid counter.
    API objects, the codec, the versioner and [meta.Accessor] are k8s.io code:
    they are the operations of the class [ApiObject]. *)

From S2P Require Import Prelude GoStrings Fs Counter Watch Keys.

(** ** What the store uses of k8s.io/apimachinery and k8s.io/apiserver *)

Class ApiObject (Obj : Type) := {
  obj_new : Obj;                             (* cfg.Newer() *)
  obj_encode : Obj → res string;             (* runtime.Encode(cfg.Codec, obj) *)
  obj_decode : string → Obj → res Obj;       (* cfg.Codec.Decode(data, nil, into) *)
  obj_accessor : Obj → res unit;             (* meta.Accessor(obj) *)
  obj_namespace : Obj → string;              (* GetNamespace, GetName, GetUID, SetUID *)
  obj_name : Obj → string;
  obj_uid : Obj → string;
  obj_set_uid : string → Obj → Obj;
  obj_rv : Obj → res N;                      (* versioner.ObjectResourceVersion *)
  obj_set_rv : N → Obj → res Obj;            (* versioner.UpdateObject *)
  obj_annotate : Obj → res Obj;              (* storage.AnnotateInitialEventsEndBookmark *)
  obj_update_list : N → res unit;            (* versioner.UpdateList accepts the list *)
  obj_parse_rv : string → res N              (* versioner.ParseResourceVersion *)
}.

(** The list object: its [Items] and the resourceVersion of its metadata. *)
Record olist (Obj : Type) := MkOList { l_items : list Obj; l_rv : N }.
Arguments MkOList {Obj} l_items l_rv.
Arguments l_items {Obj} _.
Arguments l_rv {Obj} _.

(** The fields of [storage.ListOptions] the store reads; the predicate is
    [SelectionPredicate.Matches]. *)
Record list_options (Obj : Type) := MkListOptions {
  lo_resource_version : string;
  lo_recursive : bool;
  lo_predicate : Obj → res bool;
  lo_send_initial_events : option bool
}.
Arguments MkListOptions {Obj} _ _ _ _.
Arguments lo_resource_version {Obj} _.
Arguments lo_recursive {Obj} _.
Arguments lo_predicate {Obj} _.
Arguments lo_send_initial_events {Obj} _.

(** [type store struct] and the state it shares. *)
Record world (Obj : Type) := MkWorld {
  wd_fs : fs;
  wd_rv : N;                  (* counter.rv *)
  wd_watch : wstate Obj;      (* broadcast and its watchers *)
  wd_key_mu : gset path;      (* the locked entries of keyMuMap *)
  wd_uid : N                  (* uidCounter.n *)
}.
Arguments MkWorld {Obj} _ _ _ _ _.
Arguments wd_fs {Obj} _.
Arguments wd_rv {Obj} _.
Arguments wd_watch {Obj} _.
Arguments wd_key_mu {Obj} _.
Arguments wd_uid {Obj} _.

(** [bytesEqual]. *)
Fixpoint bytes_equal_loop (a b : string) : bool :=
  match a, b with
  | String x a', String y b' => if Ascii.eqb x y then bytes_equal_loop a' b' else false
  | _, _ => true
  end.

Definition bytes_equal (a b : string) : bool :=
  if negb (String.length a =? String.length b)%nat then false else bytes_equal_loop a b.

(** [atomicWrite(path, data)]. *)
Definition atomic_write (p : path) (data : string) : M fs (res unit) :=
  let? _ := os_mkdir_all (dir_of p) in
  replace_file (path_append p ".tmp") p data.

(** [walkObjects(dir, fn)]: the variables [fn] captures are the accumulator,
    which keeps its value when the walk ends with an error.  Each level of
    recursion adds an element to the path, so the longest path is enough fuel. *)
Definition skip_file (name : string) : bool :=
  negb (has_suffix ".json" name) || has_prefix "." name.

Section walk.
(** The state the walk runs on, with [os.ReadDir] and [os.ReadFile] there. *)
Context {W : Type} (read_dir : path → M W (res (list (string * bool))))
        (read_file : path → M W (res string)).
Context {A : Type} (fn : A → string → A * res unit).

(** The loop over the entries of [dir]; [sub] walks a subdirectory. *)
Fixpoint visit_with (sub : path → A → M W (A * res unit)) (dir : path)
    (es : list (string * bool)) (acc : A) : M W (A * res unit) :=
  match es with
  | [] => ret (acc, Ok tt)
  | (name, is_dir) :: es' =>
      if is_dir then
        let* '(acc', r) := sub (dir ++ [name]) acc in
        match r with Err e => ret (acc', Err e) | Ok _ => visit_with sub dir es' acc' end
      else if skip_file name then visit_with sub dir es' acc
      else
        let* data := read_file (dir ++ [name]) in
        match data with
        | Err e => if is_not_exist e then visit_with sub dir es' acc else ret (acc, Err e)
        | Ok d => let '(acc', r) := fn acc d in
                  match r with Err e => ret (acc', Err e) | Ok _ => visit_with sub dir es' acc' end
        end
  end.

Fixpoint walk_with (fuel : nat) (dir : path) (acc : A) : M W (A * res unit) :=
  match fuel with
  | 0 => stop_with OutOfFuel
  | S fuel' =>
      let* entries := read_dir dir in
      match entries with
      | Err e => if is_not_exist e then ret (acc, Ok tt) else ret (acc, Err e)
      | Ok entries => visit_with (walk_with fuel') dir entries acc
      end
  end.
End walk.

(** On the files of the host. *)
Abbreviation visit := (visit_with os_read_file).
Abbreviation walk := (walk_with os_read_dir os_read_file).

Definition depth (m : gmap path node) : nat :=
  fold_right (λ '(p, _) n, Nat.max (length p) n) 0 (map_to_list m).

Definition walk_objects {A} (dir : path) (fn : A → string → A * res unit) (acc : A)
    : M fs (A * res unit) :=
  let* m := gets fs_nodes in walk fn (S (S (depth m))) dir acc.

Section store.
Context {Obj : Type} `{ApiObject Obj} (root : path).

Definition set_wd_fs (f : fs) (w : world Obj) : world Obj :=
  MkWorld f (wd_rv w) (wd_watch w) (wd_key_mu w) (wd_uid w).
Definition set_wd_watch (s : wstate Obj) (w : world Obj) : world Obj :=
  MkWorld (wd_fs w) (wd_rv w) s (wd_key_mu w) (wd_uid w).
Definition set_wd_key_mu (g : gset path → gset path) (w : world Obj) : world Obj :=
  MkWorld (wd_fs w) (wd_rv w) (wd_watch w) (g (wd_key_mu w)) (wd_uid w).
Definition get_counter (w : world Obj) : counter := MkCounter (wd_fs w) (wd_rv w).
Definition set_counter (c : counter) (w : world Obj) : world Obj :=
  MkWorld (ct_fs c) (ct_rv c) (wd_watch w) (wd_key_mu w) (wd_uid w).

Definition on_fs {A} (m : M fs A) : M (world Obj) A := zoom wd_fs set_wd_fs m.
Definition on_watch {A} (m : M (wstate Obj) A) : M (world Obj) A := zoom wd_watch set_wd_watch m.
Definition on_counter {A} (m : M counter A) : M (world Obj) A := zoom get_counter set_counter m.

Definition next_rv : M (world Obj) (res N) := on_counter (next root).
Definition current_rv : M (world Obj) N := on_counter current.

(** [s.keyMu(path).Lock()] and the deferred [Unlock]. *)
Definition lock_key (p : path) : M (world Obj) unit :=
  let* held := gets (λ w, bool_decide (p ∈ wd_key_mu w)) in
  if held then stop_with Deadlocked else modify (set_wd_key_mu (λ d, {[p]} ∪ d)).
Definition unlock_key (p : path) (w : world Obj) : world Obj :=
  set_wd_key_mu (λ d, d ∖ {[p]}) w.

Definition with_key {A} (p : path) (m : M (world Obj) A) : M (world Obj) A :=
  lock_key p ;;; deferred (unlock_key p) m.

Definition decode_fresh (data : string) : res Obj := obj_decode data obj_new.

(** [s.decodeInto(data, out)] for an [out] that may be nil. *)
Definition decode_out (data : string) (out : option Obj) : M (world Obj) (res (option Obj)) :=
  match out with
  | None => ok None
  | Some o => let? o' := of_res (obj_decode data o) in ok (Some o')
  end.

(** [generateUID]. *)
Definition generate_uid : M (world Obj) string := λ w,
  let n := u64_inc (wd_uid w) in
  (MkWorld (wd_fs w) (wd_rv w) (wd_watch w) (wd_key_mu w) n,
   Val ("fsstorage-uid-" +:+ format_uint n)).

(** ** Create, Get, Delete, GuaranteedUpdate *)

Definition create (key : string) (obj : Obj) (out : option Obj)
    : M (world Obj) (res (option Obj)) :=
  match parse_key key with
  | Err e => fail e
  | Ok (resource, namespace, name) =>
      if String.eqb name "" then fail (ErrNameRequired "Create" key) else
      let p := object_path root resource namespace name in
      with_key p (
        let* st := on_fs (os_stat p) in
        match st with
        | Ok _ => fail (ErrKeyExists key 0)
        | Err e =>
            if negb (is_not_exist e) then fail e else
            let? _ := of_res (obj_accessor obj) in
            let* obj1 := (if String.eqb (obj_uid obj) ""
                          then let* u := generate_uid in ret (obj_set_uid u obj)
                          else ret obj) in
            let? rv := next_rv in
            let? obj2 := of_res (obj_set_rv rv obj1) in
            let? data := of_res (obj_encode obj2) in
            let? _ := on_fs (atomic_write p data) in
            let? out' := decode_out data out in
            on_watch (publish (MkEvent rv Added obj2)) ;;;
            ok out'
        end)
  end.

Definition get (key : string) (ignore_not_found : bool) (obj_ptr : Obj)
    : M (world Obj) (res Obj) :=
  match parse_key key with
  | Err e => fail e
  | Ok (resource, namespace, name) =>
      if String.eqb name "" then fail (ErrNameRequired "Get" key) else
      let p := object_path root resource namespace name in
      let* data := on_fs (os_read_file p) in
      match data with
      | Err e =>
          if is_not_exist e then
            if ignore_not_found then ok obj_ptr else fail (ErrKeyNotFound key 0)
          else fail e
      | Ok d => of_res (obj_decode d obj_ptr)
      end
  end.

(** The end of [Delete]: the file is gone, [cur] is what it held. *)
Definition finish_delete (cur : option Obj) (out : option Obj) (rv : N)
    : M (world Obj) (res (option Obj)) :=
  match cur with
  | None => ok out
  | Some c0 =>
      let c := match obj_set_rv rv c0 with Ok c => c | Err _ => c0 end in
      let out' := match out with
                  | None => None
                  | Some o => match obj_encode c with
                              | Ok d => match obj_decode d o with Ok o' => Some o' | Err _ => Some o end
                              | Err _ => Some o
                              end
                  end in
      on_watch (publish (MkEvent rv Deleted c)) ;;;
      ok out'
  end.

(** [preconditions.Check(key, obj)] and [validateDeletion(ctx, obj)] are
    arguments; a nil [validateDeletion] is [None]. *)
Definition delete_obj (key : string) (out : option Obj)
    (preconditions : string → Obj → res unit) (validate : option (Obj → res unit))
    (ignore_store_read_error : bool) : M (world Obj) (res (option Obj)) :=
  match parse_key key with
  | Err e => fail e
  | Ok (resource, namespace, name) =>
      if String.eqb name "" then fail (ErrNameRequired "Delete" key) else
      let p := object_path root resource namespace name in
      with_key p (
        let* data := on_fs (os_read_file p) in
        match data with
        | Err e => if is_not_exist e then fail (ErrKeyNotFound key 0) else fail e
        | Ok d =>
            let? cur := (match decode_fresh d with
                         | Ok c => ok (Some c)
                         | Err e => if ignore_store_read_error then ok None else fail e
                         end) in
            let? _ := (match cur with
                       | None => ok tt
                       | Some c =>
                           let? _ := of_res (preconditions key c) in
                           match validate with None => ok tt | Some v => of_res (v c) end
                       end) in
            let? _ := on_fs (os_remove p) in
            let? rv := next_rv in
            finish_delete cur out rv
        end)
  end.

(** The uid of the object written: kept from the stored object, or generated. *)
Definition keep_uid (exists_ : bool) (cur updated : Obj) : M (world Obj) Obj :=
  if exists_ then
    match obj_accessor cur, obj_accessor updated with
    | Ok _, Ok _ =>
        if String.eqb (obj_uid updated) "" then ret (obj_set_uid (obj_uid cur) updated)
        else ret updated
    | _, _ => ret updated
    end
  else
    match obj_accessor updated with
    | Ok _ =>
        if String.eqb (obj_uid updated) ""
        then let* u := generate_uid in ret (obj_set_uid u updated)
        else ret updated
    | Err _ => ret updated
    end.

(** The part of [GuaranteedUpdate] that writes a changed object. *)
Definition write_update (p : path) (exists_ : bool) (cur updated : Obj) (dest : option Obj)
    : M (world Obj) (res (option Obj)) :=
  let? rv := next_rv in
  let? copy := of_res (obj_set_rv rv updated) in
  let* copy := keep_uid exists_ cur copy in
  let? encoded := of_res (obj_encode copy) in
  let? _ := on_fs (atomic_write p encoded) in
  let? dest' := decode_out encoded dest in
  on_watch (publish (MkEvent rv (if exists_ then Modified else Added) copy)) ;;;
  ok dest'.

(** [tryUpdate(cur, meta)] may change the object it is given: it returns that
    object as it leaves it, and its result. *)
Definition guaranteed_update (key : string) (dest : option Obj) (ignore_not_found : bool)
    (preconditions : string → Obj → res unit) (try_update : Obj → N → Obj * res Obj)
    : M (world Obj) (res (option Obj)) :=
  match parse_key key with
  | Err e => fail e
  | Ok (resource, namespace, name) =>
      if String.eqb name "" then fail (ErrNameRequired "GuaranteedUpdate" key) else
      let p := object_path root resource namespace name in
      with_key p (
        let* data := on_fs (os_read_file p) in
        let? '(cur, cur_data, cur_rv, exists_) :=
          (match data with
           | Ok d =>
               let? c := of_res (decode_fresh d) in
               ok (c, d, match obj_rv c with Ok v => v | Err _ => 0%N end, true)
           | Err e =>
               if is_not_exist e then
                 if negb ignore_not_found then fail (ErrKeyNotFound key 0)
                 else ok (obj_new, "", 0%N, false)
               else fail e
           end) in
        let? _ := (if exists_ then of_res (preconditions key cur) else ok tt) in
        let '(cur', r) := try_update cur cur_rv in
        let? updated := of_res r in
        let? new_data := of_res (obj_encode updated) in
        if exists_ && bytes_equal new_data cur_data then decode_out cur_data dest
        else write_update p exists_ cur' updated dest)
  end.

(** ** GetList, Count, Stats *)

(** [fn] of [GetList]: decode, match, append. *)
Definition collect (pred : Obj → res bool) (items : list Obj) (data : string)
    : list Obj * res unit :=
  match decode_fresh data with
  | Err e => (items, Err e)
  | Ok o => match pred o with
            | Err e => (items, Err e)
            | Ok b => (if b then items ++ [o] else items, Ok tt)
            end
  end.

(** A walk whose accumulator is used only when it succeeds. *)
Definition walk_ok {A} (dir : path) (fn : A → string → A * res unit) (acc : A)
    : M (world Obj) (res A) :=
  let* '(acc', r) := on_fs (walk_objects dir fn acc) in
  match r with Err e => fail e | Ok _ => ok acc' end.

(** The single-object branches of [GetList]. *)
Definition collect_one (p : path) (pred : Obj → res bool) (items : list Obj)
    : M (world Obj) (res (list Obj)) :=
  let* data := on_fs (os_read_file p) in
  match data with
  | Ok d => let '(items', r) := collect pred items d in
            match r with Err e => fail e | Ok _ => ok items' end
  | Err e => if is_not_exist e then ok items else fail e
  end.

Definition update_list (items : list Obj) (rv : N) : M (world Obj) (res (olist Obj)) :=
  let? _ := of_res (obj_update_list rv) in ok (MkOList items rv).

Definition get_list (key : string) (opts : list_options Obj) (items0 : list Obj)
    : M (world Obj) (res (olist Obj)) :=
  let* list_rv := current_rv in
  if negb (lo_recursive opts) then
    match parse_key key with
    | Err e => fail e
    | Ok (resource, namespace, name) =>
        let? items := (if String.eqb name "" then ok items0
                       else collect_one (object_path root resource namespace name)
                              (lo_predicate opts) items0) in
        update_list items list_rv
    end
  else
    let '(resource, namespace, single, name) := parse_prefix key in
    if single then
      let? items := collect_one (object_path root resource namespace name)
                      (lo_predicate opts) items0 in
      update_list items list_rv
    else
      let? items := walk_ok (resource_dir root resource namespace)
                      (collect (lo_predicate opts)) items0 in
      update_list items list_rv.

Definition count (key : string) : M (world Obj) (res N) :=
  let '(resource, namespace, single, name) := parse_prefix key in
  if single then
    let* st := on_fs (os_stat (object_path root resource namespace name)) in
    ok (if is_ok st then 1%N else 0%N)
  else
    walk_ok (resource_dir root resource namespace) (λ n _, ((n + 1)%N, Ok tt)) 0%N.

(** Object count and average size. *)
Definition stats : M (world Obj) (res (N * N)) :=
  let? '(cnt, total) := walk_ok root
      (λ '(c, t) d, ((c + 1, t + N.of_nat (String.length d))%N, Ok tt)) (0, 0)%N in
  ok (cnt, if (0 <? cnt)%N then (total / cnt)%N else 0%N).

(** ** Watch *)

(** [newInitialEndBookmark(rv)]. *)
Definition new_initial_end_bookmark (rv : N) : res Obj :=
  match obj_set_rv rv obj_new with
  | Err e => Err e
  | Ok o => obj_annotate o
  end.

(** The closure [matchesKey]. *)
Definition matches_key (recursive single : bool) (namespace name : string) (o : Obj) : bool :=
  match obj_accessor o with
  | Err _ => false
  | Ok _ =>
      let exact := String.eqb (obj_namespace o) namespace && String.eqb (obj_name o) name in
      if negb recursive then (if single then exact else false)
      else if single then exact
      else negb (negb (String.eqb namespace "") && negb (String.eqb (obj_namespace o) namespace))
  end.

Definition keep_decodable (snap : list Obj) (data : string) : list Obj * res unit :=
  match decode_fresh data with Ok o => (snap ++ [o], Ok tt) | Err _ => (snap, Ok tt) end.

(** The snapshot of a watch from resourceVersion 0: a file that does not
    decode is left out, and an error of the walk is dropped. *)
Definition snapshot (resource namespace : string) (single : bool) (name : string)
    : M (world Obj) (list Obj) :=
  if single then
    let* data := on_fs (os_read_file (object_path root resource namespace name)) in
    ret (match data with Ok d => (keep_decodable [] d).1 | Err _ => [] end)
  else
    let* '(snap, _) := on_fs (walk_objects (resource_dir root resource namespace)
                                keep_decodable []) in
    ret snap.

Fixpoint deliver_all (w : nat) (evs : list (wevent Obj)) : M (world Obj) unit :=
  match evs with
  | [] => ret tt
  | ev :: evs' => on_watch (deliver w ev) ;;; deliver_all w evs'
  end.

(** The events of a replay that the watch selects. *)
Definition selected (mk : Obj → bool) (pred : Obj → res bool) (ev : event Obj) : bool :=
  mk (ev_obj ev) && match pred (ev_obj ev) with Ok true => true | _ => false end.

Definition watch (key : string) (opts : list_options Obj) : M (world Obj) (res nat) :=
  let? start_rv :=
    (if String.eqb (lo_resource_version opts) "" then ok 0%N
     else match obj_parse_rv (lo_resource_version opts) with
          | Ok v => ok v
          | Err e => fail (ErrBadRequest e)
          end) in
  let '(resource, namespace, single, name) := parse_prefix key in
  let mk := matches_key (lo_recursive opts) single namespace name in
  let* w := on_watch (new_watcher (lo_predicate opts) mk 100) in
  on_watch lock ;;;
  let* current := current_rv in
  let initial_end := match lo_send_initial_events opts with Some b => b | None => false end in
  let subscribe := (on_watch (subscribe_locked w) ;;; on_watch (modify unlock) ;;; ok w) in
  if (start_rv =? 0)%N then
    let* snap := snapshot resource namespace single name in
    deliver_all w (map (λ o, MkWEvent Added (WObj o)) snap) ;;;
    (if initial_end then
       match new_initial_end_bookmark current with
       | Ok o => on_watch (deliver w (MkWEvent Bookmark (WObj o)))
       | Err _ => ret tt
       end
     else ret tt) ;;;
    subscribe
  else if (start_rv <? current)%N then
    let* ring := gets (λ st, b_ring (ws_b (wd_watch st))) in
    match replay_locked start_rv ring with
    | None =>
        on_watch (modify unlock) ;;;
        on_watch (stop_with_error w (ErrExpired start_rv current)) ;;;
        ok w
    | Some replay =>
        deliver_all w (map wevent_of (List.filter (selected mk (lo_predicate opts)) replay)) ;;;
        subscribe
    end
  else subscribe.

(** [New(cfg)]: the shared counter's value and an empty broadcaster; without a
    shared counter the store loads its own. *)
Definition new_store (cfg_root : string) (has_codec has_newer : bool) (counter : option N)
    : M fs (res (N * wstate Obj)) :=
  if String.eqb cfg_root "" then fail (ErrText "fsstorage: Root is required")
  else if negb has_codec then fail (ErrText "fsstorage: Codec is required")
  else if negb has_newer then fail (ErrText "fsstorage: Newer is required")
  else
    let* r := os_mkdir_all (clean cfg_root) in
    match r with
    | Err e => fail (ErrWrap "fsstorage: create root" e)
    | Ok _ =>
        let? rv := (match counter with Some v => ok v | None => load (clean cfg_root) end) in
        ok (rv, MkWState (new_broadcaster 1000) ∅ 0 [])
    end.
End store.
