(* ===== verification/StoreFacts.v ===== *)
(** * The on-disk layout and what each operation does to it

    [layout] is the well-formedness of a data directory; [abs] reads the
    objects off it.  The lemmas say what writing and removing a file do to
    both, for the object files and for the counter's file. *)

From S2P Require Import Prelude GoStrings Fs Counter Watch Keys Store.

(** ** Laws of the k8s.io operations *)

Class ApiObjectLaws (Obj : Type) `{ApiObject Obj} := {
  obj_norm : Obj → Obj;                      (* what decoding an encoded object yields *)
  decode_encoded o d : obj_encode o = Ok d → obj_decode d obj_new = Ok (obj_norm o);
  encode_norm o : obj_encode (obj_norm o) = obj_encode o;
  encode_total o : obj_accessor o = Ok tt → ∃ d, obj_encode o = Ok d;
  accessor_norm o : obj_accessor (obj_norm o) = obj_accessor o;
  accessor_decode d o : obj_decode d obj_new = Ok o → obj_accessor o = Ok tt;
  accessor_set_uid u o : obj_accessor (obj_set_uid u o) = obj_accessor o;
  accessor_set_rv v o o' : obj_set_rv v o = Ok o' → obj_accessor o' = obj_accessor o;
  accessor_new : obj_accessor obj_new = Ok tt;
  set_rv_total v o : obj_accessor o = Ok tt → ∃ o', obj_set_rv v o = Ok o';
  rv_set_rv v o o' : obj_set_rv v o = Ok o' → obj_rv o' = Ok v;
  uid_set_rv v o o' : obj_set_rv v o = Ok o' → obj_uid o' = obj_uid o;
  uid_set_uid u o : obj_uid (obj_set_uid u o) = u;
  rv_set_uid u o : obj_rv (obj_set_uid u o) = obj_rv o;
  rv_norm o : obj_rv (obj_norm o) = obj_rv o;
  uid_norm o : obj_uid (obj_norm o) = obj_uid o;
  update_list_total v : obj_update_list v = Ok tt
}.

(** ** Names *)

Definition dot : ascii := "."%char.

(** A DNS label: resource and namespace names. *)
Definition label (s : string) : Prop :=
  s ≠ "" ∧ contains_byte slash s = false ∧ contains_byte dot s = false.

#[export] Instance label_dec s : Decision (label s).
Proof. unfold label. apply _. Defined.

Lemma label_good s : label s → good_seg s.
Proof.
  intros (H1 & H2 & H3). split; [done|]. split; [by intros ->|]. split; [by intros ->|done].
Qed.

Lemma skip_json n : has_prefix "." n = false → n ≠ "" → skip_file (n +:+ ".json") = false.
Proof.
  intros H Hne. unfold skip_file. rewrite has_suffix_app. simpl.
  by destruct n as [|c n].
Qed.

Lemma skip_tmp s : skip_file (s +:+ ".tmp") = true.
Proof.
  unfold skip_file. change ".tmp" with (".tm" +:+ String "p" ""). rewrite <- append_assoc.
  change ".json" with (".jso" +:+ String "n" "").
  by rewrite has_suffix_last.
Qed.

Lemma skip_hidden s : skip_file (String "." s) = true.
Proof. unfold skip_file. simpl. by rewrite orb_true_r. Qed.

(** ** The layout of a data directory *)

Section layout.
Context {Obj : Type} `{ApiObject Obj} (root : path).

(** Every node hangs from directories. *)
Definition rooted (m : gmap path node) (p : path) : Prop :=
  proper p ∧ Forall (λ q, lookup_node m q = Some Dir) (prefixes [] p).

Record layout (m : gmap path node) : Prop := {
  lay_rooted p n : m !! p = Some n → rooted m p;
  lay_file p d : m !! p = Some (File d) → contains_byte dot (base_name p) = true;
  lay_dir p : m !! p = Some Dir → (length p ≤ length root)%nat ∨
                                  contains_byte dot (base_name p) = false;
  lay_root : resolve m root = Ok Dir;
  lay_objects p d : m !! p = Some (File d) → skip_file (base_name p) = false →
                    ∃ o, decode_fresh d = Ok o ∧ obj_encode o = Ok d
}.

(** The object a node holds. *)
Definition node_object (p : path) (n : node) : option Obj :=
  match n with
  | Dir => None
  | File d => if skip_file (base_name p) then None
              else match decode_fresh d with Ok o => Some o | Err _ => None end
  end.

Definition abs (m : gmap path node) : gmap path Obj := map_imap node_object m.

Lemma abs_lookup m p : abs m !! p = m !! p ≫= node_object p.
Proof. apply map_lookup_imap. Qed.

Lemma prefixes_in q p : In q (prefixes [] p) → ∃ r, p = q ++ r ∧ r ≠ [].
Proof.
  assert (G : ∀ pre, In q (prefixes pre p) → ∃ r, pre ++ p = q ++ r ∧ r ≠ []);
    [|intros Hq; by apply (G []) in Hq].
  induction p as [|s p IH]; intros pre; simpl; [done|].
  intros [<-|Hq]; [by exists (s :: p)|]. destruct (IH _ Hq) as (r & E & Hr).
  exists r. by rewrite <- E, <- app_assoc.
Qed.

Lemma prefixes_intro q r : r ≠ [] → In q (prefixes [] (q ++ r)).
Proof.
  revert q. induction r as [|s r IH] using rev_ind; intros q Hr; [done|].
  rewrite app_assoc, prefixes_app. apply List.in_or_app.
  destruct r as [|s' r]; [right; left; by rewrite app_nil_r|left; by apply IH].
Qed.

Lemma rooted_open m p : rooted m p → no_file_above m p.
Proof. intros [_ H1]. eapply Forall_impl; [exact H1|]. by intros q ->. Qed.

Lemma resolve_rooted m p : layout m → proper p → no_file_above m p →
  resolve m p = match m !! p with Some n => Ok n | None => Err ErrNotExist end.
Proof. intros Hl Hp Ha. by rewrite resolve_open, lookup_node_proper. Qed.

(** A file is above nothing. *)
Lemma file_leaf m p d q n :
  layout m → proper p → m !! p = Some (File d) → m !! q = Some n → ¬ In p (prefixes [] q).
Proof.
  intros Hl Hp Hf Hq Hin. destruct (lay_rooted m Hl q n Hq) as [_ Hall].
  rewrite List.Forall_forall in Hall. specialize (Hall p Hin). simpl in Hall.
  rewrite lookup_node_proper, Hf in Hall by done. done.
Qed.

(** What hangs below a directory hangs from directories. *)
Lemma dir_rooted m d : layout m → resolve m d = Ok Dir →
  Forall (λ q, lookup_node m q = Some Dir) (prefixes [] d ++ [d]).
Proof.
  intros Hl [Hd _]%resolve_ok. apply Forall_app. split; [|each done].
  destruct (decide (proper d)) as [Hp|Hp].
  - rewrite lookup_node_proper in Hd by done. by apply (lay_rooted m Hl) in Hd as [_ Hd].
  - unfold proper in Hp. destruct d as [|[|] [|]]; try (exfalso; apply Hp; done);
      simpl; each done.
Qed.

Lemma rooted_snoc m d x : layout m → resolve m d = Ok Dir → x ≠ "" → rooted m (d ++ [x]).
Proof.
  intros Hl Hd Hx. split; [by apply proper_snoc|]. rewrite prefixes_app. simpl.
  by apply dir_rooted.
Qed.

(** ** What stays while files come and go *)

(** Directories stay, and what is new is not far below the root. *)
Definition tree (m m' : gmap path node) : Prop :=
  (∀ q, m !! q = Some Dir → m' !! q = Some Dir) ∧
  ∀ q n, m' !! q = Some n → is_Some (m !! q) ∨ (length q ≤ length root + 3)%nat.

#[export] Instance tree_preorder : PreOrder tree.
Proof.
  split; [split; eauto|]. intros m1 m2 m3 [D1 N1] [D2 N2]. split; [auto|].
  intros q n [[n' E]|H3]%N2; [by eapply N1|by right].
Qed.

(** ** Writing a file through its temporary file *)

Definition put_file (tmp p : path) (data : string) (m : gmap path node) : gmap path node :=
  <[p := File data]> (delete tmp m).

Section put.
Context (m : gmap path node) (d : path) (x x' data : string).
Hypothesis Hl : layout m.
Hypothesis Hd : resolve m d = Ok Dir.
Hypothesis Hx : x ≠ "".
Hypothesis Hx' : x' ≠ "".
Hypothesis Hp : m !! (d ++ [x]) ≠ Some Dir.
Hypothesis Ht : m !! (d ++ [x']) ≠ Some Dir.
Hypothesis Hne : x ≠ x'.

Let m' := put_file (d ++ [x']) (d ++ [x]) data m.

Lemma put_dir q : lookup_node m q = Some Dir → lookup_node m' q = Some Dir.
Proof.
  intros Hq. unfold m', put_file.
  assert (Hne1 : d ++ [x] ≠ q).
  { intros <-. rewrite lookup_node_proper in Hq by by apply proper_snoc. done. }
  assert (Hne2 : d ++ [x'] ≠ q).
  { intros <-. rewrite lookup_node_proper in Hq by by apply proper_snoc. done. }
  by rewrite lookup_node_insert_ne, lookup_node_delete_ne.
Qed.

Lemma put_tree : (length d ≤ length root + 2)%nat → tree m m'.
Proof.
  intros Hlen. split.
  - intros q Hq. unfold m', put_file. rewrite lookup_insert_ne, lookup_delete_ne; [done|by intros <-..].
  - intros q n. unfold m', put_file. rewrite lookup_insert. case_decide as E.
    + intros _. right. rewrite <- E, length_app. simpl. lia.
    + intros [_ E']%lookup_delete_Some. left. by eexists.
Qed.

Lemma put_rooted q : rooted m q → rooted m' q.
Proof.
  intros [H1 H2]. split; [done|]. eapply Forall_impl; [exact H2|]. simpl. apply put_dir.
Qed.

Lemma put_lookup q n : m' !! q = Some n →
  (q = d ++ [x] ∧ n = File data) ∨ (q ≠ d ++ [x] ∧ q ≠ d ++ [x'] ∧ m !! q = Some n).
Proof.
  unfold m', put_file. rewrite lookup_insert. case_decide as E; [intros [= <-]; by left|].
  rewrite lookup_delete. case_decide; [done|]. by right.
Qed.

Lemma layout_put :
  contains_byte dot x = true →
  (skip_file x = false → ∃ o, decode_fresh data = Ok o ∧ obj_encode o = Ok data) →
  layout m'.
Proof.
  intros Hdot Hobj. constructor.
  - intros q n [[-> _]|(_ & _ & Hq)]%put_lookup; apply put_rooted.
    + by apply rooted_snoc.
    + by eapply lay_rooted.
  - intros q b [[-> _]|(_ & _ & Hq)]%put_lookup; [by rewrite base_name_snoc|].
    by eapply lay_file.
  - intros q [[_ [=]]|(_ & _ & Hq)]%put_lookup. by eapply lay_dir.
  - pose proof (dir_rooted m root Hl (lay_root m Hl)) as Hr. apply Forall_app in Hr as [Hr1 Hr2].
    inversion Hr2; subst. rewrite resolve_open; [by rewrite put_dir|].
    eapply Forall_impl; [exact Hr1|]. simpl. intros q Hq. by rewrite (put_dir q Hq).
  - intros q b [[-> [= ->]]|(_ & _ & Hq)]%put_lookup.
    + rewrite base_name_snoc. done.
    + by eapply lay_objects.
Qed.

Lemma abs_put : skip_file x' = true →
  abs m' = match node_object (d ++ [x]) (File data) with
           | Some o => <[d ++ [x] := o]> (abs m)
           | None => delete (d ++ [x]) (abs m)
           end.
Proof.
  intros Hs. apply map_eq. intros q. rewrite abs_lookup. unfold m', put_file.
  destruct (decide (q = d ++ [x])) as [->|Hq].
  - rewrite lookup_insert_eq. simpl.
    destruct (node_object (d ++ [x]) (File data)) as [o|] eqn:E; simpl in *; rewrite E;
      [by rewrite lookup_insert_eq|by rewrite lookup_delete_eq].
  - rewrite lookup_insert_ne by done.
    assert (G : (delete (d ++ [x']) m) !! q ≫= node_object q = abs m !! q).
    { rewrite abs_lookup. destruct (decide (q = d ++ [x'])) as [->|Hq'];
        [|by rewrite lookup_delete_ne].
      rewrite lookup_delete_eq. simpl. destruct (m !! (d ++ [x'])) as [[b|]|]; [|done..].
      simpl. by rewrite base_name_snoc, Hs. }
    rewrite G. destruct (node_object _ _); [by rewrite lookup_insert_ne|by rewrite lookup_delete_ne].
Qed.
End put.

(** ** Removing a file, adding directories *)

Lemma layout_delete m p b : layout m → proper p → m !! p = Some (File b) → layout (delete p m).
Proof.
  intros Hl Hp Hf.
  assert (Hdir : ∀ q, lookup_node m q = Some Dir → lookup_node (delete p m) q = Some Dir).
  { intros q Hq. rewrite lookup_node_delete_ne; [done|]. intros ->.
    by rewrite lookup_node_proper, Hf in Hq. }
  assert (Hlk : ∀ q n, delete p m !! q = Some n → m !! q = Some n)
    by (intros q n [_ H1]%lookup_delete_Some; done).
  constructor.
  - intros q n Hq%Hlk. destruct (lay_rooted m Hl q n Hq) as [H1 H2].
    split; [done|]. eapply Forall_impl; [exact H2|]. done.
  - intros q d Hq%Hlk. by eapply lay_file.
  - intros q Hq%Hlk. by eapply lay_dir.
  - pose proof (dir_rooted m root Hl (lay_root m Hl)) as Hr. apply Forall_app in Hr as [Hr1 Hr2].
    inversion Hr2; subst. rewrite resolve_open; [by rewrite Hdir|].
    eapply Forall_impl; [exact Hr1|]. simpl. intros q Hq. by rewrite (Hdir q Hq).
  - intros q d Hq%Hlk. by eapply lay_objects.
Qed.

Lemma abs_delete m p : abs (delete p m) = delete p (abs m).
Proof.
  apply map_eq. intros q. rewrite abs_lookup. destruct (decide (p = q)) as [->|Hne].
  - by rewrite !lookup_delete_eq.
  - by rewrite !lookup_delete_ne, abs_lookup.
Qed.

Lemma layout_grown m m' p :
  layout m → grown (prefixes [] p ++ [p]) m m' →
  Forall (λ q, lookup_node m' q = Some Dir) (prefixes [] p ++ [p]) →
  Forall (λ q, (length q ≤ length root)%nat ∨ contains_byte dot (base_name q) = false)
         (prefixes [] p ++ [p]) →
  layout m' ∧ abs m' = abs m.
Proof.
  intros Hl Hg Hall Hdot.
  assert (Hdir : ∀ q, lookup_node m q = Some Dir → lookup_node m' q = Some Dir)
    by (intros q; by eapply lookup_node_grown).
  assert (Hlk : ∀ q n, m' !! q = Some n → m !! q = Some n ∨
            (n = Dir ∧ In q (prefixes [] p ++ [p]) ∧ proper q)).
  { intros q n Hq. destruct (Hg q) as [E|(_ & E & Hin & Hpq)]; [left; congruence|right].
    split; [congruence|done]. }
  rewrite List.Forall_forall in Hall, Hdot. split; [constructor|].
  - intros q n [Hq|(_ & Hin & Hpq)]%Hlk.
    + destruct (lay_rooted m Hl q n Hq) as [H1 H2]. split; [done|].
      eapply Forall_impl; [exact H2|]. done.
    + split; [done|]. rewrite List.Forall_forall. intros r Hr. apply Hall.
      apply prefixes_in in Hr as (t & -> & Ht). apply List.in_or_app. left.
      apply List.in_app_or in Hin as [(u & -> & _)%prefixes_in|[->|[]]];
        rewrite <- ?app_assoc; apply prefixes_intro; by destruct t.
  - intros q b [Hq|([=] & _)]%Hlk. by eapply lay_file.
  - intros q [Hq|(_ & Hin & _)]%Hlk; [by eapply lay_dir|by apply Hdot].
  - pose proof (dir_rooted m root Hl (lay_root m Hl)) as Hr. apply Forall_app in Hr as [Hr1 Hr2].
    inversion Hr2; subst. rewrite resolve_open; [by rewrite Hdir|].
    eapply Forall_impl; [exact Hr1|]. simpl. intros q Hq. by rewrite (Hdir q Hq).
  - intros q b [Hq|([=] & _)]%Hlk. by eapply lay_objects.
  - apply map_eq. intros q. rewrite !abs_lookup.
    destruct (Hg q) as [->|(-> & -> & _)]; done.
Qed.
End layout.

(** ** The steps of the operations, on a schedule without failures *)

Section steps.
Context {Obj : Type} `{ApiObjectLaws Obj} (root : path) (Hroot : good_base root).
Implicit Types (m : gmap path node) (p : path).

(** The key of an object: the names are those the API server validates. *)
Definition target (key : string) p : Prop :=
  ∃ r ns n, parse_key key = Ok (r, ns, n) ∧ n ≠ "" ∧ p = object_path root r ns n ∧
    label r ∧ (ns = "" ∨ label ns) ∧ contains_byte slash n = false ∧ has_prefix "." n = false.

Lemma labels_open m l : layout root m → Forall label l →
  no_file_above m (root ++ l) ∧ is_file (lookup_node m (root ++ l)) = false.
Proof.
  intros Hl. induction l as [|s l IH] using rev_ind; intros Hlab.
  - rewrite app_nil_r. pose proof (lay_root root m Hl) as [E Ho]%resolve_ok. by rewrite E.
  - apply Forall_app in Hlab as [Hlab Hs]. inversion Hs as [|? ? (Hs1 & _ & Hs3) _]; subst.
    destruct (IH Hlab) as [IH1 IH2]. rewrite app_assoc. split.
    + unfold no_file_above. rewrite prefixes_app. apply Forall_app.
      split; [done|each done].
    + rewrite lookup_node_proper by by apply proper_snoc.
      destruct (m !! ((root ++ l) ++ [s])) as [[b|]|] eqn:E; [|done..].
      apply (lay_file root m Hl) in E. rewrite base_name_snoc in E. congruence.
Qed.

Lemma target_shape key p : target key p →
  ∃ l n, p = (root ++ l) ++ [n +:+ ".json"] ∧ l ≠ [] ∧ Forall label l ∧
         n ≠ "" ∧ contains_byte slash n = false ∧ has_prefix "." n = false.
Proof.
  intros (r & ns & n & _ & Hn & -> & Hr & Hns & Hs & Hd).
  rewrite object_path_eq; [|done|by apply label_good| |by split].
  2:{ destruct Hns as [->|Hns]; [by left|right; by apply label_good]. }
  unfold tail_of. destruct (String.eqb_spec ns "") as [->|Hne].
  - exists [r], n. rewrite <- app_assoc. repeat split; try done. each done.
  - destruct Hns as [->|Hns]; [done|]. exists [r; ns], n. rewrite <- app_assoc.
    repeat split; try done. each done.
Qed.

(** What an operation finds at the path of an object. *)
Record ready m p : Prop := {
  rd_proper : proper p;
  rd_above : no_file_above m p;
  rd_not_dir : m !! p ≠ Some Dir;
  rd_name : skip_file (base_name p) = false
}.

Lemma target_length key p : target key p → (length p ≤ length root + 3)%nat.
Proof.
  intros (r & ns & n & _ & Hn & -> & Hr & Hns & Hs & Hd).
  rewrite object_path_eq; [|done|by apply label_good| |by split].
  2:{ destruct Hns as [->|Hns]; [by left|right; by apply label_good]. }
  unfold tail_of. rewrite length_app. destruct (String.eqb ns ""); simpl; lia.
Qed.

Lemma dotted_not_dir m d x : layout root m → (length root ≤ length d)%nat →
  contains_byte dot x = true → m !! (d ++ [x]) ≠ Some Dir.
Proof.
  intros Hl Hlen Hx E. apply (lay_dir root m Hl) in E as [E|E].
  - rewrite length_app in E. simpl in E. lia.
  - rewrite base_name_snoc in E. congruence.
Qed.

Lemma contains_dot_suffix n s : contains_byte dot s = true → contains_byte dot (n +:+ s) = true.
Proof. intros E. by rewrite contains_byte_app, E, orb_true_r. Qed.

Lemma target_ready m key p : layout root m → target key p → ready m p.
Proof.
  intros Hl Ht. apply target_shape in Ht as (l & n & -> & Hne & Hlab & Hn & Hs & Hd).
  destruct (labels_open m l Hl Hlab) as [H1 H2]. constructor.
  - apply proper_snoc. by destruct n.
  - unfold no_file_above. rewrite prefixes_app. apply Forall_app. split; [done|each done].
  - apply dotted_not_dir; [done|rewrite length_app; lia|by apply contains_dot_suffix].
  - rewrite base_name_snoc. by apply skip_json.
Qed.

(** A file of the layout holds the object the abstraction sees, in the bytes
    the codec gives it. *)
Lemma ready_content m p : layout root m → ready m p →
  match abs m !! p with
  | Some o => ∃ b, m !! p = Some (File b) ∧ decode_fresh b = Ok o ∧ obj_encode o = Ok b
  | None => m !! p = None
  end.
Proof.
  intros Hl [_ _ Hnd Hn]. rewrite abs_lookup.
  destruct (m !! p) as [[b|]|] eqn:E; [|done..]. simpl. rewrite Hn.
  destruct (lay_objects root m Hl p b E Hn) as (o & Hd & He). rewrite Hd. eauto.
Qed.

Lemma ready_resolve m p : ready m p →
  resolve m p = match m !! p with Some n => Ok n | None => Err ErrNotExist end.
Proof. intros [Hp Ha _ _]. by rewrite resolve_open, lookup_node_proper. Qed.

Lemma stat_quiet m key p : layout root m → target key p →
  os_stat p (MkFs m []) =
    (MkFs m [], Val (match m !! p with Some n => Ok n | None => Err ErrNotExist end)).
Proof.
  intros Hl Ht. apply syscall_quiet; [done|]. simpl.
  by rewrite ready_resolve by by eapply target_ready.
Qed.

Lemma read_quiet m key p : layout root m → target key p →
  os_read_file p (MkFs m []) =
    (MkFs m [], Val (match m !! p with Some (File b) => Ok b | _ => Err ErrNotExist end)).
Proof.
  intros Hl Ht. apply syscall_quiet; [done|]. simpl.
  pose proof (target_ready m key p Hl Ht) as Hr. rewrite ready_resolve by done.
  destruct (m !! p) as [[b|]|] eqn:E; [done| |done]. by apply (rd_not_dir m p Hr) in E.
Qed.

(** The counter's file is not among the objects. *)
Lemma counter_files m : layout root m →
  m !! (root ++ [".rv"]) ≠ Some Dir ∧ m !! (root ++ [".rv.tmp"]) ≠ Some Dir.
Proof. intros Hl. split; by apply dotted_not_dir. Qed.

Lemma next_quiet m v : layout root m → durable root m = Ok v → (v < max_u64)%N →
  ∃ m', next root (MkCounter (MkFs m []) v)
        = (MkCounter (MkFs m' []) (v + 1), Val (Ok (v + 1)%N)) ∧
    layout root m' ∧ abs m' = abs m ∧ durable root m' = Ok (v + 1)%N ∧
    (∀ q, ¬ counter_path root q → m' !! q = m !! q) ∧ tree root m m'.
Proof.
  intros Hl Hd Hv. destruct (counter_files m Hl) as [Hf Ht].
  set (m' := put_file (root ++ [".rv.tmp"]) (root ++ [".rv"]) (format_uint (u64_inc v)) m).
  assert (E : next root (MkCounter (MkFs m []) v)
              = (MkCounter (MkFs m' []) (u64_inc v), Val (Ok (u64_inc v)))).
  { unfold next. run_ok ltac:(reflexivity). run_ok ltac:(reflexivity).
    erewrite bind_val.
    2:{ apply zoom_run. simpl. unfold persist. rewrite tmp_eq, file_eq by done.
        apply replace_file_quiet; simpl; [done|by apply lay_root|done| |done|].
        - by intros [_ [=]]%app_inj_tail.
        - by rewrite lookup_node_proper by by apply proper_snoc. }
    reflexivity. }
  rewrite u64_inc_small in E by done.
  pose proof (wp_run _ _ _ _ _ E (wp_next root Hroot (MkCounter (MkFs m []) v) Hd Hv)) as [Hfr (_ & _ & Hok)].
  exists m'. split; [exact E|]. split; [|split; [|split; [exact Hok|split; [exact Hfr|]]]].
  - apply layout_put; try done. by apply lay_root.
  - unfold m'. rewrite (abs_put m root ".rv" ".rv.tmp") by done. simpl.
    rewrite base_name_snoc, skip_hidden. apply map_eq. intros q.
    destruct (decide (root ++ [".rv"] = q)) as [<-|Hq]; [|by rewrite lookup_delete_ne].
    rewrite lookup_delete_eq, abs_lookup. destruct (m !! _) as [[b|]|]; [|done..].
    simpl. by rewrite base_name_snoc, skip_hidden.
  - apply put_tree; try done. lia.
Qed.

Lemma durable_keep m m' v key p : layout root m → target key p → durable root m = Ok v →
  (∀ q, q ≠ p → q ≠ path_append p ".tmp" →
     m' !! q = m !! q ∨ (m !! q = None ∧ proper q ∧
       ((length q ≤ length root)%nat ∨ contains_byte dot (base_name q) = false))) →
  (∀ q, lookup_node m q = Some Dir → lookup_node m' q = Some Dir) →
  durable root m' = Ok v.
Proof.
  intros Hl Ht Hd Hm Hdir. apply (durable_frame root Hroot m); [done| |].
  - intros q Hq. pose proof (dir_rooted root m root Hl (lay_root root m Hl)) as Hr.
    rewrite file_eq, prefixes_app in Hq by done. rewrite List.Forall_forall in Hr.
    specialize (Hr q Hq). simpl in Hr. specialize (Hdir q Hr).
    apply target_shape in Ht as (l & n & -> & Hne & _). rewrite path_append_snoc in Hm.
    assert (Hlen : (length q ≤ length root)%nat).
    { apply List.in_app_or in Hq as [Hq|[<-|[]]]; [|done].
      apply prefixes_length in Hq. simpl in Hq. lia. }
    assert (Hln : (length root < length ((root ++ l)) + 1)%nat)
      by (rewrite length_app; destruct l; [done|simpl; lia]).
    destruct (Hm q) as [E|(E & Hp & _)]; [..|exact E|].
    1,2: intros ->; rewrite !length_app in Hlen; rewrite length_app in Hln; simpl in *; lia.
    rewrite lookup_node_proper in Hr by done. congruence.
  - rewrite file_eq by done. apply target_shape in Ht as (l & n & -> & Hne & _).
    rewrite path_append_snoc in Hm.
    assert (Hlen : ∀ x, root ++ [".rv"] ≠ (root ++ l) ++ [x]).
    { intros x E. apply (f_equal length) in E. rewrite !length_app in E.
      destruct l; [done|]. simpl in E. lia. }
    destruct (Hm (root ++ [".rv"])) as [E|(_ & _ & [E|E])];
      [apply Hlen..|exact E| |by rewrite base_name_snoc in E].
    rewrite length_app in E. simpl in E. lia.
Qed.

Lemma label_prefixes l : Forall label l →
  Forall (λ q, (length q ≤ length root)%nat ∨ contains_byte dot (base_name q) = false)
         (prefixes [] (root ++ l) ++ [root ++ l]).
Proof.
  intros Hl. induction l as [|s l IH] using rev_ind.
  - rewrite app_nil_r. apply Forall_app. split; [|each ltac:(by left)].
    rewrite List.Forall_forall. intros q Hq%prefixes_length. left. simpl in Hq. lia.
  - apply Forall_app in Hl as [Hl Hs]. inversion Hs as [|? ? (_ & _ & Hs3) _]; subst.
    rewrite app_assoc, prefixes_app. apply Forall_app. split; [by apply IH|].
    each ltac:(right; by rewrite base_name_snoc).
Qed.

(** [atomicWrite] on the path of an object. *)
Lemma atomic_write_quiet m v key p data o :
  layout root m → target key p → durable root m = Ok v →
  decode_fresh data = Ok o → obj_encode o = Ok data →
  ∃ m', atomic_write p data (MkFs m []) = (MkFs m' [], Val (Ok tt)) ∧
    layout root m' ∧ abs m' = <[p := o]> (abs m) ∧ durable root m' = Ok v ∧ tree root m m'.
Proof.
  intros Hl Ht Hd Hdec Henc.
  pose proof Ht as (l & n & Ep & Hne & Hlab & Hn & Hs & Hh)%target_shape.
  destruct (labels_open m l Hl Hlab) as [Ho Hf].
  destruct (mkdir_all_quiet (root ++ l) (MkFs m [])) as (m1 & E1 & Hg & Hr & Hall); [done..|].
  simpl in Hg.
  destruct (layout_grown root m m1 (root ++ l)) as [Hl1 Ea]; [done..|by apply label_prefixes|].
  set (m' := put_file (path_append p ".tmp") p data m1).
  pose proof (skip_json n Hh Hn) as Hskip.
  assert (Hdj : contains_byte dot (n +:+ ".json") = true) by by apply contains_dot_suffix.
  assert (Hdt : contains_byte dot ((n +:+ ".json") +:+ ".tmp") = true)
    by by apply contains_dot_suffix.
  assert (Hxt : (n +:+ ".json") +:+ ".tmp" ≠ "") by by destruct n.
  assert (Hx : n +:+ ".json" ≠ "") by by destruct n.
  assert (Hxx : n +:+ ".json" ≠ (n +:+ ".json") +:+ ".tmp").
  { intros E. rewrite append_assoc in E. by apply append_inj_l in E. }
  assert (Hlen : (length root ≤ length (root ++ l))%nat) by (rewrite length_app; lia).
  assert (Hnd : m1 !! ((root ++ l) ++ [n +:+ ".json"]) ≠ Some Dir)
    by by apply dotted_not_dir.
  assert (Hnt : m1 !! ((root ++ l) ++ [(n +:+ ".json") +:+ ".tmp"]) ≠ Some Dir)
    by by apply dotted_not_dir.
  pose proof (target_length key p Ht) as Hpl.
  exists m'. subst m' p. rewrite path_append_snoc. split; [|split; [|split; [|split]]].
  - unfold atomic_write. rewrite dir_of_snoc, path_append_snoc. run_ok ltac:(exact E1).
    apply replace_file_quiet; simpl; try done.
    + by intros [_ E]%app_inj_tail.
    + by rewrite lookup_node_proper by by apply proper_snoc.
  - apply layout_put; try done. eauto.
  - rewrite abs_put by (done || apply skip_tmp). simpl.
    by rewrite base_name_snoc, Hskip, Hdec, Ea.
  - eapply durable_keep; [exact Hl|exact Ht|exact Hd| |].
    + rewrite path_append_snoc. intros q H1 H2. unfold put_file.
      rewrite lookup_insert_ne, lookup_delete_ne by done.
      destruct (Hg q) as [->|(Eq & Eq' & Hin & Hp)]; [by left|right].
      split; [done|]. split; [done|]. pose proof (label_prefixes l Hlab) as Hlp.
      rewrite List.Forall_forall in Hlp. by apply Hlp.
    + intros q Hq. apply put_dir; try done. by eapply lookup_node_grown.
  - rewrite length_app in Hpl. simpl in Hpl. transitivity m1; [|apply put_tree; try done; lia].
    split; [intros q Hq; by destruct (Hg q) as [->|(E & _)]; [|congruence]|].
    intros q n' Hq. destruct (Hg q) as [<-|(_ & _ & Hin & _)]; [by left; eexists|right].
    apply in_app_iff in Hin as [Hin|[<-|[]]]; [apply prefixes_length in Hin; simpl in Hin|]; lia.
Qed.
End steps.
