(* ===== verification/StoreSpec.v ===== *)
(** * The contract of the storage backend, and its refinement

    A store promises a map from keys to objects, a counter, and a log of the
    events it has published, in order.  [spec_create], [spec_get],
    [spec_delete] and [spec_update] are the operations on that abstract state;
    [R] relates it to the files, the counter, the ring and the locks, and the
    [*_refines] theorems say that the store's operations run to completion
    with the result and the state of the abstract ones. *)

From S2P Require Import Prelude GoStrings Fs Counter Watch Keys Store StoreFacts.

(** ** The abstract state *)

Record astate (Obj : Type) := MkA {
  a_kv : gmap path Obj;                (* the objects *)
  a_rv : N;                            (* the last resourceVersion issued *)
  a_log : list (path * event Obj);     (* every event published so far *)
  a_uid : N                            (* the last uid generated *)
}.
Arguments MkA {Obj} _ _ _ _.
Arguments a_kv {Obj} _.
Arguments a_rv {Obj} _.
Arguments a_log {Obj} _.
Arguments a_uid {Obj} _.

Section spec.
Context {Obj : Type} `{ApiObjectLaws Obj} (root : path).
Implicit Types (a : astate Obj) (w : world Obj) (p : path).

(** The object with a resourceVersion. *)
Definition stamp (v : N) (o : Obj) : Obj :=
  match obj_set_rv v o with Ok o' => o' | Err _ => o end.

(** Give the object a fresh uid unless it has one. *)
Definition fresh_uid (o : Obj) a : Obj * astate Obj :=
  if String.eqb (obj_uid o) "" then
    let n := u64_inc (a_uid a) in
    (obj_set_uid ("fsstorage-uid-" +:+ format_uint n) o, MkA (a_kv a) (a_rv a) (a_log a) n)
  else (o, a).

(** Store [o] at [p] under the next resourceVersion, with its event. *)
Definition commit (p : path) (ty : etype) (o : Obj) a : astate Obj :=
  MkA (<[p := obj_norm o]> (a_kv a)) (a_rv a + 1)
      (a_log a ++ [(p, MkEvent (a_rv a + 1)%N ty o)]) (a_uid a).

Definition spec_create (key : string) (p : path) (obj : Obj) (want_out : bool) a
    : astate Obj * res (option Obj) :=
  match a_kv a !! p with
  | Some _ => (a, Err (ErrKeyExists key 0))
  | None =>
      let '(o, a1) := fresh_uid obj a in
      let o2 := stamp (a_rv a + 1) o in
      (commit p Added o2 a1, Ok (if want_out then Some (obj_norm o2) else None))
  end.

Definition spec_get (key : string) (p : path) (ignore_not_found : bool) a
    : astate Obj * res Obj :=
  (a, match a_kv a !! p with
      | Some o => Ok o
      | None => if ignore_not_found then Ok obj_new else Err (ErrKeyNotFound key 0)
      end).

Definition checks (key : string) (pre : string → Obj → res unit)
    (validate : option (Obj → res unit)) (o : Obj) : res unit :=
  match pre key o with
  | Err e => Err e
  | Ok _ => match validate with None => Ok tt | Some v => v o end
  end.

Definition spec_delete (key : string) (p : path) (want_out : bool)
    (pre : string → Obj → res unit) (validate : option (Obj → res unit)) a
    : astate Obj * res (option Obj) :=
  match a_kv a !! p with
  | None => (a, Err (ErrKeyNotFound key 0))
  | Some o =>
      match checks key pre validate o with
      | Err e => (a, Err e)
      | Ok _ =>
          let o' := stamp (a_rv a + 1) o in
          (MkA (delete p (a_kv a)) (a_rv a + 1)
               (a_log a ++ [(p, MkEvent (a_rv a + 1)%N Deleted o')]) (a_uid a),
           Ok (if want_out then Some (obj_norm o') else None))
      end
  end.

(** An update that leaves the encoding of a stored object as it is stores
    nothing; any other stores the updated object with the uid it had. *)
Definition spec_update (key : string) (p : path) (want_out ignore_not_found : bool)
    (pre : string → Obj → res unit) (try_update : Obj → N → Obj * res Obj) a
    : astate Obj * res (option Obj) :=
  match a_kv a !! p with
  | None =>
      if ignore_not_found then
        match (try_update obj_new 0%N).2 with
        | Err e => (a, Err e)
        | Ok upd =>
            let '(o, a1) := fresh_uid (stamp (a_rv a + 1) upd) a in
            (commit p Added o a1, Ok (if want_out then Some (obj_norm o) else None))
        end
      else (a, Err (ErrKeyNotFound key 0))
  | Some cur =>
      match pre key cur with
      | Err e => (a, Err e)
      | Ok _ =>
          let '(cur', r) := try_update cur match obj_rv cur with Ok v => v | Err _ => 0%N end in
          match r with
          | Err e => (a, Err e)
          | Ok upd =>
              if bool_decide (obj_encode upd = obj_encode cur)
              then (a, Ok (if want_out then Some cur else None))
              else
                let o := stamp (a_rv a + 1) upd in
                let o2 := if String.eqb (obj_uid o) "" then obj_set_uid (obj_uid cur') o else o in
                (commit p Modified o2 a, Ok (if want_out then Some (obj_norm o2) else None))
          end
      end
  end.

(** ** The relation between the store and its contract *)

Record R w a : Prop := {
  r_quiet : quiet (wd_fs w);
  r_layout : layout root (fs_nodes (wd_fs w));
  r_kv : abs (fs_nodes (wd_fs w)) = a_kv a;
  r_durable : durable root (fs_nodes (wd_fs w)) = Ok (wd_rv w);
  r_rv : wd_rv w = a_rv a;
  r_ring : b_ring (ws_b (wd_watch w)) = recent (b_capacity (ws_b (wd_watch w))) (map snd (a_log a));
  r_unlocked : b_locked (ws_b (wd_watch w)) = false;
  r_keys : wd_key_mu w = ∅;
  r_uid : wd_uid w = a_uid a
}.

(** Every subscriber can take the events by which [a'] extends [a]. *)
Definition takes a a' (s : wstate Obj) : Prop :=
  ∀ x, a_log a' = a_log a ++ [x] → deliverable x.2 s.

(** What a step does to the broadcaster. *)
Definition moved a a' (s s' : wstate Obj) : Prop :=
  (a_log a' = a_log a ∧ s' = s) ∨
  (∃ x, a_log a' = a_log a ++ [x] ∧ published x.2 s s').

Definition refines {A} (c : M (world Obj) (res A)) (s : astate Obj → astate Obj * res A) : Prop :=
  ∀ w a, R w a → (a_rv a < max_u64)%N → takes a (s a).1 (wd_watch w) →
  ∃ w', c w = (w', Val (s a).2) ∧ R w' (s a).1 ∧ moved a (s a).1 (wd_watch w) (wd_watch w').
End spec.

(** ** The steps of an operation on the whole state *)

(** A pure step of an operation, and one that refuses the request. *)
Ltac res_step E := run_ok ltac:(unfold of_res; rewrite E; reflexivity).
Ltac idle_step :=
  lazymatch goal with
  | Hw : R _ ?w _ |- _ => exists w; split; [|split; [exact Hw|by left]]
  end.

Section runs.
Context {Obj : Type} `{ApiObjectLaws Obj} (root : path) (Hroot : good_base root).
Implicit Types (a : astate Obj) (w : world Obj) (p : path) (m : gmap path node).

Lemma on_fs_run {A} (c : M fs A) m m' v s k u x :
  c (MkFs m []) = (MkFs m' [], Val x) →
  on_fs c (MkWorld (Obj := Obj) (MkFs m []) v s k u) = (MkWorld (MkFs m' []) v s k u, Val x).
Proof. intros E. unfold on_fs. by erewrite zoom_run by exact E. Qed.

Lemma next_rv_run m v s k u : layout root m → durable root m = Ok v → (v < max_u64)%N →
  ∃ m', next_rv root (MkWorld (Obj := Obj) (MkFs m []) v s k u)
        = (MkWorld (MkFs m' []) (v + 1) s k u, Val (Ok (v + 1)%N)) ∧
    layout root m' ∧ abs m' = abs m ∧ durable root m' = Ok (v + 1)%N ∧ tree root m m'.
Proof.
  intros Hl Hd Hv. destruct (next_quiet root Hroot m v Hl Hd Hv) as (m' & E & H1 & H2 & H3 & _ & H4).
  exists m'. split; [|done]. unfold next_rv, on_counter. by erewrite zoom_run by exact E.
Qed.

Lemma publish_run (ev : event Obj) f v (s : wstate Obj) k u : b_locked (ws_b s) = false → deliverable ev s →
  ∃ s' : wstate Obj, on_watch (publish ev) (MkWorld f v s k u) = (MkWorld f v s' k u, Val tt) ∧
        published ev s s'.
Proof.
  intros Hl Hd. destruct (publish_offers ev s Hl Hd) as (s' & E & Hp).
  exists s'. split; [|done]. unfold on_watch. by erewrite zoom_run by exact E.
Qed.

Lemma with_key_run {A} p (c : M (world Obj) A) f v s u f' v' s' u' x :
  c (MkWorld f v s {[p]} u) = (MkWorld f' v' s' {[p]} u', Val x) →
  with_key p c (MkWorld f v s ∅ u) = (MkWorld f' v' s' ∅ u', Val x).
Proof.
  clear Hroot root.
  intros E. unfold with_key, lock_key. rewrite bind_assoc.
  run_ok ltac:(reflexivity). rewrite bool_decide_false by (simpl; set_solver).
  run_ok ltac:(reflexivity). unfold set_wd_key_mu at 1. simpl. rewrite union_empty_r_L.
  erewrite deferred_val by exact E. unfold unlock_key, set_wd_key_mu. simpl.
  by rewrite difference_diag_L.
Qed.

(** The destination a caller passes: none, or a new object. *)
Definition out_of (want_out : bool) : option Obj := if want_out then Some obj_new else None.

Lemma decode_out_run data want_out o w :
  obj_decode data obj_new = Ok o →
  decode_out data (out_of want_out) w = (w, Val (Ok (if want_out then Some o else None))).
Proof.
  intros E. unfold decode_out, out_of. destruct want_out; [|done].
  unfold of_res. rewrite E. done.
Qed.

(** The end of a write: encode, replace the file, decode, publish. *)
Definition finish_write (p : path) (o : Obj) (out : option Obj) (ev : event Obj)
    : M (world Obj) (res (option Obj)) :=
  let? data := of_res (obj_encode o) in
  let? _ := on_fs (atomic_write p data) in
  let? out' := decode_out data out in
  on_watch (publish ev) ;;; ok out'.

Lemma finish_write_run key p o want_out (ev : event Obj) m v (s : wstate Obj) k u :
  layout root m → target root key p → durable root m = Ok v → obj_accessor o = Ok tt →
  b_locked (ws_b s) = false → deliverable ev s →
  ∃ m' s', finish_write p o (out_of want_out) ev (MkWorld (MkFs m []) v s k u)
      = (MkWorld (MkFs m' []) v s' k u, Val (Ok (if want_out then Some (obj_norm o) else None))) ∧
    layout root m' ∧ abs m' = <[p := obj_norm o]> (abs m) ∧ durable root m' = Ok v ∧
    published ev s s'.
Proof.
  intros Hl Ht Hd Ho Hu Hdel. destruct (encode_total o Ho) as [d Ed].
  pose proof (decode_encoded o d Ed) as Edec.
  destruct (atomic_write_quiet root Hroot m v key p d (obj_norm o)) as (m' & E & H1 & H2 & H3 & _);
    [done..|by rewrite encode_norm|].
  destruct (publish_run ev (MkFs m' []) v s k u Hu Hdel) as (s' & Ep & Hp).
  exists m', s'. split; [|done]. unfold finish_write, of_res. rewrite Ed.
  run_ok ltac:(reflexivity). run_ok ltac:(by apply on_fs_run).
  run_ok ltac:(by apply decode_out_run). run_ok ltac:(exact Ep). done.
Qed.

Lemma published_ring (ev : event Obj) (s s' : wstate Obj) hist :
  published ev s s' → b_ring (ws_b s) = recent (b_capacity (ws_b s)) hist →
  b_locked (ws_b s) = false →
  b_ring (ws_b s') = recent (b_capacity (ws_b s')) (hist ++ [ev]) ∧
  b_locked (ws_b s') = false.
Proof.
  intros (E & _ & _) Hr Hl.
  destruct (append_ring_recent (ws_b s) hist ev Hr) as (H1 & H2 & _ & H3).
  by rewrite E, H1, H2, H3.
Qed.

(** The concrete state after an event has been published. *)
Lemma R_step w a m' v' (s' : wstate Obj) u' kv p ev :
  R root w a → layout root m' → abs m' = kv → durable root m' = Ok v' →
  published ev (wd_watch w) s' →
  R root (MkWorld (MkFs m' []) v' s' ∅ u') (MkA kv v' (a_log a ++ [(p, ev)]) u').
Proof.
  intros Hw Hl Hk Hd Hp.
  destruct (published_ring ev (wd_watch w) s' (map snd (a_log a))) as [H1 H2];
    [done|apply Hw..|].
  constructor; simpl; try done. by rewrite map_app.
Qed.

Lemma R_shape w a : R root w a →
  w = MkWorld (MkFs (fs_nodes (wd_fs w)) []) (a_rv a) (wd_watch w) ∅ (a_uid a).
Proof.
  intros [Hq _ _ _ Hv _ _ Hk Hu]. destruct w as [[m sch] v s k u]; unfold quiet in *; simpl in *.
  congruence.
Qed.

Lemma stamp_ok v o : obj_accessor o = Ok tt →
  obj_set_rv v o = Ok (stamp v o) ∧ obj_accessor (stamp v o) = Ok tt.
Proof.
  intros Ho. destruct (set_rv_total v o Ho) as [o' E]. unfold stamp. rewrite E.
  split; [done|]. by rewrite (accessor_set_rv v o o' E).
Qed.

(** The part of an operation that holds the lock of its key. *)
Lemma refines_locked {A} p (c : M (world Obj) (res A)) w m v (s : wstate Obj) f' v' s' u u' (x : res A) :
  w = MkWorld (MkFs m []) v s ∅ u →
  c (MkWorld (MkFs m []) v s {[p]} u) = (MkWorld f' v' s' {[p]} u', Val x) →
  with_key p c w = (MkWorld f' v' s' ∅ u', Val x).
Proof. intros -> E. by apply with_key_run. Qed.

(** An operation, or what it does under its lock, that changes nothing. *)
Lemma refines_same {A} (c : M (world Obj) (res A)) w w1 x :
  w = w1 → c w1 = (w1, Val x) → c w = (w, Val x).
Proof. by intros ->. Qed.

Lemma refines_idle {A} p (c : M (world Obj) (res A)) w m v (s : wstate Obj) u (x : res A) :
  w = MkWorld (MkFs m []) v s ∅ u →
  c (MkWorld (MkFs m []) v s {[p]} u) = (MkWorld (MkFs m []) v s {[p]} u, Val x) →
  with_key p c w = (w, Val x).
Proof. intros -> E. by apply with_key_run. Qed.

(** The value [generateUID] and its guard. *)
Lemma fresh_uid_run o a m v s k :
  (if String.eqb (obj_uid o) "" then let* u := generate_uid in ret (obj_set_uid u o) else ret o)
    (MkWorld (Obj := Obj) (MkFs m []) v s k (a_uid a))
  = (MkWorld (Obj := Obj) (MkFs m []) v s k (a_uid (fresh_uid o a).2), Val (fresh_uid o a).1).
Proof. unfold fresh_uid. by destruct (String.eqb (obj_uid o) ""). Qed.

Lemma fresh_uid_frame o a :
  let a' := (fresh_uid o a).2 in
  a_kv a' = a_kv a ∧ a_rv a' = a_rv a ∧ a_log a' = a_log a ∧
  obj_accessor (fresh_uid o a).1 = obj_accessor o.
Proof.
  unfold fresh_uid. destruct (String.eqb (obj_uid o) ""); simpl; [|done].
  by rewrite accessor_set_uid.
Qed.
End runs.

(** ** The operations refine the contract *)

Section refinement.
Context {Obj : Type} `{ApiObjectLaws Obj} (root : path) (Hroot : good_base root).
Implicit Types (a : astate Obj) (w : world Obj) (p : path) (m : gmap path node).

(** Reading the file of the key. *)
Ltac read_step :=
  lazymatch goal with
  | Ht : target root ?key ?p |- _ =>
      run_ok ltac:(by apply on_fs_run, (read_quiet root Hroot _ key))
  end.

(** The key of an object, and the path the operations compute from it. *)
Lemma target_path key p : target root key p →
  ∃ r ns n, parse_key key = Ok (r, ns, n) ∧ String.eqb n "" = false ∧ object_path root r ns n = p.
Proof.
  intros (r & ns & n & E & Hn & -> & _). exists r, ns, n. split; [done|].
  split; [by apply String.eqb_neq|done].
Qed.

(** What the first read or stat of an operation finds. *)
Lemma find_object m a key p : layout root m → target root key p → abs m = a_kv a →
  match a_kv a !! p with
  | Some o => ∃ b, m !! p = Some (File b) ∧ decode_fresh b = Ok o ∧ obj_encode o = Ok b
  | None => m !! p = None
  end.
Proof.
  intros Hl Ht <-. eapply ready_content; [exact Hl|]. by eapply target_ready.
Qed.

Lemma create_sound key p obj want_out : target root key p → obj_accessor obj = Ok tt →
  refines root (create root key obj (out_of want_out)) (spec_create key p obj want_out).
Proof.
  intros Ht Ho w a Hw Hv Htk. pose proof (R_shape root w a Hw) as Ew.
  destruct (target_path key p Ht) as (r & ns & n & Ek & En & Ep).
  pose proof (r_layout root w a Hw) as Hl.
  pose proof (find_object _ a key p Hl Ht (r_kv root w a Hw)) as Hf.
  unfold create. rewrite Ek, En. cbv zeta. rewrite Ep.
  revert Htk. unfold spec_create. destruct (a_kv a !! p) as [o|] eqn:Ea.
  - intros _. destruct Hf as (b & Eb & _). idle_step. eapply refines_idle; [exact Ew|].
    run_ok ltac:(by apply on_fs_run, (stat_quiet root Hroot _ key)). by rewrite Eb.
  - pose proof (fresh_uid_run obj a) as Ef. pose proof (fresh_uid_frame obj a) as (Fk & Fv & Fl & Fo).
    destruct (fresh_uid obj a) as [o a1]. cbn [fst snd] in *. intros Htk.
    destruct (stamp_ok (a_rv a + 1) o) as [Es Hs]; [congruence|].
    pose proof (r_durable root w a Hw) as Hd. rewrite (r_rv root w a Hw) in Hd.
    destruct (next_rv_run root Hroot (fs_nodes (wd_fs w)) (a_rv a) (wd_watch w) {[p]} (a_uid a1))
      as (m1 & E1 & Hl1 & Ha1 & Hd1 & _); [done..|].
    destruct (finish_write_run root Hroot key p (stamp (a_rv a + 1) o) want_out
                (MkEvent (a_rv a + 1)%N Added (stamp (a_rv a + 1) o)) m1 (a_rv a + 1)
                (wd_watch w) {[p]} (a_uid a1))
      as (m' & s' & E2 & Hl2 & Ha2 & Hd2 & Hp); [done..|apply Hw| |].
    { apply (Htk (p, _)). unfold commit. cbn. by rewrite Fv, Fl. }
    eexists. split; [|split].
    + eapply refines_locked; [exact Ew|].
      run_ok ltac:(by apply on_fs_run, (stat_quiet root Hroot _ key)). rewrite Hf. simpl.
      res_step Ho.
      run_ok ltac:(apply Ef). run_ok ltac:(exact E1).
      res_step Es. exact E2.
    + unfold commit. rewrite Fk, Fv, Fl. eapply R_step; try done.
      by rewrite Ha2, Ha1, (r_kv root w a Hw).
    + right. exists (p, MkEvent (a_rv a + 1)%N Added (stamp (a_rv a + 1) o)). simpl.
      by rewrite Fv, Fl.
Qed.

(** C5: [Create] with a key the API server accepts, on a file system that does
    not fail and with subscribers that can take the event: a key in use is
    refused and nothing changes; otherwise exactly this object is added, under
    the next resourceVersion and with the uid it has or a fresh one, the counter
    and the object are on disk, and one Added event is logged. *)
Theorem create_refines key p obj want_out : target root key p → obj_accessor obj = Ok tt →
  refines root (create root key obj (out_of want_out)) (spec_create key p obj want_out).
Proof. apply create_sound. Qed.

Lemma get_sound key p ignore : target root key p →
  refines root (get root key ignore obj_new) (spec_get key p ignore).
Proof.
  intros Ht w a Hw Hv _. pose proof (R_shape root w a Hw) as Ew.
  destruct (target_path key p Ht) as (r & ns & n & Ek & En & Ep).
  pose proof (r_layout root w a Hw) as Hl.
  pose proof (find_object _ a key p Hl Ht (r_kv root w a Hw)) as Hf.
  idle_step.
  unfold get. rewrite Ek, En. cbv zeta. rewrite Ep. eapply refines_same; [exact Ew|].
  read_step.
  unfold spec_get. cbn [snd]. destruct (a_kv a !! p) as [o|].
  - destruct Hf as (b & -> & Hd & _). unfold of_res. unfold decode_fresh in Hd. by rewrite Hd.
  - rewrite Hf. simpl. by destruct ignore.
Qed.

(** [Get] returns the object stored under the key, decoded; a missing one is
    a not-found error, or the caller's empty object when it asks so. *)
Theorem get_refines key p ignore : target root key p →
  refines root (get root key ignore obj_new) (spec_get key p ignore).
Proof. apply get_sound. Qed.

Lemma remove_quiet m key p b v : layout root m → target root key p → m !! p = Some (File b) →
  durable root m = Ok v →
  os_remove p (MkFs m []) = (MkFs (delete p m) [], Val (Ok tt)) ∧
  layout root (delete p m) ∧ abs (delete p m) = delete p (abs m) ∧
  durable root (delete p m) = Ok v ∧ tree root m (delete p m).
Proof.
  intros Hl Ht Hb Hd. pose proof (target_ready root Hroot m key p Hl Ht) as Hr.
  pose proof (rd_proper m p Hr) as Hp.
  split; [|split; [by eapply layout_delete|split; [apply abs_delete|split]]].
  - apply syscall_quiet; [done|]. unfold remove_node. simpl. by rewrite ready_resolve, Hb by done.
  - eapply durable_keep; [exact Hroot|exact Hl|exact Ht|exact Hd| |].
    + intros q Hq _. left. by rewrite lookup_delete_ne.
    + intros q Hq. rewrite lookup_node_delete_ne; [done|]. intros <-.
      by rewrite lookup_node_proper, Hb in Hq.
  - split.
    + intros q Hq. rewrite lookup_delete_ne; [done|]. by intros <-; rewrite Hb in Hq.
    + intros q n [_ Hq]%lookup_delete_Some. left. by eexists.
Qed.

Lemma finish_delete_run o want_out f v (s : wstate Obj) k u :
  obj_accessor o = Ok tt → b_locked (ws_b s) = false →
  deliverable (MkEvent v Deleted (stamp v o)) s →
  ∃ s', finish_delete (Some o) (out_of want_out) v (MkWorld f v s k u)
        = (MkWorld f v s' k u, Val (Ok (if want_out then Some (obj_norm (stamp v o)) else None)))
      ∧ published (MkEvent v Deleted (stamp v o)) s s'.
Proof.
  intros Ho Hu Hd. destruct (stamp_ok v o Ho) as [Es Hs].
  destruct (publish_run _ f v s k u Hu Hd) as (s' & E & Hp). exists s'. split; [|done].
  unfold finish_delete. rewrite Es. cbv zeta. run_ok ltac:(exact E).
  unfold out_of. destruct want_out; [|done].
  destruct (encode_total _ Hs) as [d Ed]. rewrite Ed.
  by rewrite (decode_encoded _ d Ed).
Qed.

Lemma checks_run key (pre : string → Obj → res unit) validate o w :
  (let? _ := of_res (pre key o) in
   match validate with None => ok tt | Some v => of_res (v o) end) w
  = (w, Val (checks key pre validate o)).
Proof.
  unfold checks, of_res. destruct (pre key o) as [[]|e] eqn:E; [|by run_err ltac:(reflexivity)].
  run_ok ltac:(reflexivity). by destruct validate.
Qed.

Lemma delete_sound key p want_out pre validate ignore : target root key p →
  refines root (delete_obj root key (out_of want_out) pre validate ignore)
          (spec_delete key p want_out pre validate).
Proof.
  intros Ht w a Hw Hv Htk. pose proof (R_shape root w a Hw) as Ew.
  destruct (target_path key p Ht) as (r & ns & n & Ek & En & Ep).
  pose proof (r_layout root w a Hw) as Hl.
  pose proof (find_object _ a key p Hl Ht (r_kv root w a Hw)) as Hf.
  unfold delete_obj. rewrite Ek, En. cbv zeta. rewrite Ep.
  revert Htk. unfold spec_delete. destruct (a_kv a !! p) as [o|] eqn:Ea.
  2:{ intros _. idle_step. eapply refines_idle; [exact Ew|].
      read_step. by rewrite Hf. }
  destruct Hf as (b & Eb & Edec & _).
  pose proof (checks_run key pre validate o) as Hc.
  destruct (checks key pre validate o) as [[]|e].
  2:{ intros _. idle_step. eapply refines_idle; [exact Ew|].
      read_step. rewrite Eb, Edec.
      run_ok ltac:(reflexivity). run_err ltac:(apply Hc). done. }
  cbn [fst snd]. intros Htk.
  pose proof (accessor_decode b o Edec) as Ho.
  pose proof (r_durable root w a Hw) as Hd. rewrite (r_rv root w a Hw) in Hd.
  destruct (remove_quiet _ key p b (a_rv a) Hl Ht Eb Hd) as (E1 & Hl1 & Ha1 & Hd1 & _).
  destruct (next_rv_run root Hroot _ (a_rv a) (wd_watch w) {[p]} (a_uid a) Hl1 Hd1 Hv)
    as (m' & E2 & Hl2 & Ha2 & Hd2 & _).
  destruct (finish_delete_run o want_out (MkFs m' []) (a_rv a + 1) (wd_watch w) {[p]} (a_uid a))
    as (s' & E3 & Hp); [done|apply Hw|by apply (Htk (p, _))|].
  eexists. split; [|split].
  - eapply refines_locked; [exact Ew|].
    read_step. rewrite Eb, Edec.
    run_ok ltac:(reflexivity). run_ok ltac:(apply Hc).
    run_ok ltac:(by apply on_fs_run). run_ok ltac:(exact E2). exact E3.
  - eapply R_step; try done. by rewrite Ha2, Ha1, (r_kv root w a Hw).
  - right. by exists (p, MkEvent (a_rv a + 1)%N Deleted (stamp (a_rv a + 1) o)).
Qed.

(** C6: [Delete] refuses a missing object, a failed precondition or validation,
    and then changes nothing; otherwise it removes exactly this object, takes
    the next resourceVersion, and logs one Deleted event with the object under
    that version, which is also what the caller gets. *)
Theorem delete_refines key p want_out pre validate ignore : target root key p →
  refines root (delete_obj root key (out_of want_out) pre validate ignore)
          (spec_delete key p want_out pre validate).
Proof. apply delete_sound. Qed.

Lemma bytes_equal_eqb x y : bytes_equal x y = String.eqb x y.
Proof.
  unfold bytes_equal. destruct (Nat.eqb_spec (String.length x) (String.length y)) as [E|E]; simpl.
  - revert y E. induction x as [|c x IH]; intros [|d y] E; try done. simpl in *.
    destruct (Ascii.eqb c d); [apply IH; lia|done].
  - symmetry. apply String.eqb_neq. by intros ->.
Qed.

Lemma accessor_uid_if (c : bool) u o :
  obj_accessor (if c then obj_set_uid u o else o) = obj_accessor o.
Proof. destruct c; [apply accessor_set_uid|done]. Qed.

(** The function an update is given returns API objects. *)
Definition well_behaved (try_update : Obj → N → Obj * res Obj) : Prop := ∀ c v,
  obj_accessor c = Ok tt → obj_accessor (try_update c v).1 = Ok tt ∧
  ∀ upd, (try_update c v).2 = Ok upd → obj_accessor upd = Ok tt.

(** A store of an updated object: from the state of the abstraction [a] to [a1]
    (a uid may be drawn) and on to its [commit]. *)
Lemma write_update_run key p exists_ cur upd want_out m a (s : wstate Obj) o2 u' :
  layout root m → target root key p → durable root m = Ok (a_rv a) → (a_rv a < max_u64)%N →
  obj_accessor upd = Ok tt → obj_accessor o2 = Ok tt → b_locked (ws_b s) = false →
  (∀ m1 v1, keep_uid exists_ cur (stamp (a_rv a + 1) upd)
              (MkWorld (MkFs m1 []) v1 s {[p]} (a_uid a))
            = (MkWorld (MkFs m1 []) v1 s {[p]} u', Val o2)) →
  let ev := MkEvent (a_rv a + 1)%N (if exists_ then Modified else Added) o2 in
  deliverable ev s →
  ∃ m' s', write_update root p exists_ cur upd (out_of want_out)
             (MkWorld (MkFs m []) (a_rv a) s {[p]} (a_uid a))
      = (MkWorld (MkFs m' []) (a_rv a + 1) s' {[p]} u',
         Val (Ok (if want_out then Some (obj_norm o2) else None))) ∧
    layout root m' ∧ abs m' = <[p := obj_norm o2]> (abs m) ∧
    durable root m' = Ok (a_rv a + 1)%N ∧ published ev s s'.
Proof.
  intros Hl Ht Hd Hv Hu Ho Hb Hk ev Hdel.
  destruct (next_rv_run root Hroot m (a_rv a) s {[p]} (a_uid a) Hl Hd Hv)
    as (m1 & E1 & Hl1 & Ha1 & Hd1 & _).
  destruct (finish_write_run root Hroot key p o2 want_out ev m1 (a_rv a + 1) s {[p]} u')
    as (m' & s' & E2 & Hl2 & Ha2 & Hd2 & Hp); [done..|].
  exists m', s'. split; [|by rewrite <- Ha1].
  destruct (stamp_ok (a_rv a + 1) upd Hu) as [Es _]. unfold write_update.
  run_ok ltac:(exact E1). res_step Es.
  run_ok ltac:(apply Hk). exact E2.
Qed.

(** What one operation does in one state: [refines] at a given state. *)
Definition refines_at {A} (c : M (world Obj) (res A)) (sp : astate Obj → astate Obj * res A)
    w a : Prop :=
  takes a (sp a).1 (wd_watch w) →
  ∃ w', c w = (w', Val (sp a).2) ∧ R root w' (sp a).1 ∧ moved a (sp a).1 (wd_watch w) (wd_watch w').

Section update.
Context (key : string) (p : path) (want_out ignore : bool) (pre : string → Obj → res unit)
        (try_update : Obj → N → Obj * res Obj) (a : astate Obj) (w : world Obj) (b : string).
Hypothesis Ht : target root key p.
Hypothesis Htry : well_behaved try_update.
Hypothesis Hw : R root w a.
Hypothesis Hv : (a_rv a < max_u64)%N.

Let c := guaranteed_update root key (out_of want_out) ignore pre try_update.
Let sp := spec_update key p want_out ignore pre try_update.

Let Ew := R_shape root w a Hw.
Let Hl := r_layout root w a Hw.

Lemma update_durable : durable root (fs_nodes (wd_fs w)) = Ok (a_rv a).
Proof. rewrite <- (r_rv root w a Hw). apply Hw. Qed.

Section present.
Context (cur : Obj).
Hypothesis Ea : a_kv a !! p = Some cur.
Hypothesis Eb : fs_nodes (wd_fs w) !! p = Some (File b).
Hypothesis Edec : decode_fresh b = Ok cur.
Hypothesis Eenc : obj_encode cur = Ok b.

Let cv := match obj_rv cur with Ok v => v | Err _ => 0%N end.

(** The update function refuses, or the precondition does. *)
Lemma update_refused e :
  pre key cur = Err e ∨ (pre key cur = Ok tt ∧ (try_update cur cv).2 = Err e) →
  refines_at c sp w a.
Proof.
  intros He _. destruct (target_path key p Ht) as (r & ns & n & Ek & En & Ep).
  unfold sp, spec_update. rewrite Ea.
  destruct He as [Epre|[Epre Etry]]; rewrite Epre; cbn [fst snd].
  2: fold cv; destruct (try_update cur cv) as [cur' r'] eqn:Et; cbn [snd] in Etry; subst r'.
  all: idle_step; unfold c, guaranteed_update; rewrite Ek, En; cbv zeta; rewrite Ep.
  all: eapply refines_idle; [exact Ew|]; read_step; rewrite Eb; res_step Edec.
  - run_err ltac:(unfold of_res; rewrite Epre; reflexivity). done.
  - res_step Epre. fold cv. by rewrite Et.
Qed.

Context (cur' upd : Obj).
Hypothesis Epre : pre key cur = Ok tt.
Hypothesis Et : try_update cur cv = (cur', Ok upd).

Lemma update_objects : obj_accessor cur' = Ok tt ∧ obj_accessor upd = Ok tt.
Proof.
  destruct (Htry cur cv (accessor_decode b cur Edec)) as [H1 H2]. rewrite Et in *. auto.
Qed.

(** The encoding stays as it is. *)
Lemma update_unchanged : obj_encode upd = obj_encode cur → refines_at c sp w a.
Proof.
  intros E _. destruct (target_path key p Ht) as (r & ns & n & Ek & En & Ep).
  unfold sp, spec_update. rewrite Ea, Epre. fold cv. rewrite Et, bool_decide_true by done.
  idle_step. unfold c, guaranteed_update. rewrite Ek, En. cbv zeta. rewrite Ep.
  rewrite Eenc in E. eapply refines_idle; [exact Ew|]. read_step. rewrite Eb.
  res_step Edec. res_step Epre. fold cv. rewrite Et. run_ok ltac:(reflexivity). res_step E.
  rewrite bytes_equal_eqb, String.eqb_refl. simpl. by apply decode_out_run.
Qed.

(** The encoding changes: a new version is stored. *)
Lemma update_changed : obj_encode upd ≠ obj_encode cur → refines_at c sp w a.
Proof.
  intros Hne. destruct (target_path key p Ht) as (r & ns & n & Ek & En & Ep).
  destruct update_objects as [Hc' Hu]. destruct (encode_total upd Hu) as [nd End_].
  unfold refines_at, sp, spec_update. rewrite Ea, Epre. fold cv.
  rewrite Et, bool_decide_false by done. set (o2 := if String.eqb _ "" then _ else _). intros Htk.
  destruct (stamp_ok (a_rv a + 1) upd Hu) as [_ Hs].
  destruct (write_update_run key p true cur' upd want_out (fs_nodes (wd_fs w)) a (wd_watch w)
              o2 (a_uid a)) as (m' & s' & E & Hl' & Ha' & Hd' & Hp);
    [done..|apply update_durable|done|done| |apply Hw| |by apply (Htk (p, _))|].
  { unfold o2. by rewrite accessor_uid_if. }
  { intros m1 v1. unfold keep_uid. rewrite Hc', Hs. unfold o2.
    by destruct (String.eqb (obj_uid (stamp _ _)) ""). }
  eexists. split; [|split].
  - unfold c, guaranteed_update. rewrite Ek, En. cbv zeta. rewrite Ep.
    eapply refines_locked; [exact Ew|]. read_step. rewrite Eb.
    res_step Edec. res_step Epre. fold cv. rewrite Et. run_ok ltac:(reflexivity). res_step End_.
    rewrite bytes_equal_eqb, (proj2 (String.eqb_neq _ _)) by congruence. exact E.
  - eapply R_step; try done. by rewrite Ha', (r_kv root w a Hw).
  - right. eexists (p, _). split; [reflexivity|exact Hp].
Qed.
End present.

(** There is no object: the update function starts from a new one. *)
Section absent.
Hypothesis Ea : a_kv a !! p = None.
Hypothesis Eb : fs_nodes (wd_fs w) !! p = None.

Lemma update_absent_refused :
  ignore = false ∨ is_ok (try_update obj_new 0%N).2 = false → refines_at c sp w a.
Proof.
  intros He _. destruct (target_path key p Ht) as (r & ns & n & Ek & En & Ep).
  unfold sp, spec_update. rewrite Ea. destruct ignore eqn:Ei.
  - destruct He as [|He]; [done|]. destruct (try_update obj_new 0%N) as [cur' [|e]] eqn:Et; [done|].
    idle_step. unfold c, guaranteed_update. rewrite Ek, En. cbv zeta. rewrite Ep.
    eapply refines_idle; [exact Ew|]. read_step. rewrite Eb. simpl. rewrite ?Ei.
    run_ok ltac:(reflexivity). run_ok ltac:(reflexivity). by rewrite Et.
  - idle_step. unfold c, guaranteed_update. rewrite Ek, En. cbv zeta. rewrite Ep.
    eapply refines_idle; [exact Ew|]. read_step. rewrite Eb. simpl. by rewrite ?Ei.
Qed.

Lemma update_absent_created cur' upd :
  ignore = true → try_update obj_new 0%N = (cur', Ok upd) → refines_at c sp w a.
Proof.
  intros Ei Et. destruct (target_path key p Ht) as (r & ns & n & Ek & En & Ep).
  destruct (Htry obj_new 0%N accessor_new) as [_ Hu]. rewrite Et in Hu. specialize (Hu upd eq_refl).
  destruct (encode_total upd Hu) as [nd End_]. destruct (stamp_ok (a_rv a + 1) upd Hu) as [_ Hs].
  unfold refines_at, sp, spec_update. rewrite Ea, Ei, Et. cbn [snd].
  pose proof (fresh_uid_run (stamp (a_rv a + 1) upd) a) as Ef.
  pose proof (fresh_uid_frame (stamp (a_rv a + 1) upd) a) as (Fk & Fv & Fl & Fo).
  destruct (fresh_uid (stamp (a_rv a + 1) upd) a) as [o a1]. cbn [fst snd] in *. intros Htk.
  destruct (write_update_run key p false cur' upd want_out (fs_nodes (wd_fs w)) a (wd_watch w)
              o (a_uid a1)) as (m' & s' & E & Hl' & Ha' & Hd' & Hp);
    [done..|apply update_durable|done|done|congruence|apply Hw| | |].
  { intros m1 v1. unfold keep_uid. rewrite Hs. apply Ef. }
  { apply (Htk (p, _)). unfold commit. cbn. by rewrite Fv, Fl. }
  eexists. split; [|split].
  - unfold c, guaranteed_update. rewrite Ek, En. cbv zeta. rewrite Ep.
    eapply refines_locked; [exact Ew|]. read_step. rewrite Eb. simpl. rewrite Ei.
    run_ok ltac:(reflexivity). run_ok ltac:(reflexivity). rewrite Et.
    run_ok ltac:(reflexivity). res_step End_. exact E.
  - unfold commit. rewrite Fk, Fv, Fl. eapply R_step; try done.
    by rewrite Ha', (r_kv root w a Hw).
  - right. exists (p, MkEvent (a_rv a + 1)%N Added o). cbn. by rewrite Fv, Fl.
Qed.
End absent.
End update.

Lemma update_sound key p want_out ignore pre try_update :
  target root key p → well_behaved try_update →
  refines root (guaranteed_update root key (out_of want_out) ignore pre try_update)
          (spec_update key p want_out ignore pre try_update).
Proof.
  intros Ht Htry w a Hw Hv.
  pose proof (find_object _ a key p (r_layout root w a Hw) Ht (r_kv root w a Hw)) as Hf.
  destruct (a_kv a !! p) as [cur|] eqn:Ea.
  - destruct Hf as (b & Eb & Edec & Eenc).
    destruct (pre key cur) as [[]|e] eqn:Epre; [|by eapply update_refused; eauto].
    destruct (try_update cur match obj_rv cur with Ok v => v | Err _ => 0%N end)
      as [cur' [upd|e]] eqn:Et; [|eapply update_refused; eauto; right; by rewrite Et].
    destruct (decide (obj_encode upd = obj_encode cur));
      [by eapply update_unchanged|by eapply update_changed].
  - destruct ignore; [|by apply update_absent_refused; [..|left]].
    destruct (try_update obj_new 0%N) as [cur' [upd|e]] eqn:Et.
    + by eapply update_absent_created.
    + apply update_absent_refused; [done..|]. right. by rewrite Et.
Qed.

(** C4: [GuaranteedUpdate] keeps its contract on every branch: a missing object
    is refused or created, a failed precondition or update function changes
    nothing, an update that leaves the encoding as it is writes nothing and
    issues no resourceVersion, and any other stores the updated object under
    the next version, with the uid it had, and logs one Modified event. *)
Theorem update_refines key p want_out ignore pre try_update :
  target root key p → well_behaved try_update →
  refines root (guaranteed_update root key (out_of want_out) ignore pre try_update)
          (spec_update key p want_out ignore pre try_update).
Proof. apply update_sound. Qed.
End refinement.
