(* ===== verification/StoreList.v ===== *)
(** * Lists and counts: what a walk of the data directory sees

    [walk_objects] visits every object file below a directory exactly once,
    within its fuel; so [GetList] returns the objects the contract holds under
    the directory, and [Count] their number. *)

From S2P Require Import Prelude GoStrings Fs Counter Watch Keys Store StoreFacts StoreSpec.

(** Fold a callback over file contents, up to its first error. *)
Fixpoint fold_stop {A} (fn : A → string → A * res unit) (acc : A) (l : list string)
    : A * res unit :=
  match l with
  | [] => (acc, Ok tt)
  | d :: l' => let '(acc', r) := fn acc d in
               match r with Err e => (acc', Err e) | Ok _ => fold_stop fn acc' l' end
  end.

Lemma fold_stop_app {A} (fn : A → string → A * res unit) acc l1 l2 :
  fold_stop fn acc (l1 ++ l2) =
    let '(acc', r) := fold_stop fn acc l1 in
    match r with Err e => (acc', Err e) | Ok _ => fold_stop fn acc' l2 end.
Proof.
  revert acc. induction l1 as [|d l1 IH]; intros acc; simpl; [done|].
  destruct (fn acc d) as [acc' [[]|e]]; [apply IH|done].
Qed.

Lemma depth_bound m p n : m !! p = Some n → (length p ≤ depth m)%nat.
Proof.
  intros H%elem_of_map_to_list. unfold depth. induction (map_to_list m) as [|[q x] l IH];
    [by apply elem_of_nil in H|]. simpl. apply elem_of_cons in H as [[= -> ->]|H]; [lia|].
  specialize (IH H). lia.
Qed.

Section walk_facts.
Context {Obj : Type} `{ApiObject Obj} (root : path) (m : gmap path node).
Hypothesis Hl : layout root m.
Implicit Types (d p : path) (x : path * string).

(** The files a walk from [d] is to visit. *)
Definition below d x : Prop :=
  m !! x.1 = Some (File x.2) ∧ skip_file (base_name x.1) = false ∧ ∃ r, r ≠ [] ∧ x.1 = d ++ r.

(** A run of the walk: it visits the files [l], whatever the callback. *)
Definition visits {A} (c : (A → string → A * res unit) → A → M fs (A * res unit))
    (l : list (path * string)) : Prop :=
  ∀ fn acc, c fn acc (MkFs m []) = (MkFs m [], Val (fold_stop fn acc (map snd l))).

Definition entry_ok d (e : string * bool) : Prop :=
  m !! (d ++ [e.1]) = Some Dir ∧ e.2 = true ∨ ∃ b, m !! (d ++ [e.1]) = Some (File b) ∧ e.2 = false.

(** The files below one entry of [d]. *)
Definition entry_below d (e : string * bool) x : Prop :=
  below d x ∧ ∃ r, x.1 = (d ++ [e.1]) ++ r.

Lemma node_rooted p n : m !! p = Some n → proper p ∧ resolve m p = Ok n.
Proof.
  intros E. pose proof (lay_rooted root m Hl p n E) as Hr. destruct Hr as [Hp Ha].
  split; [done|]. erewrite resolve_rooted; [by rewrite E|done..|by eapply rooted_open].
Qed.

Lemma below_dir d e x : m !! (d ++ [e.1]) = Some Dir → entry_below d e x ↔ below (d ++ [e.1]) x.
Proof.
  intros Ed. split.
  - intros [(H1 & H2 & _) (r & Hr)]. split; [done|]. split; [done|]. exists r. split; [|done].
    intros ->. rewrite app_nil_r in Hr. rewrite Hr, Ed in H1. done.
  - intros (H1 & H2 & r & Hne & Hr). split; [|by exists r]. split; [done|]. split; [done|].
    exists (e.1 :: r). split; [done|]. by rewrite Hr, <- app_assoc.
Qed.

Lemma below_file d e b x : m !! (d ++ [e.1]) = Some (File b) →
  entry_below d e x ↔ x = (d ++ [e.1], b) ∧ skip_file e.1 = false.
Proof.
  intros Eb. split.
  - intros [(H1 & H2 & _) (r & Hr)]. destruct x as [p c]; simpl in *. subst p.
    destruct r as [|s r]; [rewrite app_nil_r in *|].
    + rewrite Eb in H1. injection H1 as ->. by rewrite base_name_snoc in H2.
    + destruct (node_rooted _ _ Eb) as [Hp _].
      exfalso. eapply (file_leaf root m); [exact Hl|exact Hp|exact Eb|exact H1|].
      by apply prefixes_intro.
  - intros [-> Hs]. split; [|by exists []; rewrite app_nil_r].
    split; [done|]. simpl. split; [by rewrite base_name_snoc|]. by exists [e.1].
Qed.

(** One run over a list of entries. *)
Lemma visit_visits (sub : ∀ A, (A → string → A * res unit) → path → A → M fs (A * res unit)) d es :
  NoDup (map fst es) → Forall (entry_ok d) es →
  (∀ e, e ∈ es → e.2 = true → ∃ l, NoDup l ∧ (∀ x, x ∈ l ↔ below (d ++ [e.1]) x) ∧
      ∀ A, visits (λ fn acc, sub A fn (d ++ [e.1]) acc) l) →
  ∃ l, NoDup l ∧ (∀ x, x ∈ l ↔ ∃ e, e ∈ es ∧ entry_below d e x) ∧
       ∀ A, visits (λ fn acc, visit fn (sub A fn) d es acc) l.
Proof.
  intros Hnd Hok Hsub. induction es as [|[n b] es IH].
  { exists []. split; [constructor|]. split; [|done]. intros x. split; [by intros ?%elem_of_nil|].
    by intros (e & ?%elem_of_nil & _). }
  apply Forall_cons in Hok as [He Hok]. apply NoDup_cons in Hnd as [Hn Hnd].
  destruct IH as (l & Hl1 & Hl2 & Hl3); [done..|intros e Hin; apply Hsub; by right|].
  assert (Hdisj : ∀ x, entry_below d (n, b) x → x ∉ l).
  { intros x [_ (r & Hr)] Hin. apply Hl2 in Hin as ([n' b'] & Hin & _ & (r' & Hr')).
    rewrite Hr, <- !app_assoc in Hr'. apply app_inv_head in Hr'. injection Hr' as -> _.
    apply Hn. apply list_elem_of_In, List.in_map_iff. exists (n', b').
    split; [done|]. by apply list_elem_of_In. }
  destruct He as [[Ed Eb]|(c & Ec & Eb)]; simpl in Eb; subst b.
  - destruct (Hsub (n, true)) as (l1 & N1 & M1 & V1); [by left|done|].
    exists (l1 ++ l). split; [|split].
    + apply NoDup_app. split; [done|]. split; [|done]. intros x Hx. apply Hdisj.
      apply below_dir; [done|]. by apply M1.
    + intros x. by rewrite elem_of_app, M1, Hl2, exists_cons, <- below_dir.
    + intros A fn acc. simpl. run_ok ltac:(apply V1). rewrite map_app, fold_stop_app.
      destruct (fold_stop fn acc (map snd l1)) as [acc' [[]|e]]; [apply Hl3|done].
  - simpl in Ec. pose proof (below_file d (n, false) c) as Hbf. simpl in Hbf.
    destruct (skip_file n) eqn:Es.
    + exists l. split; [done|]. split.
      * intros x. rewrite Hl2, exists_cons, Hbf by done. naive_solver.
      * intros A fn acc. simpl. rewrite Es. apply Hl3.
    + exists ((d ++ [n], c) :: l). split; [|split].
      * apply NoDup_cons. split; [|done]. apply Hdisj. by apply Hbf.
      * intros x. rewrite elem_of_cons, Hl2, exists_cons, Hbf by done. naive_solver.
      * intros A fn acc. simpl. rewrite Es.
        run_ok ltac:(apply syscall_quiet; [done|simpl; by rewrite (proj2 (node_rooted _ _ Ec))]).
        destruct (fn acc c) as [acc' [[]|e]]; [apply Hl3|done].
Qed.

(** ** Directory entries *)

Lemma children_spec d e : e ∈ children d m ↔
  ∃ n, m !! (d ++ [e.1]) = Some n ∧ e.2 = match n with Dir => true | File _ => false end.
Proof.
  unfold children. rewrite list_elem_of_omap. split.
  - intros ([q n] & Hin & E). apply elem_of_map_to_list in Hin.
    destruct q as [|s q]; [done|]. case_bool_decide as Ed; [|done]. injection E as <-.
    exists n. cbn [fst snd]. split; [|done]. rewrite <- Ed.
    change (m !! (removelast (s :: q) ++ [List.last (s :: q) ""]) = Some n).
    by rewrite <- List.app_removelast_last.
  - intros (n & E & He). exists (d ++ [e.1], n). split; [by apply elem_of_map_to_list|].
    destruct (d ++ [e.1]) as [|s q] eqn:Eq; [by destruct d|]. rewrite <- Eq.
    rewrite removelast_last, bool_decide_true by done. rewrite List.last_last.
    by destruct e as [? ?]; simpl in *; subst.
Qed.

Lemma children_names d : NoDup (map fst (children d m)).
Proof.
  assert (G : ∀ l : list (path * node), NoDup (map fst l) →
    (∀ y, y ∈ l → m !! y.1 = Some y.2) →
    NoDup (map fst (omap (λ '(q, n),
      match q with
      | [] => None
      | _ => if bool_decide (removelast q = d) then
               Some (List.last q "", match n with Dir => true | File _ => false end)
             else None
      end) l))).
  2:{ apply G; [apply NoDup_fst_map_to_list|]. intros [q n] Hin. by apply elem_of_map_to_list. }
  intros l. induction l as [|[q n] l IH]; intros Hnd Hm; [constructor|].
  apply NoDup_cons in Hnd as [Hq Hnd]. simpl.
  assert (IH' := IH Hnd ltac:(intros y Hy; apply Hm; by right)).
  destruct q as [|s q]; [done|]. case_bool_decide as Ed; [|done].
  apply NoDup_cons. split; [|done]. intros Hin.
  apply list_elem_of_In, List.in_map_iff in Hin as ([n' b'] & En & Hin).
  cbn [fst] in En. subst n'. apply list_elem_of_In, list_elem_of_omap in Hin as ([q' n'] & Hin & E).
  destruct q' as [|s' q']; [done|]. case_bool_decide as Ed'; [|done]. injection E as El _.
  apply Hq. apply list_elem_of_In, List.in_map_iff. exists (s' :: q', n').
  split; [|by apply list_elem_of_In]. change (s' :: q' = s :: q).
  rewrite (List.app_removelast_last (l := s' :: q') "") by done.
  rewrite (List.app_removelast_last (l := s :: q) "") by done.
  rewrite Ed, Ed'. f_equal. f_equal. exact El.
Qed.

Lemma list_dir_entries d :
  NoDup (map fst (list_dir d m)) ∧ Forall (entry_ok d) (list_dir d m).
Proof.
  pose proof (merge_sort_Permutation entry_le (children d m)) as Hp. split.
  - unfold list_dir. eapply NoDup_Permutation_proper; [by apply Permutation_map|].
    apply children_names.
  - rewrite Forall_forall. intros e He. unfold list_dir in He. rewrite Hp in He.
    apply children_spec in He as ([b|] & E & He); [right; eauto|by left].
Qed.

Lemma list_dir_complete d x : d ≠ [] →
  below d x ↔ ∃ e, e ∈ list_dir d m ∧ entry_below d e x.
Proof.
  intros Hd. split; [|by intros (e & _ & H1 & _)].
  intros (H1 & H2 & r & Hr & E). destruct r as [|s r]; [done|].
  assert (E' : x.1 = (d ++ [s]) ++ r) by (by rewrite E, <- app_assoc).
  assert (Hn : ∃ n, m !! (d ++ [s]) = Some n).
  { destruct r as [|s' r].
    { rewrite app_nil_r in E'. rewrite <- E'. eauto. }
    destruct (lay_rooted root m Hl _ _ H1) as [_ Ha]. rewrite List.Forall_forall in Ha.
    specialize (Ha (d ++ [s])). rewrite E' in Ha. specialize (Ha ltac:(by apply prefixes_intro)).
    rewrite lookup_node_proper in Ha; [eauto|]. by destruct d as [|? []]. }
  destruct Hn as [n Hn].
  exists (s, match n with Dir => true | File _ => false end). split.
  - unfold list_dir. rewrite merge_sort_Permutation. apply children_spec. simpl. eauto.
  - split; [|by exists r]. split; [done|]. split; [done|]. eauto.
Qed.

(** ** The walk *)

Lemma walk_visits fuel d : d ≠ [] → resolve m d = Ok Dir →
  (depth m + 2 ≤ fuel + length d)%nat →
  ∃ l, NoDup l ∧ (∀ x, x ∈ l ↔ below d x) ∧ ∀ A, visits (λ (fn : A → string → A * res unit) acc, walk fn fuel d acc) l.
Proof.
  revert d. induction fuel as [|fuel IH]; intros d Hd Hr Hf.
  { exfalso. apply resolve_ok in Hr as [Hr _]. destruct (decide (proper d)) as [Hp|Hp].
    - rewrite lookup_node_proper in Hr by done. apply depth_bound in Hr. simpl in Hf. lia.
    - destruct (decide (d = [""])) as [->|Hn]; [simpl in Hf; lia|]. by apply Hp. }
  destruct (list_dir_entries d) as [Hnd Hok].
  destruct (visit_visits (λ A fn, walk fn fuel) d (list_dir d m)) as (l & N & M & V); [done..| |].
  { intros e He Hdir. rewrite List.Forall_forall in Hok. apply list_elem_of_In, Hok in He.
    destruct He as [[Ee _]|(b & _ & Eb)]; [|congruence].
    apply IH; [by destruct d|by apply node_rooted|rewrite length_app; simpl; lia]. }
  exists l. split; [done|]. split; [intros x; by rewrite M, list_dir_complete|].
  intros A fn acc. simpl. run_ok ltac:(apply syscall_quiet; [done|simpl; by rewrite Hr]).
  apply V.
Qed.

(** What has a node below it is a directory. *)
Lemma dir_above d r n : m !! (d ++ r) = Some n → r ≠ [] → resolve m d = Ok Dir.
Proof.
  intros E Hr. destruct (lay_rooted root m Hl _ _ E) as [_ Ha]. pose proof Ha as Ha'.
  rewrite List.Forall_forall in Ha'. specialize (Ha' d ltac:(by apply prefixes_intro)). simpl in Ha'.
  rewrite resolve_open, Ha'; [done|]. rewrite List.Forall_forall in Ha. apply List.Forall_forall. intros q Hq.
  apply prefixes_in in Hq as (t & -> & Ht). simpl. rewrite (Ha q); [done|].
  rewrite <- app_assoc. apply prefixes_intro. by destruct t.
Qed.

(** From a directory that may be missing. *)
Lemma walk_objects_visits d : d ≠ [] → resolve m d = Ok Dir ∨ resolve m d = Err ErrNotExist →
  ∃ l, NoDup l ∧ (∀ x, x ∈ l ↔ below d x) ∧
    ∀ A, visits (λ (fn : A → string → A * res unit) acc, walk_objects d fn acc) l.
Proof.
  intros Hne [Hr|Hr].
  - destruct (walk_visits (S (S (depth m))) d Hne Hr) as (l & N & M & V); [lia|].
    exists l. split; [done|]. split; [done|]. intros A fn acc. unfold walk_objects.
    run_ok ltac:(reflexivity). apply V.
  - exists []. split; [constructor|]. split.
    + intros x. split; [by intros ?%elem_of_nil|]. intros (H1 & _ & r & Hr' & E). rewrite E in H1.
      by rewrite (dir_above _ _ _ H1 Hr') in Hr.
    + intros A fn acc. unfold walk_objects. run_ok ltac:(reflexivity). simpl.
      run_ok ltac:(apply syscall_quiet; [done|simpl; by rewrite Hr]). done.
Qed.
End walk_facts.

(** ** GetList and Count against the contract *)

Section lists.
Context {Obj : Type} `{ApiObjectLaws Obj} (root : path) (Hroot : good_base root).
Implicit Types (a : astate Obj) (w : world Obj) (d p : path).

(** The objects the contract holds below a directory. *)
Definition objects_below d a : list Obj :=
  map snd (List.filter (λ x, bool_decide (d `prefix_of` x.1)) (map_to_list (a_kv a))).

Definition decoded (b : string) : Obj :=
  match decode_fresh b with Ok o => o | Err _ => obj_new end.

(** The files of the walk hold these objects. *)
Lemma below_objects m d (l : list (path * string)) :
  layout root m → resolve m d = Ok Dir ∨ resolve m d = Err ErrNotExist →
  NoDup l → (∀ x, x ∈ l ↔ below m d x) →
  Forall (λ x, decode_fresh x.2 = Ok (decoded x.2)) l ∧
  map (λ x, (x.1, decoded x.2)) l ≡ₚ
    List.filter (λ x, bool_decide (d `prefix_of` x.1)) (map_to_list (abs m)).
Proof.
  intros Hl Hr Hnd Hm.
  assert (Hdec : ∀ p b, below m d (p, b) → decode_fresh b = Ok (decoded b) ∧
                        abs m !! p = Some (decoded b)).
  { intros p b (H1 & H2 & _). destruct (lay_objects root m Hl p b H1 H2) as (o & Ho & _).
    simpl in *. rewrite abs_lookup, H1. unfold decoded. simpl. by rewrite H2, Ho. }
  split. { rewrite Forall_forall. intros [p b] Hx. simpl. by eapply Hdec, Hm. }
  apply NoDup_Permutation.
  - apply (NoDup_fmap_2_strong (λ x : path * string, (x.1, decoded x.2))); [|done].
    intros [p b] [p' b'] Hx Hy [= -> _]. apply Hm in Hx as [Hx _], Hy as [Hy _].
    simpl in *. congruence.
  - apply NoDup_ListNoDup, List.NoDup_filter, NoDup_ListNoDup, NoDup_map_to_list.
  - intros [p o]. rewrite !list_elem_of_In, List.filter_In, <- !list_elem_of_In,
      elem_of_map_to_list, bool_decide_eq_true.
    rewrite list_elem_of_In, List.in_map_iff. simpl. split.
    + intros ([p' b] & [= -> <-] & Hin). apply list_elem_of_In, Hm in Hin.
      split; [by apply Hdec|]. destruct Hin as (_ & _ & r & _ & E). by exists r.
    + intros [E (r & ->)]. rewrite abs_lookup in E.
      destruct (m !! (d ++ r)) as [[b|]|] eqn:Eb; [|done..]. simpl in E.
      destruct (skip_file _) eqn:Es; [done|].
      assert (Hb : below m d (d ++ r, b)).
      { split; [done|]. split; [done|]. exists r. split; [|done]. intros ->.
        rewrite app_nil_r in Eb. apply (node_rooted root m Hl) in Eb as [_ Eb].
        destruct Hr; congruence. }
      exists (d ++ r, b). split; [|by apply list_elem_of_In, Hm]. simpl. f_equal.
      clear Hb. revert E. unfold decoded.
      destruct (decode_fresh b); [by intros [= ->]|done].
Qed.

Lemma fold_collect pred predb acc (l : list (path * string)) :
  (∀ o, pred o = Ok (predb o)) → Forall (λ x, decode_fresh x.2 = Ok (decoded x.2)) l →
  fold_stop (collect pred) acc (map snd l)
  = (acc ++ List.filter predb (map (λ x, decoded x.2) l), Ok tt).
Proof.
  intros Hp Hl. revert acc. induction Hl as [|[p b] l E Hl IH]; intros acc; simpl.
  { by rewrite app_nil_r. }
  unfold collect at 1. simpl in E. rewrite E, Hp, IH.
  destruct (predb (decoded b)); [by rewrite <- app_assoc|done].
Qed.

Lemma fold_count (n : N) (l : list string) :
  fold_stop (λ n _, ((n + 1)%N, Ok tt)) n l = ((n + N.of_nat (length l))%N, Ok tt).
Proof.
  revert n. induction l as [|x l IH]; intros n; simpl fold_stop; [simpl; f_equal; lia|].
  rewrite IH. f_equal. simpl. lia.
Qed.

(** The directory of a collection. *)
Definition collection (key : string) d : Prop :=
  ∃ r ns, parse_prefix key = (r, ns, false, "") ∧ d = resource_dir root r ns ∧
          label r ∧ (ns = "" ∨ label ns).

Lemma collection_split key d : collection key d → ∃ l, d = root ++ l ∧ Forall label l.
Proof.
  intros (r & ns & _ & -> & Hr & Hns).
  rewrite resource_dir_eq; [|done|by apply label_good|].
  - destruct (String.eqb_spec ns ""); eexists; (split; [reflexivity|]); [each done|].
    destruct Hns; [done|each done].
  - destruct Hns as [->|]; [by left|right; by apply label_good].
Qed.

Lemma collection_dir m key d : layout root m → collection key d →
  d ≠ [] ∧ (resolve m d = Ok Dir ∨ resolve m d = Err ErrNotExist).
Proof.
  intros Hl (l & -> & Hlab)%collection_split. split; [by destruct root|].
  destruct (labels_open root m l Hl Hlab) as [Ho Hf]. rewrite resolve_open by done.
  destruct (lookup_node m (root ++ l)) as [[b|]|]; [done|by left|by right].
Qed.

(** A walk needs the layout, not the locks: it runs beside other requests. *)
Lemma walk_quiet {A} w a key d (fn : A → string → A * res unit) acc :
  quiet (wd_fs w) → layout root (fs_nodes (wd_fs w)) → abs (fs_nodes (wd_fs w)) = a_kv a →
  collection key d →
  ∃ l : list (path * string), Forall (λ x, decode_fresh x.2 = Ok (decoded x.2)) l ∧
    map (λ x, decoded x.2) l ≡ₚ objects_below d a ∧
    on_fs (walk_objects d fn acc) w = (w, Val (fold_stop fn acc (map snd l))).
Proof.
  intros Hq Hl Ha Hc. destruct (collection_dir _ key d Hl Hc) as [Hne Hr].
  destruct (walk_objects_visits root _ Hl d Hne Hr) as (l & N & M & V).
  destruct (below_objects _ d l Hl Hr N M) as [Hdec Hp]. exists l. split; [done|]. split.
  - unfold objects_below. rewrite <- Ha, <- Hp, map_map. done.
  - destruct w as [[m sch] v s k u]. unfold quiet in Hq. simpl in *. subst sch.
    by erewrite on_fs_run by apply V.
Qed.

Lemma walk_run {A} w a key d (fn : A → string → A * res unit) acc :
  R root w a → collection key d →
  ∃ l : list (path * string), Forall (λ x, decode_fresh x.2 = Ok (decoded x.2)) l ∧
    map (λ x, decoded x.2) l ≡ₚ objects_below d a ∧
    on_fs (walk_objects d fn acc) w = (w, Val (fold_stop fn acc (map snd l))).
Proof. intros Hw. apply walk_quiet; apply Hw. Qed.

Lemma current_rv_run w : current_rv w = (w, Val (wd_rv w)).
Proof. by destruct w. Qed.

Lemma get_list_quiet w a key d opts predb :
  quiet (wd_fs w) → layout root (fs_nodes (wd_fs w)) → abs (fs_nodes (wd_fs w)) = a_kv a →
  collection key d → lo_recursive opts = true →
  (∀ o, lo_predicate opts o = Ok (predb o)) →
  ∃ items, get_list root key opts [] w = (w, Val (Ok (MkOList items (wd_rv w)))) ∧
           items ≡ₚ List.filter predb (objects_below d a).
Proof.
  intros Hq Hl Ha Hc Hrec Hp.
  destruct (walk_quiet w a key d (collect (lo_predicate opts)) [] Hq Hl Ha Hc)
    as (l & Hdec & Hperm & E).
  pose proof Hc as (r & ns & Ek & -> & _ & _).
  exists (List.filter predb (map (λ x, decoded x.2) l)). split; [|by rewrite Hperm].
  unfold get_list. run_ok ltac:(apply current_rv_run). rewrite Hrec, Ek. simpl.
  unfold walk_ok. erewrite ebind_ok by (unfold bind; rewrite E, (fold_collect _ predb) by done; reflexivity).
  unfold update_list, of_res. by rewrite update_list_total.
Qed.

(** C29: a recursive [GetList] of a collection returns, exactly once each, the
    stored objects of that resource and namespace that the predicate selects,
    with the counter's value as the list's resourceVersion; it changes
    nothing, and its walk never runs out of fuel. *)
Theorem get_list_complete w a key d opts predb :
  R root w a → collection key d → lo_recursive opts = true →
  (∀ o, lo_predicate opts o = Ok (predb o)) →
  ∃ items, get_list root key opts [] w = (w, Val (Ok (MkOList items (a_rv a)))) ∧
           items ≡ₚ List.filter predb (objects_below d a).
Proof.
  intros Hw. rewrite <- (r_rv root w a Hw). apply get_list_quiet; apply Hw.
Qed.

(** [Count] of a collection is the number of objects stored in it. *)
Theorem count_collection w a key d :
  R root w a → collection key d →
  count root key w = (w, Val (Ok (N.of_nat (length (objects_below d a))))).
Proof.
  intros Hw Hc.
  destruct (walk_run w a key d (λ n _, ((n + 1)%N, Ok tt)) 0%N Hw Hc) as (l & _ & Hperm & E).
  pose proof Hc as (r & ns & Ek & -> & _ & _). unfold count. rewrite Ek. unfold walk_ok.
  run_ok ltac:(exact E). rewrite fold_count, <- Hperm, !length_map. done.
Qed.
End lists.
