(* ===== verification/StoreRuns.v ===== *)
(** * Runs of a store: requests, watch consumers and what they see

    A run interleaves completed requests with what happens to the watchers: the
    consumer of one watcher, the one in focus, receives events, and the other
    watchers subscribe, receive and stop.  Requests run one after the other
    here; Interleave lets the sections of writers interleave. *)

From S2P Require Import Prelude GoStrings Fs Counter Watch Keys Store StoreFacts StoreSpec.

Section runs.
Context {Obj : Type} `{ApiObjectLaws Obj} (root : path) (Hroot : good_base root).
Implicit Types (a : astate Obj) (w : world Obj) (p : path) (s : wstate Obj).

(** ** Requests *)

Inductive op :=
  | OpCreate (key : string) (p : path) (obj : Obj) (want_out : bool)
  | OpGet (key : string) (p : path) (ignore_not_found : bool)
  | OpDelete (key : string) (p : path) (want_out : bool)
      (pre : string → Obj → res unit) (validate : option (Obj → res unit)) (ignore_read : bool)
  | OpUpdate (key : string) (p : path) (want_out ignore_not_found : bool)
      (pre : string → Obj → res unit) (try_update : Obj → N → Obj * res Obj).

Definition op_run (o : op) : M (world Obj) (res (option Obj)) :=
  match o with
  | OpCreate key _ obj out => create root key obj (out_of out)
  | OpGet key _ ignore => let? x := get root key ignore obj_new in ok (Some x)
  | OpDelete key _ out pre val ignore => delete_obj root key (out_of out) pre val ignore
  | OpUpdate key _ out ignore pre try_update =>
      guaranteed_update root key (out_of out) ignore pre try_update
  end.

Definition op_spec (o : op) a : astate Obj * res (option Obj) :=
  match o with
  | OpCreate key p obj out => spec_create key p obj out a
  | OpGet key p ignore =>
      (a, match (spec_get key p ignore a).2 with Ok x => Ok (Some x) | Err e => Err e end)
  | OpDelete key p out pre val _ => spec_delete key p out pre val a
  | OpUpdate key p out ignore pre try_update => spec_update key p out ignore pre try_update a
  end.

Definition op_valid (o : op) : Prop :=
  match o with
  | OpCreate key p obj _ => target root key p ∧ obj_accessor obj = Ok tt
  | OpGet key p _ => target root key p
  | OpDelete key p _ _ _ _ => target root key p
  | OpUpdate key p _ _ _ try_update => target root key p ∧ well_behaved try_update
  end.

Lemma refines_run {A} (c : M (world Obj) (res A)) sp w a w' x :
  refines root c sp → R root w a → (a_rv a < max_u64)%N → takes a (sp a).1 (wd_watch w) →
  c w = (w', Val x) → x = (sp a).2 ∧ R root w' (sp a).1 ∧
                      moved a (sp a).1 (wd_watch w) (wd_watch w').
Proof.
  intros Hr Hw Hv Htk E. destruct (Hr w a Hw Hv Htk) as (w1 & E1 & H1 & H2).
  rewrite E1 in E. injection E as <- <-. auto.
Qed.
End runs.
Arguments op : clear implicits.

(** ** The abstract run *)

Section replay.
Context {Obj : Type} `{ApiObjectLaws Obj}.
Implicit Types (a : astate Obj) (kv : gmap path Obj).

(** What a client that keeps a copy does with an event. *)
Definition apply_event (x : path * event Obj) kv : gmap path Obj :=
  match ev_type x.2 with
  | Deleted => delete x.1 kv
  | _ => <[x.1 := obj_norm (ev_obj x.2)]> kv
  end.

Definition apply_events (l : list (path * event Obj)) kv : gmap path Obj :=
  fold_left (λ kv x, apply_event x kv) l kv.

(** One step of the contract: nothing, or one event under the next version. *)
Definition evolves a a' : Prop :=
  (a_log a' = a_log a ∧ a_kv a' = a_kv a ∧ a_rv a' = a_rv a) ∨
  (∃ x, a_log a' = a_log a ++ [x] ∧ a_kv a' = apply_event x (a_kv a) ∧
        a_rv a' = (a_rv a + 1)%N ∧ ev_rv x.2 = a_rv a').

Lemma evolves_refl a : evolves a a.
Proof. by left. Qed.

Lemma commit_evolves p ty o a : ty ≠ Deleted → evolves a (commit p ty o a).
Proof. intros Hty. right. eexists. split; [done|]. by destruct ty. Qed.

Lemma fresh_commit_evolves p ty o v a : ty ≠ Deleted →
  let '(o', a1) := fresh_uid o a in evolves a (commit p ty (stamp v o') a1).
Proof.
  intros Hty. pose proof (fresh_uid_frame o a) as (E1 & E2 & E3 & _).
  destruct (fresh_uid o a) as [o' a1]. simpl in *. unfold evolves. rewrite <- E1, <- E2, <- E3.
  by apply commit_evolves.
Qed.

Lemma op_spec_evolves (o : op Obj) a : evolves a (op_spec o a).1.
Proof.
  destruct o as [key p obj out|key p ig|key p out pre val ig|key p out ig pre tu]; simpl.
  - unfold spec_create. destruct (a_kv a !! p); [by left|].
    pose proof (fresh_commit_evolves p Added obj (a_rv a + 1) a) as Hc.
    destruct (fresh_uid obj a). by apply Hc.
  - by left.
  - unfold spec_delete. destruct (a_kv a !! p) as [o|]; [|by left].
    destruct (checks key pre val o); [|by left]. right. eexists. split; [done|]. done.
  - unfold spec_update. destruct (a_kv a !! p) as [o|].
    + destruct (pre key o); [|by left]. destruct (tu o _) as [c [u|e]]; [|by left].
      case_bool_decide; [by left|]. by apply commit_evolves.
    + destruct ig; [|by left]. destruct (tu obj_new 0%N).2 as [u|e]; [|by left].
      pose proof (fresh_uid_frame (stamp (a_rv a + 1) u) a) as (E1 & E2 & E3 & _).
      destruct (fresh_uid _ a) as [o' a1]. simpl in *. unfold evolves.
      rewrite <- E1, <- E2, <- E3. by apply commit_evolves.
Qed.
End replay.

(** ** Runs *)

Section focus.
Context {Obj : Type} `{ApiObjectLaws Obj} (root : path) (Hroot : good_base root).
Implicit Types (a : astate Obj) (w : world Obj) (p : path) (s : wstate Obj) (o : op Obj).

Lemma op_refines o : op_valid root o → refines root (op_run root o) (op_spec o).
Proof.
  destruct o as [key p obj out|key p ig|key p out pre val ig|key p out ig pre tu]; simpl.
  - intros [Ht Ho]. by apply create_sound.
  - intros Ht w a Hw Hv Htk. destruct (get_sound root Hroot key p ig Ht w a Hw Hv) as (w' & E & Hr & Hm);
      [done|]. exists w'. split; [|done]. unfold ebind, bind. rewrite E.
    unfold spec_get. simpl. destruct (a_kv a !! p); [done|]. by destruct ig.
  - intros Ht. by apply delete_sound.
  - intros [Ht Htry]. by apply update_sound.
Qed.

Inductive action := ADone (o : op Obj) (r : res (option Obj)) | ARecv (e : wevent Obj) | AOther.

(** The watchers other than [i] may change; the broadcaster's ring does not. *)
Definition elsewhere (i : nat) s s' : Prop :=
  b_locked (ws_b s') = b_locked (ws_b s) ∧ b_ring (ws_b s') = b_ring (ws_b s) ∧
  b_capacity (ws_b s') = b_capacity (ws_b s) ∧
  (i ∈ b_subs (ws_b s) → i ∈ b_subs (ws_b s')) ∧ ws_heap s' !! i = ws_heap s !! i.

(** One action, seen with the contract's state: a request whose event every
    subscriber can take, a receive on [i], or an action of other watchers. *)
Inductive step (i : nat) : world Obj * astate Obj → action → world Obj * astate Obj → Prop :=
  | step_op w a o w' r :
      op_valid root o → takes a (op_spec o a).1 (wd_watch w) →
      op_run root o w = (w', Val r) →
      step i (w, a) (ADone o r) (w', (op_spec o a).1)
  | step_recv w a w' e :
      on_watch (recv i) w = (w', Val (Some e)) → step i (w, a) (ARecv e) (w', a)
  | step_other w a s' :
      elsewhere i (wd_watch w) s' → step i (w, a) AOther (set_wd_watch s' w, a).

Inductive run (i : nat) : world Obj * astate Obj → list action → world Obj * astate Obj → Prop :=
  | run_done c : run i c [] c
  | run_step c x c1 tr c2 : step i c x c1 → run i c1 tr c2 → run i c (x :: tr) c2.

(** The results the contract gives to the requests of a run. *)
Fixpoint spec_results a (tr : list action) : list (res (option Obj)) :=
  match tr with
  | [] => []
  | ADone o _ :: tr' => let '(a', r) := op_spec o a in r :: spec_results a' tr'
  | _ :: tr' => spec_results a tr'
  end.

Definition results (tr : list action) : list (res (option Obj)) :=
  omap (λ x, match x with ADone _ r => Some r | _ => None end) tr.

Definition received (tr : list action) : list (wevent Obj) :=
  omap (λ x, match x with ARecv e => Some e | _ => None end) tr.

Lemma R_watch_frame w a s' i : R root w a → elsewhere i (wd_watch w) s' → R root (set_wd_watch s' w) a.
Proof.
  intros [H1 H2 H3 H4 H5 H6 H7 H8 H9] (E1 & E2 & E3 & _). constructor; simpl; try done.
  - by rewrite E2, E3.
  - by rewrite E1.
Qed.

Lemma recv_elsewhere i j s s' r : recv i s = (s', Val r) → i ≠ j → elsewhere j s s'.
Proof.
  unfold recv, bind, deref, gets, ret, stop_with. cbn. destruct (ws_heap s !! i) as [x|] eqn:Ex; [|done].
  intros E Hne. destruct (w_ch x) as [|e q]; [by injection E as <- _|].
  unfold update, modify, ret in E. injection E as <- _.
  repeat split; try done. simpl. by rewrite lookup_alter_ne.
Qed.

Lemma step_R i c x c' : R root c.1 c.2 → (a_rv c.2 < max_u64)%N → step i c x c' →
  R root c'.1 c'.2 ∧ evolves c.2 c'.2 ∧
  match x with ADone o r => r = (op_spec o c.2).2 ∧ c'.2 = (op_spec o c.2).1 | _ => c'.2 = c.2 end.
Proof.
  intros HR Hv Hs. destruct Hs as [w a o w' r Hval Htk E|w a w' e E|w a s' He]; simpl in *.
  - destruct (refines_run root _ _ w a w' r (op_refines o Hval) HR Hv Htk E) as (-> & HR' & _).
    split; [done|]. split; [apply op_spec_evolves|done].
  - split; [|by split; [left|]]. unfold on_watch, zoom in E.
    destruct (recv i (wd_watch w)) as [s' r] eqn:Er. injection E as <- ->.
    apply (R_watch_frame w a s' (S i) HR). by eapply recv_elsewhere; [exact Er|lia].
  - split; [by eapply R_watch_frame|]. by split; [left|].
Qed.

Lemma evolves_rv a a' : evolves a a' → (a_rv a <= a_rv a' <= a_rv a + 1)%N.
Proof. intros [(_ & _ & ->)|(x & _ & _ & -> & _)]; lia. Qed.

Lemma run_sound i c tr c' :
  R root c.1 c.2 → run i c tr c' → (a_rv c.2 + N.of_nat (length tr) <= max_u64)%N →
  R root c'.1 c'.2 ∧ results tr = spec_results c.2 tr.
Proof.
  intros HR Hrun. induction Hrun as [c|c x c1 tr c2 Hs Hrun IH]; intros Hb; [by split|].
  cbn [length] in Hb. destruct (step_R i c x c1 HR) as (HR1 & Hev & Hx); [lia|done|].
  apply evolves_rv in Hev. destruct IH as [HR2 Hres]; [done|lia|]. split; [done|].
  unfold results. destruct x as [o r|e|]; simpl; [|by rewrite <- Hx..].
  destruct Hx as [-> Hx]. destruct (op_spec o c.2) as [a' r']. simpl in *. by rewrite <- Hx, <- Hres.
Qed.

(** C16: on a run of requests and consumers with room in their channels, every
    request returns what the contract returns, in the order the requests
    complete, and the store ends in the state of the contract: the files, the
    counter, the ring and the locks are those of the abstract state. *)
Theorem run_refines i c tr c' :
  R root c.1 c.2 → run i c tr c' → (a_rv c.2 + N.of_nat (length tr) <= max_u64)%N →
  R root c'.1 c'.2 ∧ results tr = spec_results c.2 tr.
Proof. apply run_sound. Qed.

(** ** The events of a run *)

(** [new] are the events of the evolution from [a] to [a']. *)
Definition extends a a' (new : list (path * event Obj)) : Prop :=
  a_log a' = a_log a ++ new ∧ a_kv a' = apply_events new (a_kv a) ∧
  a_rv a' = (a_rv a + N.of_nat (length new))%N ∧
  map (λ x, ev_rv x.2) new = map (λ k, (a_rv a + 1 + N.of_nat k)%N) (seq 0 (length new)).

Lemma extends_nil a a' :
  a_log a' = a_log a → a_kv a' = a_kv a → a_rv a' = a_rv a → extends a a' [].
Proof. intros E1 E2 E3. split; [by rewrite app_nil_r|]. repeat split; [done|simpl; lia]. Qed.

Lemma extends_evolves a a1 a2 new : evolves a a1 → extends a1 a2 new →
  ∃ l, extends a a2 (l ++ new) ∧ a_log a1 = a_log a ++ l ∧ (length l ≤ 1)%nat.
Proof.
  intros [(E1 & E2 & E3)|(x & E1 & E2 & E3 & E4)] (F1 & F2 & F3 & F4).
  - exists []. split; [|by rewrite app_nil_r; auto]. unfold extends. simpl. by rewrite <- E1, <- E2, <- E3.
  - exists [x]. split; [|by split]. unfold extends. rewrite F1, E1, <- app_assoc. split; [done|].
    split; [by rewrite F2, E2|]. simpl. split; [lia|]. f_equal; [lia|].
    rewrite F4, E3, <- seq_shift, map_map. apply map_ext. intros k. lia.
Qed.

Lemma run_extends i c tr c' :
  R root c.1 c.2 → run i c tr c' → (a_rv c.2 + N.of_nat (length tr) <= max_u64)%N →
  ∃ new, extends c.2 c'.2 new ∧ (length new ≤ length tr)%nat.
Proof.
  intros HR Hrun. induction Hrun as [c|c x c1 tr c2 Hs Hrun IH]; intros Hb.
  { exists []. split; [by apply extends_nil|done]. }
  cbn [length] in Hb. destruct (step_R i c x c1 HR) as (HR1 & Hev & _); [lia|done|].
  pose proof (evolves_rv _ _ Hev). destruct IH as (new & Hn & Hlen); [done|lia|].
  destruct (extends_evolves _ _ _ _ Hev Hn) as (l & Hl & _ & Hl1). exists (l ++ new).
  split; [done|]. rewrite length_app. simpl. lia.
Qed.

(** The events a run publishes are exactly its changes: they carry
    consecutive resourceVersions, one each, starting after the version the run
    started from, and applying them in order to the objects at the start gives
    the objects on disk at the end. *)
Theorem events_reproduce_state i w a tr w' a' :
  R root w a → run i (w, a) tr (w', a') → (a_rv a + N.of_nat (length tr) <= max_u64)%N →
  ∃ new, a_log a' = a_log a ++ new ∧
    abs (fs_nodes (wd_fs w')) = apply_events new (abs (fs_nodes (wd_fs w))) ∧
    wd_rv w' = (wd_rv w + N.of_nat (length new))%N ∧
    map (λ x, ev_rv x.2) new = map (λ k, (wd_rv w + 1 + N.of_nat k)%N) (seq 0 (length new)).
Proof.
  intros HR Hrun Hb. destruct (run_extends i (w, a) tr (w', a') HR Hrun Hb) as (new & (H1 & H2 & H3 & H4) & _).
  destruct (run_sound i (w, a) tr (w', a') HR Hrun Hb) as [HR' _]. simpl in *. exists new.
  rewrite (r_kv _ _ _ HR), (r_kv _ _ _ HR'), (r_rv _ _ _ HR), (r_rv _ _ _ HR'). by repeat split.
Qed.

(** ** What the consumer in focus sees *)

Context (i : nat) (pr : Obj → res bool) (mk : Obj → bool).

Definition shown (l : list (path * event Obj)) : list (wevent Obj) :=
  map wevent_of (List.filter (sees pr mk) (map snd l)).

Lemma shown_app l1 l2 : shown (l1 ++ l2) = shown l1 ++ shown l2.
Proof. unfold shown. by rewrite map_app, List.filter_app, map_app. Qed.

Lemma step_follows c x c' q : R root c.1 c.2 → (a_rv c.2 < max_u64)%N → step i c x c' →
  follows i pr mk q (wd_watch c.1) →
  ∃ l q', a_log c'.2 = a_log c.2 ++ l ∧ follows i pr mk q' (wd_watch c'.1) ∧
          received [x] ++ q' = q ++ shown l.
Proof.
  intros HR Hv Hs Hf. destruct Hs as [w a o w' r Hval Htk E|w a w' e E|w a s' He]; simpl in *.
  - destruct (refines_run root _ _ w a w' r (op_refines o Hval) HR Hv Htk E) as (_ & _ & Hm).
    destruct Hm as [[-> ->]|(y & -> & Hp)].
    + exists [], q. unfold shown. simpl. by rewrite !app_nil_r.
    + exists [y], (q ++ shown [y]). split; [done|]. split; [|done].
      by apply (follows_published i pr mk q y.2 (wd_watch w)).
  - unfold on_watch, zoom in E. destruct (recv i (wd_watch w)) as [s' r] eqn:Er.
    injection E as <- ->. destruct (follows_recv _ _ _ _ _ _ _ Hf Er) as (q' & -> & Hf' & _).
    exists [], q'. rewrite app_nil_r. split; [done|]. split; [done|]. unfold shown. simpl.
    by rewrite app_nil_r.
  - exists [], q. rewrite app_nil_r. split; [done|]. destruct He as (_ & _ & _ & Hin & Hh).
    destruct Hf as (Hin' & Hf). split; [|unfold shown; by rewrite app_nil_r].
    split; [auto|]. by rewrite Hh.
Qed.

Lemma watcher_receives w a tr w' a' q :
  R root w a → run i (w, a) tr (w', a') → (a_rv a + N.of_nat (length tr) <= max_u64)%N →
  follows i pr mk q (wd_watch w) →
  ∃ new q', a_log a' = a_log a ++ new ∧ follows i pr mk q' (wd_watch w') ∧
            received tr ++ q' = q ++ shown new.
Proof.
  intros HR Hrun. remember (w, a) as c eqn:Ec. remember (w', a') as c' eqn:Ec'.
  assert (E1 : w = c.1 ∧ a = c.2) by by subst. assert (E2 : w' = c'.1 ∧ a' = c'.2) by by subst.
  destruct E1 as [-> ->], E2 as [-> ->]. clear Ec Ec'. revert q.
  induction Hrun as [c|c x c1 tr c2 Hs Hrun IH]; intros q Hb Hf.
  { exists [], q. rewrite app_nil_r. split; [done|]. split; [done|]. unfold shown. simpl.
    by rewrite app_nil_r. }
  cbn [length] in Hb. destruct (step_R i c x c1 HR) as (HR1 & Hev & _); [lia|done|].
  pose proof (evolves_rv _ _ Hev).
  destruct (step_follows c x c1 q HR) as (l & q1 & El & Hf1 & Eq); [lia|done|done|].
  destruct (IH HR1 q1) as (new & q2 & En & Hf2 & Eq2); [lia|done|].
  exists (l ++ new), q2. split; [by rewrite En, El, app_assoc|]. split; [done|].
  rewrite shown_app, app_assoc, <- Eq, <- app_assoc, <- Eq2.
  change (x :: tr) with ([x] ++ tr). unfold received. by rewrite omap_app, app_assoc.
Qed.

(** C17: a subscribed watcher that keeps up sees exactly the changes it selects:
    what its consumer has received, followed by what still waits in its
    channel, is what waited at the start followed by every event published
    since that matches its key and predicate, in order, each once. *)
Theorem watcher_sees_all w a tr w' a' q :
  R root w a → run i (w, a) tr (w', a') → (a_rv a + N.of_nat (length tr) <= max_u64)%N →
  follows i pr mk q (wd_watch w) →
  ∃ new q', a_log a' = a_log a ++ new ∧ follows i pr mk q' (wd_watch w') ∧
            received tr ++ q' = q ++ shown new.
Proof. apply watcher_receives. Qed.
End focus.
