(* ===== verification/StoreWatch.v ===== *)
(** * Opening a watch

    [watch] subscribes a new watcher under the broadcaster's lock, after
    putting the events between the requested resourceVersion and the present
    into its channel. *)

From S2P Require Import Prelude GoStrings Fs Counter Watch Keys Store StoreFacts StoreSpec.
From S2P Require Import StoreList StoreRuns.

Lemma filter_all {A} (f : A → bool) (l : list A) : (∀ x, x ∈ l → f x = true) → List.filter f l = l.
Proof.
  induction l as [|y l IH]; intros Hl; simpl; [done|]. rewrite (Hl y) by by left.
  rewrite IH; [done|]. intros k Hk. apply Hl. by right.
Qed.

Section watch.
Context {Obj : Type} `{ApiObjectLaws Obj} (root : path) (Hroot : good_base root).
Implicit Types (a : astate Obj) (w : world Obj) (s : wstate Obj) (x : watcher Obj).

Lemma on_watch_run {A} (c : M (wstate Obj) A) w s r :
  c (wd_watch w) = (s, Val r) → on_watch c w = (set_wd_watch s w, Val r).
Proof. intros E. unfold on_watch. by erewrite zoom_run by exact E. Qed.

Lemma insert_push s i x e : ws_heap s !! i = Some x →
  set_heap (alter (push e) i) s = set_heap (insert i (push e x)) s.
Proof.
  intros Hx. unfold set_heap. f_equal. apply map_eq. intros j.
  rewrite lookup_alter, lookup_insert. case_decide as E; [subst j|done]. by rewrite Hx.
Qed.

(** A new watcher's channel takes what fits. *)
Lemma deliver_all_run i evs w x :
  ws_heap (wd_watch w) !! i = Some x → live x → (length (w_ch x) + length evs ≤ w_cap x)%nat →
  deliver_all i evs w =
    (set_wd_watch (set_heap (insert i (set_ch (w_ch x ++ evs) x)) (wd_watch w)) w, Val tt).
Proof.
  revert w x. induction evs as [|e evs IH]; intros w x Hx Hl Hlen; simpl.
  - rewrite app_nil_r. unfold ret. f_equal. destruct w as [f v [b h n o] k u]. unfold set_wd_watch, set_heap.
    simpl in *. f_equal. f_equal. rewrite insert_id; [done|]. rewrite Hx. by destruct x.
  - cbn [length] in Hlen. erewrite bind_val.
    2:{ apply on_watch_run. apply (deliver_live _ _ x); [exact Hx|done|unfold has_room; lia]. }
    rewrite (insert_push _ _ x) by done. rewrite (IH _ (push e x)); simpl.
    + f_equal. unfold set_wd_watch, set_heap. simpl. f_equal. f_equal.
      rewrite insert_insert_eq. unfold push. simpl. by rewrite <- app_assoc.
    + by rewrite lookup_insert_eq.
    + by destruct Hl.
    + rewrite length_app. simpl. lia.
Qed.

(** The watcher as [watch] makes it. *)
Definition fresh_watcher (pred : Obj → res bool) (mk : Obj → bool) : watcher Obj :=
  MkWatcher pred mk [] 100 false false false false.

Definition opened (s : wstate Obj) (pred : Obj → res bool) (mk : Obj → bool)
    (q : list (wevent Obj)) : wstate Obj :=
  let i := ws_next s in
  MkWState (set_subs (λ d, {[i]} ∪ d) (ws_b s))
    (<[i := set_onstop (set_ch q (fresh_watcher pred mk))]> (ws_heap s)) (S i) (ws_oracle s).

Lemma opened_follows s pred mk q : follows (ws_next s) pred mk q (opened s pred mk q).
Proof.
  split; [simpl; set_solver|]. eexists. simpl. rewrite lookup_insert_eq. done.
Qed.

Lemma R_opened w a pred mk q : R root w a → R root (set_wd_watch (opened (wd_watch w) pred mk q) w) a.
Proof. intros [H1 H2 H3 H4 H5 H6 H7 H8 H9]. by constructor. Qed.

(** Delivering [evs] to the new watcher and subscribing it. *)
Lemma subscribe_run w evs pred mk : b_locked (ws_b (wd_watch w)) = false → (length evs ≤ 100)%nat →
  let i := ws_next (wd_watch w) in
  let s1 := set_b (set_locked true) (MkWState (ws_b (wd_watch w))
              (<[i := fresh_watcher pred mk]> (ws_heap (wd_watch w))) (S i) (ws_oracle (wd_watch w))) in
  (deliver_all i evs ;;;
   (on_watch (subscribe_locked i) ;;; on_watch (modify unlock) ;;; ok i)) (set_wd_watch s1 w)
  = (set_wd_watch (opened (wd_watch w) pred mk evs) w, Val (Ok i)).
Proof.
  intros Hl Hlen. cbv zeta. erewrite bind_val.
  2:{ apply (deliver_all_run _ _ _ (fresh_watcher pred mk)); simpl; [by rewrite lookup_insert_eq|done|done]. }
  simpl. erewrite bind_val by (apply on_watch_run; reflexivity).
  erewrite bind_val by (apply on_watch_run; reflexivity).
  unfold ok, ret. f_equal. unfold set_wd_watch, opened. simpl. f_equal.
  destruct (wd_watch w) as [[l c r d] h n o]. unfold set_b, unlock, set_heap. simpl in *. subst l.
  unfold set_b at 1. simpl. unfold set_subs, set_locked. simpl. f_equal.
  rewrite insert_insert_eq. apply map_eq. intros j. destruct (decide (n = j)) as [<-|].
  - by rewrite lookup_alter_eq, !lookup_insert_eq.
  - by rewrite lookup_alter_ne, !lookup_insert_ne.
Qed.

(** ** The log is in version order *)

Definition log_ok a : Prop :=
  StronglySorted N.lt (map ev_rv (map snd (a_log a))) ∧
  Forall (λ y, (ev_rv y.2 <= a_rv a)%N) (a_log a).

Lemma evolves_log_ok a a' : evolves a a' → log_ok a → log_ok a'.
Proof.
  intros [(E1 & _ & E2)|(x & E1 & _ & E2 & E3)] [H1 H2]; unfold log_ok; rewrite E1; [by rewrite E2|].
  split.
  - rewrite !map_app. apply StronglySorted_app_2; [|done|simpl; repeat constructor].
    intros u v Hu Hv. simpl in Hv. apply list_elem_of_singleton in Hv as ->.
    apply list_elem_of_In, List.in_map_iff in Hu as (e & <- & He).
    apply List.in_map_iff in He as (y & <- & Hy). rewrite List.Forall_forall in H2.
    specialize (H2 y Hy). simpl in H2. lia.
  - rewrite E2. apply Forall_app. split; [|each ltac:(lia)].
    eapply Forall_impl; [exact H2|]. simpl. lia.
Qed.

(** The selected events after a version. *)
Definition after (v : N) (l : list (path * event Obj)) : list (path * event Obj) :=
  List.filter (λ y, (v <? ev_rv y.2)%N) l.

(** The key of a watch and the version it starts from. *)
Definition watch_args (key : string) (opts : list_options Obj) (v : N) (mk : Obj → bool) : Prop :=
  lo_resource_version opts ≠ "" ∧ obj_parse_rv (lo_resource_version opts) = Ok v ∧
  let '(r, ns, single, n) := parse_prefix key in mk = matches_key (lo_recursive opts) single ns n.

Lemma after_ring v l cap out : l ≠ [] → (0 < cap)%nat → (v < max_u64)%N →
  StronglySorted N.lt (map ev_rv (map snd l)) →
  replay_locked v (recent cap (map snd l)) = Some out → out = map snd (after v l).
Proof.
  intros Hne Hcap Hv Hs E. apply replay_exact in E; [|done|by destruct l|done|done].
  subst out. unfold after. clear. induction l as [|x l IH]; simpl; [done|].
  destruct (v <? ev_rv x.2)%N; simpl; by rewrite IH.
Qed.

(** The state in which a watch starts to deliver: the new watcher allocated, the
    broadcaster locked. *)
Definition opening (s : wstate Obj) (pred : Obj → res bool) (mk : Obj → bool) : wstate Obj :=
  set_b (set_locked true) (MkWState (ws_b s)
    (<[ws_next s := fresh_watcher pred mk]> (ws_heap s)) (S (ws_next s)) (ws_oracle s)).

(** A watch from a version before the present, down to the replay. *)
Lemma watch_past w a key opts v mk :
  R root w a → watch_args key opts v mk → (0 < v < a_rv a)%N →
  let i := ws_next (wd_watch w) in
  watch root key opts w =
    match replay_locked v (b_ring (ws_b (wd_watch w))) with
    | None => (on_watch (modify unlock) ;;; on_watch (stop_with_error i (ErrExpired v (a_rv a))) ;;;
               ok i)
    | Some replay =>
        (deliver_all i (map wevent_of (List.filter (selected mk (lo_predicate opts)) replay)) ;;;
         (on_watch (subscribe_locked i) ;;; on_watch (modify unlock) ;;; ok i))
    end (set_wd_watch (opening (wd_watch w) (lo_predicate opts) mk) w).
Proof.
  intros HR (Hrv & Hp & Hmk) Hv i. unfold watch.
  rewrite (proj2 (String.eqb_neq _ _)) by done. rewrite Hp.
  run_ok ltac:(reflexivity). destruct (parse_prefix key) as [[[r ns] single] n]. subst mk.
  erewrite bind_val by (apply on_watch_run; reflexivity).
  erewrite bind_val by (apply on_watch_run, lock_run, HR).
  erewrite bind_val by apply current_rv_run.
  cbn [wd_rv set_wd_watch]. rewrite (r_rv _ _ _ HR).
  rewrite (proj2 (N.eqb_neq _ _)) by lia. rewrite (proj2 (N.ltb_lt _ _)) by lia.
  run_ok ltac:(reflexivity). cbn [ws_b wd_watch set_wd_watch set_b set_locked b_ring].
  by destruct (replay_locked v (b_ring (ws_b (wd_watch w)))).
Qed.

(** A watch from the present: nothing to replay. *)
Lemma watch_present w a key opts mk :
  R root w a → watch_args key opts (a_rv a) mk → (0 < a_rv a)%N →
  watch root key opts w =
    (set_wd_watch (opened (wd_watch w) (lo_predicate opts) mk []) w, Val (Ok (ws_next (wd_watch w)))).
Proof.
  intros HR (Hrv & Hp & Hmk) Hv. unfold watch.
  rewrite (proj2 (String.eqb_neq _ _)) by done. rewrite Hp.
  run_ok ltac:(reflexivity). destruct (parse_prefix key) as [[[r ns] single] n]. subst mk.
  erewrite bind_val by (apply on_watch_run; reflexivity).
  erewrite bind_val by (apply on_watch_run, lock_run, HR).
  erewrite bind_val by apply current_rv_run.
  cbn [wd_rv set_wd_watch]. rewrite (r_rv _ _ _ HR).
  rewrite (proj2 (N.eqb_neq _ _)) by lia. rewrite N.ltb_irrefl.
  rewrite <- (subscribe_run w [] (lo_predicate opts) _ (r_unlocked _ _ _ HR)) by (simpl; lia).
  done.
Qed.

Lemma watch_opens w a key opts v mk :
  R root w a → log_ok a → a_log a ≠ [] → (0 < b_capacity (ws_b (wd_watch w)))%nat →
  watch_args key opts v mk → (0 < v < a_rv a)%N → (a_rv a <= max_u64)%N →
  replay_locked v (b_ring (ws_b (wd_watch w))) ≠ None →
  let q := shown (lo_predicate opts) mk (after v (a_log a)) in
  (length q ≤ 100)%nat →
  let i := ws_next (wd_watch w) in
  let w' := set_wd_watch (opened (wd_watch w) (lo_predicate opts) mk q) w in
  watch root key opts w = (w', Val (Ok i)) ∧ R root w' a ∧
  follows i (lo_predicate opts) mk q (wd_watch w').
Proof.
  intros HR [Hs _] Hne Hcap Hargs Hv Hm Hrep q Hq i w'.
  split; [|split; [by apply R_opened|apply opened_follows]].
  destruct (replay_locked v _) as [out|] eqn:Er; [clear Hrep|done].
  assert (Eq : map wevent_of (List.filter (selected mk (lo_predicate opts)) out) = q).
  { pose proof Er as Er'. rewrite (r_ring _ _ _ HR) in Er'.
    apply after_ring in Er' as ->; [done|done|done|lia|done]. }
  rewrite (watch_past w a key opts v mk) by done.
  rewrite Er. rewrite Eq.
  unfold w', i. rewrite <- (subscribe_run w q (lo_predicate opts) _ (r_unlocked _ _ _ HR) Hq). done.
Qed.

(** C28: a watch from a version the ring still covers, when key and predicate
    select at most 100 of the events after it (the channel's capacity; with
    more the code stops the watcher), opens a subscribed watcher whose channel
    holds exactly those events, in order, and changes nothing else of the
    store. *)
Theorem watch_replays w a key opts v mk :
  R root w a → log_ok a → a_log a ≠ [] → (0 < b_capacity (ws_b (wd_watch w)))%nat →
  watch_args key opts v mk → (0 < v < a_rv a)%N → (a_rv a <= max_u64)%N →
  replay_locked v (b_ring (ws_b (wd_watch w))) ≠ None →
  let q := shown (lo_predicate opts) mk (after v (a_log a)) in
  (length q ≤ 100)%nat →
  let i := ws_next (wd_watch w) in
  let w' := set_wd_watch (opened (wd_watch w) (lo_predicate opts) mk q) w in
  watch root key opts w = (w', Val (Ok i)) ∧ R root w' a ∧
  follows i (lo_predicate opts) mk q (wd_watch w').
Proof. apply watch_opens. Qed.

Lemma shown_after_new v a a' new pr mk : extends a a' new → (v <= a_rv a)%N →
  a_log a' = a_log a ++ new ∧ after v (a_log a') = after v (a_log a) ++ new ∧
  shown pr mk (after v (a_log a')) = shown pr mk (after v (a_log a)) ++ shown pr mk new.
Proof.
  intros (E & _ & _ & Hrv) Hv. rewrite E.
  assert (En : after v new = new).
  { unfold after. assert (Hall : Forall (λ y : path * event Obj, (v < ev_rv y.2)%N) new).
    { rewrite List.Forall_forall. intros y Hy.
      apply (List.in_map (λ x : path * event Obj, ev_rv x.2)) in Hy. rewrite Hrv in Hy.
      apply List.in_map_iff in Hy as (k & <- & _). lia. }
    clear - Hall. induction Hall as [|y new Hy _ IH]; simpl; [done|].
    by rewrite (proj2 (N.ltb_lt _ _)), IH. }
  assert (Ea : after v (a_log a ++ new) = after v (a_log a) ++ new)
    by (unfold after at 1; rewrite List.filter_app; f_equal; exact En).
  split; [done|]. split; [done|]. rewrite Ea. apply shown_app.
Qed.

Lemma extends_log_ok a a' new : extends a a' new → log_ok a → log_ok a'.
Proof.
  intros (E1 & _ & E2 & Hrv) [H1 H2]. unfold log_ok. rewrite E1, E2, !map_app, !map_map. split.
  - rewrite map_map in H1. rewrite Hrv. apply StronglySorted_app_2; [|done|].
    + intros u v Hu Hv. apply list_elem_of_In, List.in_map_iff in Hu as (y & <- & Hy).
      apply list_elem_of_In, List.in_map_iff in Hv as (k & <- & _).
      rewrite List.Forall_forall in H2. specialize (H2 y Hy). simpl in H2. lia.
    + clear. generalize 0. induction (length new) as [|n IH]; intros k; simpl; constructor; [apply IH|].
      rewrite List.Forall_forall. intros u Hu. apply List.in_map_iff in Hu as (j & <- & Hj).
      apply List.in_seq in Hj. lia.
  - apply Forall_app. split.
    + eapply Forall_impl; [exact H2|]. simpl. lia.
    + rewrite List.Forall_forall. intros y Hy.
      apply (List.in_map (λ x : path * event Obj, ev_rv x.2)) in Hy. rewrite Hrv in Hy.
      apply List.in_map_iff in Hy as (k & <- & Hk). apply List.in_seq in Hk. lia.
Qed.

Lemma after_none a : log_ok a → after (a_rv a) (a_log a) = [].
Proof.
  intros [_ H2]. unfold after. induction H2 as [|y l Hy _ IH]; simpl; [done|].
  by rewrite (proj2 (N.ltb_ge _ _)), IH.
Qed.

(** [watch_opens] from any version up to the present. *)
Lemma watch_opens_from w a key opts v mk :
  R root w a → log_ok a → (v < a_rv a → a_log a ≠ [])%N → (0 < b_capacity (ws_b (wd_watch w)))%nat →
  watch_args key opts v mk → (0 < v <= a_rv a)%N → (a_rv a <= max_u64)%N →
  replay_locked v (b_ring (ws_b (wd_watch w))) ≠ None →
  let q := shown (lo_predicate opts) mk (after v (a_log a)) in
  (length q ≤ 100)%nat →
  let i := ws_next (wd_watch w) in
  let w' := set_wd_watch (opened (wd_watch w) (lo_predicate opts) mk q) w in
  watch root key opts w = (w', Val (Ok i)) ∧ R root w' a ∧
  follows i (lo_predicate opts) mk q (wd_watch w').
Proof.
  intros HR Hlog Hne Hcap Hargs Hv Hm Hrep q Hq i w'. destruct (decide (v = a_rv a)) as [->|Hlt].
  - assert (Eq : q = []) by (unfold q; by rewrite after_none). unfold w', i. rewrite Eq.
    split; [apply (watch_present w a); [done..|lia]|]. split; [by apply R_opened|apply opened_follows].
  - apply watch_opens; try done; [apply Hne; lia|lia].
Qed.

(** ** The part of a store below a directory *)

Definition in_dir (d : path) (kv : gmap path Obj) : gmap path Obj := filter (λ x : path * Obj, d `prefix_of` x.1) kv.

(** The events at paths below [d]. *)
Definition in_scope (d : path) (l : list (path * event Obj)) : list (path * event Obj) :=
  List.filter (λ y, bool_decide (d `prefix_of` y.1)) l.

Lemma in_dir_objects d a : objects_below d a ≡ₚ map snd (map_to_list (in_dir d (a_kv a))).
Proof.
  unfold objects_below, in_dir. apply Permutation_map, NoDup_Permutation.
  - apply NoDup_ListNoDup, List.NoDup_filter, NoDup_ListNoDup, NoDup_map_to_list.
  - apply NoDup_map_to_list.
  - intros [p o]. rewrite list_elem_of_In, List.filter_In, <- list_elem_of_In, !elem_of_map_to_list,
      bool_decide_eq_true, map_lookup_filter_Some. done.
Qed.

Lemma apply_event_in_dir d (x : path * event Obj) kv :
  in_dir d (apply_event x kv) =
    if bool_decide (d `prefix_of` x.1) then apply_event x (in_dir d kv) else in_dir d kv.
Proof.
  unfold in_dir, apply_event. destruct x as [p e]; simpl. case_bool_decide as Hp.
  - destruct (ev_type e); by rewrite ?map_filter_delete, ?map_filter_insert_True by done.
  - destruct (ev_type e); try (by rewrite map_filter_insert_not' by naive_solver); rewrite map_filter_delete_not; [done|]. naive_solver.
Qed.

Lemma apply_events_in_dir d l kv :
  in_dir d (apply_events l kv) = apply_events (in_scope d l) (in_dir d kv).
Proof.
  unfold apply_events. revert kv. induction l as [|x l IH]; intros kv; simpl; [done|].
  rewrite IH, apply_event_in_dir. by destruct (bool_decide (d `prefix_of` x.1)).
Qed.

(** A watch that selects what is below [d] shows the events below [d]. *)
Lemma shown_in_scope (d : path) pr mk (l : list (path * event Obj)) :
  (∀ y, y ∈ l → selected mk pr y.2 = bool_decide (d `prefix_of` y.1)) →
  shown pr mk l = map wevent_of (map snd (in_scope d l)).
Proof.
  unfold shown. intros Hs. f_equal. induction l as [|y l IH]; simpl; [done|].
  change (sees pr mk y.2) with (selected mk pr y.2). rewrite (Hs y) by by left.
  rewrite IH by (intros k Hk; apply Hs; by right). by destruct (bool_decide (d `prefix_of` y.1)).
Qed.

(** A watch opened after a run from [w0], and a run of its consumer. *)
Lemma list_then_watch_run j w0 a0 tr0 w1 a1 key opts mk i w2 tr w3 a3 :
  let v := a_rv a0 in
  R root w0 a0 → log_ok a0 → (0 < v)%N →
  run root j (w0, a0) tr0 (w1, a1) →
  (0 < b_capacity (ws_b (wd_watch w1)))%nat → watch_args key opts v mk →
  replay_locked v (b_ring (ws_b (wd_watch w1))) ≠ None →
  (length (shown (lo_predicate opts) mk (after v (a_log a1))) ≤ 100)%nat →
  watch root key opts w1 = (w2, Val (Ok i)) →
  run root i (w2, a1) tr (w3, a3) →
  (v + N.of_nat (length tr0) + N.of_nat (length tr) <= max_u64)%N →
  ∃ q, follows i (lo_predicate opts) mk q (wd_watch w3) ∧
    received tr ++ q = shown (lo_predicate opts) mk (after v (a_log a3)) ∧
    abs (fs_nodes (wd_fs w3)) = apply_events (after v (a_log a3)) (abs (fs_nodes (wd_fs w0))).
Proof.
  intros v HR Hlog Hv0 Hrun0 Hcap Hargs Hrep Hlen Hw Hrun Hb.
  destruct (run_sound root Hroot j (w0, a0) tr0 (w1, a1) HR Hrun0) as [HR1 _]; [simpl; lia|].
  destruct (run_extends root Hroot j (w0, a0) tr0 (w1, a1) HR Hrun0) as (l1 & Hx1 & Hn1); [simpl; lia|].
  cbn [fst snd] in *. pose proof (extends_log_ok _ _ _ Hx1 Hlog) as Hlog1.
  assert (Hle : (v <= a_rv a1 <= v + N.of_nat (length tr0))%N).
  { destruct Hx1 as (_ & _ & E & _). rewrite E. lia. }
  assert (Hne : (v < a_rv a1 → a_log a1 ≠ [])%N).
  { destruct Hx1 as (E1 & _ & E2 & _). intros Hlt. rewrite E1. intros [_ ->]%app_eq_nil. simpl in E2. lia. }
  destruct (watch_opens_from w1 a1 key opts v mk HR1 Hlog1 Hne Hcap Hargs) as (Ew & HR2 & Hf);
    [lia|lia|done|done|].
  rewrite Ew in Hw. injection Hw as <- <-.
  destruct (watcher_receives root Hroot _ _ mk _ a1 tr w3 a3 _ HR2 Hrun ltac:(lia) Hf)
    as (new & q & En & Hf3 & Eq).
  destruct (run_sound root Hroot _ (_, a1) tr (w3, a3) HR2 Hrun) as [HR3 _]; [simpl; lia|].
  destruct (run_extends root Hroot _ (_, a1) tr (w3, a3) HR2 Hrun) as (l2 & Hx2 & _); [simpl; lia|].
  cbn [fst snd] in *. exists q. split; [done|].
  destruct (shown_after_new v a1 a3 l2 (lo_predicate opts) mk Hx2) as (E3 & Ea3 & Es3); [lia|].
  rewrite E3 in En. apply app_inv_head in En as <-. split; [by rewrite Eq, Es3|].
  destruct (shown_after_new v a0 a1 l1 (lo_predicate opts) mk Hx1) as (_ & Ea1 & _); [lia|].
  rewrite Ea3, Ea1, (after_none a0 Hlog : after v (a_log a0) = []).
  rewrite (r_kv _ _ _ HR3), (r_kv _ _ _ HR).
  destruct Hx1 as (_ & K1 & _), Hx2 as (_ & K2 & _). rewrite K2, K1.
  unfold apply_events. by rewrite fold_left_app.
Qed.

(** C1: list, then watch.  A client lists a collection recursively and gets
    the stored objects its predicate selects, once each, with a version [v];
    any requests run; it opens a watch from [v] while the ring still covers [v]
    and at most 100 of the events since [v], the channel's capacity, are
    selected; any requests run and the client reads while its channel keeps
    room (versions do not overflow).  Then what it has read and what waits in
    its channel are together exactly the events since [v] that key and predicate
    of the watch select, in order; and all the events since [v], selected or
    not, applied to the objects stored at the list give those stored now.  The
    selected events alone do that for a client that selects everything in the
    collection: when the predicates select every object there and exactly the
    events below the collection's directory are selected, the list is all that
    was stored below it, and the events the client got, applied to that, give
    all that is stored below it now. *)
Theorem list_then_watch j w0 a0 lkey d lopts predb tr0 w1 a1 key opts mk i w2 tr w3 a3 :
  let v := a_rv a0 in
  R root w0 a0 → log_ok a0 → (0 < v)%N →
  collection root lkey d → lo_recursive lopts = true → (∀ o, lo_predicate lopts o = Ok (predb o)) →
  run root j (w0, a0) tr0 (w1, a1) →
  (0 < b_capacity (ws_b (wd_watch w1)))%nat → watch_args key opts v mk →
  replay_locked v (b_ring (ws_b (wd_watch w1))) ≠ None →
  (length (shown (lo_predicate opts) mk (after v (a_log a1))) ≤ 100)%nat →
  watch root key opts w1 = (w2, Val (Ok i)) →
  run root i (w2, a1) tr (w3, a3) →
  (v + N.of_nat (length tr0) + N.of_nat (length tr) <= max_u64)%N →
  ∃ items q,
    get_list root lkey lopts [] w0 = (w0, Val (Ok (MkOList items v))) ∧
    items ≡ₚ List.filter predb (objects_below d a0) ∧
    follows i (lo_predicate opts) mk q (wd_watch w3) ∧
    received tr ++ q = shown (lo_predicate opts) mk (after v (a_log a3)) ∧
    abs (fs_nodes (wd_fs w3)) = apply_events (after v (a_log a3)) (abs (fs_nodes (wd_fs w0))) ∧
    ((∀ o, o ∈ objects_below d a0 → predb o = true) →
     (∀ y, y ∈ after v (a_log a3) →
        selected mk (lo_predicate opts) y.2 = bool_decide (d `prefix_of` y.1)) →
     let got := in_scope d (after v (a_log a3)) in
     let before := in_dir d (abs (fs_nodes (wd_fs w0))) in
     received tr ++ q = map wevent_of (map snd got) ∧
     items ≡ₚ map snd (map_to_list before) ∧
     in_dir d (abs (fs_nodes (wd_fs w3))) = apply_events got before).
Proof.
  intros v HR Hlog Hv0 Hc Hrec Hp Hrun0 Hcap Hargs Hrep Hlen Hw Hrun Hb.
  destruct (get_list_quiet root Hroot w0 a0 lkey d lopts predb) as (items & El & Hi);
    [apply HR|apply HR|apply HR|done..|].
  rewrite (r_rv _ _ _ HR) in El.
  destruct (list_then_watch_run j w0 a0 tr0 w1 a1 key opts mk i w2 tr w3 a3) as (q & Hf & Eq & Ek);
    [done..|].
  exists items, q. split; [exact El|]. split; [exact Hi|]. split; [exact Hf|]. split; [exact Eq|].
  split; [exact Ek|]. intros Hall Hsel got before. split; [|split].
  - rewrite Eq. by apply shown_in_scope.
  - rewrite Hi, filter_all by done. unfold before. rewrite (r_kv _ _ _ HR). apply in_dir_objects.
  - rewrite Ek. apply apply_events_in_dir.
Qed.

(** ** The other ways a watch opens *)

(** The first steps of [watch]: the new watcher, the lock, the current version. *)
Lemma fold_snapshot acc (l : list (path * string)) :
  Forall (λ y, decode_fresh y.2 = Ok (decoded y.2)) l →
  fold_stop keep_decodable acc (map snd l) = (acc ++ map (λ y, decoded y.2) l, Ok tt).
Proof.
  intros Hl. revert acc. induction Hl as [|[p b] l E Hl IH]; intros acc; simpl.
  { by rewrite app_nil_r. }
  unfold keep_decodable at 1. simpl in E. rewrite E, IH. by rewrite <- app_assoc.
Qed.

(** The bookmark that ends a snapshot, when it is asked for and can be made. *)
Definition end_bookmark (opts : list_options Obj) (current : N) : list (wevent Obj) :=
  match lo_send_initial_events opts with
  | Some true => match new_initial_end_bookmark current with
                 | Ok o => [MkWEvent Bookmark (WObj o)]
                 | Err _ => []
                 end
  | _ => []
  end.

Definition added (o : Obj) : wevent Obj := MkWEvent Added (WObj o).

Lemma deliver_end i w x opts current :
  ws_heap (wd_watch w) !! i = Some x → live x → (length (w_ch x) < w_cap x)%nat →
  (if match lo_send_initial_events opts with Some b => b | None => false end then
     match new_initial_end_bookmark current with
     | Ok o => on_watch (deliver i (MkWEvent Bookmark (WObj o)))
     | Err _ => ret tt
     end
   else ret tt) w = deliver_all i (end_bookmark opts current) w.
Proof.
  intros Hx Hl Hlen. unfold end_bookmark.
  destruct (lo_send_initial_events opts) as [[|]|]; [|done..].
  destruct (new_initial_end_bookmark current) as [o|]; [|done]. simpl.
  erewrite bind_val; [by erewrite on_watch_run by (by apply (deliver_live _ _ x))|].
  apply on_watch_run. by apply (deliver_live _ _ x).
Qed.

Lemma deliver_all_app i evs evs' w w1 :
  deliver_all i evs w = (w1, Val tt) → deliver_all i (evs ++ evs') w = deliver_all i evs' w1.
Proof.
  revert w. induction evs as [|e evs IH]; intros w; simpl; [by intros [= ->]|].
  unfold bind. destruct (on_watch (deliver i e) w) as [w2 [[]|k]]; [apply IH|done].
Qed.

Lemma on_fs_frame {A} (c : M fs A) w w1 v :
  on_fs c w = (w, Val v) → wd_fs w1 = wd_fs w → on_fs c w1 = (w1, Val v).
Proof.
  unfold on_fs, zoom. intros E Ef. rewrite Ef. destruct (c (wd_fs w)) as [t o].
  injection E as E ->. apply (f_equal wd_fs) in E. simpl in E. subst t.
  destruct w1. simpl in Ef. by subst.
Qed.

Lemma bind_ext {A B} (m : M (world Obj) A) m' (k : A → M (world Obj) B) w w1 :
  m w = m' w1 → bind m k w = bind m' k w1.
Proof. unfold bind. by intros ->. Qed.

(** A watch of a collection without a resourceVersion opens with one Added
    event for every stored object of the collection (whether the predicate
    selects it or not) and, when the client asks for it, the bookmark that ends
    the snapshot. *)
Theorem watch_snapshot w a key opts d mk :
  R root w a → collection root key d → lo_resource_version opts = "" →
  (let '(r, ns, single, n) := parse_prefix key in mk = matches_key (lo_recursive opts) single ns n) →
  (length (objects_below d a) < 100)%nat →
  ∃ snap, snap ≡ₚ objects_below d a ∧
  let q := map added snap ++ end_bookmark opts (a_rv a) in
  let w' := set_wd_watch (opened (wd_watch w) (lo_predicate opts) mk q) w in
  watch root key opts w = (w', Val (Ok (ws_next (wd_watch w)))) ∧ R root w' a.
Proof.
  intros HR Hc Hrv Hmk Hlen. pose proof Hc as (r & ns & Ek & -> & _).
  set (w1 := set_wd_watch (set_b (set_locked true) (MkWState (ws_b (wd_watch w))
       (<[ws_next (wd_watch w) := fresh_watcher (lo_predicate opts) mk]> (ws_heap (wd_watch w)))
       (S (ws_next (wd_watch w))) (ws_oracle (wd_watch w)))) w).
  destruct (walk_run root Hroot w a key _ keep_decodable [] HR Hc) as (l & Hdec & Hp & E).
  rewrite (fold_snapshot [] l Hdec) in E. simpl app in E.
  exists (map (λ y, decoded y.2) l). split; [done|]. intros q w'.
  split; [|by apply R_opened]. rewrite Ek in Hmk.
  assert (E1 : on_fs (walk_objects (resource_dir root r ns) keep_decodable []) w1
               = (w1, Val (map (λ y, decoded y.2) l, Ok tt))).
  { by apply (on_fs_frame _ w). }
  unfold watch. rewrite Hrv. run_ok ltac:(reflexivity). rewrite Ek. subst mk.
  erewrite bind_val by (apply on_watch_run; reflexivity).
  erewrite bind_val by (apply on_watch_run, lock_run, HR).
  erewrite bind_val by apply current_rv_run.
  rewrite N.eqb_refl. cbv beta iota zeta.
  unfold snapshot. erewrite bind_val.
  2:{ erewrite bind_val by exact E1. reflexivity. }
  cbn [wd_rv set_wd_watch set_b ws_b set_locked wd_watch]. rewrite (r_rv _ _ _ HR).
  assert (Hlq : (length (map (λ y, decoded y.2) l) < 100)%nat).
  { apply Permutation_length in Hp. rewrite length_map in *. congruence. }
  assert (Hend : (length (end_bookmark opts (a_rv a)) ≤ 1)%nat).
  { unfold end_bookmark. destruct (lo_send_initial_events opts) as [[|]|]; simpl; [|lia..].
    destruct (new_initial_end_bookmark (a_rv a)); simpl; lia. }
  pose proof (subscribe_run w q (lo_predicate opts) (matches_key (lo_recursive opts) false ns "")
                (r_unlocked _ _ _ HR)) as Hsub.
  unfold w', q in *. rewrite <- Hsub by (rewrite length_app, length_map; lia). fold w1.
  pose proof (deliver_all_run (ws_next (wd_watch w)) (map added (map (λ y, decoded y.2) l)) w1
    (fresh_watcher (lo_predicate opts) (matches_key (lo_recursive opts) false ns ""))) as Hdel.
  specialize (Hdel ltac:(simpl; by rewrite lookup_insert_eq) ltac:(done)
                   ltac:(simpl; rewrite length_map; lia)).
  erewrite bind_val by exact Hdel.
  rewrite (bind_ext _ _ _ _ _ (deliver_all_app _ _ _ _ _ Hdel)).
  eapply bind_ext, deliver_end; simpl.
  - by rewrite lookup_insert_eq.
  - done.
  - cbn [set_ch w_ch w_cap fresh_watcher]. rewrite length_map. lia.
Qed.

(** Stopping a watcher that was never subscribed, with an error. *)
Lemma stop_with_error_run s i x e :
  ws_heap s !! i = Some x → live x → has_room x → w_onstop x = false →
  stop_with_error i e s =
    (set_heap (insert i (closed_of (push (MkWEvent Error (error_status e)) x))) s, Val tt).
Proof.
  intros Hx (H1 & H2 & H3) Hr Ho. unfold stop_with_error, can_send. unfold has_room in Hr.
  erewrite bind_val by (by apply deref_run). rewrite H1, (proj2 (Nat.ltb_lt _ _)) by done. simpl.
  unfold send. rewrite bind_assoc. erewrite bind_val by (by apply deref_run). rewrite H1.
  erewrite bind_val by apply update_run. unfold stop.
  erewrite bind_val by (apply deref_run; simpl; by rewrite lookup_alter_eq, Hx). simpl. rewrite H3.
  erewrite bind_val by apply update_run. rewrite Ho. erewrite bind_val by reflexivity.
  erewrite bind_val by (apply deref_run; simpl; by rewrite !lookup_alter_eq, Hx). simpl. rewrite H1.
  unfold update, modify. f_equal. unfold set_heap. simpl. f_equal. apply map_eq. intros j.
  destruct (decide (i = j)) as [<-|].
  - by rewrite !lookup_alter_eq, lookup_insert_eq, Hx.
  - by rewrite !lookup_alter_ne, lookup_insert_ne.
Qed.

Lemma watch_refused w a key opts v mk :
  R root w a → watch_args key opts v mk → (0 < v < a_rv a)%N →
  replay_locked v (b_ring (ws_b (wd_watch w))) = None →
  let i := ws_next (wd_watch w) in
  let x := push (MkWEvent Error (WStatus (StatusOf (ErrExpired v (a_rv a)))))
             (fresh_watcher (lo_predicate opts) mk) in
  let s' := MkWState (ws_b (wd_watch w)) (<[i := closed_of x]> (ws_heap (wd_watch w)))
              (S i) (ws_oracle (wd_watch w)) in
  watch root key opts w = (set_wd_watch s' w, Val (Ok i)) ∧ R root (set_wd_watch s' w) a.
Proof.
  intros HR Hargs Hv Hrep i x s'. split.
  2:{ destruct HR as [H1 H2 H3 H4 H5 H6 H7 H8 H9]. by constructor. }
  rewrite (watch_past w a key opts v mk) by done.
  rewrite Hrep. erewrite bind_val by (apply on_watch_run; reflexivity).
  erewrite bind_val.
  2:{ apply on_watch_run, (stop_with_error_run _ _ (fresh_watcher (lo_predicate opts)
        mk)); simpl; [by rewrite lookup_insert_eq|done|
        unfold has_room; simpl; lia|done]. }
  unfold ok, ret. f_equal. unfold set_wd_watch, s'. simpl. f_equal.
  unfold set_heap. simpl. f_equal; [|by rewrite insert_insert_eq].
  pose proof (r_unlocked _ _ _ HR) as Hu. destruct (ws_b (wd_watch w)). simpl in *. by subst.
Qed.

(** A watch from a version that has fallen out of the ring gets a stopped
    watcher whose channel holds the one Expired error; it is not subscribed,
    the lock is free and the store is as it was. *)
Theorem watch_expired w a key opts v mk :
  R root w a → watch_args key opts v mk → (0 < v < a_rv a)%N →
  replay_locked v (b_ring (ws_b (wd_watch w))) = None →
  let i := ws_next (wd_watch w) in
  let x := push (MkWEvent Error (WStatus (StatusOf (ErrExpired v (a_rv a)))))
             (fresh_watcher (lo_predicate opts) mk) in
  let s' := MkWState (ws_b (wd_watch w)) (<[i := closed_of x]> (ws_heap (wd_watch w)))
              (S i) (ws_oracle (wd_watch w)) in
  watch root key opts w = (set_wd_watch s' w, Val (Ok i)) ∧ R root (set_wd_watch s' w) a.
Proof. apply watch_refused. Qed.

(** After a restart the ring is empty: a watch from a version older than
    the present is then opened as if nothing had happened since, with an empty
    channel and no Expired error, however many events came in between. *)
Theorem restarted_watch_misses w a key opts v mk :
  R root w a → watch_args key opts v mk → (0 < v < a_rv a)%N →
  b_ring (ws_b (wd_watch w)) = [] →
  let w' := set_wd_watch (opened (wd_watch w) (lo_predicate opts) mk []) w in
  watch root key opts w = (w', Val (Ok (ws_next (wd_watch w)))) ∧
  follows (ws_next (wd_watch w)) (lo_predicate opts) mk [] (wd_watch w').
Proof.
  intros HR Hargs Hv Hring w'. split; [|apply opened_follows].
  rewrite (watch_past w a key opts v mk) by done.
  rewrite Hring. simpl replay_locked. cbv iota. simpl List.filter. simpl map.
  unfold w'. rewrite <- (subscribe_run w [] (lo_predicate opts) _ (r_unlocked _ _ _ HR)) by (simpl; lia).
  done.
Qed.

(** A watch of a single cluster-scoped object (a non-recursive watch of the
    key [KeyFunc] builds for it) selects no object at all, that one included. *)
Theorem cluster_watch_selects_nothing resource prefix ns name key opts v mk o :
  seg resource → seg name → prefix = "/" +:+ resource →
  key_func resource prefix false ns name = Ok key → lo_recursive opts = false →
  watch_args key opts v mk → mk o = false.
Proof.
  intros Hr Hn -> [= <-] Hrec (_ & _ & Hmk). revert Hmk.
  assert (Ep : parse_prefix (("/" +:+ resource) +:+ "/" +:+ name) = (resource, name, false, ""))
    by (apply (parse_prefix_join [resource; name]); [done|each done]).
  simpl in Ep |- *. rewrite Ep. intros ->.
  unfold matches_key. rewrite Hrec. simpl. by destruct (obj_accessor o).
Qed.
End watch.
