(* ===== verification/ListHelpers.v ===== *)
(** * Reflection on list objects ([internal/fsstorage/list.go])

    As much of [reflect] as the helpers use: types, values that know their
    type, pointers to cells, and slices.  [getListItemsValue] finds the slice a
    list object's [Items] pointer leads to; [appendItem] appends an object,
    behind its pointer or as an interface, and refuses one of another type.
    [GetList] (Store) appends with it; there the items are a list already. *)

From S2P Require Import Prelude GoStrings.

(** ** [reflect] *)

Inductive rtype :=
  | TStruct (name : string)
  | TPtr (t : rtype)
  | TSlice (elem : rtype)
  | TInterface (name : string).

#[export] Instance rtype_eq_dec : EqDecision rtype.
Proof. solve_decision. Defined.

(** A value: a struct with its contents, a pointer, nil or to a value, a slice. *)
Inductive rvalue :=
  | VStruct (name : string) (data : string)
  | VPtr (t : rtype) (target : option rvalue)
  | VSlice (elem : rtype) (items : list rvalue).

(** The type of a value; [reflect.ValueOf] unwraps interfaces, so none has an
    interface type. *)
Definition type_of (v : rvalue) : rtype :=
  match v with
  | VStruct n _ => TStruct n
  | VPtr t _ => TPtr t
  | VSlice t _ => TSlice t
  end.

Definition kind_name (v : rvalue) : string :=
  match v with VStruct _ _ => "struct" | VPtr _ _ => "ptr" | VSlice _ _ => "slice" end.

Fixpoint type_name (t : rtype) : string :=
  match t with
  | TStruct n | TInterface n => n
  | TPtr t => "*" +:+ type_name t
  | TSlice t => "[]" +:+ type_name t
  end.

Definition is_interface (t : rtype) : bool := match t with TInterface _ => true | _ => false end.

(** ** The helpers *)

Definition conversion_enforce_ptr (v : rvalue) : res rvalue :=
  match v with
  | VPtr _ None => Err (ErrText "fsstorage: nil pointer to slice")
  | VPtr _ (Some x) => Ok x
  | _ => Ok v
  end.

Definition get_list_items_value (items_ptr : rvalue) : res rvalue :=
  match conversion_enforce_ptr items_ptr with
  | Err e => Err e
  | Ok v => match v with
            | VSlice _ _ => Ok v
            | _ => Err (ErrText ("fsstorage: expected items slice, got " +:+ kind_name v))
            end
  end.

(** [appendItem] on the slice [items]: the slice [Set] leaves, or the error.
    [Elem] of a nil pointer has no type, and its [Type] panics; so does
    [Type().Elem()] of what is no slice. *)
Definition append_item (items obj : rvalue) : outcome (res rvalue) :=
  match items with
  | VSlice elem xs =>
      if is_interface elem then Val (Ok (VSlice elem (xs ++ [obj])))
      else
        match obj with
        | VPtr _ None => Stuck Panicked
        | _ =>
            let v := match obj with VPtr _ (Some x) => x | _ => obj end in
            if bool_decide (type_of v = elem) then Val (Ok (VSlice elem (xs ++ [v])))
            else Val (Err (ErrText ("fsstorage: object of type " +:+ type_name (type_of v)
                                    +:+ " not assignable to list element type " +:+ type_name elem)))
        end
  | _ => Stuck Panicked
  end.

(** The loop of [GetList] over the objects it selects. *)
Fixpoint append_items (items : rvalue) (objs : list rvalue) : outcome (res rvalue) :=
  match objs with
  | [] => Val (Ok items)
  | o :: objs' => match append_item items o with
                  | Val (Ok items') => append_items items' objs'
                  | r => r
                  end
  end.

(** ** Lists stay well typed *)

(** Pointers point to what their type says, the items of a slice have its
    element type; what is in an interface is some well-typed value. *)
Fixpoint typed (v : rvalue) : Prop :=
  match v with
  | VStruct _ _ => True
  | VPtr t o => match o with Some x => type_of x = t ∧ typed x | None => True end
  | VSlice t xs =>
      (fix all l := match l with [] => True
                    | x :: l' => (is_interface t = true ∨ type_of x = t) ∧ typed x ∧ all l' end) xs
  end.

Lemma typed_slice t xs : typed (VSlice t xs) ↔
  Forall (λ x, (is_interface t = true ∨ type_of x = t) ∧ typed x) xs.
Proof.
  induction xs as [|x xs IH]; [done|]. rewrite Forall_cons, <- IH. simpl. tauto.
Qed.

(** The pointer to a struct, as the decoder makes it for a list's elements. *)
Definition object_ptr (n data : string) : rvalue := VPtr (TStruct n) (Some (VStruct n data)).

Lemma append_item_typed items obj items' : typed items → typed obj →
  append_item items obj = Val (Ok items') → typed items' ∧ type_of items' = type_of items.
Proof.
  destruct items as [| |t xs]; [done|done|]. rewrite typed_slice. intros Hxs Ho. simpl.
  assert (Happ : ∀ v, (is_interface t = true ∨ type_of v = t) → typed v → typed (VSlice t (xs ++ [v]))).
  { intros v Hv Hty. apply typed_slice. apply Forall_app. split; [done|]. by apply Forall_singleton. }
  destruct (is_interface t) eqn:Et; [intros [= <-]; split; [apply Happ; auto|done]|].
  destruct obj as [n d|u [x|]|u ys]; try done; (case_bool_decide as Hb; [|done]); intros [= <-];
    (split; [apply Happ; [by right|]|done]); simpl in Ho; tauto.
Qed.

Lemma append_structs n xs datas :
  append_items (VSlice (TStruct n) xs) (map (object_ptr n) datas)
  = Val (Ok (VSlice (TStruct n) (xs ++ map (VStruct n) datas))).
Proof.
  revert xs. induction datas as [|d ds IH]; intros xs; simpl; [by rewrite app_nil_r|].
  rewrite bool_decide_true by done. rewrite IH, <- app_assoc. done.
Qed.

Lemma append_interfaces i xs objs :
  append_items (VSlice (TInterface i) xs) objs = Val (Ok (VSlice (TInterface i) (xs ++ objs))).
Proof.
  revert xs. induction objs as [|o os IH]; intros xs; simpl; [by rewrite app_nil_r|].
  by rewrite IH, <- app_assoc.
Qed.

Lemma append_items_typed items objs items' : typed items → Forall typed objs →
  append_items items objs = Val (Ok items') → typed items' ∧ type_of items' = type_of items.
Proof.
  intros Hi Ho. revert items Hi. induction Ho as [|o os Hto Hos IH]; intros items Hi; simpl.
  { by intros [= <-]. }
  destruct (append_item items o) as [[i1|e]|k] eqn:E; [|done..]. intros E'.
  apply append_item_typed in E as [H1 H2]; [|done..].
  destruct (IH i1 H1 E') as [H3 H4]. split; [done|congruence].
Qed.

(** C40: a list object is filled as [GetList] means to.  From the pointer to a
    slice the helpers get the slice, whatever is in it.  Appending the pointers
    the decoder made to a slice of structs adds the structs they point to, to a
    slice of interfaces the pointers themselves, after what was there and in
    order; what is appended leaves a well-typed slice well typed and of its
    type.  From a pointer to anything else, or nil, there is an error; to a slice
    of structs an object of another type is refused. *)
Theorem list_filled n i (datas : list string) xs (other data : string) :
  (∀ t, get_list_items_value (VPtr (TSlice t) (Some (VSlice t xs))) = Ok (VSlice t xs)) ∧
  append_items (VSlice (TStruct n) xs) (map (object_ptr n) datas)
    = Val (Ok (VSlice (TStruct n) (xs ++ map (VStruct n) datas))) ∧
  append_items (VSlice (TInterface i) xs) (map (object_ptr n) datas)
    = Val (Ok (VSlice (TInterface i) (xs ++ map (object_ptr n) datas))) ∧
  (∀ t items', typed (VSlice t xs) → append_items (VSlice t xs) (map (object_ptr n) datas) = Val (Ok items') →
     typed items' ∧ type_of items' = TSlice t) ∧
  (∀ t, is_ok (get_list_items_value (VPtr t None)) = false) ∧
  is_ok (get_list_items_value (object_ptr n data)) = false ∧
  (other ≠ n → ∃ e, append_item (VSlice (TStruct n) xs) (object_ptr other data) = Val (Err e)).
Proof.
  split; [done|]. split; [apply append_structs|]. split; [apply append_interfaces|]. split; [|split; [done|split; [done|]]].
  - intros t items' Hxs. apply append_items_typed; [done|]. by apply Forall_fmap, Forall_true.
  - intros Hne. simpl. rewrite bool_decide_false by congruence. by eexists.
Qed.

Lemma list_filled_witness :
  append_items (VSlice (TInterface "Object") []) [object_ptr "Pod" "a"; object_ptr "Pod" "b"]
    = Val (Ok (VSlice (TInterface "Object") [object_ptr "Pod" "a"; object_ptr "Pod" "b"])) ∧
  typed (VSlice (TStruct "Pod") [VStruct "Pod" "a"; VStruct "Pod" "b"]) ∧
  ∃ e, append_item (VSlice (TStruct "Pod") []) (object_ptr "Secret" "x") = Val (Err e).
Proof.
  destruct (list_filled "Pod" "Object" ["a"; "b"] [] "Secret" "x") as (_ & Es & Ei & Ht & _ & _ & He).
  split; [exact Ei|]. split; [exact (proj1 (Ht _ _ I Es))|]. exact (He ltac:(discriminate)).
Defined.
