(* ===== verification/Samples.v ===== *)
(** * A concrete kind of object and concrete stores

    The operations of [ApiObject] and their laws for a small record, so that
    the theorems about the store can be applied to states and requests that
    evaluate; and a checker of the invariant of a data directory. *)

From S2P Require Import Prelude GoStrings Fs Counter Watch Keys Store StoreFacts StoreSpec.
From S2P Require Import StoreList StoreRuns.

(** ** The object *)

Record kobj := MkK { k_ns : string; k_name : string; k_uid : string; k_rv : N; k_data : string }.

#[export] Instance kobj_eq_dec : EqDecision kobj.
Proof. solve_decision. Defined.

Fixpoint bits (p : positive) : string :=
  match p with
  | xH => ""
  | xO p' => String "0" (bits p')
  | xI p' => String "1" (bits p')
  end.

Fixpoint of_bits (s : string) : positive :=
  match s with
  | String c s' => if Ascii.eqb c "1" then xI (of_bits s') else xO (of_bits s')
  | EmptyString => xH
  end.

Lemma of_bits_bits p : of_bits (bits p) = p.
Proof. induction p as [p IH|p IH|]; simpl; [by rewrite IH..|done]. Qed.

(** A field: every character marked, then a full stop. *)
Fixpoint put_field (f rest : string) : string :=
  match f with
  | String c f' => String "+" (String c (put_field f' rest))
  | EmptyString => String "." rest
  end.

Fixpoint take_field (s : string) : string * string :=
  match s with
  | String m (String c s' as s1) =>
      if Ascii.eqb m "." then ("", s1) else let '(f, r) := take_field s' in (String c f, r)
  | String _ s1 => ("", s1)
  | EmptyString => ("", "")
  end.

Lemma take_put f rest : take_field (put_field f rest) = (f, rest).
Proof.
  induction f as [|c f IH]; simpl; [by destruct rest|]. by rewrite IH.
Qed.

Definition k_encode (o : kobj) : res string :=
  Ok (put_field (k_ns o) (put_field (k_name o) (put_field (k_uid o)
        (put_field (bits (N.succ_pos (k_rv o))) (k_data o))))).

Definition k_decode (s : string) (_ : kobj) : res kobj :=
  let '(ns, s) := take_field s in
  let '(n, s) := take_field s in
  let '(u, s) := take_field s in
  let '(v, s) := take_field s in
  Ok (MkK ns n u (Pos.pred_N (of_bits v)) s).

#[export] Instance kobj_api : ApiObject kobj := {|
  obj_new := MkK "" "" "" 0 "";
  obj_encode := k_encode;
  obj_decode := k_decode;
  obj_accessor _ := Ok tt;
  obj_namespace := k_ns;
  obj_name := k_name;
  obj_uid := k_uid;
  obj_set_uid u o := MkK (k_ns o) (k_name o) u (k_rv o) (k_data o);
  obj_rv o := Ok (k_rv o);
  obj_set_rv v o := Ok (MkK (k_ns o) (k_name o) (k_uid o) v (k_data o));
  obj_annotate o := Ok (MkK (k_ns o) (k_name o) (k_uid o) (k_rv o) "initial-events-end");
  obj_update_list _ := Ok tt;
  obj_parse_rv := parse_uint
|}.

#[export] Program Instance kobj_laws : ApiObjectLaws kobj := {| obj_norm o := o |}.
Next Obligation.
  intros o d [= <-]. simpl. unfold k_decode. rewrite !take_put, of_bits_bits, N.pos_pred_succ.
  by destruct o.
Qed.
Next Obligation. done. Qed.
Next Obligation. intros o _. by eexists. Qed.
Next Obligation. done. Qed.
Next Obligation. done. Qed.
Next Obligation. done. Qed.
Next Obligation. done. Qed.
Next Obligation. done. Qed.
Next Obligation. intros v o _. by eexists. Qed.
Next Obligation. by intros v o o' [= <-]. Qed.
Next Obligation. by intros v o o' [= <-]. Qed.
Next Obligation. done. Qed.
Next Obligation. done. Qed.
Next Obligation. done. Qed.
Next Obligation. done. Qed.
Next Obligation. done. Qed.

(** ** Checking the invariant of a data directory *)

Section check.
Context {Obj : Type} `{ApiObject Obj} (root : path).

Definition entry_check (m : gmap path node) (x : path * node) : bool :=
  let '(p, n) := x in
  bool_decide (proper p) &&
  forallb (λ q, bool_decide (lookup_node m q = Some Dir)) (prefixes [] p) &&
  match n with
  | Dir => (length p <=? length root)%nat || negb (contains_byte dot (base_name p))
  | File d => contains_byte dot (base_name p) &&
              (skip_file (base_name p) ||
               match decode_fresh (Obj := Obj) d with
               | Ok o => bool_decide (obj_encode o = Ok d)
               | Err _ => false
               end)
  end.

Definition layout_check (m : gmap path node) : bool :=
  bool_decide (resolve m root = Ok Dir) && forallb (entry_check m) (map_to_list m).

Lemma layout_check_sound m : layout_check m = true → layout (Obj := Obj) root m.
Proof.
  unfold layout_check. intros [Hr Ha]%andb_prop. apply bool_decide_eq_true in Hr.
  rewrite List.forallb_forall in Ha.
  assert (He : ∀ p n, m !! p = Some n → entry_check m (p, n) = true).
  { intros p n E. apply Ha, list_elem_of_In. by apply elem_of_map_to_list. }
  assert (Hroot : ∀ p n, m !! p = Some n → rooted m p).
  { intros p n [[H1 H2]%andb_prop _]%He%andb_prop. apply bool_decide_eq_true in H1.
    split; [done|]. rewrite List.forallb_forall in H2. apply List.Forall_forall.
    intros q Hq. by apply (proj1 (bool_decide_eq_true _)), H2. }
  constructor; [done| | |done|].
  - intros p d [_ [H1 _]%andb_prop]%He%andb_prop. done.
  - intros p [_ H1]%He%andb_prop. apply orb_true_iff in H1 as [H1|H1]; [left|right].
    + by apply Nat.leb_le.
    + by apply negb_true_iff.
  - intros p d [_ [_ H1]%andb_prop]%He%andb_prop Hs. rewrite Hs in H1. simpl in H1.
    destruct (decode_fresh d) as [o|] eqn:Ed; [|done]. exists o. split; [done|].
    by apply (proj1 (bool_decide_eq_true _)).
Qed.
End check.

(** ** Concrete stores *)

Definition k_root : path := [""; "data"].

Definition k_empty : world kobj :=
  MkWorld (MkFs {[ [""; "data"] := Dir ]} []) 1 (MkWState (new_broadcaster 3) ∅ 0 []) ∅ 0.
Definition k_a0 : astate kobj := MkA ∅ 1 [] 0.

Definition k_pod (ns n data : string) : kobj := MkK ns n "" 0 data.
Definition k_key (n : string) : string := "/pods/default/" +:+ n.
Definition k_path (n : string) : path := k_root ++ ["pods"; "default"; n +:+ ".json"].

Lemma k_root_good : good_base k_root.
Proof. by apply (bool_decide_unpack (Forall good_seg ["data"])). Qed.

Lemma k_target n : n ≠ "" → contains_byte slash n = false → has_prefix "." n = false →
  target k_root (k_key n) (k_path n).
Proof.
  intros H1 H2 H3. exists "pods", "default", n. split; [|split; [done|split; [|split]]].
  - apply (parse_key_join ["pods"; "default"; n]); [done|].
    each ltac:(by split).
  - symmetry. apply (object_path_eq k_root "pods" "default" n).
    + apply k_root_good.
    + by apply (bool_decide_unpack _).
    + right. by apply (bool_decide_unpack _).
    + by split.
  - by apply (bool_decide_unpack _).
  - split; [right; by apply (bool_decide_unpack _)|done].
Qed.

#[export] Instance event_eq_dec : EqDecision (event kobj).
Proof. solve_decision. Defined.

(** The relation on a concrete state. *)
Definition R_check (w : world kobj) (a : astate kobj) : bool :=
  match fs_sched (wd_fs w) with [] => true | _ => false end &&
  layout_check (Obj := kobj) k_root (fs_nodes (wd_fs w)) &&
  bool_decide (abs (fs_nodes (wd_fs w)) = a_kv a) &&
  bool_decide (durable k_root (fs_nodes (wd_fs w)) = Ok (wd_rv w)) &&
  bool_decide (wd_rv w = a_rv a) &&
  bool_decide (b_ring (ws_b (wd_watch w))
               = recent (b_capacity (ws_b (wd_watch w))) (map snd (a_log a))) &&
  negb (b_locked (ws_b (wd_watch w))) && bool_decide (wd_key_mu w = ∅) &&
  bool_decide (wd_uid w = a_uid a).

Lemma R_check_sound w a : R_check w a = true → R k_root w a.
Proof.
  unfold R_check. rewrite !andb_true_iff, !bool_decide_eq_true, negb_true_iff.
  intros ((((((((H1 & H2) & H3) & H4) & H5) & H6) & H7) & H8) & H9).
  constructor; try done; [|by apply layout_check_sound]. unfold quiet.
  by destruct (fs_sched (wd_fs w)).
Qed.

Ltac concrete_R := apply R_check_sound; vm_compute; reflexivity.

Lemma k_empty_R : R k_root k_empty k_a0.
Proof. concrete_R. Qed.

(** Two pods, one of them stored twice. *)
Definition k_run1 : world kobj :=
  let w1 := (create k_root (k_key "web") (k_pod "default" "web" "v1") None k_empty).1 in
  let w2 := (create k_root (k_key "db") (k_pod "default" "db" "v1") None w1).1 in
  (guaranteed_update k_root (k_key "web") None false (λ _ _, Ok tt)
     (λ o _, (o, Ok (MkK (k_ns o) (k_name o) (k_uid o) (k_rv o) "v2"))) w2).1.

Definition k_a1 : astate kobj :=
  let a1 := (spec_create (k_key "web") (k_path "web") (k_pod "default" "web" "v1") false k_a0).1 in
  let a2 := (spec_create (k_key "db") (k_path "db") (k_pod "default" "db" "v1") false a1).1 in
  (spec_update (k_key "web") (k_path "web") false false (λ _ _, Ok tt)
     (λ o _, (o, Ok (MkK (k_ns o) (k_name o) (k_uid o) (k_rv o) "v2"))) a2).1.

Lemma k_run1_R : R k_root k_run1 k_a1.
Proof. concrete_R. Qed.
