(* ===== verification/Writers.v ===== *)
(** * The atomic sections of a writer ([internal/fsstorage/store.go])

    A request that writes holds the mutex of its key and is several atomic
    sections: it reads the file, takes a resourceVersion (the counter's mutex),
    replaces the file, and publishes (the broadcaster's mutex).  [prepare] and
    [phase_step] are these sections; [writer_run_op] says that one after the
    other they are the operation. *)

From S2P Require Import Prelude GoStrings Fs Counter Watch Keys Store StoreFacts StoreSpec.
From S2P Require Import StoreList StoreRuns StoreWatch.

Section phases.
Context {Obj : Type} `{ApiObject Obj} (root : path).

(** A request that writes, with the path of its key. *)
Inductive writer :=
  | WCreate (key : string) (p : path) (obj : Obj) (want_out : bool)
  | WUpdate (key : string) (p : path) (want_out ignore_not_found : bool)
      (pre : string → Obj → res unit) (try_update : Obj → N → Obj * res Obj)
  | WDelete (key : string) (p : path) (want_out : bool)
      (pre : string → Obj → res unit) (validate : option (Obj → res unit)) (ignore_read : bool).

(** What a writer that holds its lock does next: take a version for the object
    it will store, or for the deletion it has done; replace the file; publish. *)
Inductive phase :=
  | PutNext (p : path) (ty : etype) (keep : option (bool * Obj)) (o : Obj) (out : option Obj)
  | EraseNext (p : path) (cur : option Obj) (out : option Obj)
  | Write (p : path) (ev : event Obj) (data : string) (out : option Obj)
  | Announce (p : path) (ev : event Obj) (out : option Obj).

Inductive progress := Going (ph : phase) | Finished (r : option Obj).

Definition writer_path (wr : writer) : path :=
  match wr with WCreate _ p _ _ | WUpdate _ p _ _ _ _ | WDelete _ p _ _ _ _ => p end.

Definition phase_path (ph : phase) : path :=
  match ph with PutNext p _ _ _ _ | EraseNext p _ _ | Write p _ _ _ | Announce p _ _ => p end.

(** [Create] up to the version it needs, its lock held. *)
Definition prepare_create (key : string) (p : path) (obj : Obj) (want_out : bool)
    : M (world Obj) (res progress) :=
  let* st := on_fs (os_stat p) in
  match st with
  | Ok _ => fail (ErrKeyExists key 0)
  | Err e =>
      if negb (is_not_exist e) then fail e else
      let? _ := of_res (obj_accessor obj) in
      let* obj1 := (if String.eqb (obj_uid obj) ""
                    then let* u := generate_uid in ret (obj_set_uid u obj)
                    else ret obj) in
      ok (Going (PutNext p Added None obj1 (out_of want_out)))
  end.

(** [GuaranteedUpdate]: it may have nothing to write. *)
Definition prepare_update (key : string) (p : path) (want_out ignore_not_found : bool)
    (pre : string → Obj → res unit) (try_update : Obj → N → Obj * res Obj) : M (world Obj) (res progress) :=
  let* data := on_fs (os_read_file p) in
  let? '(cur, cur_data, cur_rv, exists_) :=
    (match data with
     | Ok d =>
         let? c := of_res (decode_fresh d) in
         ok (c, d, match obj_rv c with Ok v => v | Err _ => 0%N end, true)
     | Err e =>
         if is_not_exist e then
           if negb ignore_not_found then fail (ErrKeyNotFound key 0)
           else ok (obj_new, "", 0%N, false)
         else fail e
     end) in
  let? _ := (if exists_ then of_res (pre key cur) else ok tt) in
  let '(cur', r) := try_update cur cur_rv in
  let? updated := of_res r in
  let? new_data := of_res (obj_encode updated) in
  if exists_ && bytes_equal new_data cur_data
  then let? d := decode_out cur_data (out_of want_out) in ok (Finished d)
  else ok (Going (PutNext p (if exists_ then Modified else Added) (Some (exists_, cur'))
                    updated (out_of want_out))).

(** [Delete]: the file is removed before the version is taken. *)
Definition prepare_delete (key : string) (p : path) (want_out : bool) (pre : string → Obj → res unit)
    (validate : option (Obj → res unit)) (ignore_read : bool) : M (world Obj) (res progress) :=
  let* data := on_fs (os_read_file p) in
  match data with
  | Err e => if is_not_exist e then fail (ErrKeyNotFound key 0) else fail e
  | Ok d =>
      let? cur := (match decode_fresh d with
                   | Ok c => ok (Some c)
                   | Err e => if ignore_read then ok None else fail e
                   end) in
      let? _ := (match cur with
                 | None => ok tt
                 | Some c =>
                     let? _ := of_res (pre key c) in
                     match validate with None => ok tt | Some v => of_res (v c) end
                 end) in
      let? _ := on_fs (os_remove p) in
      ok (Going (EraseNext p cur (out_of want_out)))
  end.

Definition prepare (wr : writer) : M (world Obj) (res progress) :=
  match wr with
  | WCreate key p obj out => prepare_create key p obj out
  | WUpdate key p out ignore pre try_update => prepare_update key p out ignore pre try_update
  | WDelete key p out pre validate ignore => prepare_delete key p out pre validate ignore
  end.

(** The version of what will be stored, up to its encoding. *)
Definition version_put (p : path) (ty : etype) (keep : option (bool * Obj)) (o : Obj) (out : option Obj)
    : M (world Obj) (res progress) :=
  let? rv := next_rv root in
  let? o1 := of_res (obj_set_rv rv o) in
  let* o2 := (match keep with Some (ex, cur) => keep_uid ex cur o1 | None => ret o1 end) in
  let? data := of_res (obj_encode o2) in
  ok (Going (Write p (MkEvent rv ty o2) data out)).

(** The version of a deletion. *)
Definition version_erase (p : path) (cur : option Obj) (out : option Obj) : M (world Obj) (res progress) :=
  let? rv := next_rv root in
  match cur with
  | None => ok (Finished out)
  | Some c0 =>
      let c := match obj_set_rv rv c0 with Ok c => c | Err _ => c0 end in
      let out' := match out with
                  | None => None
                  | Some o =>
                      match obj_encode c with
                      | Ok d => match obj_decode d o with Ok o' => Some o' | Err _ => Some o end
                      | Err _ => Some o
                      end
                  end in
      ok (Going (Announce p (MkEvent rv Deleted c) out'))
  end.

Definition write_file (p : path) (ev : event Obj) (data : string) (out : option Obj)
    : M (world Obj) (res progress) :=
  let? _ := on_fs (atomic_write p data) in
  let? out' := decode_out data out in
  ok (Going (Announce p ev out')).

Definition announce (ev : event Obj) (out : option Obj) : M (world Obj) (res progress) :=
  on_watch (publish ev) ;;; ok (Finished out).

(** One more atomic section. *)
Definition phase_step (ph : phase) : M (world Obj) (res progress) :=
  match ph with
  | PutNext p ty keep o out => version_put p ty keep o out
  | EraseNext p cur out => version_erase p cur out
  | Write p ev data out => write_file p ev data out
  | Announce p ev out => announce ev out
  end.

(** The sections of one writer one after the other: at most three remain. *)
Fixpoint drive (n : nat) (pr : progress) : M (world Obj) (res (option Obj)) :=
  match pr with
  | Finished r => ok r
  | Going ph =>
      match n with
      | 0 => stop_with OutOfFuel
      | S n' => let? pr' := phase_step ph in drive n' pr'
      end
  end.

Definition writer_run (wr : writer) : M (world Obj) (res (option Obj)) :=
  with_key (writer_path wr) (let? pr := prepare wr in drive 3 pr).

Definition writer_op (wr : writer) : op Obj :=
  match wr with
  | WCreate key p obj out => OpCreate key p obj out
  | WUpdate key p out ignore pre try_update => OpUpdate key p out ignore pre try_update
  | WDelete key p out pre validate ignore => OpDelete key p out pre validate ignore
  end.

(** How many sections a phase still needs. *)
Definition rank (ph : phase) : nat :=
  match ph with PutNext _ _ _ _ _ => 3 | EraseNext _ _ _ | Write _ _ _ _ => 2 | Announce _ _ _ => 1 end.
End phases.
Arguments writer : clear implicits.
Arguments phase : clear implicits.
Arguments progress : clear implicits.

(** ** The phases are the operations *)

Section compose.
Context {Obj : Type} `{ApiObjectLaws Obj} (root : path) (Hroot : good_base root).

Lemma with_key_ext {A} p (c c' : M (world Obj) A) w :
  (∀ w, c w = c' w) → with_key p c w = with_key p c' w.
Proof.
  intros E. unfold with_key, bind, deferred. destruct (lock_key p w) as [w1 [[]|k]]; [|done].
  by rewrite E.
Qed.

Lemma ebind_assoc {S A B C} (m : M S (res A)) (f : A → M S (res B)) (g : B → M S (res C)) s :
  ebind (ebind m f) g s = ebind m (λ a, ebind (f a) g) s.
Proof. unfold ebind, bind. by destruct (m s) as [s' [[a|e]|k]]. Qed.

(** Case analysis on every statement that both sides run. *)
Ltac run_both :=
  unfold prepare, prepare_create, prepare_update, prepare_delete, phase_step, version_put,
    version_erase, write_file, announce, drive, ebind, bind, of_res, ok, fail, ret, get_st; cbn;
  repeat match goal with
  | |- context [match ?x with _ => _ end] =>
      lazymatch x with
      | context [match _ with _ => _ end] => fail
      | _ => destruct x; cbn; try reflexivity
      end
  end.

Lemma writer_run_op wr w : op_valid root (writer_op wr) →
  op_run root (writer_op wr) w = writer_run root wr w.
Proof.
  intros Hv.
  assert (Ht : ∃ key, target root key (writer_path wr) ∧
    key = match wr with WCreate k _ _ _ | WUpdate k _ _ _ _ _ | WDelete k _ _ _ _ _ => k end).
  { destruct wr; simpl in *; eexists; split; naive_solver. }
  destruct Ht as (key & Ht & Ekey). destruct (target_path root key _ Ht) as (r & ns & n & Ek & En & Ep).
  unfold writer_run. destruct wr as [k p obj out|k p out ig pre tu|k p out pre val ig]; cbn in *; subst k.
  - unfold create. rewrite Ek, En. cbv zeta. rewrite Ep. apply with_key_ext. clear w. intros w.
    run_both.
  - unfold guaranteed_update. rewrite Ek, En. cbv zeta. rewrite Ep. apply with_key_ext. clear w.
    intros w. unfold write_update. run_both.
  - unfold delete_obj. rewrite Ek, En. cbv zeta. rewrite Ep. apply with_key_ext. clear w. intros w.
    unfold finish_delete. run_both.
Qed.
End compose.
