(* ===== verification/Interleave.v ===== *)
(** * Interleavings of writers

    Writers on different keys interleave between their sections: [cstep] is one
    section of one of any number of them.  What the interleavings keep is an
    invariant by induction on the steps: one version per event, the order of
    the events of each object, each key with one writer, and the agreement of
    the events with the files.  They do not keep the versions of the whole log
    in order, and a list taken between a writer's version and its file is
    followed by a watch that misses it. *)

From S2P Require Import Prelude GoStrings Fs Counter Watch Keys Store StoreFacts StoreSpec.
From S2P Require Import StoreList StoreRuns StoreWatch Writers.

(** ** Interleavings *)

Section interleave.
Context {Obj : Type} `{ApiObjectLaws Obj} (root : path) (Hroot : good_base root).
Implicit Types (w : world Obj) (p q : path) (m : gmap path node) (ph : phase Obj) (s : wstate Obj).

(** The process: the shared state, the writers under way with what each does
    next, and (a ghost) the events published so far, in that order. *)
Record conf := MkConf {
  c_w : world Obj;
  c_run : gmap nat (phase Obj);
  c_log : list (path * event Obj)
}.

(** The event a section publishes. *)
Definition announced ph : list (path * event Obj) :=
  match ph with Announce p ev _ => [(p, ev)] | _ => [] end.

(** What may happen to the watchers between two sections: the ring and the lock
    stay. *)
Definition watchers_only s s' : Prop :=
  b_locked (ws_b s') = b_locked (ws_b s) ∧ b_ring (ws_b s') = b_ring (ws_b s) ∧
  b_capacity (ws_b s') = b_capacity (ws_b s).

(** Every subscriber can take the event that is published. *)
Definition can_announce ph s : Prop :=
  match ph with Announce _ ev _ => deliverable ev s | _ => True end.

Inductive cstep : conf → conf → Prop :=
  (* a request takes its lock and goes on to its version *)
  | cs_begin w T log t wr w1 w2 ph :
      T !! t = None → op_valid root (writer_op wr) →
      lock_key (writer_path wr) w = (w1, Val tt) →
      prepare wr w1 = (w2, Val (Ok (Going ph))) →
      cstep (MkConf w T log) (MkConf w2 (<[t := ph]> T) log)
  (* a request that is refused, or has nothing to change *)
  | cs_over w T log wr w1 w2 r :
      op_valid root (writer_op wr) →
      lock_key (writer_path wr) w = (w1, Val tt) →
      prepare wr w1 = (w2, Val r) → (∀ ph, r ≠ Ok (Going ph)) →
      cstep (MkConf w T log) (MkConf (unlock_key (writer_path wr) w2) T log)
  (* a writer under way takes its next section *)
  | cs_next w T log t ph w' ph' :
      T !! t = Some ph → can_announce ph (wd_watch w) →
      phase_step root ph w = (w', Val (Ok (Going ph'))) →
      cstep (MkConf w T log) (MkConf w' (<[t := ph']> T) (log ++ announced ph))
  (* its last section, or an error; the deferred Unlock *)
  | cs_end w T log t ph w' r :
      T !! t = Some ph → can_announce ph (wd_watch w) →
      phase_step root ph w = (w', Val r) → (∀ ph', r ≠ Ok (Going ph')) →
      cstep (MkConf w T log)
            (MkConf (unlock_key (phase_path ph) w') (delete t T) (log ++ announced ph))
  (* watchers are opened, read and stopped *)
  | cs_watchers w T log s' :
      watchers_only (wd_watch w) s' →
      cstep (MkConf w T log) (MkConf (set_wd_watch s' w) T log).

(** ** The invariant *)

(** The version a phase has taken. *)
Definition taken ph : option N :=
  match ph with Write _ ev _ _ | Announce _ ev _ => Some (ev_rv ev) | _ => None end.

(** What one event makes of the object at its path. *)
Definition leaves (ev : event Obj) : option Obj :=
  match ev_type ev with Deleted => None | _ => Some (obj_norm (ev_obj ev)) end.

(** The object on disk at the path of a writer, from the one its readers know
    of through the events published. *)
Definition on_disk ph (logged : option Obj) : option Obj :=
  match ph with
  | PutNext _ _ _ _ _ | Write _ _ _ _ => logged
  | EraseNext _ _ _ => None
  | Announce _ ev _ => leaves ev
  end.

(** What a phase carries. *)
Definition phase_ok (v : N) ph : Prop :=
  (∃ key, target root key (phase_path ph)) ∧
  match ph with
  | PutNext _ ty keep o out =>
      obj_accessor o = Ok tt ∧ ty ≠ Deleted ∧ (∃ b, out = out_of b) ∧
      match keep with Some (_, cur) => obj_accessor cur = Ok tt | None => True end
  | EraseNext _ cur _ => ∃ c, cur = Some c ∧ obj_accessor c = Ok tt
  | Write _ ev data out =>
      (ev_rv ev <= v)%N ∧ ev_type ev ≠ Deleted ∧ obj_accessor (ev_obj ev) = Ok tt ∧
      obj_encode (ev_obj ev) = Ok data ∧ (∃ b, out = out_of b)
  | Announce _ ev _ => (ev_rv ev <= v)%N
  end.

(** The part of the state every section leaves well formed. *)
Record store_ok w (hist : list (path * event Obj)) : Prop := {
  so_quiet : quiet (wd_fs w);
  so_layout : layout root (fs_nodes (wd_fs w));
  so_durable : durable root (fs_nodes (wd_fs w)) = Ok (wd_rv w);
  so_ring : b_ring (ws_b (wd_watch w)) = recent (b_capacity (ws_b (wd_watch w))) (map snd hist);
  so_unlocked : b_locked (ws_b (wd_watch w)) = false
}.

(** The log, with the versions from [v0] to [v]. *)
Record log_fine (v0 v : N) (log : list (path * event Obj)) : Prop := {
  lf_distinct : NoDup (map (λ x, ev_rv x.2) log);
  lf_bounds x : x ∈ log → (v0 < ev_rv x.2 <= v)%N;
  lf_order p : StronglySorted N.lt
                 (map (λ x, ev_rv x.2) (List.filter (λ x, bool_decide (x.1 = p)) log))
}.

(** The writers under way: each alone on its path. *)
Record writers_ok (v0 : N) (kv0 : gmap path Obj) (c : conf) : Prop := {
  wo_locks p : p ∈ wd_key_mu (c_w c) ↔ ∃ t ph, c_run c !! t = Some ph ∧ phase_path ph = p;
  wo_alone t t' ph ph' : c_run c !! t = Some ph → c_run c !! t' = Some ph' →
    phase_path ph = phase_path ph' → t = t';
  wo_phase t ph : c_run c !! t = Some ph → phase_ok (wd_rv (c_w c)) ph;
  wo_taken t ph v : c_run c !! t = Some ph → taken ph = Some v →
    (v0 < v)%N ∧ v ∉ map (λ x, ev_rv x.2) (c_log c) ∧
    ∀ x, x ∈ c_log c → x.1 = phase_path ph → (ev_rv x.2 < v)%N;
  wo_distinct t t' ph ph' v : c_run c !! t = Some ph → c_run c !! t' = Some ph' →
    taken ph = Some v → taken ph' = Some v → t = t';
  wo_disk t ph : c_run c !! t = Some ph →
    abs (fs_nodes (wd_fs (c_w c))) !! phase_path ph
    = on_disk ph (apply_events (c_log c) kv0 !! phase_path ph);
  wo_rest p : p ∉ wd_key_mu (c_w c) →
    abs (fs_nodes (wd_fs (c_w c))) !! p = apply_events (c_log c) kv0 !! p
}.

(** [l0], [v0] and [kv0] are the events published, the version and the objects
    before the interleaving starts. *)
Definition cinv (l0 : list (path * event Obj)) (v0 : N) (kv0 : gmap path Obj) (c : conf) : Prop :=
  store_ok (c_w c) (l0 ++ c_log c) ∧ (v0 <= wd_rv (c_w c))%N ∧
  log_fine v0 (wd_rv (c_w c)) (c_log c) ∧ writers_ok v0 kv0 c.

(** ** What each section does to the state *)

(** A request up to its version: nothing changes but the uid counter, and the
    file a deletion removes. *)
Definition prepares wr m v s k u : Prop :=
  ∃ m' u' r, prepare wr (MkWorld (MkFs m []) v s k u) = (MkWorld (MkFs m' []) v s k u', Val r) ∧
    layout root m' ∧ durable root m' = Ok v ∧ tree root m m' ∧
    match r with
    | Ok (Going ph) =>
        phase_path ph = writer_path wr ∧ phase_ok v ph ∧ taken ph = None ∧ announced ph = [] ∧
        abs m' = match ph with EraseNext p _ _ => delete p (abs m) | _ => abs m end
    | _ => abs m' = abs m
    end.

Section prepare.
Context (key : string) (p : path) (m : gmap path node) (v : N) (s : wstate Obj) (k : gset path) (u : N).
Hypothesis Ht : target root key p.
Hypothesis Hl : layout root m.
Hypothesis Hd : durable root m = Ok v.

Lemma target_content :
  match abs m !! p with
  | Some o => ∃ b, m !! p = Some (File b) ∧ decode_fresh b = Ok o ∧ obj_encode o = Ok b
  | None => m !! p = None
  end.
Proof. exact (ready_content root m p Hl (target_ready root Hroot m key p Hl Ht)). Qed.

Ltac here r := exists m, u, r; split; [|by (done || (split; [done|split; [done|split; done]]))].
Ltac read := run_ok ltac:(by apply on_fs_run, (read_quiet root Hroot _ key)).

Lemma create_prepares obj out : obj_accessor obj = Ok tt → prepares (WCreate key p obj out) m v s k u.
Proof.
  intros Ho. pose proof target_content as Hf'. destruct (abs m !! p) as [o|] eqn:Ea.
  - destruct Hf' as (b & Eb & _). here (@Err (progress Obj) (ErrKeyExists key 0)).
    simpl. unfold prepare_create. run_ok ltac:(by apply on_fs_run, (stat_quiet root Hroot _ key)). by rewrite Eb.
  - set (a := MkA (abs m) v [] u). pose proof (fresh_uid_frame obj a) as (_ & _ & _ & Fo).
    exists m, (a_uid (fresh_uid obj a).2), (Ok (Going (PutNext p Added None (fresh_uid obj a).1 (out_of out)))).
    split; [|split; [done|split; [done|split; [done|]]]].
    + simpl. unfold prepare_create. run_ok ltac:(by apply on_fs_run, (stat_quiet root Hroot _ key)). rewrite Hf'. simpl.
      res_step Ho. by run_ok ltac:(apply (fresh_uid_run obj a)).
    + split; [done|]. split; [|done]. split; [by exists key|]. simpl.
      split; [congruence|]. split; [done|]. split; [by exists out|done].
Qed.

Lemma update_prepares out ig pre tu : well_behaved tu →
  prepares (WUpdate key p out ig pre tu) m v s k u.
Proof.
  intros Htu. pose proof target_content as Hf'. destruct (abs m !! p) as [cur|] eqn:Ea.
  - destruct Hf' as (b & Eb & Edec & Eenc).
    destruct (pre key cur) as [[]|e] eqn:Epre.
    2:{ here (@Err (progress Obj) e). simpl. unfold prepare_update. read. rewrite Eb. res_step Edec.
        run_err ltac:(unfold of_res; rewrite Epre; reflexivity). done. }
    set (cv := match obj_rv cur with Ok v => v | Err _ => 0%N end).
    pose proof (Htu cur cv (accessor_decode b cur Edec)) as [Hc' Hu].
    destruct (tu cur cv) as [cur' [upd|e]] eqn:Et; simpl in Hc', Hu.
    2:{ here (@Err (progress Obj) e). simpl. unfold prepare_update. read. rewrite Eb. res_step Edec. res_step Epre.
        fold cv. by rewrite Et. }
    specialize (Hu upd eq_refl). destruct (encode_total upd Hu) as [nd End_].
    destruct (bytes_equal nd b) eqn:Eq.
    + here (Ok (Finished (if out then Some cur else None))). simpl. unfold prepare_update. read. rewrite Eb.
      res_step Edec. res_step Epre. fold cv. rewrite Et. run_ok ltac:(reflexivity). res_step End_.
      rewrite Eq. simpl. run_ok ltac:(by apply decode_out_run). done.
    + exists m, u, (Ok (Going (PutNext p Modified (Some (true, cur')) upd (out_of out)))).
      split; [|split; [done|split; [done|split; [done|]]]].
      * simpl. unfold prepare_update. read. rewrite Eb. res_step Edec. res_step Epre. fold cv. rewrite Et.
        run_ok ltac:(reflexivity). res_step End_. by rewrite Eq.
      * split; [done|]. split; [|done]. split; [by exists key|]. simpl. eauto.
  - destruct ig.
    2:{ here (@Err (progress Obj) (ErrKeyNotFound key 0)). simpl. unfold prepare_update. read. by rewrite Hf'. }
    pose proof (Htu obj_new 0%N accessor_new) as [Hc' Hu].
    destruct (tu obj_new 0%N) as [cur' [upd|e]] eqn:Et; simpl in Hc', Hu.
    2:{ here (@Err (progress Obj) e). simpl. unfold prepare_update. read. rewrite Hf'. simpl.
        run_ok ltac:(reflexivity). run_ok ltac:(reflexivity). by rewrite Et. }
    specialize (Hu upd eq_refl). destruct (encode_total upd Hu) as [nd End_].
    exists m, u, (Ok (Going (PutNext p Added (Some (false, cur')) upd (out_of out)))).
    split; [|split; [done|split; [done|split; [done|]]]].
    + simpl. unfold prepare_update. read. rewrite Hf'. simpl. run_ok ltac:(reflexivity). run_ok ltac:(reflexivity).
      rewrite Et. run_ok ltac:(reflexivity). by res_step End_.
    + split; [done|]. split; [|done]. split; [by exists key|]. simpl. eauto.
Qed.

Lemma delete_prepares out pre val ig : prepares (WDelete key p out pre val ig) m v s k u.
Proof.
  pose proof target_content as Hf'. destruct (abs m !! p) as [o|] eqn:Ea.
  2:{ here (@Err (progress Obj) (ErrKeyNotFound key 0)). simpl. unfold prepare_delete. read. by rewrite Hf'. }
  destruct Hf' as (b & Eb & Edec & _). pose proof (accessor_decode b o Edec) as Ho.
  pose proof (checks_run key pre val o) as Hc.
  destruct (checks key pre val o) as [[]|e].
  - destruct (remove_quiet root Hroot m key p b v Hl Ht Eb Hd) as (E1 & Hl1 & Ha1 & Hd1 & Htr).
    exists (delete p m), u, (Ok (Going (EraseNext p (Some o) (out_of out)))).
    split; [|split; [done|split; [done|split; [done|]]]].
    + simpl. unfold prepare_delete. read. rewrite Eb, Edec. run_ok ltac:(reflexivity). run_ok ltac:(apply Hc).
      by run_ok ltac:(by apply on_fs_run).
    + split; [done|]. split; [|done]. split; [by exists key|]. simpl. eauto.
  - here (@Err (progress Obj) e). simpl. unfold prepare_delete. read. rewrite Eb, Edec. run_ok ltac:(reflexivity).
    by run_err ltac:(apply Hc).
Qed.
End prepare.

Lemma prepare_run wr m v s k u :
  layout root m → durable root m = Ok v → op_valid root (writer_op wr) → prepares wr m v s k u.
Proof.
  intros Hl Hd Hv. destruct wr; simpl in Hv.
  - destruct Hv. by apply create_prepares.
  - destruct Hv. by apply update_prepares.
  - by apply delete_prepares.
Qed.

(** The section of a writer under way. *)
Definition sections v m s k u ph : Prop :=
  ∃ m' v' s' u' r, phase_step root ph (MkWorld (MkFs m []) v s k u)
    = (MkWorld (MkFs m' []) v' s' k u', Val (Ok r)) ∧
    layout root m' ∧ durable root m' = Ok v' ∧ tree root m m' ∧ (v <= v')%N ∧
    match r, ph with
    | Going ph', (PutNext _ _ _ _ _ | EraseNext _ _ _) =>
        s' = s ∧ v' = (v + 1)%N ∧ phase_path ph' = phase_path ph ∧ phase_ok v' ph' ∧
        taken ph' = Some v' ∧ abs m' = abs m ∧
        ∀ logged, on_disk ph' logged = on_disk ph logged
    | Going ph', Write p ev _ _ =>
        s' = s ∧ v' = v ∧ (∃ out, ph' = Announce p ev out) ∧
        abs m' = <[p := obj_norm (ev_obj ev)]> (abs m)
    | Finished _, Announce p ev _ => m' = m ∧ v' = v ∧ published ev s s'
    | _, _ => False
    end.

Lemma put_next p ty keep o out m v s k u :
  layout root m → durable root m = Ok v → (v < max_u64)%N → phase_ok v (PutNext p ty keep o out) →
  sections v m s k u (PutNext p ty keep o out).
Proof.
  intros Hl Hd Hv (Ht & Ho & Hty & Hout & Hk).
  destruct (next_rv_run root Hroot m v s k u Hl Hd Hv) as (m' & E1 & Hl' & Ha' & Hd' & Htr).
  destruct (stamp_ok (v + 1) o Ho) as [Es Hs].
  assert (Hkeep : ∃ u' o2, obj_accessor o2 = Ok tt ∧
    (match keep with Some (ex, cur) => keep_uid ex cur (stamp (v + 1) o) | None => ret (stamp (v + 1) o) end)
      (MkWorld (MkFs m' []) (v + 1) s k u) = (MkWorld (MkFs m' []) (v + 1) s k u', Val o2)).
  { destruct keep as [[[] cur]|]; unfold keep_uid; rewrite ?Hk, ?Hs; [..|by exists u, (stamp (v + 1) o)].
    - destruct (String.eqb _ _); eexists u, _; (split; [|reflexivity]); by rewrite ?accessor_set_uid.
    - destruct (String.eqb _ _); eexists _, _; (split; [|reflexivity]); by rewrite ?accessor_set_uid. }
  destruct Hkeep as (u' & o2 & Ho2 & Ek). destruct (encode_total o2 Ho2) as [d Ed].
  exists m', (v + 1)%N, s, u', (Going (Write p (MkEvent (v + 1)%N ty o2) d out)).
  split.
  - simpl. unfold version_put. run_ok ltac:(exact E1). res_step Es. run_ok ltac:(exact Ek). by res_step Ed.
  - split; [done|]. split; [done|]. split; [done|]. split; [lia|]. split; [done|]. split; [done|]. split; [done|].
    split; [|done]. split; [done|]. simpl. split; [lia|]. auto.
Qed.

Lemma erase_next p cur out m v s k u :
  layout root m → durable root m = Ok v → (v < max_u64)%N → phase_ok v (EraseNext p cur out) →
  sections v m s k u (EraseNext p cur out).
Proof.
  intros Hl Hd Hv (Ht & c & -> & Hc).
  destruct (next_rv_run root Hroot m v s k u Hl Hd Hv) as (m' & E1 & Hl' & Ha' & Hd' & Htr).
  eexists m', (v + 1)%N, s, u, (Going _). split.
  - simpl. unfold version_erase. run_ok ltac:(exact E1). reflexivity.
  - split; [done|]. split; [done|]. split; [done|]. split; [lia|]. split; [done|]. split; [done|]. split; [done|].
    split; [|done]. split; [done|]. simpl. lia.
Qed.

Lemma write_next p ev data out m v s k u :
  layout root m → durable root m = Ok v → phase_ok v (Write p ev data out) →
  sections v m s k u (Write p ev data out).
Proof.
  intros Hl Hd ((key & Ht) & Hv & Hty & Ho & Ed & b & ->). simpl in Ht.
  pose proof (decode_encoded _ data Ed) as Edec.
  destruct (atomic_write_quiet root Hroot m v key p data (obj_norm (ev_obj ev)))
    as (m' & E & H1 & H2 & H3 & H4); [done..|by rewrite encode_norm|].
  eexists m', v, s, u, (Going (Announce p ev _)). split.
  - simpl. unfold write_file. run_ok ltac:(by apply on_fs_run). run_ok ltac:(by apply decode_out_run). reflexivity.
  - split; [done|]. split; [done|]. split; [done|]. split; [lia|]. split; [done|]. split; [done|].
    split; [by eexists|done].
Qed.

Lemma announce_next p ev out m v s k u :
  layout root m → durable root m = Ok v → b_locked (ws_b s) = false → deliverable ev s →
  sections v m s k u (Announce p ev out).
Proof.
  intros Hl Hd Hu Hdel. destruct (publish_run ev (MkFs m []) v s k u Hu Hdel) as (s' & E & Hp).
  exists m, v, s', u, (Finished out). split.
  - simpl. unfold announce. by run_ok ltac:(exact E).
  - split; [done|]. split; [done|]. split; [done|]. split; [lia|]. done.
Qed.

Lemma sections_run ph m v s k u :
  layout root m → durable root m = Ok v → (v < max_u64)%N → phase_ok v ph →
  b_locked (ws_b s) = false → can_announce ph s → sections v m s k u ph.
Proof.
  intros Hl Hd Hv Hph Hu Hc. destruct ph; simpl in Hc;
    [by apply put_next|by apply erase_next|by apply write_next|by apply announce_next].
Qed.

(** ** The events and the files *)

Lemma apply_snoc log p ev kv q :
  apply_events (log ++ [(p, ev)]) kv !! q =
    if decide (q = p) then leaves ev else apply_events log kv !! q.
Proof.
  unfold apply_events. rewrite fold_left_app. simpl. unfold apply_event, leaves. simpl.
  case_decide as E; [subst q|].
  - destruct (ev_type ev); by rewrite ?lookup_insert_eq, ?lookup_delete_eq.
  - destruct (ev_type ev); by rewrite ?lookup_insert_ne, ?lookup_delete_ne by done.
Qed.

Lemma log_snoc v0 v log p (ev : event Obj) :
  log_fine v0 v log → (v0 < ev_rv ev <= v)%N → ev_rv ev ∉ map (λ x, ev_rv x.2) log →
  (∀ x, x ∈ log → x.1 = p → (ev_rv x.2 < ev_rv ev)%N) → log_fine v0 v (log ++ [(p, ev)]).
Proof.
  intros [H1 H2 H3] Hb Hn Hp. constructor.
  - rewrite map_app. apply NoDup_app. split; [done|]. split; [|apply NoDup_singleton].
    by intros x Hx ->%list_elem_of_singleton.
  - intros x [Hx| ->%list_elem_of_singleton]%elem_of_app; [by apply H2|done].
  - intros q. rewrite List.filter_app. simpl. case_bool_decide as E; [|by rewrite app_nil_r].
    simpl in E. subst q. rewrite map_app. apply StronglySorted_app_2; [|done|repeat constructor].
    intros a b Ha Hb'. simpl in Hb'. apply list_elem_of_singleton in Hb' as ->.
    apply list_elem_of_In, List.in_map_iff in Ha as (x & <- & [Hx Ep]%List.filter_In).
    apply bool_decide_eq_true in Ep. apply Hp; [by apply list_elem_of_In|done].
Qed.

Lemma log_mono v0 v v' log : log_fine v0 v log → (v <= v')%N → log_fine v0 v' log.
Proof. intros [H1 H2 H3] Hv. constructor; try done. intros x Hx%H2. lia. Qed.

Lemma phase_ok_mono v v' ph : phase_ok v ph → (v <= v')%N → phase_ok v' ph.
Proof. intros [Ht Hp] Hv. split; [done|]. destruct ph; simpl in *; naive_solver lia. Qed.

Lemma phase_taken v ph n : phase_ok v ph → taken ph = Some n → (n <= v)%N.
Proof. intros [_ Hp] E. destruct ph; simplify_eq/=; naive_solver lia. Qed.

(** A writer under way moves to its next phase. *)
Lemma writers_advance v0 kv0 w w' T log t ph ph' :
  writers_ok v0 kv0 (MkConf w T log) → log_fine v0 (wd_rv w) log → (v0 <= wd_rv w)%N →
  T !! t = Some ph → wd_key_mu w' = wd_key_mu w → (wd_rv w <= wd_rv w')%N →
  phase_path ph' = phase_path ph → phase_ok (wd_rv w') ph' →
  taken ph' = taken ph ∨ (taken ph' = Some (wd_rv w') ∧ (wd_rv w < wd_rv w')%N) →
  (∀ q, q ≠ phase_path ph → abs (fs_nodes (wd_fs w')) !! q = abs (fs_nodes (wd_fs w)) !! q) →
  abs (fs_nodes (wd_fs w')) !! phase_path ph
    = on_disk ph' (apply_events log kv0 !! phase_path ph) →
  writers_ok v0 kv0 (MkConf w' (<[t := ph']> T) log).
Proof.
  intros [L A P K D F G] Hlog Hv0 Et Ek Hv Epath Hok Htk Hq Hp. cbn [c_w c_run c_log] in *.
  assert (Hnew : ∀ t1 ph1, (<[t := ph']> T) !! t1 = Some ph1 →
            (t1 = t ∧ ph1 = ph') ∨ (t1 ≠ t ∧ T !! t1 = Some ph1)).
  { intros t1 ph1 E. destruct (decide (t1 = t)) as [->|Hne].
    - rewrite lookup_insert_eq in E. left. by injection E as <-.
    - rewrite lookup_insert_ne in E by done. by right. }
  assert (Hfresh : ∀ t1 ph1 n, t1 ≠ t → T !! t1 = Some ph1 → taken ph' = Some n →
            taken ph1 = Some n → False).
  { intros t1 ph1 n Hne E1 En E1n. destruct Htk as [Htk|[Htk Hlt]].
    - rewrite Htk in En. apply Hne. by eapply D.
    - rewrite Htk in En. injection En as <-. apply P in E1. eapply phase_taken in E1; [|done]. lia. }
  constructor; cbn [c_w c_run c_log].
  - intros p. rewrite Ek, L. split.
    + intros (t1 & ph1 & E1 & Ep). destruct (decide (t1 = t)) as [->|Hne].
      * exists t, ph'. rewrite lookup_insert_eq. split; [done|]. congruence.
      * exists t1, ph1. by rewrite lookup_insert_ne.
    + intros (t1 & ph1 & [[-> ->]|[Hne E1]]%Hnew & Ep); [|by eauto].
      exists t, ph. split; [done|congruence].
  - intros t1 t2 ph1 ph2 [[-> ->]|[H1 E1]]%Hnew [[-> ->]|[H2 E2]]%Hnew Ep; [done|..|by eapply A].
    + eapply A; [exact Et|exact E2|congruence].
    + eapply A; [exact E1|exact Et|congruence].
  - intros t1 ph1 [[-> ->]|[H1 E1]]%Hnew; [done|]. eapply phase_ok_mono; [by eapply P|done].
  - intros t1 ph1 n [[-> ->]|[H1 E1]]%Hnew En; [|by eapply K]. destruct Htk as [Htk|[Htk Hlt]].
    + rewrite Htk in En. rewrite Epath. by eapply K.
    + rewrite Htk in En. injection En as <-. split; [lia|]. split.
      * intros Hin. apply list_elem_of_In, List.in_map_iff in Hin as (x & Ex & Hx).
        apply list_elem_of_In, (lf_bounds _ _ _ Hlog) in Hx. lia.
      * intros x Hx _. apply (lf_bounds _ _ _ Hlog) in Hx. lia.
  - intros t1 t2 ph1 ph2 n [[-> ->]|[H1 E1]]%Hnew [[-> ->]|[H2 E2]]%Hnew E1n E2n;
      [done|exfalso; by eapply Hfresh|exfalso; by eapply Hfresh|by eapply D].
  - intros t1 ph1 [[-> ->]|[H1 E1]]%Hnew; [by rewrite Epath|]. rewrite Hq; [by eapply F|].
    intros Ep. apply H1. by eapply A.
  - intros p Hn. rewrite Ek in Hn. rewrite Hq; [by apply G|]. intros ->. apply Hn, L. eauto.
Qed.

(** A writer enters: its key was free, it has taken no version. *)
Lemma writers_begin v0 kv0 w w' T log t ph :
  writers_ok v0 kv0 (MkConf w T log) → T !! t = None → phase_path ph ∉ wd_key_mu w →
  wd_key_mu w' = {[phase_path ph]} ∪ wd_key_mu w → wd_rv w' = wd_rv w →
  phase_ok (wd_rv w') ph → taken ph = None →
  abs (fs_nodes (wd_fs w')) = match ph with
                              | EraseNext p _ _ => delete p (abs (fs_nodes (wd_fs w)))
                              | _ => abs (fs_nodes (wd_fs w)) end →
  writers_ok v0 kv0 (MkConf w' (<[t := ph]> T) log).
Proof.
  intros [L A P K D F G] Et Hfree Ek Hv Hok Htk Habs. cbn [c_w c_run c_log] in *.
  assert (Hne : ∀ t1 ph1, T !! t1 = Some ph1 → phase_path ph1 ≠ phase_path ph).
  { intros t1 ph1 E1 Ep. apply Hfree, L. eauto. }
  assert (Hdisk : ∀ q, abs (fs_nodes (wd_fs w')) !! q =
            if decide (q = phase_path ph) then on_disk ph (abs (fs_nodes (wd_fs w)) !! q)
            else abs (fs_nodes (wd_fs w)) !! q).
  { intros q. rewrite Habs. case_decide as E; destruct ph; simpl in *; try done.
    - subst q. by rewrite lookup_delete_eq.
    - by rewrite lookup_delete_ne. }
  constructor; cbn [c_w c_run c_log].
  - intros p. rewrite Ek, elem_of_union, elem_of_singleton, L. split.
    + intros [->|(t1 & ph1 & E1 & Ep)].
      * exists t, ph. by rewrite lookup_insert_eq.
      * exists t1, ph1. rewrite lookup_insert_ne; [done|]. by intros ->; rewrite Et in E1.
    + intros (t1 & ph1 & [[-> ->]|[H1 E1]]%lookup_insert_Some & Ep); [by left|right; eauto].
  - intros t1 t2 ph1 ph2 [[<- <-]|[H1 E1]]%lookup_insert_Some
      [[<- <-]|[H2 E2]]%lookup_insert_Some Ep; [done|..|by eapply A].
    + by destruct (Hne _ _ E2).
    + by destruct (Hne _ _ E1).
  - intros t1 ph1 [[<- <-]|[H1 E1]]%lookup_insert_Some; [done|]. rewrite Hv. by eapply P.
  - intros t1 ph1 n [[<- <-]|[H1 E1]]%lookup_insert_Some En; [congruence|by eapply K].
  - intros t1 t2 ph1 ph2 n [[<- <-]|[H1 E1]]%lookup_insert_Some
      [[<- <-]|[H2 E2]]%lookup_insert_Some E1n E2n; [done|congruence..|by eapply D].
  - intros t1 ph1 [[<- <-]|[H1 E1]]%lookup_insert_Some; rewrite Hdisk.
    + rewrite decide_True by done. f_equal. by apply G.
    + rewrite decide_False by by eapply Hne. by eapply F.
  - intros p Hp. rewrite Ek in Hp. rewrite Hdisk, decide_False by set_solver. apply G. set_solver.
Qed.

(** A writer publishes and leaves. *)
Lemma writers_end v0 kv0 w w' T log t p ev out :
  writers_ok v0 kv0 (MkConf w T log) → T !! t = Some (Announce p ev out) →
  wd_key_mu w' = wd_key_mu w ∖ {[p]} → wd_rv w' = wd_rv w →
  abs (fs_nodes (wd_fs w')) = abs (fs_nodes (wd_fs w)) →
  writers_ok v0 kv0 (MkConf w' (delete t T) (log ++ [(p, ev)])).
Proof.
  intros [L A P K D F G] Et Ek Hv Habs. cbn [c_w c_run c_log] in *.
  assert (Hne : ∀ t1 ph1, t1 ≠ t → T !! t1 = Some ph1 → phase_path ph1 ≠ p).
  { intros t1 ph1 H1 E1 Ep. apply H1. by eapply A. }
  constructor; cbn [c_w c_run c_log].
  - intros q. rewrite Ek, elem_of_difference, elem_of_singleton, L. split.
    + intros [(t1 & ph1 & E1 & Ep) Hq]. exists t1, ph1. rewrite lookup_delete_ne; [done|].
      intros <-. rewrite Et in E1. by injection E1 as <-.
    + intros (t1 & ph1 & [H1 E1]%lookup_delete_Some & Ep). split; [eauto|].
      rewrite <- Ep. by apply (Hne t1).
  - intros t1 t2 ph1 ph2 [H1 E1]%lookup_delete_Some [H2 E2]%lookup_delete_Some. by eapply A.
  - intros t1 ph1 [H1 E1]%lookup_delete_Some. rewrite Hv. by eapply P.
  - intros t1 ph1 n [H1 E1]%lookup_delete_Some En. destruct (K _ _ _ E1 En) as (K1 & K2 & K3).
    split; [done|]. rewrite map_app. split.
    + intros [Hin|Hin]%elem_of_app; [done|]. simpl in Hin. apply list_elem_of_singleton in Hin as ->.
      apply H1. symmetry. by eapply D.
    + intros x [Hx| ->%list_elem_of_singleton]%elem_of_app Ep; [by apply K3|].
      simpl in Ep. destruct (Hne t1 ph1); [done..|congruence].
  - intros t1 t2 ph1 ph2 n [H1 E1]%lookup_delete_Some [H2 E2]%lookup_delete_Some. by eapply D.
  - intros t1 ph1 [H1 E1]%lookup_delete_Some. rewrite Habs, apply_snoc, decide_False by by eapply Hne.
    by eapply F.
  - intros q Hq. rewrite Habs, apply_snoc. rewrite Ek in Hq. case_decide as E.
    + subst q. by apply (F _ _ Et).
    + apply G. set_solver.
Qed.

(** ** The invariant holds in every reachable configuration *)

Lemma store_shape w hist : store_ok w hist →
  w = MkWorld (MkFs (fs_nodes (wd_fs w)) []) (wd_rv w) (wd_watch w) (wd_key_mu w) (wd_uid w).
Proof.
  intros [Hq _ _ _ _]. destruct w as [[m sch] v s k u]. unfold quiet in Hq. simpl in *. congruence.
Qed.

Lemma lock_key_inv p w w1 : lock_key p w = (w1, Val tt) →
  p ∉ wd_key_mu w ∧ w1 = set_wd_key_mu (λ d, {[p]} ∪ d) w.
Proof.
  unfold lock_key, bind, gets, modify, stop_with. case_bool_decide as E; [done|].
  by intros [= <-].
Qed.

Section one_step.
Context (l0 : list (path * event Obj)) (v0 : N) (kv0 : gmap path Obj).
Context (w : world Obj) (T : gmap nat (phase Obj)) (log : list (path * event Obj)).
Hypothesis Hs : store_ok w (l0 ++ log).
Hypothesis Hv0 : (v0 <= wd_rv w)%N.
Hypothesis Hlog : log_fine v0 (wd_rv w) log.
Hypothesis Hw : writers_ok v0 kv0 (MkConf w T log).

(** What [prepare] leaves, whatever it returns. *)
Lemma prepare_inv wr w1 w2 r :
  op_valid root (writer_op wr) → lock_key (writer_path wr) w = (w1, Val tt) →
  prepare wr w1 = (w2, Val r) →
  writer_path wr ∉ wd_key_mu w ∧ store_ok w2 (l0 ++ log) ∧ wd_rv w2 = wd_rv w ∧
  wd_key_mu w2 = {[writer_path wr]} ∪ wd_key_mu w ∧
  match r with
  | Ok (Going ph) =>
      phase_path ph = writer_path wr ∧ phase_ok (wd_rv w2) ph ∧ taken ph = None ∧
      abs (fs_nodes (wd_fs w2)) = match ph with
        | EraseNext p _ _ => delete p (abs (fs_nodes (wd_fs w)))
        | _ => abs (fs_nodes (wd_fs w)) end
  | _ => abs (fs_nodes (wd_fs w2)) = abs (fs_nodes (wd_fs w))
  end.
Proof.
  intros Hval El Ep. apply lock_key_inv in El as [Hfree ->]. split; [done|].
  pose proof (store_shape _ _ Hs) as Ew. destruct Hs as [H1 H2 H3 H4 H5].
  rewrite Ew in Ep. unfold set_wd_key_mu in Ep. cbn in Ep.
  destruct (prepare_run wr (fs_nodes (wd_fs w)) (wd_rv w) (wd_watch w)
    ({[writer_path wr]} ∪ wd_key_mu w) (wd_uid w) H2 H3 Hval) as (m' & u' & r' & E & Hl & Hd & Htr & Hr).
  rewrite E in Ep. injection Ep as <- <-. split; [by constructor|]. split; [done|]. split; [done|].
  destruct r' as [[ph|]|]; [|done..]. destruct Hr as (P1 & P2 & P3 & _ & P5). auto.
Qed.

Lemma inv_begin t wr w1 w2 ph : T !! t = None → op_valid root (writer_op wr) →
  lock_key (writer_path wr) w = (w1, Val tt) → prepare wr w1 = (w2, Val (Ok (Going ph))) →
  cinv l0 v0 kv0 (MkConf w2 (<[t := ph]> T) log) ∧ wd_rv w2 = wd_rv w.
Proof.
  intros Et Hval El Ep. destruct (prepare_inv _ _ _ _ Hval El Ep)
    as (Hfree & Hs2 & Ev & Ek & Epath & Hok & Htk & Habs).
  split; [|done]. split; [done|]. cbn [c_w c_log]. rewrite Ev. split; [done|]. split; [done|].
  apply (writers_begin v0 kv0 w); rewrite ?Epath; done.
Qed.

Lemma inv_over wr w1 w2 r : op_valid root (writer_op wr) →
  lock_key (writer_path wr) w = (w1, Val tt) → prepare wr w1 = (w2, Val r) →
  (∀ ph, r ≠ Ok (Going ph)) →
  cinv l0 v0 kv0 (MkConf (unlock_key (writer_path wr) w2) T log) ∧ wd_rv w2 = wd_rv w.
Proof.
  intros Hval El Ep Hr. destruct (prepare_inv _ _ _ _ Hval El Ep) as (Hfree & Hs2 & Ev & Ek & Habs).
  assert (Ha : abs (fs_nodes (wd_fs w2)) = abs (fs_nodes (wd_fs w))).
  { destruct r as [[ph|]|]; [by destruct (Hr ph)|done..]. }
  clear Habs Hr. split; [|done]. destruct Hs2 as [H1 H2 H3 H4 H5].
  assert (Ek' : wd_key_mu (unlock_key (writer_path wr) w2) = wd_key_mu w).
  { simpl. rewrite Ek. set_solver. }
  split; [by constructor|]. cbn [c_w c_log]. simpl wd_rv. rewrite Ev. split; [done|]. split; [done|].
  destruct Hw as [L A P K D F G]. cbn [c_w c_run c_log] in *.
  constructor; cbn [c_w c_run c_log]; rewrite ?Ek'; try done; simpl; rewrite ?Ev, ?Ha; done.
Qed.

(** What a section leaves, and that it returns. *)
Lemma section_inv t ph : T !! t = Some ph → can_announce ph (wd_watch w) → (wd_rv w < max_u64)%N →
  ∃ m' v' s' u' r, phase_step root ph w
    = (MkWorld (MkFs m' []) v' s' (wd_key_mu w) u', Val (Ok r)) ∧
    layout root m' ∧ durable root m' = Ok v' ∧ (wd_rv w <= v' <= wd_rv w + 1)%N ∧
    match r with
    | Going ph' =>
        (rank ph' < rank ph)%nat ∧ announced ph = [] ∧ s' = wd_watch w ∧
        phase_path ph' = phase_path ph ∧ phase_ok v' ph' ∧
        (taken ph' = taken ph ∨ taken ph' = Some v' ∧ (wd_rv w < v')%N) ∧
        (∀ q, q ≠ phase_path ph → abs m' !! q = abs (fs_nodes (wd_fs w)) !! q) ∧
        abs m' !! phase_path ph = on_disk ph' (apply_events log kv0 !! phase_path ph)
    | Finished _ => ∃ p ev out, ph = Announce p ev out ∧ m' = fs_nodes (wd_fs w) ∧ v' = wd_rv w ∧
        published ev (wd_watch w) s'
    end.
Proof.
  intros Et Hcan Hv. pose proof (store_shape _ _ Hs) as Ew. destruct Hs as [H1 H2 H3 H4 H5].
  pose proof (wo_phase _ _ _ Hw t ph Et) as Hok. pose proof (wo_disk _ _ _ Hw t ph Et) as Hdisk.
  cbn [c_w c_log] in *.
  destruct (sections_run ph (fs_nodes (wd_fs w)) (wd_rv w) (wd_watch w) (wd_key_mu w) (wd_uid w))
    as (m' & v' & s' & u' & r & E & Hl & Hd & Htr & Hv' & Hr); [done..|].
  rewrite <- Ew in E. exists m', v', s', u', r. split; [done|]. split; [done|]. split; [done|].
  destruct r as [ph'|o], ph as [p ty keep ob out|p cur out|p ev data out|p ev out]; try done.
  - destruct Hr as (-> & -> & Epath & Hok' & Htk & Ha & Hon). split; [lia|].
    destruct ph'; simpl in Htk; try done; (split; [simpl; lia|]).
    all: split; [done|]; split; [done|]; split; [done|]; split; [done|].
    all: split; [right; split; [done|lia]|]; split; [by rewrite Ha|]; by rewrite Ha, Hon.
  - destruct Hr as (-> & -> & Epath & Hok' & Htk & Ha & Hon). split; [lia|].
    destruct ph' as [| |p' ev' d' o'|]; simpl in Htk; try done.
    { destruct Hok' as (_ & _ & Hty & _). specialize (Hon (Some obj_new)). simpl in Hon.
      done. }
    split; [simpl; lia|]. split; [done|]. split; [done|]. split; [done|]. split; [done|].
    split; [right; split; [done|lia]|]. split; [by rewrite Ha|]. by rewrite Ha, Hon.
  - destruct Hr as (-> & -> & (out' & ->) & Ha). split; [lia|]. split; [simpl; lia|].
    split; [done|]. split; [done|]. split; [done|]. destruct Hok as (Ht & Hle & Hty & _).
    split; [by split|]. split; [by left|]. rewrite Ha. simpl. split.
    + intros q Hq. by rewrite lookup_insert_ne.
    + rewrite lookup_insert_eq. unfold leaves. by destruct (ev_type ev).
  - destruct Hr as (-> & -> & Hp). split; [lia|]. by exists p, ev, out.
Qed.

Lemma inv_next t ph w' ph' : T !! t = Some ph → can_announce ph (wd_watch w) →
  (wd_rv w < max_u64)%N → phase_step root ph w = (w', Val (Ok (Going ph'))) →
  cinv l0 v0 kv0 (MkConf w' (<[t := ph']> T) (log ++ announced ph)) ∧ (wd_rv w' <= wd_rv w + 1)%N.
Proof.
  intros Et Hcan Hv Ep. destruct (section_inv t ph Et Hcan Hv)
    as (m' & v' & s' & u' & r & E & Hl & Hd & Hv' & Hr).
  rewrite E in Ep. injection Ep as <- ->.
  destruct Hr as (_ & -> & -> & Epath & Hok & Htk & Hq & Hp). rewrite app_nil_r.
  destruct Hs as [H1 H2 H3 H4 H5]. split; [|simpl; lia].
  split; [by constructor|]. split; [simpl; lia|]. cbn [c_w c_log wd_rv].
  split; [by eapply log_mono; [exact Hlog|lia]|].
  by apply (writers_advance v0 kv0 w _ T log t ph); [..|simpl; lia| | | | |].
Qed.

Lemma inv_end t ph w' r : T !! t = Some ph → can_announce ph (wd_watch w) →
  (wd_rv w < max_u64)%N → phase_step root ph w = (w', Val r) → (∀ ph', r ≠ Ok (Going ph')) →
  cinv l0 v0 kv0 (MkConf (unlock_key (phase_path ph) w') (delete t T) (log ++ announced ph)) ∧
  (wd_rv w' <= wd_rv w + 1)%N.
Proof.
  intros Et Hcan Hv Ep Hng. destruct (section_inv t ph Et Hcan Hv)
    as (m' & v' & s' & u' & r' & E & Hl & Hd & Hv' & Hr).
  rewrite E in Ep. injection Ep as <- <-. destruct r' as [ph'|o]; [by destruct (Hng ph')|].
  destruct Hr as (p & ev & out & -> & -> & -> & Hpub). destruct Hs as [H1 H2 H3 H4 H5].
  split; [|simpl; lia]. simpl announced. destruct (published_ring _ _ _ _ Hpub H4 H5) as [R1 R2].
  destruct (wo_taken _ _ _ Hw t _ _ Et eq_refl) as (K1 & K2 & K3).
  pose proof (wo_phase _ _ _ Hw t _ Et) as [_ Hle]. cbn [c_w c_log c_run phase_path] in *. simpl in Hle.
  split; [|split; [done|split]].
  - constructor; simpl; try done. by rewrite app_assoc, map_app.
  - by apply log_snoc.
  - by eapply writers_end.
Qed.
End one_step.

Lemma step_inv l0 v0 kv0 c c' :
  cinv l0 v0 kv0 c → (wd_rv (c_w c) < max_u64)%N → cstep c c' →
  cinv l0 v0 kv0 c' ∧ (wd_rv (c_w c') <= wd_rv (c_w c) + 1)%N.
Proof.
  intros (Hs & Hv0 & Hlog & Hw) Hv Hstep.
  destruct Hstep as [w T log t wr w1 w2 ph Et Hval El Ep|w T log wr w1 w2 r Hval El Ep Hr
    |w T log t ph w' ph' Et Hcan Ep|w T log t ph w' r Et Hcan Ep Hr|w T log s' Hs'];
    cbn [c_w c_run c_log] in *.
  - destruct (inv_begin l0 v0 kv0 w T log Hs Hv0 Hlog Hw t wr w1 w2 ph) as [Hc ->]; try done.
    split; [done|lia].
  - destruct (inv_over l0 v0 kv0 w T log Hs Hv0 Hlog Hw wr w1 w2 r) as [Hc Ev]; try done.
    split; [done|]. simpl. lia.
  - by eapply inv_next.
  - destruct (inv_end l0 v0 kv0 w T log Hs Hv0 Hlog Hw t ph w' r) as [Hc Hle]; done.
  - split; [|simpl; lia]. destruct Hs as [H1 H2 H3 H4 H5], Hs' as (E1 & E2 & E3).
    split; [|split; [done|split; [done|]]].
    + constructor; simpl; try done; [by rewrite E2, E3|by rewrite E1].
    + by destruct Hw.
Qed.
End interleave.
