(* ===== verification/Races.v ===== *)
(** * What concurrent writers keep, and what they break

    The theorems about the interleavings of Interleave: the guarantees that
    hold in every reachable configuration, and the race of a list and a watch
    with one writer. *)

From S2P Require Import Prelude GoStrings Fs Counter Watch Keys Store StoreFacts StoreSpec.
From S2P Require Import StoreList StoreRuns StoreWatch Writers Interleave.

Section races.
Context {Obj : Type} `{ApiObjectLaws Obj} (root : path) (Hroot : good_base root).
Implicit Types (w : world Obj) (p : path) (ph : phase Obj) (s : wstate Obj) (c : conf (Obj := Obj)).

Notation cstep := (cstep root).
Notation cinv := (cinv root).

(** No writer is under way. *)
Definition at_rest w : conf := MkConf w ∅ [].

Lemma start_inv w a : R root w a → cinv (a_log a) (a_rv a) (a_kv a) (at_rest w).
Proof.
  intros [H1 H2 H3 H4 H5 H6 H7 H8 H9]. split; [|split; [|split]]; cbn [c_w c_log at_rest].
  - rewrite app_nil_r. by constructor.
  - lia.
  - constructor; [constructor|by intros x ?%elem_of_nil|constructor].
  - constructor; cbn [c_w c_run c_log at_rest]; intros *; rewrite ?lookup_empty; try done.
    + rewrite H8. split; [by intros ?%elem_of_empty|]. by intros (t & ph & E & _).
    + intros _. by rewrite H3.
Qed.

Lemma steps_inv l0 v0 kv0 n c c' :
  cinv l0 v0 kv0 c → nsteps cstep n c c' → (wd_rv (c_w c) + N.of_nat n <= max_u64)%N →
  cinv l0 v0 kv0 c' ∧ (wd_rv (c_w c') <= wd_rv (c_w c) + N.of_nat n)%N.
Proof.
  intros Hc Hn. revert Hc. induction Hn as [c|n c c1 c2 Hs Hn IH]; intros Hc Hb.
  { split; [done|lia]. }
  destruct (step_inv root Hroot l0 v0 kv0 c c1) as [Hc1 Hv]; [done|lia|done|].
  destruct IH as [Hc2 Hv2]; [done|lia|]. split; [done|lia].
Qed.

Lemma reachable_inv w a n c :
  R root w a → nsteps cstep n (at_rest w) c → (a_rv a + N.of_nat n <= max_u64)%N →
  cinv (a_log a) (a_rv a) (a_kv a) c ∧ (wd_rv (c_w c) <= a_rv a + N.of_nat n)%N.
Proof.
  intros HR Hn Hb. pose proof (start_inv w a HR) as Hc. pose proof (r_rv _ _ _ HR) as Ev.
  destruct (steps_inv _ _ _ _ _ _ Hc Hn) as [Hc' Hv]; cbn [c_w at_rest] in *; [lia|].
  split; [done|lia].
Qed.

(** The state once every writer has left is one the sequential contract
    describes. *)
Lemma rest_R l0 v0 kv0 c : cinv l0 v0 kv0 c → c_run c = ∅ →
  R root (c_w c) (MkA (apply_events (c_log c) kv0) (wd_rv (c_w c)) (l0 ++ c_log c) (wd_uid (c_w c))).
Proof.
  intros ([H1 H2 H3 H4 H5] & _ & _ & [L _ _ _ _ _ G]) E.
  assert (Ek : wd_key_mu (c_w c) = ∅).
  { apply set_eq. intros p. rewrite L, E. split; [by intros (t & ph & ? & _)|by intros ?%elem_of_empty]. }
  constructor; simpl; try done. apply map_eq. intros p. apply G. rewrite Ek. set_solver.
Qed.

(** C2: however writers on any keys interleave: no two events carry the same
    resourceVersion, and each carries one issued since the start; the events of
    each object are published in the order of their versions; and when no
    writer is under way, the files are what the events make of the objects at
    the start, the ring holds the latest events, and every lock is free. *)
Theorem interleaved_events w a n c :
  R root w a → nsteps cstep n (at_rest w) c → (a_rv a + N.of_nat n <= max_u64)%N →
  NoDup (map (λ x, ev_rv x.2) (c_log c)) ∧
  (∀ x, x ∈ c_log c → (a_rv a < ev_rv x.2 <= wd_rv (c_w c))%N) ∧
  (∀ p, StronglySorted N.lt
          (map (λ x, ev_rv x.2) (List.filter (λ x, bool_decide (x.1 = p)) (c_log c)))) ∧
  (c_run c = ∅ →
   R root (c_w c) (MkA (apply_events (c_log c) (a_kv a)) (wd_rv (c_w c))
                     (a_log a ++ c_log c) (wd_uid (c_w c)))).
Proof.
  intros HR Hn Hb. destruct (reachable_inv w a n c HR Hn Hb) as [Hc _].
  pose proof Hc as (_ & _ & [H1 H2 H3] & _). split; [done|]. split; [done|]. split; [done|].
  by apply rest_R with (v0 := a_rv a).
Qed.

(** ** No update is lost *)

Lemma step_disk l0 v0 kv0 c c' t ph :
  cinv l0 v0 kv0 c → cinv l0 v0 kv0 c' → (wd_rv (c_w c) < max_u64)%N → cstep c c' →
  c_run c !! t = Some ph → c_run c' !! t = Some ph →
  abs (fs_nodes (wd_fs (c_w c'))) !! phase_path ph = abs (fs_nodes (wd_fs (c_w c))) !! phase_path ph.
Proof.
  intros Hc Hc' Hv Hs E E'.
  pose proof Hc as (_ & _ & _ & Hw). pose proof Hc' as (_ & _ & _ & Hw').
  rewrite (wo_disk _ _ _ _ Hw t ph E), (wo_disk _ _ _ _ Hw' t ph E').
  f_equal. destruct Hs as [w T log t1 wr w1 w2 ph1 Et Hval El Ep|w T log wr w1 w2 r Hval El Ep Hr
    |w T log t1 ph1 w' ph' Et Hcan Ep|w T log t1 ph1 w' r Et Hcan Ep Hr|w T log s' Hs'];
    cbn [c_w c_run c_log] in *; try done.
  - destruct Hc as (C1 & C2 & C3 & _). cbn [c_w c_run c_log] in *.
    destruct (section_inv root Hroot l0 v0 kv0 w T log C1 C2 Hw t1 ph1 Et Hcan Hv)
      as (m' & v' & s' & u' & r & Er & _ & _ & _ & Hr).
    rewrite Er in Ep. injection Ep as _ ->. destruct Hr as (_ & -> & _). by rewrite app_nil_r.
  - apply lookup_delete_Some in E' as [Hne _].
    destruct ph1 as [| | |p ev out]; simpl; rewrite ?app_nil_r; try done.
    rewrite apply_snoc, decide_False; [done|]. intros Ep'. apply Hne.
    by eapply (wo_alone _ _ _ _ Hw).
Qed.

(** C18: no lost update: while a writer is between two of its sections, no step
    of any other request changes the object at its path.  So what an update or
    a deletion has read is what it replaces. *)
Theorem held_object_stable w a n c c' t ph :
  R root w a → nsteps cstep n (at_rest w) c → (a_rv a + N.of_nat (S n) <= max_u64)%N →
  cstep c c' → c_run c !! t = Some ph → c_run c' !! t = Some ph →
  abs (fs_nodes (wd_fs (c_w c'))) !! phase_path ph = abs (fs_nodes (wd_fs (c_w c))) !! phase_path ph.
Proof.
  intros HR Hn Hb Hs E E'. destruct (reachable_inv w a n c HR Hn) as [Hc Hv]; [lia|].
  destruct (step_inv root Hroot _ _ _ c c' Hc ltac:(lia) Hs) as [Hc' _].
  eapply step_disk; [exact Hc|exact Hc'|lia|done..].
Qed.

(** ** Every writer finishes *)

(** Every subscriber can take [n] more events. *)
Definition roomy (n : nat) s : Prop := ∀ i, i ∈ b_subs (ws_b s) →
  ∃ x, ws_heap s !! i = Some x ∧ live x ∧ (length (w_ch x) + n ≤ w_cap x)%nat.

Lemma roomy_deliverable n s (ev : event Obj) : roomy (S n) s → deliverable ev s.
Proof.
  intros Hr i Hi. destruct (Hr i Hi) as (x & Hx & Hl & Hlen). exists x. split; [done|].
  intros _. split; [done|]. unfold has_room. lia.
Qed.

Lemma roomy_published n s s' (ev : event Obj) : roomy (S n) s → published ev s s' → roomy n s'.
Proof.
  intros Hr (Hb & _ & Hh) i Hi. rewrite Hb in Hi.
  assert (Hi' : i ∈ b_subs (ws_b s)).
  { revert Hi. unfold append_ring. by destruct (_ <? _)%nat. }
  destruct (Hr i Hi') as (x & Hx & Hl & Hlen). rewrite Hh, decide_True, Hx by done.
  exists (offered ev x). split; [done|]. unfold offered. destruct (wants ev x); [|split; [done|lia]].
  split; [done|]. simpl. rewrite length_app. simpl. lia.
Qed.

Lemma roomy_can_announce n s ph : roomy (S n) s → can_announce ph s.
Proof. intros Hr. destruct ph; simpl; [done..|by eapply roomy_deliverable]. Qed.

(** One writer runs to its end while the others wait. *)
Lemma drain_one l0 v0 kv0 c t ph n :
  cinv l0 v0 kv0 c → c_run c !! t = Some ph → roomy (S n) (wd_watch (c_w c)) →
  (wd_rv (c_w c) + N.of_nat (rank ph) <= max_u64)%N →
  ∃ k c', (k ≤ rank ph)%nat ∧ nsteps cstep k c c' ∧ c_run c' = delete t (c_run c) ∧
    roomy n (wd_watch (c_w c')).
Proof.
  remember (rank ph) as r eqn:Er. assert (Hle : (rank ph ≤ r)%nat) by lia. clear Er.
  revert c ph Hle. induction r as [|r IH]; intros c ph Hle Hc Et Hr Hb.
  { by destruct ph; simpl in Hle; lia. }
  destruct c as [w T log]. cbn [c_w c_run c_log] in *. pose proof Hc as (C1 & C2 & C3 & C4).
  cbn [c_w c_run c_log] in *. pose proof (roomy_can_announce _ _ ph Hr) as Hcan.
  destruct (section_inv root Hroot l0 v0 kv0 w T log C1 C2 C4 t ph Et Hcan ltac:(lia))
    as (m' & v' & s' & u' & res & E & Hl & Hd & Hv' & Hres).
  destruct res as [ph'|o].
  - destruct Hres as (Hrank & Ha & -> & Epath & _).
    assert (Hs : cstep (MkConf w T log) (MkConf (MkWorld (MkFs m' []) v' (wd_watch w) (wd_key_mu w) u')
                   (<[t := ph']> T) (log ++ announced ph))) by by apply cs_next.
    destruct (step_inv root Hroot _ _ _ _ _ Hc ltac:(simpl; lia) Hs) as [Hc1 _].
    destruct (IH _ ph' ltac:(lia) Hc1) as (k & c' & Hk & Hn & Hrun & Hroom);
      cbn [c_w c_run c_log wd_rv wd_watch]; [by rewrite lookup_insert_eq|done|lia|].
    exists (S k), c'. split; [lia|]. split; [by eapply nsteps_l|]. split; [|done].
    rewrite Hrun. cbn [c_run]. by rewrite delete_insert_eq.
  - destruct Hres as (p & ev & out & -> & -> & -> & Hp).
    eexists 1%nat, _. split; [lia|]. split; [|split].
    + eapply nsteps_once, cs_end; [exact Et|exact Hcan|exact E|done].
    + done.
    + cbn [c_w wd_watch unlock_key set_wd_key_mu]. by eapply roomy_published.
Qed.

Lemma rank_le ph : (rank ph ≤ 3)%nat.
Proof. destruct ph; simpl; lia. Qed.

Lemma drain l0 v0 kv0 n c :
  size (c_run c) = n → cinv l0 v0 kv0 c → roomy n (wd_watch (c_w c)) →
  (wd_rv (c_w c) + N.of_nat (3 * n) <= max_u64)%N →
  ∃ k c', (k ≤ 3 * n)%nat ∧ nsteps cstep k c c' ∧ c_run c' = ∅.
Proof.
  revert c. induction n as [|n IH]; intros c Hn Hc Hr Hb.
  { exists 0, c. split; [lia|]. split; [constructor|]. by apply map_size_empty_inv. }
  destruct (map_choose (c_run c)) as (t & ph & Et).
  { intros E. rewrite E, map_size_empty in Hn. done. }
  pose proof (rank_le ph) as H3.
  destruct (drain_one l0 v0 kv0 c t ph n Hc Et Hr) as (k & c1 & Hk & Hk1 & Hrun & Hroom); [lia|].
  destruct (steps_inv _ _ _ _ _ _ Hc Hk1) as [Hc1 Hv1]; [lia|].
  destruct (IH c1) as (k' & c2 & Hk' & Hk2 & Hrun2); [|done|done|lia|].
  { rewrite Hrun, map_size_delete_Some by done. lia. }
  exists (k + k')%nat, c2. split; [lia|]. split; [by eapply nsteps_trans|done].
Qed.

(** C19: no deadlock and no livelock among writers: from every reachable
    configuration whose subscribers have room for the events of the writers
    under way, at most three sections per writer lead to one where all of them
    have returned. *)
Theorem writers_finish w a n c :
  R root w a → nsteps cstep n (at_rest w) c → roomy (size (c_run c)) (wd_watch (c_w c)) →
  (a_rv a + N.of_nat n + N.of_nat (3 * size (c_run c)) <= max_u64)%N →
  ∃ k c', (k ≤ 3 * size (c_run c))%nat ∧ nsteps cstep k c c' ∧ c_run c' = ∅.
Proof.
  intros HR Hn Hr Hb. destruct (reachable_inv w a n c HR Hn) as [Hc Hv]; [lia|].
  eapply drain; [done|exact Hc|done|lia].
Qed.

(** ** A list and a watch around one writer *)

(** The last two sections of a write. *)
Lemma write_and_announce w T log t p (ev : event Obj) data out l0 :
  T !! t = Some (Write p ev data out) → store_ok root w (l0 ++ log) →
  phase_ok root (wd_rv w) (Write p ev data out) → deliverable ev (wd_watch w) →
  ∃ w2, nsteps cstep 2 (MkConf w T log) (MkConf w2 (delete t T) (log ++ [(p, ev)])) ∧
    abs (fs_nodes (wd_fs w2)) !! p = Some (obj_norm (ev_obj ev)) ∧ wd_rv w2 = wd_rv w.
Proof.
  intros Et C1 Hok Hdel. pose proof (store_shape _ _ _ C1) as Ew. destruct C1 as [H1 H2 H3 H4 H5].
  destruct (write_next root Hroot p ev data out (fs_nodes (wd_fs w)) (wd_rv w) (wd_watch w)
    (wd_key_mu w) (wd_uid w) H2 H3 Hok) as (m1 & v1 & s1 & u1 & r1 & E1 & Hl1 & Hd1 & _ & _ & Hr1).
  rewrite <- Ew in E1. destruct r1 as [ph1|]; [|done].
  destruct Hr1 as (-> & -> & (o & ->) & Ha).
  destruct (announce_next root p ev o m1 (wd_rv w) (wd_watch w) (wd_key_mu w) u1 Hl1 Hd1 H5 Hdel)
    as (m2 & v2 & s2 & u2 & r2 & E2 & _ & _ & _ & _ & Hr2).
  destruct r2 as [|r2]; [done|]. destruct Hr2 as (-> & -> & _).
  pose proof (cs_next root w T log t _ _ _ Et I E1) as S1. simpl announced in S1.
  rewrite app_nil_r in S1.
  pose proof (cs_end root (MkWorld (MkFs m1 []) (wd_rv w) (wd_watch w) (wd_key_mu w) u1) (<[t := Announce p ev o]> T) log t (Announce p ev o) _ (Ok (Finished r2))
    (lookup_insert_eq _ _ _) Hdel E2 ltac:(done)) as S2. rewrite delete_insert_eq in S2.
  eexists. split; [eapply nsteps_l; [exact S1|eapply nsteps_once, S2]|].
  simpl. by rewrite Ha, lookup_insert_eq.
Qed.

(** C11: a change can be missed for good: a writer has taken its resourceVersion
    and not yet replaced its file when a client lists the collection.  The list
    carries that version and the objects from before the write.  The writer
    finishes; the watch the client then opens from the version of the list is
    subscribed with an empty channel, though the object on disk has changed. *)
Theorem list_then_watch_race w a n c t p ev data out key d opts predb wkey wopts mk :
  R root w a → nsteps cstep n (at_rest w) c → (a_rv a + N.of_nat n + 2 <= max_u64)%N →
  c_run c = {[t := Write p ev data out]} → ev_rv ev = wd_rv (c_w c) →
  deliverable ev (wd_watch (c_w c)) →
  collection root key d → lo_recursive opts = true → (∀ o, lo_predicate opts o = Ok (predb o)) →
  watch_args wkey wopts (wd_rv (c_w c)) mk →
  (∃ items, get_list root key opts [] (c_w c) = (c_w c, Val (Ok (MkOList items (ev_rv ev)))) ∧
     items ≡ₚ List.filter predb
       (objects_below d (MkA (apply_events (c_log c) (a_kv a)) (ev_rv ev) [] 0%N))) ∧
  ∃ w2, nsteps cstep 2 c (MkConf w2 ∅ (c_log c ++ [(p, ev)])) ∧
    abs (fs_nodes (wd_fs w2)) !! p = Some (obj_norm (ev_obj ev)) ∧
    watch root wkey wopts w2 =
      (set_wd_watch (opened (wd_watch w2) (lo_predicate wopts) mk []) w2,
       Val (Ok (ws_next (wd_watch w2)))).
Proof.
  intros HR Hn Hb Hrun Hev Hdel Hcol Hrec Hpred Hargs.
  destruct (reachable_inv w a n c HR Hn) as [Hc Hv]; [lia|].
  destruct c as [w1 T log]. cbn [c_w c_run c_log] in *. subst T.
  pose proof Hc as (C1 & C2 & C3 & C4). cbn [c_w c_run c_log] in *.
  assert (Et : {[t := Write p ev data out]} !! t = Some (Write p ev data out)) by apply lookup_singleton_eq.
  assert (Habs : abs (fs_nodes (wd_fs w1)) = apply_events log (a_kv a)).
  { apply map_eq. intros q. destruct (decide (q = p)) as [->|Hq].
    - apply (wo_disk _ _ _ _ C4 t _ Et).
    - apply (wo_rest _ _ _ _ C4). cbn [c_w]. rewrite (wo_locks _ _ _ _ C4). cbn [c_run].
      intros (t1 & ph1 & [<- <-]%lookup_singleton_Some & Ep). by apply Hq. }
  split.
  { rewrite Hev. eapply get_list_quiet; [done|apply C1|apply C1|done|done|done|done]. }
  destruct (write_and_announce w1 _ log t p ev data out _ Et C1) as (w2 & Hn2 & Hdisk & Hrv);
    [by apply (wo_phase _ _ _ _ C4 t)|done|].
  rewrite delete_singleton_eq in Hn2. exists w2. split; [done|]. split; [done|].
  destruct (steps_inv _ _ _ _ _ _ Hc Hn2) as [Hc2 _]; [cbn [c_w]; lia|].
  destruct (wo_taken _ _ _ _ C4 t _ _ Et eq_refl) as [Hpos _].
  pose proof (rest_R _ _ _ _ Hc2 eq_refl) as HR2. cbn [c_w c_log] in HR2.
  apply (watch_present root w2 _ wkey wopts mk HR2); simpl; rewrite Hrv; [done|lia].
Qed.
End races.
