(* ===== verification/ListRaces.v ===== *)
(** * A list among writers

    [GetList] takes no lock: its walk makes one system call after the other,
    and writers take their sections in between.  Here the walk of Store runs on
    moments instead of one state of the files: its [i]-th system call sees the
    files of moment [i].  Files come and go between the calls, directories
    stay; what the list holds was stored at the moment it was read, and nothing
    that was there all the time is missing. *)

From S2P Require Import Prelude GoStrings Fs Counter Watch Keys Store StoreFacts StoreSpec.
From S2P Require Import StoreList StoreRuns StoreWatch Writers Interleave Races.

Section moments.
Context {Obj : Type} `{ApiObjectLaws Obj} (root : path) (Hroot : good_base root).
(** The files at each moment. *)
Context (at_ : nat → gmap path node).
Implicit Types (d p : path) (i j n : nat).

(** A system call that changes nothing, at the next moment. *)
Definition call {A} (m : M fs A) : M nat A := λ i, (S i, (m (MkFs (at_ i) [])).2).

(** The walk of a recursive [GetList] below [dir]. *)
Definition list_between (fuel : nat) (dir : path) (pred : Obj → res bool) (items0 : list Obj)
    : M nat (list Obj * res unit) :=
  walk_with (λ d, call (os_read_dir d)) (λ p, call (os_read_file p)) (collect pred) fuel dir items0.

(** ** What the moments have in common *)

Context (depth : nat).
Hypothesis Hlay : ∀ i, layout root (at_ i).
Hypothesis Hdirs : ∀ i q, at_ i !! q = Some Dir → at_ (S i) !! q = Some Dir.
Hypothesis Hdepth : ∀ i q x, at_ i !! q = Some x → (length q <= depth)%nat.

Lemma dir_stays i j q : (i <= j)%nat → at_ i !! q = Some Dir → at_ j !! q = Some Dir.
Proof. induction 1 as [|j _ IH]; [done|]. intros E. by apply Hdirs, IH. Qed.

Lemma open_stays i j d : (i <= j)%nat → resolve (at_ i) d = Ok Dir → resolve (at_ j) d = Ok Dir.
Proof.
  intros Hij Hr. destruct (decide (proper d)) as [Hp|Hp].
  - pose proof Hr as [E _]%resolve_ok. rewrite lookup_node_proper in E by done.
    eapply (node_rooted root (at_ j) (Hlay j)). by eapply dir_stays.
  - apply resolve_ok in Hr as [E Ho]. unfold proper in Hp. destruct d as [|[|] [|]]; try done; exfalso; by apply Hp.
Qed.

(** The read of a name with a dot in a directory finds an object or nothing. *)
Lemma read_between i d s : resolve (at_ i) d = Ok Dir → (length root <= length d)%nat →
  contains_byte dot s = true → skip_file s = false →
  match abs (at_ i) !! (d ++ [s]) with
  | Some o => ∃ b, decode_fresh b = Ok o ∧ call (os_read_file (d ++ [s])) i = (S i, Val (Ok b))
  | None => call (os_read_file (d ++ [s])) i = (S i, Val (Err ErrNotExist))
  end.
Proof.
  intros Hd Hlen Hdot Hs. assert (Hne : s ≠ "") by by intros ->.
  pose proof (rooted_snoc root (at_ i) d s (Hlay i) Hd Hne) as Hr.
  pose proof (dotted_not_dir root (at_ i) d s (Hlay i) Hlen Hdot) as Hnd.
  assert (E : resolve (at_ i) (d ++ [s]) = match at_ i !! (d ++ [s]) with Some x => Ok x | None => Err ErrNotExist end).
  { eapply resolve_rooted; [done|by apply proper_snoc|by apply rooted_open]. }
  rewrite abs_lookup. unfold call, os_read_file.
  destruct (at_ i !! (d ++ [s])) as [[b|]|] eqn:Eb; [|done|].
  - destruct (lay_objects root _ (Hlay i) _ b Eb) as (o & Ho & _); [by rewrite base_name_snoc|].
    simpl. rewrite base_name_snoc, Hs, Ho. exists b. split; [done|]. unfold syscall. simpl. by rewrite E.
  - simpl. unfold syscall. simpl. by rewrite E.
Qed.

(** What an object at [d ++ [s] ++ r] says of the entry [s]. *)
Lemma present_entry i d s r : d ≠ [] → is_Some (abs (at_ i) !! ((d ++ [s]) ++ r)) →
  (r = [] ∧ (∃ b, at_ i !! (d ++ [s]) = Some (File b)) ∧ skip_file s = false) ∨
  (r ≠ [] ∧ at_ i !! (d ++ [s]) = Some Dir).
Proof.
  intros Hd [o Ho]. rewrite abs_lookup in Ho. destruct (at_ i !! ((d ++ [s]) ++ r)) as [x|] eqn:E; [|done].
  destruct r as [|s' r]; [left|right].
  - rewrite app_nil_r in E, Ho. split; [done|]. destruct x as [b|]; [|done]. simpl in Ho. rewrite base_name_snoc in Ho.
    split; [by exists b|]. by destruct (skip_file s).
  - split; [done|]. destruct (lay_rooted root _ (Hlay i) _ _ E) as [_ Ha]. rewrite List.Forall_forall in Ha.
    specialize (Ha (d ++ [s]) ltac:(by apply prefixes_intro)). simpl in Ha.
    rewrite lookup_node_proper in Ha; [done|]. by destruct d as [|? []].
Qed.

(** ** Readings *)

(** The readings [l] of a walk from moment [i] to moment [n]: the moment, the
    path and the object of each; they are of the paths [P], one of each, and of
    every such path that has an object from [i] to [n]. *)
Record readings (P : path → Prop) i n (l : list (nat * path * Obj)) : Prop := {
  rd_span : (i <= n)%nat;
  rd_once : NoDup (map (λ x, x.1.2) l);
  rd_seen x : x ∈ l → (i <= x.1.1 < n)%nat ∧ P x.1.2 ∧ abs (at_ x.1.1) !! x.1.2 = Some x.2;
  rd_all p : P p → (∀ j, (i <= j <= n)%nat → is_Some (abs (at_ j) !! p)) → p ∈ map (λ x, x.1.2) l
}.

Lemma readings_none i n : (i <= n)%nat → readings (λ _, False) i n [].
Proof. intros Hi. split; [done|apply NoDup_nil_2|by intros x ?%elem_of_nil|done]. Qed.

Lemma readings_one i p o : abs (at_ i) !! p = Some o → readings (λ q, q = p) i (S i) [(i, p, o)].
Proof.
  intros Ho. split; [lia|apply NoDup_singleton| |].
  - intros x ->%list_elem_of_singleton. simpl. split; [lia|done].
  - intros q -> _. by left.
Qed.

(** Paths that have no object at the first moment do not count. *)
Lemma readings_at (P Q : path → Prop) i n l : readings P i n l → (∀ p, P p → Q p) →
  (∀ p, Q p → is_Some (abs (at_ i) !! p) → P p) → readings Q i n l.
Proof.
  intros [H1 H2 H3 H4] HPQ HQP. split; [done|done| |].
  - intros x Hx. destruct (H3 x Hx) as (Ha & Hb & Hc). auto.
  - intros p Hp Hall. apply H4; [|done]. apply HQP; [done|]. apply Hall. lia.
Qed.

Lemma readings_app (P Q : path → Prop) i j n l1 l2 : (∀ p, P p → Q p → False) →
  readings P i j l1 → readings Q j n l2 → readings (λ p, P p ∨ Q p) i n (l1 ++ l2).
Proof.
  intros Hd [A1 A2 A3 A4] [B1 B2 B3 B4]. split; [lia| | |].
  - rewrite map_app. apply NoDup_app. split; [done|]. split; [|done]. intros p Hp Hq.
    apply list_elem_of_fmap in Hp as (x & -> & Hx). apply list_elem_of_fmap in Hq as (y & E & Hy).
    apply (Hd x.1.2); [by apply A3|]. rewrite E. by apply B3.
  - intros x [Hx|Hx]%elem_of_app; [destruct (A3 x Hx) as (? & ? & ?)|destruct (B3 x Hx) as (? & ? & ?)];
      (split; [lia|split; [auto|done]]).
  - intros p Hp Hall. rewrite map_app. apply elem_of_app.
    destruct Hp as [Hp|Hp]; [left; apply A4|right; apply B4]; try done; intros k Hk; apply Hall; lia.
Qed.

(** ** The walk *)

Context (pred : Obj → res bool) (predb : Obj → bool).
Hypothesis Hpred : ∀ o, pred o = Ok (predb o).

(** A computation reads the paths [P] from moment [i] on and keeps what the
    predicate selects. *)
Definition walks (c : list Obj → M nat (list Obj * res unit)) (P : path → Prop) i : Prop :=
  ∃ n l, readings P i n l ∧ ∀ acc, c acc i = (n, Val (acc ++ List.filter predb (map snd l), Ok tt)).

Abbreviation visit_at := (visit_with (λ p, call (os_read_file p)) (collect pred)).
Abbreviation walk_at := (walk_with (λ d, call (os_read_dir d)) (λ p, call (os_read_file p)) (collect pred)).

Definition under d p : Prop := ∃ r, r ≠ [] ∧ p = d ++ r.
Definition in_entry d (e : string * bool) p : Prop := ∃ r, p = (d ++ [e.1]) ++ r.

Lemma in_entry_disj d es e p : e.1 ∉ map fst es → in_entry d e p → (∃ e', e' ∈ es ∧ in_entry d e' p) → False.
Proof.
  intros Hn (r & ->) (e' & He & r' & E). apply Hn. rewrite <- !app_assoc in E. apply app_inv_head in E.
  injection E as -> _. by apply list_elem_of_fmap_2.
Qed.

(** One entry that was a file when the directory was read. *)
Lemma visit_file sub d s es i : resolve (at_ i) d = Ok Dir → d ≠ [] → (length root <= length d)%nat →
  contains_byte dot s = true →
  ∃ j l, readings (in_entry d (s, false)) i j l ∧
    ∀ acc, visit_at sub d ((s, false) :: es) acc i
           = visit_at sub d es (acc ++ List.filter predb (map snd l)) j.
Proof.
  intros Hd Hne Hlen Hdot.
  assert (Hentry : ∀ p, in_entry d (s, false) p → is_Some (abs (at_ i) !! p) → p = d ++ [s] ∧ skip_file s = false).
  { intros p (r & ->) Ho. destruct (present_entry i d s r Hne Ho) as [(-> & _ & Hs)|[_ E]].
    - by rewrite app_nil_r.
    - by apply (dotted_not_dir root _ d s (Hlay i) Hlen Hdot) in E. }
  assert (Hself : in_entry d (s, false) (d ++ [s])) by (exists []; by rewrite app_nil_r).
  cbn [visit_with]. destruct (skip_file s) eqn:Es.
  - exists i, []. split; [|intros acc; simpl; by rewrite app_nil_r].
    eapply readings_at; [by apply readings_none|done|]. intros p Hp Ho. by destruct (Hentry p Hp Ho).
  - pose proof (read_between i d s Hd Hlen Hdot Es) as Hr. destruct (abs (at_ i) !! (d ++ [s])) as [o|] eqn:Eo.
    + destruct Hr as (b & Hb & Er). exists (S i), [(i, d ++ [s], o)]. split.
      * eapply readings_at; [by apply readings_one|by intros p ->|]. intros p Hp Ho. by apply Hentry.
      * intros acc. erewrite bind_val by exact Er. unfold collect. rewrite Hb, Hpred. simpl.
        destruct (predb o); by rewrite ?app_nil_r.
    + exists (S i), []. split.
      * eapply readings_at; [apply readings_none; lia|done|]. intros p Hp Ho.
        destruct (Hentry p Hp Ho) as [-> _]. rewrite Eo in Ho. by destruct Ho.
      * intros acc. erewrite bind_val by exact Hr. simpl. by rewrite app_nil_r.
Qed.

(** The entries of a directory, read at an earlier moment [k]. *)
Lemma visit_between fuel d es k i : (k <= i)%nat → resolve (at_ i) d = Ok Dir → d ≠ [] →
  (length root <= length d)%nat → NoDup (map fst es) → Forall (entry_ok (at_ k) d) es →
  (∀ s j, at_ j !! (d ++ [s]) = Some Dir → walks (walk_at fuel (d ++ [s])) (under (d ++ [s])) j) →
  walks (visit_at (walk_at fuel) d es) (λ p, ∃ e, e ∈ es ∧ in_entry d e p) i.
Proof.
  intros Hk Hd Hne Hlen Hnd Hok Hsub. revert i Hk Hd. induction es as [|[s b] es IH]; intros i Hk Hd.
  { exists i, []. split; [|intros acc; simpl; by rewrite app_nil_r].
    eapply readings_at; [by apply readings_none|done|]. by intros p (e & ?%elem_of_nil & _). }
  apply Forall_cons in Hok as [He Hok]. apply NoDup_cons in Hnd as [Hs Hnd].
  assert (Hfst : ∃ j l, readings (in_entry d (s, b)) i j l ∧ ∀ acc,
    visit_at (walk_at fuel) d ((s, b) :: es) acc i
    = visit_at (walk_at fuel) d es (acc ++ List.filter predb (map snd l)) j).
  { destruct He as [[Ed Eb]|(c & Ec & Eb)]; simpl in Eb; subst b; simpl in *.
    - apply (dir_stays k i) in Ed; [|done]. destruct (Hsub s i Ed) as (j & l & Hl & Hrun).
      exists j, l. split.
      + eapply readings_at; [exact Hl|intros p (r & _ & ->); by exists r|].
        intros p (r & ->) Ho. destruct (present_entry i d s r Hne Ho) as [(_ & (c & Ec) & _)|[Hr _]]; [congruence|].
        by exists r.
      + intros acc. by erewrite bind_val by apply Hrun.
    - apply visit_file; try done. apply (lay_file root _ (Hlay k)) in Ec. by rewrite base_name_snoc in Ec. }
  destruct Hfst as (j & l1 & H1 & E1). pose proof (rd_span _ _ _ _ H1) as Hij.
  destruct (IH Hnd Hok j) as (n & l2 & H2 & E2); [lia|by eapply open_stays|].
  exists n, (l1 ++ l2). split.
  - eapply readings_at; [eapply readings_app; [|exact H1|exact H2]| |].
    + intros p. by apply (in_entry_disj d es (s, b)).
    + intros p. rewrite exists_cons. done.
    + intros p Hp _. by rewrite exists_cons in Hp.
  - intros acc. by rewrite E1, E2, map_app, List.filter_app, app_assoc.
Qed.

(** A directory that is there. *)
Lemma walk_between fuel d i : d ≠ [] → resolve (at_ i) d = Ok Dir → (length root <= length d)%nat →
  (depth + 2 <= fuel + length d)%nat → walks (walk_at fuel d) (under d) i.
Proof.
  revert d i. induction fuel as [|fuel IH]; intros d i Hne Hd Hlen Hf.
  { exfalso. pose proof Hd as [E _]%resolve_ok. destruct (decide (proper d)) as [Hp|Hp].
    - rewrite lookup_node_proper in E by done. apply Hdepth in E. lia.
    - unfold proper in Hp. destruct d as [|[|] [|]]; simpl in *; try lia; by apply Hp. }
  destruct (list_dir_entries (at_ i) d) as [Hnd Hok].
  destruct (visit_between fuel d (list_dir d (at_ i)) i (S i)) as (n & l & Hl & Hrun); [lia| |done..| |].
  { by apply (open_stays i); [lia|]. }
  { intros s j Ej. apply IH; [by destruct d| |rewrite length_app; simpl; lia..].
    by apply (node_rooted root (at_ j) (Hlay j)). }
  exists n, l. split.
  - destruct Hl as [R1 R2 R3 R4]. split; [lia|done| |].
    + intros x Hx. destruct (R3 x Hx) as (Ha & (e & _ & r & E) & Hb). split; [lia|]. split; [|done].
      exists (e.1 :: r). split; [done|]. by rewrite E, <- app_assoc.
    + intros p (r & Hr & ->) Hall. apply R4; [|intros j Hj; apply Hall; lia].
      destruct r as [|s r]; [done|]. destruct (Hall i) as [o Ho]; [lia|].
      replace (d ++ s :: r) with ((d ++ [s]) ++ r) in * by by rewrite <- app_assoc.
      destruct (present_entry i d s r Hne (ex_intro _ o Ho)) as [(-> & (b & Eb) & _)|[_ Ed]].
      * exists (s, false). split; [|by exists []].
        unfold list_dir. rewrite merge_sort_Permutation. apply children_spec. by exists (File b).
      * exists (s, true). split; [|by exists r].
        unfold list_dir. rewrite merge_sort_Permutation. apply children_spec. by exists Dir.
  - intros acc. cbn [walk_with]. erewrite bind_val.
    2:{ unfold call, os_read_dir, syscall. simpl. rewrite Hd. reflexivity. }
    cbn beta iota. apply Hrun.
Qed.

(** A directory that may be missing when the walk begins. *)
Lemma walk_from fuel d i : d ≠ [] → resolve (at_ i) d = Ok Dir ∨ resolve (at_ i) d = Err ErrNotExist →
  (length root <= length d)%nat → (depth + 2 <= fuel + length d)%nat → (0 < fuel)%nat →
  walks (walk_at fuel d) (under d) i.
Proof.
  intros Hne [Hd|Hd] Hlen Hf Hpos; [by apply walk_between|]. destruct fuel as [|fuel]; [lia|].
  exists (S i), []. split.
  - eapply readings_at; [apply readings_none; lia|done|]. intros p (r & Hr & ->) [o Ho].
    rewrite abs_lookup in Ho. destruct (at_ i !! (d ++ r)) as [x|] eqn:E; [|done].
    by rewrite (dir_above root (at_ i) (Hlay i) d r x E Hr) in Hd.
  - intros acc. cbn [walk_with]. erewrite bind_val.
    2:{ unfold call, os_read_dir, syscall. simpl. rewrite Hd. reflexivity. }
    simpl. by rewrite app_nil_r.
Qed.
End moments.

(** ** Among the sections of writers *)

Section among.
Context {Obj : Type} `{ApiObjectLaws Obj} (root : path) (Hroot : good_base root).
Implicit Types (w : world Obj) (d p : path) (ph : phase Obj) (c : conf (Obj := Obj)) (i j k n : nat) (o : Obj).

Abbreviation cstep := (cstep root).
Abbreviation cinv := (cinv root).
Abbreviation nodes c := (fs_nodes (wd_fs (c_w c))).

Lemma prepare_tree w wr w1 w2 r hist : store_ok root w hist → op_valid root (writer_op wr) →
  lock_key (writer_path wr) w = (w1, Val tt) → prepare wr w1 = (w2, Val r) →
  tree root (fs_nodes (wd_fs w)) (fs_nodes (wd_fs w2)).
Proof.
  intros Hs Hval El Ep. apply lock_key_inv in El as [_ ->]. pose proof (store_shape _ _ _ Hs) as Ew.
  destruct Hs as [_ H2 H3 _ _]. rewrite Ew in Ep. unfold set_wd_key_mu in Ep. cbn in Ep.
  destruct (prepare_run root Hroot wr (fs_nodes (wd_fs w)) (wd_rv w) (wd_watch w)
    ({[writer_path wr]} ∪ wd_key_mu w) (wd_uid w) H2 H3 Hval) as (m' & u' & r' & E & _ & _ & Htr & _).
  rewrite E in Ep. by injection Ep as <- _.
Qed.

Lemma section_tree w T log l0 v0 kv0 t ph w' r : cinv l0 v0 kv0 (MkConf w T log) → (wd_rv w < max_u64)%N →
  T !! t = Some ph → can_announce ph (wd_watch w) → phase_step root ph w = (w', Val r) →
  tree root (fs_nodes (wd_fs w)) (fs_nodes (wd_fs w')).
Proof.
  intros (Hs & _ & _ & Hw) Hv Et Hcan Ep. pose proof (store_shape _ _ _ Hs) as Ew. destruct Hs as [_ H2 H3 _ H5].
  pose proof (wo_phase _ _ _ _ Hw t ph Et) as Hok. cbn [c_w c_log] in *.
  destruct (sections_run root Hroot ph (fs_nodes (wd_fs w)) (wd_rv w) (wd_watch w) (wd_key_mu w) (wd_uid w))
    as (m' & v' & s' & u' & r' & E & _ & _ & Htr & _); [done..|].
  rewrite <- Ew in E. rewrite E in Ep. by injection Ep as <- _.
Qed.

Lemma step_tree l0 v0 kv0 c c' : cinv l0 v0 kv0 c → (wd_rv (c_w c) < max_u64)%N → cstep c c' →
  tree root (nodes c) (nodes c').
Proof.
  intros Hc Hv Hstep. pose proof Hc as (Hs & _).
  destruct Hstep; cbn [c_w c_log] in *; [by eapply prepare_tree|simpl; by eapply prepare_tree
    |by eapply section_tree|simpl; by eapply section_tree|done].
Qed.

(** A history of the process: at each index a section is taken, or nothing
    happens. *)
Definition history (steps : nat → conf) : Prop :=
  ∀ j, steps (S j) = steps j ∨ cstep (steps j) (steps (S j)).

Context (w : world Obj) (a : astate Obj) (steps : nat → conf (Obj := Obj)).
Hypothesis HR : R root w a.
Hypothesis Hstart : steps 0 = at_rest w.
Hypothesis Hsteps : history steps.
Hypothesis Hroom : ∀ j, (wd_rv (c_w (steps j)) < max_u64)%N.

Lemma history_inv j : cinv (a_log a) (a_rv a) (a_kv a) (steps j).
Proof.
  induction j as [|j IH]; [rewrite Hstart; by apply start_inv|].
  destruct (Hsteps j) as [->|Hs]; [done|]. by eapply step_inv.
Qed.

Lemma history_tree j k : (j <= k)%nat → tree root (nodes (steps j)) (nodes (steps k)).
Proof.
  induction 1 as [|k _ IH]; [done|]. etransitivity; [exact IH|].
  destruct (Hsteps k) as [->|Hs]; [done|]. eapply step_tree; [apply history_inv|apply Hroom|done].
Qed.

Lemma history_log j k : (j <= k)%nat → ∃ new, c_log (steps k) = c_log (steps j) ++ new.
Proof.
  induction 1 as [|k _ [new IH]]; [exists []; by rewrite app_nil_r|].
  destruct (Hsteps k) as [->|Hs]; [by exists new|]. destruct Hs; cbn [c_log] in *; rewrite IH; first
    [by exists new|by eexists (new ++ _); rewrite app_assoc].
Qed.

(** ** A change on disk is announced *)

(** A writer has changed the file at [p] and not yet published, or an event of
    [p] was published. *)
Definition changed p c : Prop :=
  (∃ t ph, c_run c !! t = Some ph ∧ phase_path ph = p ∧
     match ph with EraseNext _ _ _ | Announce _ _ _ => True | _ => False end) ∨
  ∃ ev, (p, ev) ∈ c_log c.

Lemma changed_step p l0 v0 kv0 c c' : cinv l0 v0 kv0 c → (wd_rv (c_w c) < max_u64)%N → cstep c c' →
  changed p c → changed p c'.
Proof.
  intros Hc Hv Hs [(t & ph & Et & Ep & Hph)|(ev & Hev)].
  2:{ right. exists ev. destruct Hs; cbn [c_log] in *; rewrite ?elem_of_app; auto. }
  destruct Hs as [w0 T log t1 wr w1 w2 ph1 Et1 Hval El Epr|w0 T log wr w1 w2 r Hval El Epr Hr
    |w0 T log t1 ph1 w' ph' Et1 Hcan Epr|w0 T log t1 ph1 w' r Et1 Hcan Epr Hr|w0 T log s' Hs'];
    cbn [c_w c_run c_log] in *; try (left; by eauto).
  - left. exists t, ph. cbn [c_run]. rewrite lookup_insert_ne; [done|]. by intros ->; rewrite Et in Et1.
  - destruct (decide (t1 = t)) as [->|Hne]; [|left; exists t, ph; cbn [c_run]; by rewrite lookup_insert_ne].
    assert (ph1 = ph) as -> by congruence. destruct Hc as (C1 & C2 & _ & C4). cbn [c_w c_run c_log] in *.
    destruct (section_inv root Hroot l0 v0 kv0 w0 T log C1 C2 C4 t ph Et Hcan Hv)
      as (m' & v' & s' & u' & r & E & _ & _ & _ & Hr).
    rewrite E in Epr. injection Epr as _ ->. destruct Hr as (Hrank & _ & _ & Epath & _).
    left. exists t, ph'. split; [apply lookup_insert_eq|]. split; [congruence|].
    destruct ph, ph'; simpl in *; try done; lia.
  - destruct (decide (t1 = t)) as [->|Hne]; [|left; exists t, ph; cbn [c_run]; by rewrite lookup_delete_ne].
    assert (ph1 = ph) as -> by congruence. destruct Hc as (C1 & C2 & _ & C4). cbn [c_w c_run c_log] in *.
    destruct (section_inv root Hroot l0 v0 kv0 w0 T log C1 C2 C4 t ph Et Hcan Hv)
      as (m' & v' & s' & u' & r' & E & _ & _ & _ & Hr').
    rewrite E in Epr. injection Epr as _ <-. destruct r' as [ph'|o]; [by destruct (Hr ph')|].
    destruct Hr' as (q & ev & out & -> & _). simpl in Ep. subst q. right. exists ev.
    apply elem_of_app. right. by left.
Qed.

Lemma changed_later p j k : (j <= k)%nat → changed p (steps j) → changed p (steps k).
Proof.
  induction 1 as [|k _ IH]; [done|]. intros Hj. destruct (Hsteps k) as [->|Hs]; [by apply IH|].
  eapply changed_step; [apply history_inv|apply Hroom|done|by apply IH].
Qed.

Lemma apply_none log kv p : (∀ ev, (p, ev) ∉ log) → apply_events (Obj := Obj) log kv !! p = kv !! p.
Proof.
  induction log as [|[q ev] log IH] using rev_ind; [done|]. intros Hn. rewrite apply_snoc, decide_False.
  - apply IH. intros ev' Hin. apply (Hn ev'), elem_of_app. by left.
  - intros ->. apply (Hn ev), elem_of_app. right. by left.
Qed.

Lemma apply_last log kv kv' p ev : (p, ev) ∈ log →
  apply_events (Obj := Obj) log kv !! p = apply_events log kv' !! p.
Proof.
  induction log as [|[q ev'] log IH] using rev_ind; [by intros ?%elem_of_nil|]. intros Hin.
  rewrite !apply_snoc. case_decide as E; [done|]. apply elem_of_app in Hin as [Hin|Hin]; [by apply IH|].
  apply list_elem_of_singleton in Hin. congruence.
Qed.

(** An object with no event up to a moment at rest was the same all along. *)
Lemma undisturbed p k : c_run (steps k) = ∅ → (∀ ev, (p, ev) ∉ c_log (steps k)) →
  ∀ j, (j <= k)%nat → abs (nodes (steps j)) !! p = a_kv a !! p.
Proof.
  intros Hrest Hnone j Hj.
  assert (Hn : ∀ ev, (p, ev) ∉ c_log (steps j)).
  { intros ev Hin. destruct (history_log j k Hj) as [new E]. apply (Hnone ev). rewrite E. apply elem_of_app. by left. }
  assert (Hch : ¬ changed p (steps j)).
  { intros [(t & ph & Et & _)|(ev & Hin)]%(changed_later p j k Hj); [|by apply (Hnone ev)].
    by rewrite Hrest in Et. }
  pose proof (history_inv j) as (_ & _ & _ & Hw). rewrite <- (apply_none (c_log (steps j)) (a_kv a) p Hn).
  destruct (decide (p ∈ wd_key_mu (c_w (steps j)))) as [Hin|Hin]; [|by apply (wo_rest _ _ _ _ Hw)].
  apply (wo_locks _ _ _ _ Hw) in Hin as (t & ph & Et & Ep). rewrite <- Ep at 1.
  rewrite (wo_disk _ _ _ _ Hw t ph Et), Ep. destruct ph; simpl; try done; destruct Hch; left; eauto.
Qed.

(** ** A list while writers are at work *)

(** The [i]-th system call of the list sees the files at index [moment i]. *)
Context (moment : nat → nat).
Hypothesis Hmoment : ∀ i, (moment i <= moment (S i))%nat.

Definition files i : gmap path node := nodes (steps (moment i)).

(** What a client makes of a list: the objects by their paths. *)
Definition listed (l : list (nat * path * Obj)) : gmap path Obj :=
  list_to_map (map (λ x, (x.1.2, x.2)) l).

Lemma listed_lookup l p : NoDup (map (λ x : nat * path * Obj, x.1.2) l) →
  (∀ i o, (i, p, o) ∈ l → listed l !! p = Some o) ∧
  ((∀ i o, (i, p, o) ∉ l) → listed l !! p = None).
Proof.
  intros Hnd. assert (Hfst : fst <$> map (λ x, (x.1.2, x.2)) l = map (λ x : nat * path * Obj, x.1.2) l)
    by (rewrite <- (map_map (λ x : nat * path * Obj, (x.1.2, x.2)) fst); done).
  split.
  - intros i o Hin. apply elem_of_list_to_map_1; [by rewrite Hfst|].
    by apply (list_elem_of_fmap_2 (λ x : nat * path * Obj, (x.1.2, x.2)) l (i, p, o)).
  - intros Hn. apply not_elem_of_list_to_map_1. rewrite Hfst. intros Hin.
    apply list_elem_of_fmap in Hin as ([[i q] o] & -> & Hin). by apply (Hn i o).
Qed.

(** C3: a list taken while writers work is right.  It returns, whatever files come
    and go under it.  Every object it read was stored at its path at that moment,
    no path is read twice, and an object that is there from its start to its end
    is not missing.  And a client that applies to the list the events since its
    start has, once the writers are done, exactly the objects that are stored;
    all these events carry versions above that of the list.  (No writer is under
    way when the list starts: Races shows what is missed otherwise.) *)
Theorem list_among_writers key d pred predb fuel :
  collection root key d → (∀ o, pred o = Ok (predb o)) →
  (Nat.max (depth (fs_nodes (wd_fs w))) (length root + 3) + 2 <= fuel)%nat →
  ∃ n l, list_between files fuel d pred [] 0 = (n, Val (List.filter predb (map snd l), Ok tt)) ∧
    NoDup (map (λ x, x.1.2) l) ∧
    (∀ i p o, (i, p, o) ∈ l → (i < n)%nat ∧ under d p ∧ abs (files i) !! p = Some o) ∧
    (∀ p, under d p → (∀ i, (i <= n)%nat → is_Some (abs (files i) !! p)) → ∃ i o, (i, p, o) ∈ l) ∧
    ∀ k, (moment n <= k)%nat → c_run (steps k) = ∅ →
      (∀ p, under d p → apply_events (c_log (steps k)) (listed l) !! p = abs (nodes (steps k)) !! p) ∧
      ∀ x, x ∈ c_log (steps k) → (a_rv a < ev_rv x.2)%N.
Proof.
  intros Hcol Hpred Hfuel.
  assert (Hlay : ∀ i, layout root (files i)) by (intros i; apply history_inv).
  destruct (collection_split root Hroot key d Hcol) as (lab & Ed & _).
  destruct (collection_dir root Hroot (files 0) key d (Hlay 0) Hcol) as [Hne Hd].
  destruct (walk_from root files (Nat.max (depth (fs_nodes (wd_fs w))) (length root + 3)) Hlay)
    with (pred := pred) (predb := predb) (fuel := fuel) (d := d) (i := 0) as (n & l & [R1 R2 R3 R4] & Hrun);
    [| |done|done|done|rewrite Ed, length_app; lia|lia|lia|].
  { intros i q. apply (history_tree (moment i) (moment (S i))), Hmoment. }
  { intros i q x Hx. destruct (proj2 (history_tree 0 (moment i) ltac:(lia)) q x Hx) as [[y Hy]|Hq]; [|lia].
    rewrite Hstart in Hy. apply depth_bound in Hy. simpl in Hy. lia. }
  exists n, l. split; [apply Hrun|]. split; [done|].
  assert (Hseen : ∀ i p o, (i, p, o) ∈ l → (i < n)%nat ∧ under d p ∧ abs (files i) !! p = Some o).
  { intros i p o Hin. destruct (R3 _ Hin) as (? & ? & ?). split; [simpl in *; lia|done]. }
  assert (Hall : ∀ p, under d p → (∀ i, (i <= n)%nat → is_Some (abs (files i) !! p)) → ∃ i o, (i, p, o) ∈ l).
  { intros p Hp Hpres. assert (Hin : p ∈ map (λ x : nat * path * Obj, x.1.2) l) by (apply R4; [done|]; intros j Hj; apply Hpres; lia).
    apply list_elem_of_fmap in Hin as ([[i q] o] & -> & Hin). by exists i, o. }
  split; [done|]. split; [done|]. intros k Hk Hrest.
  pose proof (history_inv k) as (_ & _ & Hlog & Hw). split; [|intros x Hx; by apply (lf_bounds _ _ _ Hlog)].
  intros p Hp. rewrite (wo_rest _ _ _ _ Hw p).
  2:{ rewrite (wo_locks _ _ _ _ Hw). intros (t & ph & Et & _). by rewrite Hrest in Et. }
  destruct (decide (p ∈ map fst (c_log (steps k)))) as [Hin|Hnone].
  { apply list_elem_of_fmap in Hin as ([q ev] & -> & Hin). by apply (apply_last _ _ _ _ ev). }
  assert (Hno : ∀ ev, (p, ev) ∉ c_log (steps k)).
  { intros ev Hin. apply Hnone. by apply (list_elem_of_fmap_2 fst _ (p, ev)). }
  rewrite !apply_none by done.
  assert (Hsame : ∀ i, (i <= n)%nat → abs (files i) !! p = a_kv a !! p).
  { intros i Hi. apply (undisturbed p k Hrest Hno). etransitivity; [|exact Hk].
    clear -Hi Hmoment. induction Hi as [|n _ IH]; [done|]. by etransitivity. }
  destruct (listed_lookup l p R2) as [L1 L2]. destruct (a_kv a !! p) as [o|] eqn:Ea.
  - destruct (Hall p Hp) as (i & o' & Hin); [intros i Hi; by rewrite Hsame|].
    rewrite (L1 i o' Hin). destruct (Hseen i p o' Hin) as (Hi & _ & Ho). rewrite Hsame in Ho by lia. congruence.
  - apply L2. intros i o Hin. destruct (Hseen i p o Hin) as (Hi & _ & Ho). rewrite Hsame in Ho by lia. congruence.
Qed.
End among.
