(* ===== verification/StoreSamples.v ===== *)
(** * The theorems about the store at concrete states

    Each lemma applies one theorem of the storage files to a concrete store,
    request or run whose hypotheses evaluate. *)

From S2P Require Import Prelude GoStrings Fs Counter Watch Keys Store StoreFacts StoreSpec.
From S2P Require Import StoreList StoreRuns StoreWatch Samples.

(** ** Checking the side conditions *)

Lemma run_pair {S A} (m : M S A) s o : (m s).2 = o → m s = ((m s).1, o).
Proof. intros <-. by destruct (m s). Qed.

(** Every subscriber has room. *)
Definition takes_check (s : wstate kobj) : bool :=
  forallb (λ w, match ws_heap s !! w with
                | Some x => bool_decide (live x ∧ has_room x)
                | None => false
                end) (elements (b_subs (ws_b s))).

Lemma takes_check_sound a a' s : takes_check s = true → takes a a' s.
Proof.
  unfold takes_check. rewrite List.forallb_forall. intros Hc [p ev] _ w Hw.
  specialize (Hc w ltac:(by apply list_elem_of_In, elem_of_elements)).
  destruct (ws_heap s !! w) as [x|]; [|done]. exists x. split; [done|].
  by apply bool_decide_eq_true in Hc.
Qed.

Ltac takes_now := apply takes_check_sound; vm_compute; reflexivity.
Ltac target_now := apply k_target; [discriminate|reflexivity|reflexivity].

(** ** One request *)

Lemma create_refines_witness :
  ∃ w', create k_root (k_key "web") (k_pod "default" "web" "v1") None k_empty
        = (w', Val (Ok None)) ∧
        R k_root w' (spec_create (k_key "web") (k_path "web") (k_pod "default" "web" "v1") false k_a0).1.
Proof.
  destruct (create_refines k_root k_root_good (k_key "web") (k_path "web")
              (k_pod "default" "web" "v1") false ltac:(target_now) eq_refl k_empty k_a0 k_empty_R)
    as (w' & E & HR & _); [reflexivity|takes_now|].
  exists w'. split; [exact E|exact HR].
Defined.

Lemma get_refines_witness :
  ∃ w', get k_root (k_key "web") false obj_new k_run1
        = (w', Val (Ok (MkK "default" "web" "fsstorage-uid-1" 4 "v2"))).
Proof.
  destruct (get_refines k_root k_root_good (k_key "web") (k_path "web") false ltac:(target_now)
              k_run1 k_a1 k_run1_R) as (w' & E & _); [reflexivity|takes_now|].
  exists w'. rewrite E. vm_compute. reflexivity.
Defined.

Lemma delete_refines_witness :
  ∃ w', delete_obj k_root (k_key "web") (Some obj_new) (λ _ _, Ok tt) None false k_run1
        = (w', Val (Ok (Some (MkK "default" "web" "fsstorage-uid-1" 5 "v2")))) ∧
        R k_root w' (spec_delete (k_key "web") (k_path "web") true (λ _ _, Ok tt) None k_a1).1.
Proof.
  destruct (delete_refines k_root k_root_good (k_key "web") (k_path "web") true (λ _ _, Ok tt) None
              false ltac:(target_now) k_run1 k_a1 k_run1_R) as (w' & E & HR & _);
    [reflexivity|takes_now|].
  exists w'. split; [etransitivity; [exact E|vm_compute; reflexivity]|exact HR].
Defined.

(** An update function that stores what is there. *)
Definition keep (o : kobj) (_ : N) : kobj * res kobj := (o, Ok o).

Lemma update_refines_witness :
  ∃ w', guaranteed_update k_root (k_key "web") None false (λ _ _, Ok tt) keep k_run1
        = (w', Val (Ok None)) ∧ R k_root w' k_a1.
Proof.
  destruct (update_refines k_root k_root_good (k_key "web") (k_path "web") false false
              (λ _ _, Ok tt) keep ltac:(target_now) ltac:(split; [|intros]; reflexivity)
              k_run1 k_a1 k_run1_R) as (w' & E & HR & _); [reflexivity|takes_now|].
  exists w'. split; [etransitivity; [exact E|vm_compute; reflexivity]|exact HR].
Defined.

(** ** Lists *)

Definition k_dir : path := k_root ++ ["pods"; "default"].

Lemma k_collection : collection k_root "/pods/default" k_dir.
Proof.
  exists "pods", "default". split; [reflexivity|]. split; [reflexivity|].
  split; [|right]; by apply (bool_decide_unpack _).
Qed.

Definition k_opts (rv : string) : list_options kobj :=
  MkListOptions rv true (λ o, Ok (String.eqb (k_data o) "v2")) (Some true).

Lemma get_list_complete_witness :
  ∃ items, get_list k_root "/pods/default" (k_opts "") [] k_run1
           = (k_run1, Val (Ok (MkOList items 4))) ∧
           items ≡ₚ List.filter (λ o, String.eqb (k_data o) "v2") (objects_below k_dir k_a1).
Proof.
  exact (get_list_complete k_root k_root_good k_run1 k_a1 "/pods/default" k_dir (k_opts "")
           (λ o, String.eqb (k_data o) "v2") k_run1_R k_collection eq_refl (λ _, eq_refl)).
Defined.

Lemma count_collection_witness :
  count k_root "/pods/default" k_run1 = (k_run1, Val (Ok 2%N)).
Proof.
  rewrite (count_collection k_root k_root_good k_run1 k_a1 "/pods/default" k_dir k_run1_R
             k_collection).
  replace (length (objects_below k_dir k_a1)) with 2%nat by (vm_compute; reflexivity).
  reflexivity.
Defined.

(** ** Runs *)

Definition op_web : op kobj :=
  OpCreate (k_key "web") (k_path "web") (k_pod "default" "web" "v2") false.
Definition op_db : op kobj :=
  OpCreate (k_key "db") (k_path "db") (k_pod "default" "db" "v1") false.
Definition op_gone : op kobj :=
  OpDelete (k_key "web") (k_path "web") false (λ _ _, Ok tt) None false.

Definition after_op (o : op kobj) (c : world kobj * astate kobj) : world kobj * astate kobj :=
  ((op_run k_root o c.1).1, (op_spec o c.2).1).

(** An operation as a step, its side conditions evaluated. *)
Lemma op_step i (o : op kobj) c r :
  op_valid k_root o → takes_check (wd_watch c.1) = true → (op_run k_root o c.1).2 = Val r →
  step k_root i c (ADone o r) (after_op o c).
Proof.
  intros Hv Ht E. destruct c as [w a]. apply step_op; [done|by apply takes_check_sound|].
  by apply run_pair.
Qed.

Lemma recv_step i (c : world kobj * astate kobj) e :
  (on_watch (recv i) c.1).2 = Val (Some e) →
  step k_root i c (ARecv e) ((on_watch (recv i) c.1).1, c.2).
Proof. intros E. destruct c as [w a]. apply step_recv. by apply run_pair. Qed.

Definition k_c0 : world kobj * astate kobj := (k_empty, k_a0).
Definition k_c2 : world kobj * astate kobj := after_op op_db (after_op op_web k_c0).

Definition k_tr0 : list action := [ADone op_web (Ok None); ADone op_db (Ok None)].

Lemma web_valid : op_valid k_root op_web.
Proof. split; [target_now|done]. Qed.
Lemma db_valid : op_valid k_root op_db.
Proof. split; [target_now|done]. Qed.
Lemma gone_valid : op_valid k_root op_gone.
Proof. unfold op_gone, op_valid. target_now. Qed.

Lemma k_run0 j : run k_root j k_c0 k_tr0 k_c2.
Proof.
  eapply run_step; [apply (op_step j op_web); [apply web_valid|vm_compute; reflexivity..]|].
  eapply run_step; [apply (op_step j op_db); [apply db_valid|vm_compute; reflexivity..]|].
  apply run_done.
Qed.

Lemma k_run0_pair j : run k_root j (k_empty, k_a0) k_tr0 (k_c2.1, k_c2.2).
Proof. rewrite <- surjective_pairing. apply k_run0. Qed.

Lemma run_refines_witness :
  results k_tr0 = spec_results k_a0 k_tr0 ∧ R k_root k_c2.1 k_c2.2.
Proof.
  destruct (run_refines k_root k_root_good 0 k_c0 k_tr0 k_c2 k_empty_R (k_run0 0)) as [HR E];
    [vm_compute; discriminate|]. split; [exact E|exact HR].
Defined.

Lemma events_reproduce_state_witness :
  ∃ new, a_log k_c2.2 = a_log k_a0 ++ new ∧
    abs (fs_nodes (wd_fs k_c2.1)) = apply_events new ∅ ∧ wd_rv k_c2.1 = 3%N.
Proof.
  destruct (events_reproduce_state k_root k_root_good 0 k_empty k_a0 k_tr0 k_c2.1 k_c2.2
              k_empty_R (k_run0_pair 0)) as (new & E1 & E2 & _); [vm_compute; discriminate|].
  exists new. split; [exact E1|]. split; [|vm_compute; reflexivity].
  etransitivity; [exact E2|]. reflexivity.
Defined.

(** A watch opened after the two requests, from the version before them. *)
Definition k_mk : kobj → bool := matches_key true false "default" "".
Definition k_opened : world kobj := (watch k_root "/pods/default" (k_opts "1") k_c2.1).1.

Lemma k_watch_args : watch_args "/pods/default" (k_opts "1") 1 k_mk.
Proof. split; [discriminate|]. by split. Qed.

Definition k_c3 : world kobj * astate kobj := (k_opened, k_c2.2).
Definition k_first : wevent kobj := MkWEvent Added (WObj (MkK "default" "web" "fsstorage-uid-1" 2 "v2")).
Definition k_tr1 : list action := [ADone op_gone (Ok None); ARecv k_first].
Definition k_c4 : world kobj * astate kobj := after_op op_gone k_c3.
Definition k_c5 : world kobj * astate kobj := ((on_watch (recv 0) k_c4.1).1, k_c4.2).

Lemma k_run1_pair : run k_root 0 (k_opened, k_c2.2) k_tr1 (k_c5.1, k_c5.2).
Proof.
  rewrite <- surjective_pairing. change (k_opened, k_c2.2) with k_c3.
  eapply run_step; [apply (op_step 0 op_gone); [apply gone_valid|vm_compute; reflexivity..]|].
  eapply run_step; [apply recv_step; vm_compute; reflexivity|]. apply run_done.
Qed.

Lemma k_c2_R : R k_root k_c2.1 k_c2.2.
Proof. concrete_R. Qed.
Lemma k_opened_R : R k_root k_opened k_c2.2.
Proof. concrete_R. Qed.

Lemma k_log_ok0 : log_ok k_a0.
Proof. split; constructor. Qed.

Lemma k_log_ok2 : log_ok k_c2.2.
Proof. split; vm_compute; repeat constructor; discriminate. Qed.

Lemma watch_replays_witness :
  ∃ w', watch k_root "/pods/default" (k_opts "1") k_c2.1 = (w', Val (Ok 0)) ∧
        R k_root w' k_c2.2 ∧ follows 0 (lo_predicate (k_opts "1")) k_mk [k_first] (wd_watch w').
Proof.
  destruct (watch_replays k_root k_root_good k_c2.1 k_c2.2 "/pods/default" (k_opts "1") 1 k_mk k_c2_R k_log_ok2)
    as (E & HR & Hf); [vm_compute; discriminate|vm_compute; lia|exact k_watch_args|by vm_compute|
                       vm_compute; discriminate|vm_compute; discriminate|vm_compute; lia|].
  eexists. split; [exact E|]. split; [exact HR|]. exact Hf.
Defined.

Lemma k_follows : follows 0 (lo_predicate (k_opts "1")) k_mk [k_first] (wd_watch k_opened).
Proof.
  split; [apply (bool_decide_unpack _); vm_compute; exact I|].
  exists (set_onstop (set_ch [k_first] (fresh_watcher (lo_predicate (k_opts "1")) k_mk))).
  split; [vm_compute; reflexivity|]. done.
Qed.

Lemma watcher_sees_all_witness :
  ∃ new q, a_log k_c5.2 = a_log k_c2.2 ++ new ∧
    received k_tr1 ++ q = [k_first] ++ shown (lo_predicate (k_opts "1")) k_mk new.
Proof.
  destruct (watcher_sees_all k_root k_root_good 0 (lo_predicate (k_opts "1")) k_mk k_opened k_c2.2
              k_tr1 k_c5.1 k_c5.2 [k_first] k_opened_R k_run1_pair) as (new & q & E & _ & Eq);
    [vm_compute; discriminate|exact k_follows|].
  exists new, q. split; [exact E|exact Eq].
Defined.

(** A client of the whole collection: it lists with one Pod stored, a second
    is stored, it opens its watch, the first is deleted, it reads one event. *)
Definition k_all (rv : string) : list_options kobj := MkListOptions rv true (λ _, Ok true) None.
Definition k_l1 : world kobj * astate kobj := after_op op_web k_c0.
Definition k_l2 : world kobj * astate kobj := after_op op_db k_l1.
Definition k_watching : world kobj := (watch k_root "/pods/default" (k_all "2") k_l2.1).1.
Definition k_second : wevent kobj := MkWEvent Added (WObj (MkK "default" "db" "fsstorage-uid-2" 3 "v1")).
Definition k_l3 : world kobj * astate kobj := after_op op_gone (k_watching, k_l2.2).
Definition k_l4 : world kobj * astate kobj := ((on_watch (recv 0) k_l3.1).1, k_l3.2).
Definition k_tr2 : list action := [ADone op_db (Ok None)].
Definition k_tr3 : list action := [ADone op_gone (Ok None); ARecv k_second].

Lemma k_l1_R : R k_root k_l1.1 k_l1.2.
Proof. concrete_R. Qed.

Lemma k_log_ok1 : log_ok k_l1.2.
Proof.
  split; [by repeat constructor|]. apply Forall_singleton. vm_compute. discriminate.
Qed.

Lemma k_run2 : run k_root 0 (k_l1.1, k_l1.2) k_tr2 (k_l2.1, k_l2.2).
Proof.
  rewrite <- !surjective_pairing.
  eapply run_step; [apply (op_step 0 op_db); [apply db_valid|vm_compute; reflexivity..]|]. apply run_done.
Qed.

Lemma k_run3 : run k_root 0 (k_watching, k_l2.2) k_tr3 (k_l4.1, k_l4.2).
Proof.
  rewrite <- surjective_pairing.
  eapply run_step; [apply (op_step 0 op_gone); [apply gone_valid|vm_compute; reflexivity..]|].
  eapply run_step; [apply recv_step; vm_compute; reflexivity|]. apply run_done.
Qed.

Definition k_stored (w : world kobj) : gmap path kobj := in_dir k_dir (abs (fs_nodes (wd_fs w))).

Lemma list_then_watch_witness :
  ∃ items q, get_list k_root "/pods/default" (k_all "") [] k_l1.1 = (k_l1.1, Val (Ok (MkOList items 2))) ∧
    received k_tr3 ++ q =
      [k_second; MkWEvent Deleted (WObj (MkK "default" "web" "fsstorage-uid-1" 4 "v2"))] ∧
    items ≡ₚ map snd (map_to_list (k_stored k_l1.1)) ∧
    k_stored k_l4.1 = apply_events (in_scope k_dir (after 2 (a_log k_l4.2))) (k_stored k_l1.1).
Proof.
  assert (Hw : watch k_root "/pods/default" (k_all "2") k_l2.1 = (k_watching, Val (Ok 0)))
    by (unfold k_watching; apply run_pair; vm_compute; reflexivity).
  destruct (list_then_watch k_root k_root_good 0 k_l1.1 k_l1.2 "/pods/default" k_dir (k_all "") (λ _, true)
              k_tr2 k_l2.1 k_l2.2 "/pods/default" (k_all "2") k_mk 0 k_watching k_tr3 k_l4.1 k_l4.2
              k_l1_R k_log_ok1 eq_refl k_collection eq_refl (λ _, eq_refl) k_run2)
    as (items & q & El & _ & _ & _ & _ & Hall).
  - vm_compute. lia.
  - split; [discriminate|]. split; [vm_compute; reflexivity|reflexivity].
  - vm_compute. discriminate.
  - vm_compute. lia.
  - exact Hw.
  - exact k_run3.
  - vm_compute. discriminate.
  - destruct Hall as (Eg & Ei & Ek); [done| |].
    { apply Forall_forall, (bool_decide_unpack _). vm_compute. exact I. }
    exists items, q. split; [exact El|]. split; [etransitivity; [exact Eg|vm_compute; reflexivity]|].
    split; [exact Ei|exact Ek].
Defined.

(** ** The other ways a watch opens *)

Lemma watch_snapshot_witness :
  ∃ snap w', snap ≡ₚ objects_below k_dir k_a1 ∧
    watch k_root "/pods/default" (k_opts "") k_run1 = (w', Val (Ok 0)) ∧ R k_root w' k_a1.
Proof.
  destruct (watch_snapshot k_root k_root_good k_run1 k_a1 "/pods/default" (k_opts "") k_dir k_mk
              k_run1_R k_collection eq_refl eq_refl) as (snap & Hp & E & HR); [vm_compute; lia|].
  exists snap. eexists. split; [exact Hp|]. split; [exact E|exact HR].
Defined.

(** Four events through a ring of three. *)
Definition k_late : world kobj * astate kobj := after_op op_gone (k_run1, k_a1).

Lemma k_late_R : R k_root k_late.1 k_late.2.
Proof. concrete_R. Qed.

Lemma watch_expired_witness :
  ∃ w', watch k_root "/pods/default" (k_opts "1") k_late.1 = (w', Val (Ok 0)) ∧
        R k_root w' k_late.2.
Proof.
  destruct (watch_expired k_root k_late.1 k_late.2 "/pods/default" (k_opts "1") 1 k_mk k_late_R
              k_watch_args) as [E HR]; [by vm_compute|vm_compute; reflexivity|].
  eexists. split; [exact E|exact HR].
Defined.

(** The data directory of [k_late] in a new process. *)
Definition k_restarted : world kobj :=
  MkWorld (wd_fs k_late.1) 5 (MkWState (new_broadcaster 3) ∅ 0 []) ∅ 0.
Definition k_a_restarted : astate kobj := MkA (a_kv k_late.2) 5 [] 0.

Lemma k_restarted_R : R k_root k_restarted k_a_restarted.
Proof. concrete_R. Qed.

Lemma restarted_watch_misses_witness :
  ∃ w', watch k_root "/pods/default" (k_opts "1") k_restarted = (w', Val (Ok 0)) ∧
        follows 0 (lo_predicate (k_opts "1")) k_mk [] (wd_watch w').
Proof.
  destruct (restarted_watch_misses k_root k_root_good k_restarted k_a_restarted "/pods/default"
              (k_opts "1") 1 k_mk k_restarted_R k_watch_args) as [E Hf]; [by vm_compute|reflexivity|].
  eexists. split; [exact E|exact Hf].
Defined.

Definition k_single (rv : string) : list_options kobj :=
  MkListOptions rv false (λ _, Ok true) None.

Lemma cluster_watch_selects_nothing_witness :
  matches_key false false "foo" "" (MkK "" "foo" "" 1 "") = false.
Proof.
  apply (cluster_watch_selects_nothing "namespaces" "/namespaces" None "foo" "/namespaces/foo"
           (k_single "1") 1 (matches_key false false "foo" "")); [by split|by split|reflexivity..|].
  split; [discriminate|]. by split.
Defined.

(** ** The broadcaster *)

Definition b_event (v : N) : event kobj := MkEvent v Added (MkK "default" "web" "u" v "v2").

Lemma replay_complete_witness :
  replay_locked 2 (recent 2 [b_event 2; b_event 3; b_event 4]) = Some [b_event 3; b_event 4] ∧
  [b_event 3; b_event 4] =
    List.filter (λ ev, (2 <? ev_rv ev)%N) [b_event 2; b_event 3; b_event 4].
Proof.
  split; [reflexivity|].
  apply (replay_complete 2 [b_event 2; b_event 3; b_event 4] 2);
    [lia|discriminate|reflexivity|repeat constructor|reflexivity].
Defined.

(** A broadcaster with one subscriber. *)
Definition one_sub (x : watcher kobj) (oracle : list nat) : wstate kobj :=
  MkWState (MkBroadcaster false 3 [] {[ 0 ]}) {[ 0 := x ]} 1 oracle.
Definition b_watcher (q : list (wevent kobj)) (cap : nat) (closed : bool) : watcher kobj :=
  MkWatcher (λ _, Ok true) (λ _, true) q cap closed closed closed true.

Lemma publish_delivers_witness :
  ∃ s', publish (b_event 2) (one_sub (b_watcher [] 1 false) []) = (s', Val tt) ∧
        ws_heap s' !! 0 = Some (b_watcher [wevent_of (b_event 2)] 1 false).
Proof.
  destruct (publish_delivers (b_event 2) (one_sub (b_watcher [] 1 false) []))
    as (s' & E & _ & _ & Hh); [reflexivity| |].
  - intros w Hw. change (w ∈ ({[0]} : gset nat)) in Hw. apply elem_of_singleton in Hw as ->. exists (b_watcher [] 1 false).
    split; [reflexivity|]. intros _. split; [done|]. unfold has_room. simpl. lia.
  - exists s'. split; [exact E|]. rewrite Hh. vm_compute. reflexivity.
Defined.

Lemma stop_unsubscribes_witness :
  ∃ s', stop 0 (one_sub (b_watcher [] 1 false) []) = (s', Val tt) ∧ 0 ∉ b_subs (ws_b s').
Proof.
  destruct (stop_unsubscribes 0 (b_watcher [] 1 false) (one_sub (b_watcher [] 1 false) []))
    as (s' & E & _ & Hn & _); [reflexivity|reflexivity|done|reflexivity|].
  exists s'. split; [exact E|exact Hn].
Defined.

Lemma slow_watcher_deadlocks_witness :
  ∃ s', publish (b_event 3) (one_sub (b_watcher [wevent_of (b_event 2)] 1 false) [])
        = (s', Stuck Deadlocked).
Proof.
  destruct (slow_watcher_deadlocks (b_event 3) 0 (b_watcher [wevent_of (b_event 2)] 1 false)
              (one_sub (b_watcher [wevent_of (b_event 2)] 1 false) [])) as (s' & E & _);
    [reflexivity|by apply elem_of_singleton|reflexivity|reflexivity| | |].
  - split; [done|]. split; [|done]. unfold has_room. simpl. lia.
  - intros w Hw. change (w ∈ ({[0]} : gset nat)) in Hw. apply elem_of_singleton in Hw as ->. eexists. split; [reflexivity|]. done.
  - exists s'. exact E.
Defined.

Lemma closed_subscriber_panics_witness :
  (publish (b_event 2) (one_sub (b_watcher [] 1 true) [0; 1])).2 = Stuck Panicked.
Proof.
  apply (closed_subscriber_panics (b_event 2) 0 (b_watcher [] 1 true)
           (one_sub (b_watcher [] 1 true) [0; 1]) 0 1 []); done.
Defined.
