(* ===== verification/RaceSamples.v ===== *)
(** * Concrete interleavings of writers

    Two creations whose sections interleave, the witnesses of the theorems of
    Races on them, and two events published against their versions' order. *)

From S2P Require Import Prelude GoStrings Fs Counter Watch Keys Store StoreFacts StoreSpec.
From S2P Require Import StoreList StoreRuns StoreWatch Samples StoreSamples Writers Interleave Races.

Notation kconf := (conf (Obj := kobj)).

(** One step of a writer, computed. *)
Definition begin_c (t : nat) (wr : writer kobj) (c : kconf) : option kconf :=
  match c_run c !! t, lock_key (writer_path wr) (c_w c) with
  | None, (w1, Val _) =>
      match prepare wr w1 with
      | (w2, Val (Ok (Going ph))) => Some (MkConf w2 (<[t := ph]> (c_run c)) (c_log c))
      | _ => None
      end
  | _, _ => None
  end.

Definition next_c (t : nat) (c : kconf) : option kconf :=
  match c_run c !! t with
  | None => None
  | Some ph =>
      match phase_step k_root ph (c_w c) with
      | (w', Val (Ok (Going ph'))) =>
          Some (MkConf w' (<[t := ph']> (c_run c)) (c_log c ++ announced ph))
      | (w', Val r) =>
          Some (MkConf (unlock_key (phase_path ph) w') (delete t (c_run c)) (c_log c ++ announced ph))
      | _ => None
      end
  end.

Lemma begin_c_step t wr c c' : op_valid k_root (writer_op wr) → begin_c t wr c = Some c' →
  cstep k_root c c'.
Proof.
  destruct c as [w T log]. unfold begin_c. cbn [c_w c_run c_log]. intros Hv.
  destruct (T !! t) as [|] eqn:Et; [done|].
  destruct (lock_key _ w) as [w1 [[]|]] eqn:El; [|done].
  destruct (prepare wr w1) as [w2 [[[ph|]|]|]] eqn:Ep; intros [= <-]. by eapply cs_begin.
Qed.

Lemma no_subscribers (s : wstate kobj) (ph : phase kobj) : b_subs (ws_b s) = ∅ → can_announce ph s.
Proof. intros E. destruct ph; simpl; try done. intros i Hi. rewrite E in Hi. set_solver. Qed.

Lemma next_c_step t c c' : b_subs (ws_b (wd_watch (c_w c))) = ∅ → next_c t c = Some c' →
  cstep k_root c c'.
Proof.
  destruct c as [w T log]. unfold next_c. cbn [c_w c_run c_log]. intros Hs.
  destruct (T !! t) as [ph|] eqn:Et; [|done].
  pose proof (no_subscribers _ ph Hs) as Hc.
  destruct (phase_step k_root ph w) as [w' [[[ph'|]|]|]] eqn:Ep; intros [= <-];
    [by eapply cs_next|by eapply cs_end..].
Qed.

(** A schedule: the writers that start, and the turns of those under way. *)
Inductive turn := TBegin (t : nat) (wr : writer kobj) | TNext (t : nat).

Definition play1 (x : turn) (c : kconf) : option kconf :=
  match x with TBegin t wr => begin_c t wr c | TNext t => next_c t c end.

Fixpoint play (l : list turn) (c : kconf) : option kconf :=
  match l with
  | [] => Some c
  | x :: l' =>
      if bool_decide (b_subs (ws_b (wd_watch (c_w c))) = ∅)
      then match play1 x c with Some c1 => play l' c1 | None => None end
      else None
  end.

Definition turn_valid (x : turn) : Prop :=
  match x with TBegin _ wr => op_valid k_root (writer_op wr) | TNext _ => True end.

Lemma play_steps l c c' : Forall turn_valid l → play l c = Some c' →
  nsteps (cstep k_root) (length l) c c'.
Proof.
  intros Hl. revert c. induction Hl as [|x l Hx Hl IH]; intros c; simpl.
  { intros [= <-]. constructor. }
  case_bool_decide as Es; [|done]. destruct (play1 x c) as [c1|] eqn:E; [|done].
  intros Ep. eapply nsteps_l; [|by apply IH]. destruct x; simpl in *.
  - by eapply begin_c_step.
  - by eapply next_c_step.
Qed.

(** Two creations on different keys: "web" takes version 2, "db" takes 3, and
    "db" publishes first. *)
Definition wr_web : writer kobj := WCreate (k_key "web") (k_path "web") (k_pod "default" "web" "v2") false.
Definition wr_db : writer kobj := WCreate (k_key "db") (k_path "db") (k_pod "default" "db" "v2") false.

Definition half : list turn := [TBegin 0 wr_web; TNext 0].
Definition crossed : list turn :=
  half ++ [TBegin 1 wr_db; TNext 1; TNext 1; TNext 1; TNext 0; TNext 0].

Definition c_start : kconf := at_rest k_empty.
Definition played (l : list turn) : kconf :=
  match play l c_start with Some c => c | None => c_start end.

Lemma crossed_valid : Forall turn_valid crossed.
Proof. each ltac:(simpl; try exact I; apply web_valid || (split; [target_now|reflexivity])). Qed.

Lemma played_steps l : Forall turn_valid l → is_Some (play l c_start) →
  nsteps (cstep k_root) (length l) c_start (played l).
Proof. intros Hv [c E]. unfold played. rewrite E. by apply play_steps. Qed.

(** The ring is not in version order: two writers that interleave publish
    version 3 before version 2, and both are on disk; a watch from version 1,
    of which the ring holds every later event, is then refused as expired,
    because the oldest entry of the ring carries version 3. *)
Theorem publication_out_of_order :
  ∃ n c w', nsteps (cstep k_root) n (at_rest k_empty) c ∧ c_run c = ∅ ∧
    map (λ x, ev_rv x.2) (c_log c) = [3; 2]%N ∧
    replay_locked 1 (b_ring (ws_b (wd_watch (c_w c)))) = None ∧
    watch k_root "/pods/default" (k_opts "1") (c_w c) = (w', Val (Ok 0)) ∧
    (λ x, w_ch x) <$> (ws_heap (wd_watch w') !! 0) =
      Some [MkWEvent Error (WStatus (StatusOf (ErrExpired 1 3)))].
Proof.
  exists 8, (played crossed), (watch k_root "/pods/default" (k_opts "1") (c_w (played crossed))).1.
  split; [apply (played_steps crossed crossed_valid); vm_compute; eauto|].
  split; [vm_compute; reflexivity|]. split; [vm_compute; reflexivity|].
  split; [vm_compute; reflexivity|]. split; vm_compute; reflexivity.
Qed.

(** ** Witnesses *)

Lemma interleaved_events_witness :
  R k_root (c_w (played crossed))
    (MkA (apply_events (c_log (played crossed)) ∅) 3 (c_log (played crossed))
       (wd_uid (c_w (played crossed)))).
Proof.
  destruct (interleaved_events k_root k_root_good k_empty k_a0 8 (played crossed) k_empty_R
              ltac:(apply (played_steps crossed crossed_valid); vm_compute; eauto)
              ltac:(vm_compute; discriminate)) as (_ & _ & _ & H).
  apply H. vm_compute. reflexivity.
Defined.

Lemma half_valid : Forall turn_valid half.
Proof. each ltac:(simpl; try exact I; apply web_valid). Qed.

Definition web_write : phase kobj :=
  match c_run (played half) !! 0 with Some ph => ph | None => EraseNext [] None None end.

Lemma held_object_stable_witness :
  ∃ c', begin_c 1 wr_db (played half) = Some c' ∧
    abs (fs_nodes (wd_fs (c_w c'))) !! phase_path web_write
    = abs (Obj := kobj) (fs_nodes (wd_fs (c_w (played half)))) !! phase_path web_write.
Proof.
  destruct (begin_c 1 wr_db (played half)) as [c'|] eqn:E; [|by vm_compute in E].
  exists c'. split; [reflexivity|].
  apply (held_object_stable k_root k_root_good k_empty k_a0 2 (played half) c' 0 web_write k_empty_R).
  - apply (played_steps half half_valid). vm_compute. eauto.
  - vm_compute. discriminate.
  - eapply begin_c_step; [|exact E]. split; [target_now|reflexivity].
  - vm_compute. reflexivity.
  - clear - E. apply (f_equal (λ o, match o with Some c => c_run c !! 0 | None => None end)) in E.
    cbv beta iota in E. rewrite <- E. vm_compute. reflexivity.
Defined.

Definition both : list turn := half ++ [TBegin 1 wr_db; TNext 1].

Lemma both_valid : Forall turn_valid both.
Proof. each ltac:(simpl; try exact I; apply web_valid || (split; [target_now|reflexivity])). Qed.

Lemma writers_finish_witness :
  size (c_run (played both)) = 2 ∧
  ∃ k c', (k ≤ 6)%nat ∧ nsteps (cstep k_root) k (played both) c' ∧ c_run c' = ∅.
Proof.
  split; [vm_compute; reflexivity|].
  exact (writers_finish k_root k_root_good k_empty k_a0 4 (played both) k_empty_R
           ltac:(apply (played_steps both both_valid); vm_compute; eauto)
           ltac:(intros i Hi; by vm_compute in Hi)
           ltac:(vm_compute; discriminate)).
Defined.

Definition web_event : event kobj := MkEvent 2 Added (MkK "default" "web" "fsstorage-uid-1" 2 "v2").

Definition web_data : string := match web_write with Write _ _ d _ => d | _ => "" end.

Lemma list_then_watch_race_witness :
  (∃ items, get_list k_root "/pods/default" (k_opts "") [] (c_w (played half))
            = (c_w (played half), Val (Ok (MkOList items 2))) ∧ items ≡ₚ []) ∧
  ∃ w2, nsteps (cstep k_root) 2 (played half) (MkConf w2 ∅ [(k_path "web", web_event)]) ∧
    abs (fs_nodes (wd_fs w2)) !! k_path "web" = Some (ev_obj web_event) ∧
    watch k_root "/pods/default" (k_opts "2") w2
    = (set_wd_watch (opened (wd_watch w2) (lo_predicate (k_opts "2")) k_mk []) w2,
       Val (Ok (ws_next (wd_watch w2)))).
Proof.
  destruct (list_then_watch_race k_root k_root_good k_empty k_a0 2 (played half) 0 (k_path "web")
    web_event web_data None "/pods/default" k_dir (k_opts "") (λ o, String.eqb (k_data o) "v2")
    "/pods/default" (k_opts "2") k_mk k_empty_R
    ltac:(apply (played_steps half half_valid); vm_compute; eauto)
    ltac:(vm_compute; discriminate)) as [Hl Hw].
  - vm_compute. reflexivity.
  - vm_compute. reflexivity.
  - intros i Hi. by vm_compute in Hi.
  - apply k_collection.
  - reflexivity.
  - reflexivity.
  - split; [discriminate|]. split; [vm_compute; reflexivity|]. reflexivity.
  - split; [|exact Hw]. destruct Hl as (items & E & Hp). exists items. split; [exact E|].
    rewrite Hp. vm_compute. reflexivity.
Defined.
