(* ===== verification/ListRaceSamples.v ===== *)
(** * A list among writers on a concrete schedule

    Two objects are stored; while a list walks over them one is deleted and a
    third is created.  The list holds the one that stayed. *)

From S2P Require Import Prelude GoStrings Fs Counter Watch Keys Store StoreFacts StoreSpec.
From S2P Require Import StoreList StoreRuns StoreWatch Samples StoreSamples Writers Interleave Races.
From S2P Require Import RaceSamples ListRaces.

(** The configurations a schedule goes through; it stays in the last one. *)
Definition played_from (c : kconf) (l : list turn) (j : nat) : kconf :=
  default c (play (firstn j l) c).

Lemma play_app l1 l2 c : play (l1 ++ l2) c = match play l1 c with Some c1 => play l2 c1 | None => None end.
Proof.
  revert c. induction l1 as [|x l1 IH]; intros c; simpl; [done|].
  case_bool_decide; [|done]. destruct (play1 x c); [apply IH|done].
Qed.

Lemma played_history c l : Forall turn_valid l → is_Some (play l c) → history k_root (played_from c l).
Proof.
  intros Hv [c' E] j. unfold played_from. destruct (decide (j < length l)%nat) as [Hj|Hj].
  2:{ left. by rewrite !List.firstn_all2 by lia. }
  right. destruct (lookup_lt_is_Some_2 l j Hj) as [x Hx].
  rewrite (take_S_r l j x Hx), play_app.
  rewrite <- (take_drop_middle l j x Hx), play_app in E.
  destruct (play (take j l) c) as [c1|] eqn:E1; [|done]. simpl in E.
  change (cstep k_root c1 (default c (play [x] c1))).
  assert (Hst : ∃ c2, play [x] c1 = Some c2) by (simpl; case_bool_decide; [|done]; destruct (play1 x c1); [by eexists|done]).
  destruct Hst as [c2 E2]. rewrite E2.
  pose proof (play_steps [x] c1 c2) as Hs. eapply nsteps_once_inv, Hs; [|done].
  apply Forall_singleton. rewrite Forall_forall in Hv. apply Hv. by eapply list_elem_of_lookup_2.
Qed.

(** ** The schedule *)

Definition wr_gone : writer kobj := WDelete (k_key "web") (k_path "web") false (λ _ _, Ok tt) None false.
Definition wr_zoo : writer kobj := WCreate (k_key "zoo") (k_path "zoo") (k_pod "default" "zoo" "v1") false.

Definition busy : list turn :=
  [TBegin 0 wr_gone; TNext 0; TBegin 1 wr_zoo; TNext 0; TNext 1; TNext 1; TNext 1].

Definition b_start : kconf := at_rest k_run1.
Definition b_steps : nat → kconf := played_from b_start busy.

Lemma busy_valid : Forall turn_valid busy.
Proof. each ltac:(simpl; try exact I; first [target_now | split; [target_now|reflexivity]]). Qed.

Lemma busy_plays : is_Some (play busy b_start).
Proof. vm_compute. by eexists. Qed.

Lemma b_room j : (wd_rv (c_w (b_steps j)) < max_u64)%N.
Proof.
  assert (E : b_steps j = b_steps (Nat.min j 7)).
  { unfold b_steps, played_from. destruct (decide (j <= 7)%nat) as [Hj|Hj]; [by rewrite Nat.min_l|].
    rewrite Nat.min_r by lia. by rewrite !List.firstn_all2 by (simpl; lia). }
  rewrite E. assert (Hall : forallb (λ i, (wd_rv (c_w (b_steps i)) <? max_u64)%N) (seq 0 8) = true)
    by (vm_compute; reflexivity).
  rewrite List.forallb_forall in Hall. apply N.ltb_lt, Hall, List.in_seq. lia.
Qed.

(** The deletion removes the file between the read of the directory and that of
    the file; "zoo" comes when the walk is over. *)
Lemma list_among_writers_witness :
  ∃ n l, list_between (files b_steps (λ i, 2 * i)%nat) 7 k_dir (λ _, Ok true) [] 0
         = (n, Val (map snd l, Ok tt)) ∧
    NoDup (map (λ x, x.1.2) l) ∧
    apply_events (c_log (b_steps 7)) (listed l) !! k_path "zoo"
    = abs (Obj := kobj) (fs_nodes (wd_fs (c_w (b_steps 7)))) !! k_path "zoo".
Proof.
  destruct (list_among_writers k_root k_root_good k_run1 k_a1 b_steps k_run1_R eq_refl
              (played_history b_start busy busy_valid busy_plays) b_room (λ i, 2 * i)%nat ltac:(intros; cbv beta; lia)
              "/pods/default" k_dir (λ _, Ok true) (λ _, true) 7 k_collection ltac:(done)
              ltac:(apply Nat.leb_le; vm_compute; reflexivity))
    as (n & l & E & Hnd & _ & _ & Hend).
  assert (En : n = 3) by (vm_compute in E; congruence).
  exists n, l. split.
  { rewrite E. do 3 f_equal. clear. induction (map snd l) as [|o os IH]; simpl; congruence. }
  split; [exact Hnd|]. destruct (Hend 7) as [Happ _]; [subst n; simpl; lia|vm_compute; reflexivity|].
  apply Happ. exists ["zoo.json"]. split; [discriminate|reflexivity].
Defined.

(** The list holds "db" alone; the event of the deletion and of the creation
    make of it what is stored. *)
Example busy_list :
  match list_between (files b_steps (λ i, 2 * i)%nat) 7 k_dir (λ _, Ok true) [] 0 with
  | (_, Val (items, r)) => map k_name items = ["db"] ∧ r = Ok tt
  | _ => False
  end.
Proof. by vm_compute. Qed.
