(* ===== verification/Translate.v ===== *)
(** * From Pods to containers and back ([internal/kubelet/translate.go])

    The parts of a Pod the kubelet reads, the container names and labels it
    gives Docker, the specifications of the containers of a Pod, its pull
    policies, and the Pod status it reports from what Docker shows.  The
    resolution of environments and volumes ([projection.go]) is an argument of
    [container_specs_from_pod], defined in Projection.

    A [time.Time] is the number of nanoseconds since the zero time. *)

From S2P Require Import Prelude GoStrings.

(** ** k8s.io/api/core/v1, as far as the kubelet reads it *)

Record key_ref := MkKeyRef { kr_name : string; kr_key : string; kr_optional : option bool }.
Record value_from := MkValueFrom { vf_config_map : option key_ref; vf_secret : option key_ref }.
Record env_var := MkEnvVar { en_name : string; en_value : string; en_from : option value_from }.
Record object_ref := MkObjectRef { or_name : string; or_optional : option bool }.
Record env_from := MkEnvFrom {
  ef_prefix : string; ef_config_map : option object_ref; ef_secret : option object_ref }.
Record volume := MkVolume {
  vo_name : string; vo_config_map : option object_ref; vo_secret : option object_ref }.
Record volume_mount := MkVolumeMount { vm_name : string; vm_path : string }.
Record container := MkContainer {
  c_name : string; c_image : string; c_command : list string; c_args : list string;
  c_working_dir : string; c_pull_policy : string;
  c_env : list env_var; c_env_from : list env_from; c_mounts : list volume_mount }.
Record pod := MkPod {
  p_uid : string; p_namespace : string; p_name : string;
  p_deleting : bool;                     (* DeletionTimestamp != nil *)
  p_grace : option Z;                    (* DeletionGracePeriodSeconds *)
  p_containers : list container; p_volumes : list volume }.

(** [HostMount] of projection.go. *)
Record host_mount := MkHostMount { hm_source : list string; hm_target : string; hm_read_only : bool }.

#[export] Instance host_mount_eq_dec : EqDecision host_mount.
Proof. solve_decision. Defined.

(** ** Names and labels *)

Definition container_name (uid name : string) : string := "klite_" +:+ uid +:+ "_" +:+ name.

Definition pod_labels_for (p : pod) (name : string) : gmap string string :=
  <["io.k8s.pod.uid" := p_uid p]>
  (<["io.k8s.pod.namespace" := p_namespace p]>
  (<["io.k8s.pod.name" := p_name p]>
  (<["io.k8s.container.name" := name]>
  (<["io.k8s.managed-by" := "kubelet-lite"]> ∅)))).

(** ** Pull policies *)

(** [indexOf], [lastIndexOf]: [None] is -1. *)
Fixpoint index_of (s : string) (b : ascii) : option nat :=
  match s with
  | EmptyString => None
  | String c s' => if Ascii.eqb c b then Some 0 else S <$> index_of s' b
  end.

Fixpoint last_index_of (s : string) (b : ascii) : option nat :=
  match s with
  | EmptyString => None
  | String c s' => match last_index_of s' b with
                   | Some n => Some (S n)
                   | None => if Ascii.eqb c b then Some 0 else None
                   end
  end.

(** [colon <= slash] where a missing one is -1. *)
Definition not_after (colon sl : option nat) : bool :=
  match colon, sl with
  | None, _ => true
  | Some _, None => false
  | Some c, Some s => (c <=? s)%nat
  end.

Definition is_latest_or_untagged (image : string) : bool :=
  let image := match index_of image "@" with Some i => str_take i image | None => image end in
  let sl := last_index_of image "/" in
  let colon := last_index_of image ":" in
  if not_after colon sl then true
  else match colon with
       | Some c => String.eqb (str_drop (S c) image) "latest"
       | None => true
       end.

Definition resolve_pull_policy (p image : string) : string :=
  if negb (String.eqb p "") then p
  else if is_latest_or_untagged image then "Always"
  else "IfNotPresent".

(** ** Container specifications *)

Record container_spec := MkSpec {
  sp_image : string; sp_cmd : list string; sp_entrypoint : list string; sp_env : list string;
  sp_working_dir : string; sp_labels : gmap string string; sp_pull_policy : string;
  sp_name : string; sp_mounts : list host_mount; sp_network_mode : string }.

(** The environment of a container when there is no API client. *)
Definition plain_env (c : container) : list string :=
  omap (λ e, match en_from e with
             | Some _ => None
             | None => Some (en_name e +:+ "=" +:+ en_value e)
             end) (c_env c).

(** [strconv.Quote] of a string of printable ASCII characters. *)
Fixpoint quote_chars (s : string) : string :=
  match s with
  | EmptyString => ""
  | String c s' =>
      if Ascii.eqb c "034" then String "\" (String "034" (quote_chars s'))
      else if Ascii.eqb c "\" then String "\" (String "\" (quote_chars s'))
      else String c (quote_chars s')
  end.
Definition quote (s : string) : string := String "034" (quote_chars s +:+ String "034" "").

Section specs.
Context {St : Type}.
(** [resolveEnv] and [projectVolumes], when there is an API client. *)
Context (kube : option ((pod → container → M St (res (list string))) *
                        (pod → container → M St (res (list host_mount))))).

Definition env_and_mounts (p : pod) (c : container) : M St (res (list string * list host_mount)) :=
  match kube with
  | Some (resolve_env, project_volumes) =>
      wrap ("container " +:+ quote (c_name c)) (
        let? env := resolve_env p c in
        let? mounts := project_volumes p c in
        ok (env, mounts))
  | None => ok (plain_env c, [])
  end.

(** The specification of the [i]-th container. *)
Definition spec_of (p : pod) (sandbox : string) (i : nat) (c : container)
    (env : list string) (mounts : list host_mount) : container_spec :=
  MkSpec (c_image c) (c_args c) (c_command c) env (c_working_dir c)
    (pod_labels_for p (c_name c)) (resolve_pull_policy (c_pull_policy c) (c_image c))
    (c_name c) mounts
    (if (0 <? i)%nat then "container:" +:+ sandbox else "").

Fixpoint specs_from (p : pod) (sandbox : string) (i : nat) (cs : list container)
    : M St (res (list container_spec)) :=
  match cs with
  | [] => ok []
  | c :: cs' =>
      let? '(env, mounts) := env_and_mounts p c in
      let? rest := specs_from p sandbox (S i) cs' in
      ok (spec_of p sandbox i c env mounts :: rest)
  end.

Definition container_specs_from_pod (p : pod) : M St (res (list container_spec)) :=
  match p_containers p with
  | [] => fail (ErrText ("pod " +:+ p_namespace p +:+ "/" +:+ p_name p +:+ " has zero containers"))
  | c :: _ => specs_from p (container_name (p_uid p) (c_name c)) 0 (p_containers p)
  end.
End specs.

(** ** Pod status *)

Record container_view := MkView {
  v_id : string; v_image : string; v_image_id : string; v_running : bool;
  v_started : Z; v_finished : Z; v_exit : Z; v_oom : bool }.

Inductive container_state :=
  | Waiting (reason : string)
  | Running (started : Z)
  | Terminated (exit_code : Z) (reason : string) (started finished : Z) (id : string).

Record container_status := MkCStatus {
  cs_name : string; cs_image : string; cs_image_id : string; cs_id : string;
  cs_ready : bool; cs_state : container_state }.

Inductive phase := PodPending | PodRunning | PodSucceeded | PodFailed.

Record pod_status := MkStatus {
  ps_phase : phase; ps_reason : string; ps_message : string;
  ps_host_ip : string; ps_pod_ip : string; ps_start : option Z;
  ps_containers : list container_status }.

#[export] Instance phase_eq_dec : EqDecision phase.
Proof. solve_decision. Defined.

Definition is_zero (t : Z) : bool := (t =? 0)%Z.

(** [int32(x)]. *)
Definition int32 (x : Z) : Z := ((x + 2147483648) mod 4294967296 - 2147483648)%Z.

(** The variables of the loop of [PodStatusFromViews]. *)
Record tally := MkTally {
  t_missing : bool; t_running : bool; t_failed : bool; t_all_terminated : bool;
  t_start : Z; t_message : string; t_statuses : list container_status }.

Definition docker_id (v : container_view) : string := "docker://" +:+ v_id v.

Definition earlier (now_start cand : Z) : Z :=
  if is_zero now_start || (cand <? now_start)%Z then cand else now_start.

Definition fail_message (c : container) (v : container_view) : string :=
  if v_oom v then "container " +:+ quote (c_name c) +:+ " OOMKilled (exit code "
                    +:+ format_int (v_exit v) +:+ ")"
  else "container " +:+ quote (c_name c) +:+ " exited with code " +:+ format_int (v_exit v).

(** One turn of the loop. *)
Definition tally_container (now : Z) (views : gmap string container_view) (t : tally)
    (c : container) : tally :=
  match views !! c_name c with
  | None =>
      MkTally true (t_running t) (t_failed t) false (t_start t) (t_message t)
        (t_statuses t ++ [MkCStatus (c_name c) (c_image c) "" "" false (Waiting "ContainerCreating")])
  | Some v =>
      if v_running v then
        let started := if is_zero (v_started v) then now else v_started v in
        MkTally (t_missing t) true (t_failed t) false (earlier (t_start t) started) (t_message t)
          (t_statuses t ++ [MkCStatus (c_name c) (v_image v) (v_image_id v) (docker_id v) true
                              (Running started)])
      else
        let reason := if v_oom v then "OOMKilled"
                      else if negb (v_exit v =? 0)%Z then "Error" else "Completed" in
        let fin := if is_zero (v_finished v) then now else v_finished v in
        let bad := negb (v_exit v =? 0)%Z || v_oom v in
        MkTally (t_missing t) (t_running t) (t_failed t || bad) (t_all_terminated t)
          (if negb (is_zero (v_started v)) then earlier (t_start t) (v_started v) else t_start t)
          (if bad then fail_message c v else t_message t)
          (t_statuses t ++ [MkCStatus (c_name c) (v_image v) (v_image_id v) (docker_id v) false
             (Terminated (int32 (v_exit v)) reason (v_started v) fin (docker_id v))])
  end.

Definition pod_status_from_views (now : Z) (p : pod) (views : gmap string container_view) : pod_status :=
  let t := fold_left (tally_container now views) (p_containers p)
             (MkTally false false false true 0 "" []) in
  MkStatus
    (if t_failed t then PodFailed
     else if t_missing t then PodPending
     else if t_running t then PodRunning
     else if t_all_terminated t then PodSucceeded
     else PodPending)
    "" (if t_failed t then t_message t else "") "127.0.0.1" "10.0.0.1"
    (if is_zero (t_start t) then None else Some (t_start t)) (t_statuses t).

Definition failed_pod_status (message : string) : pod_status :=
  MkStatus PodFailed "KubeletLite" message "127.0.0.1" "" None [].

(** ** Names *)

Lemma append_split_unique a b x y (c : ascii) :
  contains_byte c x = false → contains_byte c y = false →
  a +:+ String c x = b +:+ String c y → a = b ∧ x = y.
Proof.
  intros Hx Hy. revert b. induction a as [|d a IH]; intros b E; destruct b as [|e b]; simpl in E.
  - injection E as ->. done.
  - injection E as -> E. subst x. by rewrite contains_byte_app in Hx; simpl in Hx;
      rewrite Ascii.eqb_refl, orb_true_r in Hx.
  - injection E as <- E. subst y. by rewrite contains_byte_app in Hy; simpl in Hy;
      rewrite Ascii.eqb_refl, orb_true_r in Hy.
  - injection E as -> E. destruct (IH b E) as [-> ->]. done.
Qed.

(** Two containers share a Docker name only if they are the same container
    of the same Pod: container names are DNS labels and hold no underscore. *)
Theorem container_name_injective uid1 n1 uid2 n2 :
  contains_byte "_" n1 = false → contains_byte "_" n2 = false →
  container_name uid1 n1 = container_name uid2 n2 → uid1 = uid2 ∧ n1 = n2.
Proof.
  intros H1 H2 E. unfold container_name in E. apply append_inj_l in E.
  by apply (append_split_unique uid1 uid2 n1 n2 "_") in E.
Qed.

(** ** Pull policies *)

Lemma last_index_none s b : contains_byte b s = false → last_index_of s b = None.
Proof.
  induction s as [|c s IH]; simpl; [done|]. intros [Hc Hs]%orb_false_iff.
  by rewrite IH, Hc.
Qed.

Lemma last_index_app s t b : last_index_of (s +:+ t) b =
  match last_index_of t b with
  | Some n => Some (String.length s + n)
  | None => last_index_of s b
  end.
Proof.
  induction s as [|c s IH]; simpl; [by destruct (last_index_of t b)|].
  rewrite IH. by destruct (last_index_of t b).
Qed.

Lemma last_index_bound s b n : last_index_of s b = Some n → (n < String.length s)%nat.
Proof.
  revert n. induction s as [|c s IH]; intros n; simpl; [done|].
  destruct (last_index_of s b) as [k|]; [intros [= <-]; specialize (IH k eq_refl); lia|].
  destruct (Ascii.eqb c b); [intros [= <-]; lia|done].
Qed.

Lemma index_of_app s t b : contains_byte b s = false →
  index_of (s +:+ String b t) b = Some (String.length s).
Proof.
  induction s as [|c s IH]; simpl; [by rewrite Ascii.eqb_refl|].
  intros [-> Hs]%orb_false_iff. by rewrite IH.
Qed.

Lemma index_of_none s b : contains_byte b s = false → index_of s b = None.
Proof.
  induction s as [|c s IH]; simpl; [done|]. intros [-> Hs]%orb_false_iff. by rewrite IH.
Qed.

Lemma str_take_append s t : str_take (String.length s) (s +:+ t) = s.
Proof.
  unfold str_take. induction s as [|c s IH]; simpl; [by destruct t|]. by rewrite IH.
Qed.

(** An image reference: a repository (a registry may carry a port), a tag and a
    digest. *)
Definition with_digest (image : string) (digest : option string) : string :=
  match digest with None => image | Some d => image +:+ "@" +:+ d end.

Lemma strip_digest image digest : contains_byte "@" image = false →
  is_latest_or_untagged (with_digest image digest) = is_latest_or_untagged image.
Proof.
  intros Ha. unfold is_latest_or_untagged. destruct digest as [d|]; [|done]. simpl.
  rewrite (index_of_app image d "@"), (index_of_none image "@") by done.
  by rewrite str_take_append.
Qed.

Lemma tagged repo tag :
  contains_byte "/" tag = false → contains_byte ":" tag = false →
  is_latest_or_untagged (repo +:+ ":" +:+ tag) = String.eqb tag "latest"
  ∨ contains_byte "@" (repo +:+ ":" +:+ tag) = true.
Proof.
  intros Hs Hc. destruct (contains_byte "@" (repo +:+ ":" +:+ tag)) eqn:Ha; [by right|left].
  unfold is_latest_or_untagged. rewrite index_of_none by done.
  rewrite !last_index_app. change (":" +:+ tag) with (String ":" tag). cbn [last_index_of].
  rewrite (last_index_none tag "/"), (last_index_none tag ":") by done. cbn -[str_drop not_after].
  assert (En : not_after (Some (String.length repo + 0)) (last_index_of repo "/") = false).
  { simpl. destruct (last_index_of repo "/") as [n|] eqn:E; [|done].
    apply last_index_bound in E. apply Nat.leb_gt. lia. }
  rewrite En. pose proof (str_drop_append (repo +:+ ":") tag) as Ed.
  rewrite append_assoc, length_append in Ed. cbn [String.length] in Ed.
  replace (S (String.length repo + 0)) with (String.length repo + 1) by lia.
  change (":" +:+ tag) with (String ":" tag) in Ed. by rewrite Ed.
Qed.

Lemma untagged dir last :
  contains_byte ":" last = false → contains_byte "/" last = false →
  contains_byte "@" (dir +:+ last) = false →
  dir = "" ∨ (∃ d, dir = d +:+ "/") → is_latest_or_untagged (dir +:+ last) = true.
Proof.
  intros Hc Hs Ha Hd. unfold is_latest_or_untagged. rewrite index_of_none by done.
  rewrite !last_index_app, (last_index_none last "/"), (last_index_none last ":") by done.
  destruct Hd as [->|[d ->]]; [done|]. rewrite !last_index_app. simpl.
  destruct (last_index_of d ":") as [n|] eqn:E; [|done]. apply last_index_bound in E. simpl.
  by rewrite (proj2 (Nat.leb_le _ _)) by lia.
Qed.

(** Without an explicit policy an image is pulled always exactly when its
    tag is [latest] or missing, whatever its digest and whether or not its
    registry carries a port; an explicit policy is kept. *)
Theorem pull_policy_default repo tag dir last digest policy :
  contains_byte "@" repo = false → contains_byte "@" tag = false →
  contains_byte "/" tag = false → contains_byte ":" tag = false →
  contains_byte ":" last = false → contains_byte "/" last = false →
  contains_byte "@" (dir +:+ last) = false → (dir = "" ∨ ∃ d, dir = d +:+ "/") →
  policy ≠ "" →
  resolve_pull_policy "" (with_digest (repo +:+ ":" +:+ tag) digest)
    = (if String.eqb tag "latest" then "Always" else "IfNotPresent") ∧
  resolve_pull_policy "" (with_digest (dir +:+ last) digest) = "Always" ∧
  ∀ image, resolve_pull_policy policy image = policy.
Proof.
  intros Hr Ht Hts Htc Hlc Hls Hd Hdir Hp. unfold resolve_pull_policy. cbn [String.eqb negb].
  assert (Ha : contains_byte "@" (repo +:+ ":" +:+ tag) = false)
    by (rewrite contains_byte_app, Hr; simpl; done).
  rewrite !strip_digest by done. destruct (tagged repo tag Hts Htc) as [->|E]; [|congruence].
  rewrite untagged by done. split; [done|]. split; [done|].
  intros image. by rewrite (proj2 (String.eqb_neq _ _)).
Qed.

Lemma pull_policy_default_witness :
  resolve_pull_policy "" "localhost:5000/nginx" = "Always" ∧
  resolve_pull_policy "" "localhost:5000/nginx:1.25@sha256:00" = "IfNotPresent".
Proof.
  destruct (pull_policy_default "localhost:5000/nginx" "1.25" "localhost:5000/" "nginx" (Some "sha256:00")
              "Never" eq_refl eq_refl eq_refl eq_refl eq_refl eq_refl eq_refl
              (or_intror (ex_intro _ "localhost:5000" eq_refl)) ltac:(discriminate)) as (E & _ & _).
  destruct (pull_policy_default "a" "b" "localhost:5000/" "nginx" None
              "Never" eq_refl eq_refl eq_refl eq_refl eq_refl eq_refl eq_refl
              (or_intror (ex_intro _ "localhost:5000" eq_refl)) ltac:(discriminate)) as (_ & E' & _).
  split; [exact E'|exact E].
Defined.

Lemma container_name_injective_witness :
  container_name "u1" "web" ≠ container_name "u1" "db".
Proof.
  intros E. destruct (container_name_injective "u1" "web" "u1" "db" eq_refl eq_refl E) as [_ F].
  discriminate F.
Defined.

(** ** The loop over the containers *)

(** What the two calls for a container do to the state, the loop does. *)
Lemma moves_specs_from {St} (R : relation St) `{!PreOrder R} kube p sandbox i cs :
  (∀ re pv, kube = Some (re, pv) → (∀ c, moves R (re p c)) ∧ (∀ c, moves R (pv p c))) →
  moves R (specs_from kube p sandbox i cs).
Proof.
  intros Hk. revert i. induction cs as [|c cs IH]; intros i; cbn [specs_from]; [by apply moves_pure|].
  apply moves_ebind; [exact _| |intros [env mounts]; apply moves_ebind; [exact _|apply IH|by intros; apply moves_pure]].
  unfold env_and_mounts. destruct kube as [[re pv]|]; [|by apply moves_pure].
  destruct (Hk re pv eq_refl) as [Hre Hpv]. whole_steps ltac:(auto).
Qed.

Lemma returns_specs_from {St} (I : St → Prop) kube p sandbox i cs :
  (∀ re pv, kube = Some (re, pv) → (∀ c, returns I (re p c)) ∧ (∀ c, returns I (pv p c))) →
  returns I (specs_from kube p sandbox i cs).
Proof.
  intros Hk. revert i. induction cs as [|c cs IH]; intros i; cbn [specs_from]; [apply returns_ret|].
  apply returns_ebind; [|intros [env mounts]; apply returns_ebind; [apply IH|intros; apply returns_ret]].
  unfold env_and_mounts. destruct kube as [[re pv]|]; [|apply returns_ret].
  destruct (Hk re pv eq_refl) as [Hre Hpv]. whole_steps ltac:(auto).
Qed.

(** ** Specifications *)

Section spec_lemmas.
Context {St : Type}.
Context (kube : option ((pod → container → M St (res (list string))) *
                        (pod → container → M St (res (list host_mount))))).

Lemma specs_from_ok p sandbox i cs s s' specs :
  specs_from kube p sandbox i cs s = (s', Val (Ok specs)) →
  length specs = length cs ∧
  ∀ k c, cs !! k = Some c →
    ∃ env mounts, specs !! k = Some (spec_of p sandbox (i + k) c env mounts).
Proof.
  revert i s specs. induction cs as [|c cs IH]; intros i s specs; cbn [specs_from].
  { intros [= <- <-]. split; [done|]. intros k c. by rewrite lookup_nil. }
  unfold ebind, bind at 1. destruct (env_and_mounts kube p c s) as [s1 [[[env mounts]|e]|k]]; [|done..].
  unfold bind. destruct (specs_from kube p sandbox (S i) cs s1) as [s2 [[rest|e]|k]] eqn:E; [|done..].
  intros [= <- <-]. destruct (IH _ _ _ E) as [Hlen Hk]. split; [simpl; by rewrite Hlen|].
  intros [|k] c' Hc; simpl in Hc.
  - injection Hc as <-. exists env, mounts. by rewrite Nat.add_0_r.
  - destruct (Hk k c' Hc) as (env' & mounts' & E'). exists env', mounts'.
    by rewrite <- Nat.add_succ_comm.
Qed.

(** A Pod without containers is refused; otherwise there is one
    specification per container, in order, with the container's name, image,
    labels and pull policy; the first has its own network, and every other one
    joins the network of the first. *)
Theorem container_specs_shape p s s' specs :
  container_specs_from_pod kube p s = (s', Val (Ok specs)) →
  ∃ c0 cs, p_containers p = c0 :: cs ∧ length specs = length (c0 :: cs) ∧
  ∀ k c, (c0 :: cs) !! k = Some c →
    ∃ sp, specs !! k = Some sp ∧ sp_name sp = c_name c ∧ sp_image sp = c_image c ∧
      sp_labels sp !! "io.k8s.pod.uid" = Some (p_uid p) ∧
      sp_labels sp !! "io.k8s.container.name" = Some (c_name c) ∧
      sp_pull_policy sp = resolve_pull_policy (c_pull_policy c) (c_image c) ∧
      sp_network_mode sp =
        (if (k =? 0)%nat then "" else "container:" +:+ container_name (p_uid p) (c_name c0)).
Proof.
  unfold container_specs_from_pod. destruct (p_containers p) as [|c0 cs] eqn:Ep; [done|].
  intros E. exists c0, cs. split; [done|]. apply specs_from_ok in E as [Hlen Hk].
  split; [done|]. intros k c Hc. destruct (Hk k c Hc) as (env & mounts & Es).
  eexists. split; [exact Es|]. simpl. unfold pod_labels_for.
  split; [done|]. split; [done|]. split; [by rewrite lookup_insert_eq|]. split.
  - rewrite !lookup_insert_ne by done. by rewrite lookup_insert_eq.
  - split; [done|]. by destruct k.
Qed.
End spec_lemmas.

(** ** Pod status *)

Section status.
Context (now : Z) (views : gmap string container_view).
Implicit Types (c : container) (l : list container).

Definition missing c : bool := match views !! c_name c with None => true | Some _ => false end.
Definition is_running c : bool :=
  match views !! c_name c with Some v => v_running v | None => false end.
(** Terminated with a non-zero exit code, or killed for memory. *)
Definition crashed c : bool :=
  match views !! c_name c with
  | Some v => negb (v_running v) && (negb (v_exit v =? 0)%Z || v_oom v)
  | None => false
  end.
Definition completed c : bool := negb (missing c) && negb (is_running c) && negb (crashed c).

(** When a container is known to have started. *)
Definition start_of c : option Z :=
  match views !! c_name c with
  | None => None
  | Some v => if v_running v then Some (if is_zero (v_started v) then now else v_started v)
              else if is_zero (v_started v) then None else Some (v_started v)
  end.

Definition tallied l : tally :=
  fold_left (tally_container now views) l (MkTally false false false true 0 "" []).

Lemma tallied_snoc l c : tallied (l ++ [c]) = tally_container now views (tallied l) c.
Proof. unfold tallied. by rewrite fold_left_app. Qed.

Lemma tally_flags l :
  t_missing (tallied l) = existsb missing l ∧ t_running (tallied l) = existsb is_running l ∧
  t_failed (tallied l) = existsb crashed l ∧
  t_all_terminated (tallied l) = forallb (λ c, negb (missing c) && negb (is_running c)) l ∧
  map cs_name (t_statuses (tallied l)) = map c_name l ∧
  map cs_ready (t_statuses (tallied l)) = map is_running l.
Proof.
  induction l as [|c l (H1 & H2 & H3 & H4 & H5 & H6)] using rev_ind; [done|].
  rewrite tallied_snoc, !existsb_app, forallb_app, !map_app. simpl.
  unfold tally_container, missing at 2, is_running at 2, crashed at 2, missing at 3, is_running at 3,
    is_running at 4.
  destruct (views !! c_name c) as [v|] eqn:Ev; [destruct (v_running v) eqn:Er|]; simpl;
    rewrite ?map_app, ?H1, ?H2, ?H3, ?H4, ?H5, ?H6; simpl;
    rewrite ?orb_false_r, ?orb_true_r, ?andb_true_r, ?andb_false_r; done.
Qed.

(** The phase of a Pod: Failed when a container has crashed, else Pending
    when one has not been created, else Running when one runs, else Succeeded;
    the four cases exclude each other, and Succeeded means that every container
    has exited with code 0. *)
Theorem pod_phase p :
  let st := pod_status_from_views now p views in
  let cs := p_containers p in
  ps_phase st =
    (if existsb crashed cs then PodFailed
     else if existsb missing cs then PodPending
     else if existsb is_running cs then PodRunning
     else PodSucceeded) ∧
  (ps_phase st = PodSucceeded ↔ ∀ c, In c cs → completed c = true) ∧
  map cs_name (ps_containers st) = map c_name cs ∧
  map cs_ready (ps_containers st) = map is_running cs.
Proof.
  intros st cs. destruct (tally_flags cs) as (H1 & H2 & H3 & H4 & H5 & H6).
  assert (Ep : ps_phase st =
    (if existsb crashed cs then PodFailed
     else if existsb missing cs then PodPending
     else if existsb is_running cs then PodRunning
     else PodSucceeded)).
  { unfold st, pod_status_from_views. fold (tallied (p_containers p)). fold cs. simpl.
    rewrite H1, H2, H3, H4. destruct (existsb crashed cs); [done|].
    destruct (existsb missing cs) eqn:Em; [done|]. destruct (existsb is_running cs) eqn:Er; [done|].
    replace (forallb _ _) with true; [done|]. symmetry. apply forallb_forall. intros c Hc.
    rewrite <- not_true_iff_false, existsb_exists in Em, Er.
    destruct (missing c) eqn:E1; [exfalso; eauto|]. destruct (is_running c) eqn:E2; [exfalso; eauto|done]. }
  split; [exact Ep|]. split; [|by split]. rewrite Ep. clear - cs. unfold completed. split.
  - intros E c Hc.
    destruct (existsb crashed cs) eqn:E1; [done|]. destruct (existsb missing cs) eqn:E2; [done|].
    destruct (existsb is_running cs) eqn:E3; [done|].
    rewrite <- not_true_iff_false, existsb_exists in E1, E2, E3.
    destruct (missing c) eqn:F1; [exfalso; eauto|]. destruct (is_running c) eqn:F2; [exfalso; eauto|].
    destruct (crashed c) eqn:F3; [exfalso; eauto|done].
  - intros Hall.
    assert (G : ∀ f, (∀ c, In c cs → f c = false) → existsb f cs = false).
    { intros f Hf. apply not_true_iff_false. rewrite existsb_exists. intros (c & Hc & E).
      rewrite Hf in E by done. done. }
    rewrite !G; [done|..]; intros c Hc; specialize (Hall c Hc);
      destruct (missing c), (is_running c), (crashed c); done.
Qed.

Lemma tally_start l : (0 < now)%Z → (∀ n v, views !! n = Some v → (0 <= v_started v)%Z) →
  match omap start_of l with
  | [] => t_start (tallied l) = 0%Z
  | _ => t_start (tallied l) ∈ omap start_of l ∧ (0 < t_start (tallied l))%Z
  end ∧ ∀ x, x ∈ omap start_of l → (t_start (tallied l) <= x)%Z.
Proof.
  intros Hnow Hpos. induction l as [|c l [IH1 IH2]] using rev_ind.
  { split; [done|]. intros x Hx. by apply elem_of_nil in Hx. }
  rewrite tallied_snoc, omap_app. simpl.
  assert (Hc : start_of c = None ∧ t_start (tally_container now views (tallied l) c) = t_start (tallied l) ∨
          ∃ x, start_of c = Some x ∧ (0 < x)%Z ∧
            t_start (tally_container now views (tallied l) c) = earlier (t_start (tallied l)) x).
  { unfold start_of, tally_container. destruct (views !! c_name c) as [v|] eqn:Ev; [|by left].
    specialize (Hpos _ _ Ev). unfold is_zero. destruct (v_running v); simpl.
    - right. eexists. split; [done|]. split; [|done]. destruct (Z.eqb_spec (v_started v) 0); lia.
    - destruct (Z.eqb_spec (v_started v) 0); simpl; [by left|right].
      eexists. split; [done|]. split; [lia|done]. }
  destruct Hc as [[-> ->]|(x & -> & Hx & ->)]; [by rewrite app_nil_r|].
  unfold earlier, is_zero.
  assert (E : omap start_of l ++ [x] ≠ []) by by destruct (omap start_of l).
  destruct (omap start_of l ++ [x]) eqn:El; [done|]. rewrite <- El. clear E.
  destruct (omap start_of l) as [|y ys] eqn:Eo.
  - rewrite IH1. simpl. split.
    + split; [by apply elem_of_cons; left|done].
    + intros u Hu. apply list_elem_of_singleton in Hu as ->. done.
  - destruct IH1 as [Hin Hp]. rewrite (proj2 (Z.eqb_neq _ _)) by lia. simpl orb.
    destruct (Z.ltb_spec x (t_start (tallied l))) as [Hlt|Hge]; split.
    + split; [apply elem_of_app; right; by apply elem_of_cons; left|done].
    + intros u [Hz|Hz]%elem_of_app; [specialize (IH2 u Hz); lia|].
      apply list_elem_of_singleton in Hz as ->. lia.
    + split; [by apply elem_of_app; left|done].
    + intros u [Hz|Hz]%elem_of_app; [by apply IH2|]. apply list_elem_of_singleton in Hz as ->. lia.
Qed.

(** The start time of a Pod is the earliest start of its containers, and
    absent when none is known to have started. *)
Theorem pod_start_time p :
  (0 < now)%Z → (∀ n v, views !! n = Some v → (0 <= v_started v)%Z) →
  match ps_start (pod_status_from_views now p views) with
  | None => omap start_of (p_containers p) = []
  | Some t => t ∈ omap start_of (p_containers p) ∧
              ∀ x, x ∈ omap start_of (p_containers p) → (t <= x)%Z
  end.
Proof.
  intros Hnow Hpos. destruct (tally_start (p_containers p) Hnow Hpos) as [H1 H2].
  unfold pod_status_from_views. fold (tallied (p_containers p)). simpl. unfold is_zero.
  destruct (omap start_of (p_containers p)) as [|y ys] eqn:E.
  - by rewrite H1.
  - destruct H1 as [Hin Hp]. rewrite (proj2 (Z.eqb_neq _ _)) by lia. done.
Qed.
End status.

Definition ex_container (n : string) : container := MkContainer n "img" [] [] "" "" [] [] [].
Definition ex_pod : pod := MkPod "u1" "default" "web" false None [ex_container "a"; ex_container "b"] [].
Definition ex_views : gmap string container_view :=
  <["a" := MkView "1" "img" "sha" true 50 0 0 false]>
  (<["b" := MkView "2" "img" "sha" false 40 60 0 false]> ∅).

Lemma pod_start_time_witness :
  ps_start (pod_status_from_views 100 ex_pod ex_views) = Some 40%Z ∧
  ∀ x, x ∈ omap (start_of 100 ex_views) (p_containers ex_pod) → (40 <= x)%Z.
Proof.
  assert (H : match ps_start (pod_status_from_views 100 ex_pod ex_views) with
    | None => omap (start_of 100 ex_views) (p_containers ex_pod) = []
    | Some t => t ∈ omap (start_of 100 ex_views) (p_containers ex_pod) ∧
                ∀ x, x ∈ omap (start_of 100 ex_views) (p_containers ex_pod) → (t <= x)%Z
    end).
  { apply (pod_start_time 100 ex_views ex_pod); [lia|].
    intros n v E0. unfold ex_views in E0. revert E0.
    intros [(_ & <-)|(_ & [(_ & <-)|(_ & E)]%lookup_insert_Some)]%lookup_insert_Some;
      [simpl; lia|simpl; lia|by rewrite lookup_empty in E]. }
  split; [vm_compute; reflexivity|]. exact (proj2 H).
Defined.

Lemma container_specs_shape_witness :
  ∃ specs, container_specs_from_pod (St := unit) None ex_pod tt = (tt, Val (Ok specs)) ∧
           length specs = 2%nat.
Proof.
  assert (E : ∃ specs, container_specs_from_pod (St := unit) None ex_pod tt = (tt, Val (Ok specs)))
    by (eexists; reflexivity).
  destruct E as [specs E]. exists specs. split; [exact E|].
  destruct (container_specs_shape None ex_pod tt tt specs E) as (c0 & cs & Ep & Hlen & _).
  rewrite Hlen, <- Ep. reflexivity.
Defined.
