(* ===== verification/Projection.v ===== *)
(** * Environments and volumes ([internal/kubelet/projection.go])

    The API server the kubelet talks to is client-go code: the class [KubeAPI]
    holds the requests the kubelet makes, as computations on a state of their
    own.  Environments are resolved and volumes written on that state and the
    host's file system.  The order of a [range] over a map is an argument, any
    enumeration of the map; the mode of the files is not in the model of the
    file system. *)

From S2P Require Import Prelude GoStrings Fs Translate StoreList.

(** ** The API client *)

Record config_map := MkConfigMap { cm_data : gmap string string; cm_binary : gmap string string }.
Record secret := MkSecret { sec_data : gmap string string }.

(** A core/v1 Event, as far as the recorder chooses its fields. *)
Record kevent := MkKEvent {
  ke_name : string; ke_namespace : string; ke_pod : string; ke_pod_uid : string;
  ke_type : string; ke_reason : string; ke_message : string; ke_host : string }.

Class KubeAPI (K : Type) := {
  get_config_map : string → string → M K (res config_map);         (* namespace, name *)
  get_secret : string → string → M K (res secret);
  patch_pod_status : string → string → pod_status → M K (res unit);
  delete_pod : string → string → Z → M K (res unit);               (* GracePeriodSeconds *)
  create_event : kevent → M K (res unit)
}.

(** [apierrors.IsNotFound]: [errors.As] follows the chain. *)
Fixpoint is_api_not_found (e : err) : bool :=
  match e with
  | ErrExt c => String.eqb c "NotFound"
  | ErrWrap _ e' => is_api_not_found e'
  | _ => false
  end.

Definition is_optional (o : option bool) : bool := match o with Some b => b | None => false end.

(** [filepath.Base]. *)
Definition filepath_base (s : string) : string :=
  if String.eqb s "" then "."
  else let t := trim_right slash s in
       let b := List.last (split slash t) "" in
       if String.eqb b "" then "/" else b.

(** [sort.Strings] of the keys of a map. *)
Definition string_le (a b : string) : Prop := String.le a b.
#[export] Instance string_le_dec : RelDecision string_le.
Proof. intros a b. unfold string_le. apply _. Defined.

Definition sorted_keys (m : gmap string string) : list string :=
  merge_sort string_le (map fst (map_to_list m)).

Definition pair_of (prefix k v : string) : string := prefix +:+ k +:+ "=" +:+ v.

Section projection.
Context {K : Type} `{KubeAPI K}.

(** ** [resolveEnv] *)

Section env.
Context (namespace : string).

Definition data_pairs (prefix : string) (m : gmap string string) : list string :=
  map (λ k, pair_of prefix k (default "" (m !! k))) (sorted_keys m).

(** The variables one [envFrom] entry adds. *)
Definition env_from_entry (ef : env_from) : M K (res (list string)) :=
  match ef_config_map ef, ef_secret ef with
  | Some r, _ =>
      let* cm := get_config_map namespace (or_name r) in
      match cm with
      | Err e => if is_api_not_found e && is_optional (or_optional r) then ok []
                 else fail (ErrWrap ("envFrom configMap " +:+ quote (or_name r)) e)
      | Ok cm => ok (data_pairs (ef_prefix ef) (cm_data cm))
      end
  | None, Some r =>
      let* s := get_secret namespace (or_name r) in
      match s with
      | Err e => if is_api_not_found e && is_optional (or_optional r) then ok []
                 else fail (ErrWrap ("envFrom secret " +:+ quote (or_name r)) e)
      | Ok s => ok (data_pairs (ef_prefix ef) (sec_data s))
      end
  | None, None => ok []
  end.

(** One key of a ConfigMap or Secret; [kind] is the word in the messages. *)
Definition env_key (kind : string) (e : env_var) (r : key_ref) (data : M K (res (gmap string string)))
    : M K (res (list string)) :=
  let* d := data in
  match d with
  | Err er => if is_api_not_found er && is_optional (kr_optional r) then ok []
              else fail (ErrWrap ("env " +:+ quote (en_name e) +:+ " from " +:+ kind +:+ " "
                                  +:+ quote (kr_name r)) er)
  | Ok d => match d !! kr_key r with
            | None => if is_optional (kr_optional r) then ok []
                      else fail (ErrText ("env " +:+ quote (en_name e) +:+ ": " +:+ kind +:+ " "
                                          +:+ quote (kr_name r) +:+ " has no key " +:+ quote (kr_key r)))
            | Some v => ok [pair_of "" (en_name e) v]
            end
  end.

Definition env_entry (e : env_var) : M K (res (list string)) :=
  match en_from e with
  | None => ok [pair_of "" (en_name e) (en_value e)]
  | Some f =>
      match vf_config_map f, vf_secret f with
      | Some r, _ => env_key "configMap" e r
                       (let? cm := get_config_map namespace (kr_name r) in ok (cm_data cm))
      | None, Some r => env_key "secret" e r
                          (let? s := get_secret namespace (kr_name r) in ok (sec_data s))
      | None, None => ok []
      end
  end.

(** A loop that appends what each entry yields. *)
Fixpoint append_all {A} (entry : A → M K (res (list string))) (l : list A) (out : list string)
    : M K (res (list string)) :=
  match l with
  | [] => ok out
  | x :: l' => let? vs := entry x in append_all entry l' (out ++ vs)
  end.

Definition resolve_env (c : container) : M K (res (list string)) :=
  let? out := append_all env_from_entry (c_env_from c) [] in
  append_all env_entry (c_env c) out.
End env.

(** ** Volumes *)

Definition volume_host_dir (volume_root : path) (uid vol : string) : path :=
  join_path volume_root [uid; vol].

Definition pod_volume_root (volume_root : path) (uid : string) : path :=
  join_path volume_root [uid].

Definition ensure_dir (d : path) : M fs (res unit) :=
  let* r := os_mkdir_all d in
  match r with
  | Err e => fail (ErrWrap ("mkdir " +:+ join slash d) e)
  | Ok _ => ok tt
  end.

(** [os.WriteFile]. *)
Definition os_write_file (p : path) (d : string) : M fs (res unit) :=
  let? _ := os_create p in
  let* w := os_write p d in
  let* c := os_close in
  match w with Err e => fail e | Ok _ => of_res c end.

Context (range : gmap string string → list (string * string)).

Fixpoint remove_stale (d : path) (files : gmap string string) (es : list (string * bool)) : M fs unit :=
  match es with
  | [] => ret tt
  | (name, _) :: es' =>
      match files !! name with
      | Some _ => remove_stale d files es'
      | None => os_remove (join_path d [name]) ;;; remove_stale d files es'
      end
  end.

Fixpoint write_files (d : path) (l : list (string * string)) : M fs (res unit) :=
  match l with
  | [] => ok tt
  | (k, b) :: l' =>
      if negb (String.eqb (filepath_base k) k)
      then fail (ErrText ("invalid key " +:+ quote k +:+ " (must not contain path separators)"))
      else
        let* r := os_write_file (join_path d [k]) b in
        match r with
        | Err e => fail (ErrWrap ("write " +:+ k) e)
        | Ok _ => write_files d l'
        end
  end.

Definition write_key_files (d : path) (files : gmap string string) : M fs (res unit) :=
  let? _ := ensure_dir d in
  let* es := os_read_dir d in
  remove_stale d files (match es with Ok es => es | Err _ => [] end) ;;;
  write_files d (range files).

(** The state the projection works on: the API client and the host. *)
Definition on_api {A} (m : M K A) : M (K * fs) A := zoom fst (λ k s, (k, snd s)) m.
Definition on_host {A} (m : M fs A) : M (K * fs) A := zoom snd (λ f s, (fst s, f)) m.

(** [materialiseConfigMap] and [materialiseSecret] differ in the request and
    in the data they write. *)
Definition materialise {A} (kind : string) (request : M K (res A)) (data : A → gmap string string)
    (r : object_ref) (src : path) (v : volume) : M (K * fs) (res path) :=
  let* x := on_api request in
  match x with
  | Err e => if is_api_not_found e && is_optional (or_optional r)
             then let? _ := on_host (ensure_dir src) in ok src
             else fail (ErrWrap ("volume " +:+ quote (vo_name v) +:+ " " +:+ kind +:+ " "
                                 +:+ quote (or_name r)) e)
  | Ok a => let? _ := on_host (write_key_files src (data a)) in ok src
  end.

(** [BinaryData] entries overwrite those of [Data]. *)
Definition config_map_files (cm : config_map) : gmap string string := cm_binary cm ∪ cm_data cm.

Definition materialise_config_map (volume_root : path) (p : pod) (v : volume) (r : object_ref)
    : M (K * fs) (res path) :=
  materialise "configMap" (get_config_map (p_namespace p) (or_name r)) config_map_files r
    (volume_host_dir volume_root (p_uid p) (vo_name v)) v.

Definition materialise_secret (volume_root : path) (p : pod) (v : volume) (r : object_ref)
    : M (K * fs) (res path) :=
  materialise "secret" (get_secret (p_namespace p) (or_name r)) sec_data r
    (volume_host_dir volume_root (p_uid p) (vo_name v)) v.

(** [volIndex]: the last volume of a name wins. *)
Definition find_volume (p : pod) (name : string) : option volume :=
  last (List.filter (λ v, String.eqb (vo_name v) name) (p_volumes p)).

Fixpoint mount_all (volume_root : path) (p : pod) (vms : list volume_mount) (out : list host_mount)
    : M (K * fs) (res (list host_mount)) :=
  match vms with
  | [] => ok out
  | vm :: vms' =>
      match find_volume p (vm_name vm) with
      | None => fail (ErrText ("volumeMount " +:+ quote (vm_name vm)
                               +:+ " has no matching pod.spec.volumes entry"))
      | Some v =>
          match vo_config_map v, vo_secret v with
          | Some r, _ => let? src := materialise_config_map volume_root p v r in
                         mount_all volume_root p vms' (out ++ [MkHostMount src (vm_path vm) true])
          | None, Some r => let? src := materialise_secret volume_root p v r in
                            mount_all volume_root p vms' (out ++ [MkHostMount src (vm_path vm) true])
          | None, None => mount_all volume_root p vms' out
          end
      end
  end.

Definition project_volumes (volume_root : path) (p : pod) (c : container)
    : M (K * fs) (res (list host_mount)) := mount_all volume_root p (c_mounts c) [].
End projection.

(** ** A projected directory holds exactly the keys *)

(** A key the API server accepts: no slash, not empty. *)
Definition good_key (k : string) : Prop := good_seg k.

Lemma good_key_base k : good_key k → filepath_base k = k.
Proof.
  intros (H1 & _ & _ & H4). unfold filepath_base. rewrite (proj2 (String.eqb_neq _ _)) by done.
  assert (Et : trim_right slash k = k).
  { pose proof (trim_right_app slash "" k) as E. simpl in E. by rewrite E by done. }
  rewrite Et, split_clean by done. simpl. by rewrite (proj2 (String.eqb_neq _ _)).
Qed.

Section exact.
Context (range : gmap string string → list (string * string)).
Hypothesis Hrange : ∀ m, range m ≡ₚ map_to_list m.
Context (d : path) (files : gmap string string).
Hypothesis Hd : good_base d.
Hypothesis Hkeys : ∀ k b, files !! k = Some b → good_key k.
Implicit Types (m : gmap path node).

(** The directory exists and holds plain files with good names only. *)
Definition plain_dir m : Prop :=
  resolve m d = Ok Dir ∧
  ∀ k n, m !! (d ++ [k]) = Some n → good_key k ∧ ∃ b, n = File b.

Lemma join_key k : good_key k → join_path d [k] = d ++ [k].
Proof. intros Hk. apply join_path_good; [done|each done]. Qed.

Lemma resolve_child m k : resolve m d = Ok Dir → good_key k →
  resolve m (d ++ [k]) = match m !! (d ++ [k]) with Some n => Ok n | None => Err ErrNotExist end.
Proof.
  intros Hr (Hk & _). rewrite resolve_open by by apply resolve_dir_above.
  by rewrite lookup_node_proper by by apply proper_snoc.
Qed.

Lemma resolve_frame m m' : resolve m d = Ok Dir →
  (∀ q, (length q ≤ length d)%nat → m' !! q = m !! q) → resolve m' d = Ok Dir.
Proof.
  intros [Hl Ha]%resolve_ok Hq.
  assert (Hn : ∀ q, (length q ≤ length d)%nat → lookup_node m' q = lookup_node m q).
  { intros q Hlen. unfold lookup_node. destruct q as [|[|] [|]]; rewrite ?Hq; done. }
  rewrite resolve_open; [by rewrite Hn, Hl|]. unfold no_file_above in *.
  rewrite List.Forall_forall in *. intros q Hin. rewrite Hn; [by apply Ha|].
  apply prefixes_length in Hin. simpl in Hin. lia.
Qed.

Lemma child_length k q : (length q ≤ length d)%nat → d ++ [k] ≠ q.
Proof. intros Hlen <-. rewrite length_app in Hlen. simpl in Hlen. lia. Qed.

Lemma remove_child m k b : resolve m d = Ok Dir → good_key k → m !! (d ++ [k]) = Some (File b) →
  os_remove (d ++ [k]) (MkFs m []) = (MkFs (delete (d ++ [k]) m) [], Val (Ok tt)).
Proof.
  intros Hr Hk E. apply syscall_quiet; [done|]. unfold remove_node.
  simpl. by rewrite resolve_child, E by done.
Qed.

(** The loop that removes stale files: the entries [es] are files. *)
Lemma remove_stale_run es m :
  resolve m d = Ok Dir → NoDup (map fst es) →
  (∀ e, e ∈ es → good_key e.1 ∧ ∃ b, m !! (d ++ [e.1]) = Some (File b)) →
  ∃ m', remove_stale d files es (MkFs m []) = (MkFs m' [], Val tt) ∧ resolve m' d = Ok Dir ∧
    (∀ k, k ∈ map fst es → files !! k = None → m' !! (d ++ [k]) = None) ∧
    (∀ q, (∀ k, k ∈ map fst es → files !! k = None → q ≠ d ++ [k]) → m' !! q = m !! q).
Proof.
  revert m. induction es as [|[k b] es IH]; intros m Hr Hnd He.
  { exists m. split; [done|]. split; [done|]. split; [by intros k ?%elem_of_nil|done]. }
  change (NoDup (k :: map fst es)) in Hnd.
  apply NoDup_cons in Hnd as [Hk Hnd]. destruct (He (k, b)) as (Hg & c & Ec); [by left|].
  simpl in Hg, Ec. cbn [remove_stale].
  destruct (files !! k) as [v|] eqn:Ef.
  - destruct (IH m Hr Hnd) as (m' & E & Hr' & H1 & H2); [intros e Hin; apply He; by right|].
    exists m'. split; [done|]. split; [done|]. split.
    + intros j Hj Hn. change (j ∈ k :: map fst es) in Hj. apply elem_of_cons in Hj as [->|Hj]; [simpl in Hn; congruence|by apply H1].
    + intros q Hq. apply H2. intros j Hj. apply Hq. simpl. by right.
  - rewrite join_key by done. rewrite (bind_val _ _ _ _ _ (remove_child m k c Hr Hg Ec)).
    set (m1 := delete (d ++ [k]) m).
    assert (Hr1 : resolve m1 d = Ok Dir).
    { apply (resolve_frame m); [done|]. intros q Hlen. unfold m1.
      rewrite lookup_delete_ne; [done|]. by apply child_length. }
    destruct (IH m1 Hr1 Hnd) as (m' & E & Hr' & H1 & H2).
    { intros e Hin. destruct (He e) as (Hge & b' & Eb); [by right|]. split; [done|]. exists b'.
      unfold m1. rewrite lookup_delete_ne; [done|]. intros Eq. apply app_inj_tail in Eq as [_ Eq].
      apply Hk. rewrite Eq. by apply list_elem_of_In, List.in_map, list_elem_of_In. }
    exists m'. split; [done|]. split; [done|]. split.
    + intros j Hj Hn. change (j ∈ k :: map fst es) in Hj. apply elem_of_cons in Hj as [->|Hj]; [|by apply H1]. rewrite H2; [by apply lookup_delete_eq|].
      intros j Hj _ Eq. apply app_inj_tail in Eq as [_ ->]. done.
    + intros q Hq. rewrite H2; [apply lookup_delete_ne|].
      * intros <-. by apply (Hq k); [by left|..].
      * intros j Hj. apply Hq. simpl. by right.
Qed.

Lemma write_child m k b : resolve m d = Ok Dir → good_key k → m !! (d ++ [k]) ≠ Some Dir →
  os_write_file (d ++ [k]) b (MkFs m []) = (MkFs (<[d ++ [k] := File b]> m) [], Val (Ok tt)).
Proof.
  intros Hr (Hk & _) Hn. unfold os_write_file. erewrite ebind_ok.
  2:{ apply syscall_quiet; [done|]. unfold create_node. simpl. rewrite dir_of_snoc, Hr.
      rewrite lookup_node_proper by by apply proper_snoc.
      by destruct (m !! (d ++ [k])) as [[]|]. }
  run_ok ltac:(by apply syscall_quiet). run_ok ltac:(by apply syscall_quiet).
  unfold of_res, ret. simpl. by rewrite insert_insert_eq.
Qed.

Lemma listed m k n : m !! (d ++ [k]) = Some n → k ∈ map fst (list_dir d m).
Proof.
  intros E. apply list_elem_of_fmap. exists (k, match n with Dir => true | File _ => false end).
  split; [done|]. unfold list_dir. rewrite merge_sort_Permutation. apply children_spec. eauto.
Qed.

Lemma write_files_run l m :
  resolve m d = Ok Dir → NoDup (map fst l) → (∀ k b, (k, b) ∈ l → good_key k) →
  (∀ k, m !! (d ++ [k]) ≠ Some Dir) →
  ∃ m', write_files d l (MkFs m []) = (MkFs m' [], Val (Ok tt)) ∧
    (∀ k b, (k, b) ∈ l → m' !! (d ++ [k]) = Some (File b)) ∧
    (∀ q, (∀ k, k ∈ map fst l → q ≠ d ++ [k]) → m' !! q = m !! q).
Proof.
  revert m. induction l as [|[k b] l IH]; intros m Hr Hnd Hg Hn.
  { exists m. split; [done|]. split; [by intros k b ?%elem_of_nil|done]. }
  change (NoDup (k :: map fst l)) in Hnd. apply NoDup_cons in Hnd as [Hk Hnd].
  assert (Hgk : good_key k) by (apply (Hg k b); by left).
  destruct (IH (<[d ++ [k] := File b]> m)) as (m' & E & H1 & H2); [|done|..].
  { apply (resolve_frame m); [done|]. intros q Hlen. rewrite lookup_insert_ne; [done|].
    by apply child_length. }
  { intros j c Hin. apply (Hg j c). by right. }
  { intros j. rewrite lookup_insert. by case_decide. }
  exists m'. split; [|split].
  - cbn [write_files]. rewrite good_key_base, String.eqb_refl by done. simpl.
    rewrite join_key by done. by rewrite (bind_val _ _ _ _ _ (write_child m k b Hr Hgk (Hn k))).
  - intros j c [[= -> ->]|Hin]%elem_of_cons; [|by apply H1].
    rewrite H2, lookup_insert_eq; [done|]. intros j Hj Eq. apply app_inj_tail in Eq as [_ ->]. done.
  - intros q Hq. rewrite H2.
    + apply lookup_insert_ne. intros <-. by apply (Hq k); [simpl; by left|].
    + intros j Hj. apply Hq. simpl. by right.
Qed.

(** C30: after a projection succeeds the volume's directory holds exactly one
    file per key, with the key's value: files of keys that are gone are
    removed, and nothing outside the directory changes but for the directories
    above it being created. *)
Theorem projection_exact m :
  no_file_above m d → is_file (lookup_node m d) = false →
  (∀ k n, m !! (d ++ [k]) = Some n → good_key k ∧ ∃ b, n = File b) →
  ∃ m', write_key_files range d files (MkFs m []) = (MkFs m' [], Val (Ok tt)) ∧
    (∀ k, m' !! (d ++ [k]) = File <$> files !! k) ∧
    (∀ q, (∀ k, q ≠ d ++ [k]) →
       m' !! q = m !! q ∨ (m !! q = None ∧ m' !! q = Some Dir ∧ In q (prefixes [] d ++ [d]))).
Proof.
  intros Ha Hf Hplain.
  destruct (mkdir_all_quiet d (MkFs m [])) as (m1 & E1 & Hg & Hr & _); [done..|]. simpl in Hg.
  assert (Hc1 : ∀ k, m1 !! (d ++ [k]) = m !! (d ++ [k])).
  { intros k. destruct (Hg (d ++ [k])) as [E|(_ & _ & Hin & _)]; [done|]. exfalso.
    apply List.in_app_or in Hin as [Hin%prefixes_length|[E|[]]].
    - rewrite length_app in Hin. simpl in Hin. lia.
    - symmetry in E. by apply (child_length k d) in E. }
  destruct (remove_stale_run (list_dir d m1) m1) as (m2 & E2 & Hr2 & Hgone & Hm2); [done| | |].
  { unfold list_dir. rewrite merge_sort_Permutation. apply children_names. }
  { intros e He. unfold list_dir in He. rewrite merge_sort_Permutation in He.
    apply children_spec in He as (n & En & _). rewrite Hc1 in En.
    destruct (Hplain _ _ En) as (Hgk & b & ->). split; [done|]. exists b. by rewrite Hc1. }
  assert (Hm2n : ∀ k, m2 !! (d ++ [k]) ≠ Some Dir).
  { intros k E. destruct (m !! (d ++ [k])) as [n|] eqn:En.
    - destruct (Hplain _ _ En) as (_ & b & ->). rewrite <- Hc1 in En.
      destruct (files !! k) as [v|] eqn:Ek.
      + rewrite Hm2, En in E; [done|]. intros j _ Hj Eq. apply app_inj_tail in Eq as [_ ->]. congruence.
      + rewrite Hgone in E; [done| |done]. by eapply listed.
    - rewrite Hm2, Hc1, En in E; [done|]. intros j Hj _ Eq. apply app_inj_tail in Eq as [_ ->].
      apply list_elem_of_fmap in Hj as (e & -> & He). unfold list_dir in He.
      rewrite merge_sort_Permutation in He. apply children_spec in He as (n & En' & _).
      rewrite Hc1 in En'. congruence. }
  destruct (write_files_run (range files) m2) as (m3 & E3 & H1 & H2); [done| | |done|].
  { rewrite Hrange. apply NoDup_fst_map_to_list. }
  { intros k b Hin. rewrite Hrange in Hin. apply elem_of_map_to_list in Hin. by eapply Hkeys. }
  exists m3. split; [|split].
  - unfold write_key_files, ensure_dir. erewrite ebind_ok by (erewrite bind_val by exact E1; done).
    erewrite bind_val by (apply syscall_quiet; [done|simpl; by rewrite Hr]).
    by rewrite (bind_val _ _ _ _ _ E2).
  - intros k. destruct (files !! k) as [b|] eqn:Ek; simpl.
    + apply H1. rewrite Hrange. by apply elem_of_map_to_list.
    + rewrite H2.
      2:{ intros j Hj Eq. apply app_inj_tail in Eq as [_ ->]. rewrite Hrange in Hj.
          apply list_elem_of_fmap in Hj as ([j' b] & -> & Hj). apply elem_of_map_to_list in Hj.
          simpl in Ek. congruence. }
      destruct (m1 !! (d ++ [k])) as [n|] eqn:En; [apply Hgone; [by eapply listed|done]|].
      rewrite Hm2; [done|]. intros j Hj _ Eq. apply app_inj_tail in Eq as [_ ->].
      apply list_elem_of_fmap in Hj as (e & -> & He). unfold list_dir in He.
      rewrite merge_sort_Permutation in He. apply children_spec in He as (n & En' & _). congruence.
  - intros q Hq. rewrite H2 by (intros k _; apply Hq). rewrite Hm2.
    + destruct (Hg q) as [->|(Ea & Eb & Hin & _)]; [by left|by right].
    + intros k _ _. apply Hq.
Qed.
End exact.

(** ** Required and optional sources *)

Section env_facts.
Context {K : Type} `{KubeAPI K} (namespace : string) (k : K).
(** What the API server holds: the requests read it and change nothing. *)
Context (cms : string → res config_map) (secs : string → res secret).
Hypothesis Hcm : ∀ n, get_config_map namespace n k = (k, Val (cms n)).
Hypothesis Hsec : ∀ n, get_secret namespace n k = (k, Val (secs n)).

(** A source that exists, or is optional and missing. *)
Definition reachable {A} (x : res A) (opt : option bool) : Prop :=
  match x with Ok _ => True | Err e => is_api_not_found e = true ∧ is_optional opt = true end.

Definition from_ok (ef : env_from) : Prop :=
  match ef_config_map ef, ef_secret ef with
  | Some r, _ => reachable (cms (or_name r)) (or_optional r)
  | None, Some r => reachable (secs (or_name r)) (or_optional r)
  | None, None => True
  end.

Definition key_ok (data : res (gmap string string)) (r : key_ref) : Prop :=
  reachable data (kr_optional r) ∧
  match data with Ok d => is_Some (d !! kr_key r) ∨ is_optional (kr_optional r) = true | Err _ => True end.

Definition map_res {A B} (f : A → B) (x : res A) : res B :=
  match x with Ok a => Ok (f a) | Err e => Err e end.

Definition env_ok (e : env_var) : Prop :=
  match en_from e with
  | None => True
  | Some f => match vf_config_map f, vf_secret f with
              | Some r, _ => key_ok (map_res cm_data (cms (kr_name r))) r
              | None, Some r => key_ok (map_res sec_data (secs (kr_name r))) r
              | None, None => True
              end
  end.

(** An entry reads the API server, and succeeds exactly when [P] holds. *)
Definition entry_spec (c : M K (res (list string))) (P : Prop) : Prop :=
  ∃ r, c k = (k, Val r) ∧ (is_ok r = true ↔ P).

Lemma from_entry_spec ef : entry_spec (env_from_entry namespace ef) (from_ok ef).
Proof.
  unfold entry_spec, env_from_entry, from_ok.
  destruct (ef_config_map ef) as [r|]; [|destruct (ef_secret ef) as [r|]; [|by exists (Ok [])]].
  - erewrite bind_val by apply Hcm. unfold reachable. destruct (cms (or_name r)) as [cm|e]; [by eexists|].
    destruct (is_api_not_found e), (is_optional (or_optional r)); simpl; eexists; (split; [done|]);
      naive_solver.
  - erewrite bind_val by apply Hsec. unfold reachable. destruct (secs (or_name r)) as [s|e]; [by eexists|].
    destruct (is_api_not_found e), (is_optional (or_optional r)); simpl; eexists; (split; [done|]);
      naive_solver.
Qed.

Lemma env_key_spec kind e r data d : data k = (k, Val d) →
  entry_spec (env_key kind e r data) (key_ok d r).
Proof.
  intros E. unfold entry_spec, env_key, key_ok, reachable. erewrite bind_val by exact E.
  destruct d as [d|er].
  - destruct (d !! kr_key r) as [v|].
    { exists (Ok [pair_of "" (en_name e) v]). split; [done|]. split; [|done].
      intros _. split; [done|]. left. by eexists. }
    destruct (is_optional (kr_optional r)).
    + exists (Ok []). split; [done|]. split; [|done]. intros _. split; [done|by right].
    + eexists. split; [done|]. simpl. split; [done|]. by intros [_ [[? ?]|?]].
  - destruct (is_api_not_found er), (is_optional (kr_optional r)); simpl; eexists; (split; [done|]);
      naive_solver.
Qed.

Lemma env_entry_spec e : entry_spec (env_entry namespace e) (env_ok e).
Proof.
  unfold env_entry, env_ok. destruct (en_from e) as [f|]; [|by exists (Ok [pair_of "" (en_name e) (en_value e)])].
  destruct (vf_config_map f) as [r|]; [|destruct (vf_secret f) as [r|]; [|by exists (Ok [])]].
  - apply env_key_spec. unfold ebind. erewrite bind_val by apply Hcm. by destruct (cms (kr_name r)).
  - apply env_key_spec. unfold ebind. erewrite bind_val by apply Hsec. by destruct (secs (kr_name r)).
Qed.

Lemma append_all_spec {A} (entry : A → M K (res (list string))) (P : A → Prop) l out :
  (∀ x, entry_spec (entry x) (P x)) →
  ∃ r, append_all entry l out k = (k, Val r) ∧ (is_ok r = true ↔ Forall P l) ∧
    ∀ vs, r = Ok vs → ∃ vss, Forall2 (λ x v, entry x k = (k, Val (Ok v))) l vss ∧
                             vs = out ++ List.concat vss.
Proof.
  intros He. revert out. induction l as [|x l IH]; intros out; cbn [append_all].
  { exists (Ok out). split; [done|]. split; [done|]. intros vs [= <-]. exists []. split; [done|].
    by rewrite app_nil_r. }
  destruct (He x) as (r & E & Hr). destruct r as [v|e].
  - erewrite ebind_ok by exact E. destruct (IH (out ++ v)) as (r' & E' & Hr' & Hv).
    exists r'. split; [done|]. split.
    + rewrite Hr', Forall_cons. split; [|tauto]. intros Hl. split; [by apply Hr|done].
    + intros vs ->. destruct (Hv vs eq_refl) as (vss & H1 & ->). exists (v :: vss).
      split; [by constructor|]. simpl. by rewrite app_assoc.
  - erewrite ebind_err by exact E. eexists. split; [done|]. split; [|done]. simpl.
    split; [done|]. intros [Hx _]%Forall_cons. by apply Hr in Hx.
Qed.

(** The environment of a container resolves exactly when every source it
    refers to exists (object and key) or is optional and missing; the result
    lists what the [envFrom] sources give, in order, before the container's own
    variables, in order, each of them resolved. *)
Theorem resolve_env_total c :
  ∃ r, resolve_env namespace c k = (k, Val r) ∧
    (is_ok r = true ↔ Forall from_ok (c_env_from c) ∧ Forall env_ok (c_env c)) ∧
    ∀ vs, r = Ok vs → ∃ froms owns, vs = List.concat froms ++ List.concat owns ∧
      Forall2 (λ ef v, env_from_entry namespace ef k = (k, Val (Ok v))) (c_env_from c) froms ∧
      Forall2 (λ e v, env_entry namespace e k = (k, Val (Ok v))) (c_env c) owns.
Proof.
  unfold resolve_env.
  destruct (append_all_spec (env_from_entry namespace) from_ok (c_env_from c) [] from_entry_spec)
    as (r1 & E1 & H1 & V1).
  destruct r1 as [out|e].
  - erewrite ebind_ok by exact E1.
    destruct (append_all_spec (env_entry namespace) env_ok (c_env c) out env_entry_spec)
      as (r2 & E2 & H2 & V2).
    exists r2. split; [done|]. split; [rewrite H2; split; [|tauto]; split; [by apply H1|done]|].
    intros vs ->. destruct (V1 out eq_refl) as (froms & F1 & ->).
    destruct (V2 vs eq_refl) as (owns & F2 & ->). by exists froms, owns.
  - erewrite ebind_err by exact E1. eexists. split; [done|]. split; [|done]. simpl.
    split; [done|]. intros [Hx _]. by apply H1 in Hx.
Qed.
End env_facts.
