(* ===== verification/Docker.v ===== *)
(** * The container runtime ([internal/kubelet/docker.go])

    [DockerRuntime] is the interface the reconciler uses, a class; [RuntimeLaws]
    is what it promises about the containers.  [dockerRT] implements it over
    the Docker SDK, which is code outside the repository: the class
    [DockerSDK], with the documented behaviour of the daemon as [SDKLaws].
    The instance [rt_laws] discharges the promise of the interface. *)

From S2P Require Import Prelude GoStrings Fs Translate.

(** ** The interface *)

Record log_options := MkLogOptions {
  lg_container : string; lg_follow : bool; lg_timestamps : bool;
  lg_tail : option Z; lg_since : option Z; lg_limit : option Z }.

Record managed := MkManaged { mc_uid : string; mc_container : string; mc_docker_name : string }.

#[export] Instance managed_eq_dec : EqDecision managed.
Proof. solve_decision. Defined.

Class DockerRuntime (D : Type) := {
  ensure_pulled : string → string → M D (res unit);                (* ref, policy *)
  create_and_start : string → container_spec → M D (res string);
  inspect : string → M D (res (option container_view));            (* [None]: does not exist *)
  stop_container : string → Z → M D (res unit);                    (* grace, in nanoseconds *)
  remove_container : string → M D (res unit);
  list_managed : M D (res (list managed))
}.

(** A container as the daemon keeps it. *)
Record dcontainer := MkDContainer { dc_id : string; dc_labels : gmap string string; dc_view : container_view }.

(** The containers with a Pod's label, under their names. *)
Definition uid_of (c : dcontainer) : string := default "" (dc_labels c !! "io.k8s.pod.uid").

Definition managed_of (x : string * dcontainer) : option managed :=
  let '(n, c) := x in
  if String.eqb (uid_of c) "" then None
  else Some (MkManaged (uid_of c) (default "" (dc_labels c !! "io.k8s.container.name")) n).

(** What the runtime promises: each call returns, and changes the containers
    only as its name says.  The names are those the kubelet makes, or names of
    containers that exist. *)
Class RuntimeLaws (D : Type) `{DockerRuntime D} := {
  containers : D → gmap string dcontainer;
  pull_law ref policy d : ∃ d' r, ensure_pulled ref policy d = (d', Val r) ∧
    containers d' = containers d;
  inspect_law n d : has_prefix "klite_" n = true ∨ is_Some (containers d !! n) →
    ∃ d' r, inspect n d = (d', Val r) ∧ containers d' = containers d ∧
    match r with Ok o => o = dc_view <$> containers d !! n | Err _ => True end;
  create_law n sp d : has_prefix "klite_" n = true →
    ∃ d' r, create_and_start n sp d = (d', Val r) ∧
    (∀ k, k ≠ n → containers d' !! k = containers d !! k) ∧
    (∀ c, containers d' !! n = Some c → dc_labels c = sp_labels sp ∨ containers d !! n = Some c) ∧
    (is_ok r = true → is_Some (containers d' !! n));
  stop_law n g d : has_prefix "klite_" n = true ∨ is_Some (containers d !! n) →
    ∃ d' r, stop_container n g d = (d', Val r) ∧
    (∀ k, k ≠ n → containers d' !! k = containers d !! k) ∧
    dc_labels <$> containers d' !! n = dc_labels <$> containers d !! n;
  remove_law n d : has_prefix "klite_" n = true ∨ is_Some (containers d !! n) →
    ∃ d' r, remove_container n d = (d', Val r) ∧
    containers d' = match r with Ok _ => delete n (containers d) | Err _ => containers d end;
  list_law d : ∃ d' r, list_managed d = (d', Val r) ∧ containers d' = containers d ∧
    match r with Ok l => l ≡ₚ omap managed_of (map_to_list (containers d)) | Err _ => True end
}.

(** ** The Docker SDK *)

Record docker_config := MkDockerConfig {
  dk_image : string; dk_env : list string; dk_labels : gmap string string; dk_working_dir : string;
  dk_cmd : list string; dk_entrypoint : list string; dk_network : string; dk_mounts : list host_mount }.

(** [types.ContainerJSON]: the fields [Inspect] reads; [State] may be nil, and a
    time that does not parse is [None]. *)
Record inspect_state := MkInspectState {
  is_running_ : bool; is_exit : Z; is_oom : bool; is_started : option Z; is_finished : option Z }.
Record inspect_json := MkInspect {
  ij_id : string; ij_config_image : string; ij_image : string; ij_state : option inspect_state }.

(** [types.Container]: labels and names. *)
Record list_entry := MkListEntry { le_labels : gmap string string; le_names : list string }.

(** A pull stream: its lines, the error that ends it if not its end, and
    whether one of the lines is the daemon's report that the pull failed, which
    the code does not look at. *)
Record pull_stream := MkPullStream { pl_lines : list string; pl_error : option err; pl_failed : bool }.

Class DockerSDK (D : Type) := {
  sdk_image_inspect : string → M D (res unit);
  sdk_image_pull : string → M D (res pull_stream);
  sdk_create : docker_config → string → M D (res string);          (* config, name; the id *)
  sdk_start : string → M D (res unit);
  sdk_remove : string → M D (res unit);                            (* id or name, Force *)
  sdk_inspect : string → M D (res inspect_json);
  sdk_stop : string → Z → M D (res unit);                          (* id or name, seconds *)
  sdk_list : M D (res (list list_entry))                           (* All, with the label LabelPodUID *)
}.

(** [cerrdefs.IsNotFound]. *)
Fixpoint is_docker_not_found (e : err) : bool :=
  match e with
  | ErrExt c => String.eqb c "docker: not found"
  | ErrWrap _ e' => is_docker_not_found e'
  | _ => false
  end.

(** ** [dockerRT] *)

Section runtime.
Context {D : Type} `{DockerSDK D}.

Definition image_exists (ref : string) : M D (res bool) :=
  let* r := sdk_image_inspect ref in
  match r with
  | Ok _ => ok true
  | Err e => if is_docker_not_found e then ok false else fail e
  end.

Definition pull (ref : string) : M D (res unit) :=
  let* rc := sdk_image_pull ref in
  match rc with
  | Err e => fail (ErrWrap ("ImagePull(" +:+ ref +:+ ")") e)
  | Ok s => match pl_error s with
            | Some e => fail (ErrWrap "read pull stream" e)
            | None => ok tt
            end
  end.

Definition rt_ensure_pulled (ref policy : string) : M D (res unit) :=
  if String.eqb policy "Never" then
    let? exists_ := image_exists ref in
    if negb exists_ then fail (ErrText ("image " +:+ quote ref +:+ " not present and pullPolicy=Never"))
    else ok tt
  else if String.eqb policy "IfNotPresent" then
    let? exists_ := image_exists ref in
    if exists_ then ok tt else pull ref
  else if String.eqb policy "Always" || String.eqb policy "" then pull ref
  else fail (ErrText ("unknown imagePullPolicy " +:+ quote policy)).

Definition rt_config (sp : container_spec) : docker_config :=
  MkDockerConfig (sp_image sp) (sp_env sp) (sp_labels sp) (sp_working_dir sp) (sp_cmd sp)
    (sp_entrypoint sp) (sp_network_mode sp) (sp_mounts sp).

Definition rt_create_and_start (name : string) (sp : container_spec) : M D (res string) :=
  let* resp := sdk_create (rt_config sp) name in
  match resp with
  | Err e => fail (ErrWrap ("ContainerCreate(" +:+ name +:+ ")") e)
  | Ok id =>
      let* st := sdk_start id in
      match st with
      | Err e => sdk_remove id ;;; fail (ErrWrap ("ContainerStart(" +:+ name +:+ ")") e)
      | Ok _ => ok id
      end
  end.

Definition view_of (j : inspect_json) : container_view :=
  match ij_state j with
  | None => MkView (ij_id j) (ij_config_image j) (ij_image j) false 0 0 0 false
  | Some s => MkView (ij_id j) (ij_config_image j) (ij_image j) (is_running_ s)
                (default 0%Z (is_started s)) (default 0%Z (is_finished s)) (is_exit s) (is_oom s)
  end.

Definition rt_inspect (name : string) : M D (res (option container_view)) :=
  let* r := sdk_inspect name in
  match r with
  | Err e => if is_docker_not_found e then ok None else fail e
  | Ok j => ok (Some (view_of j))
  end.

(** [int(gracePeriod.Seconds())] truncates towards zero. *)
Definition rt_stop (name : string) (grace : Z) : M D (res unit) :=
  let* r := sdk_stop name (Z.quot grace 1000000000) in
  match r with
  | Err e => if is_docker_not_found e then ok tt else fail e
  | Ok _ => ok tt
  end.

Definition rt_remove (name : string) : M D (res unit) :=
  let* r := sdk_remove name in
  match r with
  | Err e => if negb (is_docker_not_found e) then fail e else ok tt
  | Ok _ => ok tt
  end.

Definition managed_entry (c : list_entry) : option managed :=
  let uid := default "" (le_labels c !! "io.k8s.pod.uid") in
  if String.eqb uid "" then None
  else Some (MkManaged uid (default "" (le_labels c !! "io.k8s.container.name"))
               (match le_names c with n :: _ => trim_prefix "/" n | [] => "" end)).

Definition rt_list_managed : M D (res (list managed)) :=
  let* r := sdk_list in
  match r with
  | Err e => fail (ErrWrap "ContainerList" e)
  | Ok cs => ok (omap managed_entry cs)
  end.

#[export] Instance dockerRT : DockerRuntime D := {|
  ensure_pulled := rt_ensure_pulled;
  create_and_start := rt_create_and_start;
  inspect := rt_inspect;
  stop_container := rt_stop;
  remove_container := rt_remove;
  list_managed := rt_list_managed
|}.
End runtime.

(** ** The daemon, and the promise of the interface *)

(** Does a reference, an id or a name, mean this container? *)
Definition refers (ref : string) (x : string * dcontainer) : bool :=
  String.eqb ref x.1 || String.eqb ref (dc_id x.2).

Class SDKLaws (D : Type) `{DockerSDK D} := {
  daemon : D → gmap string dcontainer;
  daemon_images : D → gset string;
  (* ids differ, and no id is a name *)
  ids_unique d n1 c1 n2 c2 : daemon d !! n1 = Some c1 → daemon d !! n2 = Some c2 →
    dc_id c1 = dc_id c2 → n1 = n2;
  ids_not_names d n c : daemon d !! n = Some c → daemon d !! dc_id c = None;
  ids_hexadecimal d n c : daemon d !! n = Some c → has_prefix "klite_" (dc_id c) = false;
  image_inspect_law ref d : ∃ d' r, sdk_image_inspect ref d = (d', Val r) ∧ daemon d' = daemon d ∧
    daemon_images d' = daemon_images d ∧
    match r with
    | Ok _ => ref ∈ daemon_images d
    | Err e => is_docker_not_found e = true → ref ∉ daemon_images d
    end;
  image_pull_law ref d : ∃ d' r, sdk_image_pull ref d = (d', Val r) ∧ daemon d' = daemon d ∧
    match r with
    | Ok s => pl_error s = None → pl_failed s = false → ref ∈ daemon_images d'
    | Err _ => True
    end;
  sdk_create_law cfg n d : ∃ d' r, sdk_create cfg n d = (d', Val r) ∧
    match r with
    | Ok id => daemon d !! n = None ∧
               ∃ c, dc_id c = id ∧ dc_labels c = dk_labels cfg ∧ daemon d' = <[n := c]> (daemon d)
    | Err _ => daemon d' = daemon d
    end;
  sdk_start_law ref d : ∃ d' r, sdk_start ref d = (d', Val r) ∧
    (∀ n, match daemon d !! n, daemon d' !! n with
          | Some c, Some c' => dc_id c' = dc_id c ∧ dc_labels c' = dc_labels c ∧
                               (refers ref (n, c) = false → c' = c)
          | None, None => True
          | _, _ => False
          end);
  sdk_remove_law ref d : ∃ d' r, sdk_remove ref d = (d', Val r) ∧
    match r with
    | Ok _ => daemon d' = filter (λ x, refers ref x = false) (daemon d)
    | Err e => daemon d' = daemon d ∧
               (is_docker_not_found e = true → ∀ n c, daemon d !! n = Some c → refers ref (n, c) = false)
    end;
  sdk_inspect_law ref d : ∃ d' r, sdk_inspect ref d = (d', Val r) ∧ daemon d' = daemon d ∧
    match r with
    | Ok j => ∃ n c, daemon d !! n = Some c ∧ refers ref (n, c) = true ∧ view_of j = dc_view c
    | Err e => is_docker_not_found e = true → ∀ n c, daemon d !! n = Some c → refers ref (n, c) = false
    end;
  sdk_stop_law ref secs d : ∃ d' r, sdk_stop ref secs d = (d', Val r) ∧
    (∀ n, match daemon d !! n, daemon d' !! n with
          | Some c, Some c' => dc_id c' = dc_id c ∧ dc_labels c' = dc_labels c ∧
                               (refers ref (n, c) = false → c' = c)
          | None, None => True
          | _, _ => False
          end);
  sdk_list_law d : ∃ d' r, sdk_list d = (d', Val r) ∧ daemon d' = daemon d ∧
    match r with
    | Ok l => l ≡ₚ map (λ x, MkListEntry (dc_labels x.2) ["/" +:+ x.1])
                     (List.filter (λ x, bool_decide (is_Some (dc_labels x.2 !! "io.k8s.pod.uid")))
                        (map_to_list (daemon d)))
    | Err _ => True
    end
}.

Section rt_laws.
Context {D : Type} `{SDKLaws D}.
Implicit Types (d : D) (n : string).

Definition known d n : Prop := has_prefix "klite_" n = true ∨ is_Some (daemon d !! n).

(** A name refers to the container of that name and to no other. *)
Lemma refers_name d n k c : known d n → daemon d !! k = Some c →
  refers n (k, c) = String.eqb n k.
Proof.
  intros Hn Hc. unfold refers. simpl. destruct (String.eqb_spec n (dc_id c)) as [->|]; [|by rewrite orb_false_r].
  destruct Hn as [Hn|[x Hn]].
  - by rewrite (ids_hexadecimal d k c Hc) in Hn.
  - by rewrite (ids_not_names d k c Hc) in Hn.
Qed.

Lemma rt_pull_law ref policy d : ∃ d' r, rt_ensure_pulled ref policy d = (d', Val r) ∧ daemon d' = daemon d.
Proof.
  assert (Hex : ∃ d' r, image_exists ref d = (d', Val r) ∧ daemon d' = daemon d).
  { unfold image_exists. destruct (image_inspect_law ref d) as (d' & r & E & Hd & _ & _).
    erewrite bind_val by exact E. destruct r as [[]|e]; [by eexists _, _|].
    destruct (is_docker_not_found e); by eexists _, _. }
  assert (Hpull : ∀ d1, ∃ d' r, pull ref d1 = (d', Val r) ∧ daemon d' = daemon d1).
  { intros d1. unfold pull. destruct (image_pull_law ref d1) as (d' & r & E & Hd & _).
    erewrite bind_val by exact E. destruct r as [s|e]; [destruct (pl_error s)|]; by eexists _, _. }
  destruct Hex as (d1 & r & E & Hd). unfold rt_ensure_pulled.
  destruct (String.eqb policy "Never").
  { destruct r as [b|e]; [erewrite ebind_ok by exact E; destruct b|erewrite ebind_err by exact E];
      by eexists _, _. }
  destruct (String.eqb policy "IfNotPresent").
  { destruct r as [b|e]; [erewrite ebind_ok by exact E; destruct b|erewrite ebind_err by exact E];
      [by eexists _, _| |by eexists _, _].
    destruct (Hpull d1) as (d' & r & E' & Hd'). exists d', r. by rewrite Hd', Hd. }
  destruct (_ || _); [apply Hpull|by eexists _, _].
Qed.

Lemma rt_inspect_law n d : known d n →
  ∃ d' r, rt_inspect n d = (d', Val r) ∧ daemon d' = daemon d ∧
    match r with Ok o => o = dc_view <$> daemon d !! n | Err _ => True end.
Proof.
  intros Hn. unfold rt_inspect. destruct (sdk_inspect_law n d) as (d' & r & E & Hd & Hr).
  erewrite bind_val by exact E. destruct r as [j|e].
  - eexists _, _. split; [done|]. split; [done|]. destruct Hr as (k & c & Hc & Href & ->).
    rewrite (refers_name d) in Href by done. apply String.eqb_eq in Href as ->. by rewrite Hc.
  - destruct (is_docker_not_found e) eqn:Ee; eexists _, _; (split; [done|]); (split; [done|]); [|done].
    destruct (daemon d !! n) as [c|] eqn:Ec; [|done]. specialize (Hr eq_refl n c Ec).
    by rewrite (refers_name d), String.eqb_refl in Hr.
Qed.

Lemma rt_stop_law n g d : known d n →
  ∃ d' r, rt_stop n g d = (d', Val r) ∧
    (∀ k, k ≠ n → daemon d' !! k = daemon d !! k) ∧
    dc_labels <$> daemon d' !! n = dc_labels <$> daemon d !! n.
Proof.
  intros Hn. unfold rt_stop. destruct (sdk_stop_law n (Z.quot g 1000000000) d) as (d' & r & E & Hd).
  assert (Hk : ∀ k, k ≠ n → daemon d' !! k = daemon d !! k).
  { intros k Hk. specialize (Hd k). destruct (daemon d !! k) as [c|] eqn:Ec, (daemon d' !! k); try done.
    destruct Hd as (_ & _ & Hd). rewrite Hd; [done|]. rewrite (refers_name d) by done.
    apply String.eqb_neq. auto. }
  assert (Hl : dc_labels <$> daemon d' !! n = dc_labels <$> daemon d !! n).
  { specialize (Hd n). destruct (daemon d !! n), (daemon d' !! n); try done. simpl.
    by destruct Hd as (_ & -> & _). }
  erewrite bind_val by exact E. destruct r as [[]|e]; [by eexists _, _|].
  destruct (is_docker_not_found e); by eexists _, _.
Qed.

Lemma filter_refers d n : known d n →
  filter (λ x, refers n x = false) (daemon d) = delete n (daemon d).
Proof.
  intros Hn. apply map_eq. intros k. destruct (decide (k = n)) as [->|Hk].
  - rewrite lookup_delete_eq. apply map_lookup_filter_None. right. intros c Hc.
    by rewrite (refers_name d), String.eqb_refl.
  - rewrite lookup_delete_ne by done. destruct (daemon d !! k) as [c|] eqn:Ec.
    + apply map_lookup_filter_Some. split; [done|]. rewrite (refers_name d) by done.
      apply String.eqb_neq. auto.
    + apply map_lookup_filter_None. by left.
Qed.

Lemma rt_remove_law n d : known d n →
  ∃ d' r, rt_remove n d = (d', Val r) ∧
    daemon d' = match r with Ok _ => delete n (daemon d) | Err _ => daemon d end.
Proof.
  intros Hn. unfold rt_remove. destruct (sdk_remove_law n d) as (d' & r & E & Hr).
  erewrite bind_val by exact E. destruct r as [[]|e].
  - eexists _, _. split; [done|]. by rewrite Hr, filter_refers.
  - destruct Hr as [Hd Hr]. destruct (is_docker_not_found e) eqn:Ee; simpl;
      eexists _, _; (split; [done|]); [|done]. rewrite Hd, <- filter_refers by done.
    symmetry. apply map_filter_id. intros k c Hc. by apply Hr.
Qed.

Lemma rt_create_law n sp d : has_prefix "klite_" n = true →
  ∃ d' r, rt_create_and_start n sp d = (d', Val r) ∧
    (∀ k, k ≠ n → daemon d' !! k = daemon d !! k) ∧
    (∀ c, daemon d' !! n = Some c → dc_labels c = sp_labels sp ∨ daemon d !! n = Some c) ∧
    (is_ok r = true → is_Some (daemon d' !! n)).
Proof.
  intros Hn. unfold rt_create_and_start.
  destruct (sdk_create_law (rt_config sp) n d) as (d1 & r & E & Hr). erewrite bind_val by exact E.
  destruct r as [id|e].
  2:{ eexists _, _. split; [done|]. rewrite Hr. split; [done|]. split; [by right|done]. }
  destruct Hr as (Hnone & c & Hid & Hlab & Hd1).
  assert (Hc1 : daemon d1 !! n = Some c) by (by rewrite Hd1, lookup_insert_eq).
  assert (Hother : ∀ k x, k ≠ n → daemon d1 !! k = Some x → refers id (k, x) = false).
  { intros k x Hk Hx. unfold refers. simpl. apply orb_false_iff. split; apply String.eqb_neq.
    - intros <-. by rewrite <- Hid, (ids_not_names d1 n c Hc1) in Hx.
    - intros Ex. rewrite <- Hid in Ex. by apply (ids_unique d1 n c k x) in Ex. }
  destruct (sdk_start_law id d1) as (d2 & r2 & E2 & H2). erewrite bind_val by exact E2.
  assert (Hk2 : ∀ k, k ≠ n → daemon d2 !! k = daemon d !! k).
  { intros k Hk. transitivity (daemon d1 !! k); [|by rewrite Hd1, lookup_insert_ne].
    specialize (H2 k). destruct (daemon d1 !! k) as [x|] eqn:Ex, (daemon d2 !! k); try done.
    destruct H2 as (_ & _ & ->); [done|by apply Hother]. }
  assert (Hc2 : ∃ c2, daemon d2 !! n = Some c2 ∧ dc_labels c2 = sp_labels sp).
  { specialize (H2 n). rewrite Hc1 in H2. destruct (daemon d2 !! n) as [c2|]; [|done].
    exists c2. split; [done|]. by rewrite (proj1 (proj2 H2)). }
  destruct Hc2 as (c2 & Hc2 & Hl2). destruct r2 as [[]|e2].
  { eexists _, _. split; [done|]. split; [done|]. rewrite Hc2. split; [|done].
    intros x [= <-]. by left. }
  destruct (sdk_remove_law id d2) as (d3 & r3 & E3 & H3). erewrite bind_val by exact E3.
  eexists _, _. split; [done|]. split; [|split; [|done]].
  2:{ destruct r3 as [[]|e3]; [rewrite H3; intros x [Hx _]%map_lookup_filter_Some|
        destruct H3 as [-> _]; intros x Hx]; left; congruence. }
  intros k Hk. rewrite <- Hk2 by done.
  destruct r3 as [[]|e3]; [|by destruct H3 as [-> _]]. rewrite H3.
  destruct (daemon d2 !! k) as [x|] eqn:Ex.
  + apply map_lookup_filter_Some. split; [done|].
    specialize (H2 k). destruct (daemon d1 !! k) as [y|] eqn:Ey; rewrite Ex in H2; [|done].
    rewrite (proj2 (proj2 H2)) by by apply Hother. by apply Hother.
  + apply map_lookup_filter_None. by left.
Qed.

Lemma rt_list_law d : ∃ d' r, rt_list_managed d = (d', Val r) ∧ daemon d' = daemon d ∧
  match r with Ok l => l ≡ₚ omap managed_of (map_to_list (daemon d)) | Err _ => True end.
Proof.
  unfold rt_list_managed. destruct (sdk_list_law d) as (d' & r & E & Hd & Hr).
  erewrite bind_val by exact E. destruct r as [l|e]; eexists _, _; (split; [done|]); (split; [done|]); [|done].
  rewrite Hr. clear. induction (map_to_list (daemon d)) as [|[n c] l IH]; [done|].
  cbn [List.filter]. unfold managed_of at 1, uid_of at 1. simpl.
  case_bool_decide as Hc; simpl.
  - unfold managed_entry at 1, uid_of at 1. simpl.
    destruct (String.eqb (default "" (dc_labels c !! "io.k8s.pod.uid")) ""); [done|].
    unfold trim_prefix. simpl. by rewrite IH.
  - destruct (dc_labels c !! "io.k8s.pod.uid") as [u|] eqn:Eu; [exfalso; apply Hc; by eexists|done].
Qed.

#[export] Instance rt_laws : RuntimeLaws D := {|
  containers := daemon;
  pull_law := rt_pull_law;
  inspect_law := rt_inspect_law;
  create_law := rt_create_law;
  stop_law := rt_stop_law;
  remove_law := rt_remove_law;
  list_law := rt_list_law
|}.
End rt_laws.

(** ** Images, and what a failed start leaves *)

Section images.
Context {D : Type} `{SDKLaws D}.
Implicit Types (d : D).

Lemma image_exists_run ref d : ∃ d' r, image_exists ref d = (d', Val r) ∧
  daemon_images d' = daemon_images d ∧
  match r with Ok b => b = bool_decide (ref ∈ daemon_images d) | Err _ => True end.
Proof.
  unfold image_exists. destruct (image_inspect_law ref d) as (d' & r & E & _ & Hi & Hr).
  erewrite bind_val by exact E. destruct r as [[]|e].
  - exists d', (Ok true). split; [done|]. split; [done|]. by rewrite bool_decide_true.
  - destruct (is_docker_not_found e); eexists _, _; (split; [done|]); (split; [done|]); [|done].
    rewrite bool_decide_false; [done|]. by apply Hr.
Qed.

(** A pull of [ref] whose stream reports a failure. *)
Definition failed_stream ref : Prop := ∃ d1 s d2, sdk_image_pull ref d1 = (d2, Val (Ok s)) ∧ pl_failed s = true.

Lemma pull_run ref d : ∃ d' r, pull ref d = (d', Val r) ∧
  (is_ok r = true → ref ∈ daemon_images d' ∨ failed_stream ref).
Proof.
  unfold pull. destruct (image_pull_law ref d) as (d' & r & E & _ & Hr).
  erewrite bind_val by exact E. destruct r as [s|e]; [|by eexists _, _].
  destruct (pl_error s); [by eexists _, _|]. exists d', (Ok tt). split; [done|]. intros _.
  destruct (pl_failed s) eqn:Ef; [right; by exists d, s, d'|left; by apply Hr].
Qed.

(** When [EnsurePulled] succeeds the image is on the host, whatever the
    policy, unless the stream of a pull reported a failure; with Never the
    images are left as they are, and it fails when the image is missing; with
    IfNotPresent a present image is not pulled again; an unknown policy is
    refused. *)
Theorem ensure_pulled_policy ref policy d :
  ∃ d' r, rt_ensure_pulled ref policy d = (d', Val r) ∧
    (is_ok r = true → ref ∈ daemon_images d' ∨
       ∃ d1 s d2, sdk_image_pull ref d1 = (d2, Val (Ok s)) ∧ pl_failed s = true) ∧
    (policy = "Never" → daemon_images d' = daemon_images d ∧
                        (ref ∉ daemon_images d → is_ok r = false)) ∧
    (policy = "IfNotPresent" → ref ∈ daemon_images d → daemon_images d' = daemon_images d) ∧
    (policy ∉ ["Never"; "IfNotPresent"; "Always"; ""] → is_ok r = false ∧ d' = d).
Proof.
  destruct (image_exists_run ref d) as (d1 & r & E & Hi & Hr). unfold rt_ensure_pulled.
  destruct (String.eqb_spec policy "Never") as [->|Hn1].
  { destruct r as [b|e].
    - erewrite ebind_ok by exact E. subst b. case_bool_decide as Hb; simpl; eexists _, _;
        (split; [done|]); rewrite ?Hi; set_solver.
    - erewrite ebind_err by exact E. eexists _, _. split; [done|]. rewrite Hi. set_solver. }
  destruct (String.eqb_spec policy "IfNotPresent") as [->|Hn2].
  { destruct r as [b|e].
    - erewrite ebind_ok by exact E. subst b. case_bool_decide as Hb.
      + eexists _, _. split; [done|]. rewrite Hi. set_solver.
      + destruct (pull_run ref d1) as (d' & r' & E' & Hr'). exists d', r'. split; [done|].
        split; [done|]. set_solver.
    - erewrite ebind_err by exact E. eexists _, _. split; [done|]. rewrite Hi. set_solver. }
  destruct (String.eqb policy "Always" || String.eqb policy "") eqn:Ea.
  - destruct (pull_run ref d) as (d' & r' & E' & Hr'). exists d', r'. split; [done|]. split; [done|].
    split; [done|]. split; [done|]. intros Hp. exfalso. apply Hp.
    apply orb_true_iff in Ea as [Ea|Ea]; apply String.eqb_eq in Ea as ->; set_solver.
  - eexists _, _. split; [done|]. set_solver.
Qed.

(** A container that cannot be started is not left behind: when
    [CreateAndStart] fails the containers are those there were, unless the
    daemon also refused the removal. *)
Theorem failed_start_leaves_nothing n sp d d' e :
  has_prefix "klite_" n = true →
  rt_create_and_start n sp d = (d', Val (Err e)) →
  dom (daemon d') = dom (daemon d) ∨ ∃ id d1 e1, sdk_remove id d1 = (d', Val (Err e1)).
Proof.
  intros Hn. unfold rt_create_and_start.
  destruct (sdk_create_law (rt_config sp) n d) as (d1 & r & E & Hr). erewrite bind_val by exact E.
  destruct r as [id|e1]; [|intros [= <- _]; left; by rewrite Hr].
  destruct Hr as (Hnone & c & Hid & Hlab & Hd1).
  destruct (sdk_start_law id d1) as (d2 & r2 & E2 & H2). erewrite bind_val by exact E2.
  destruct r2 as [[]|e2]; [done|]. destruct (sdk_remove_law id d2) as (d3 & r3 & E3 & H3).
  erewrite bind_val by exact E3. intros [= <- _]. destruct r3 as [[]|e3]; [left|right; eauto].
  rewrite H3. apply set_eq. intros k. rewrite !elem_of_dom.
  assert (Hc1 : daemon d1 !! n = Some c) by (by rewrite Hd1, lookup_insert_eq).
  assert (Hdom : is_Some (daemon d2 !! k) ↔ is_Some (daemon d1 !! k)).
  { specialize (H2 k). by destruct (daemon d1 !! k), (daemon d2 !! k). }
  destruct (decide (k = n)) as [->|Hk].
  - rewrite Hnone. split; [|by intros [? ?]]. intros [x [Hx Hf]%map_lookup_filter_Some].
    specialize (H2 n). rewrite Hc1, Hx in H2. unfold refers in Hf. simpl in Hf.
    rewrite (proj1 H2), Hid, String.eqb_refl, orb_true_r in Hf. done.
  - transitivity (is_Some (daemon d1 !! k)); [|by rewrite Hd1, lookup_insert_ne].
    rewrite <- Hdom. split; intros [x Hx].
    + apply map_lookup_filter_Some in Hx as [Hx _]. by exists x.
    + exists x. apply map_lookup_filter_Some. split; [done|]. unfold refers. simpl.
      specialize (H2 k). rewrite Hx in H2. destruct (daemon d1 !! k) as [y|] eqn:Ey; [|done].
      apply orb_false_iff. split; apply String.eqb_neq.
      * intros <-. by rewrite <- Hid, (ids_not_names d1 n c Hc1) in Ey.
      * rewrite (proj1 H2), <- Hid. intros Ex. apply Hk. symmetry. by eapply ids_unique.
Qed.
End images.
