(* ===== verification/Reconciler.v ===== *)
(** * The reconciler ([internal/kubelet/reconciler.go], [events.go])

    The kubelet's worker: it starts the containers of the Pods it sees, reports
    their status, stops the Pods being deleted, and reaps the containers whose
    Pod is gone.  It is written against three interfaces: the container runtime
    (Docker), the API client (Projection) and, both client-go, the informer's
    lister and the work queue.  The two mutexes of the code protect single map
    and counter accesses, which are atomic here. *)

From S2P Require Import Prelude GoStrings Fs Translate Projection Docker.

(** ** client-go: the lister and the queue *)

Class PodLister (L : Type) := {
  lister_get : L → string → string → res pod;      (* namespace, name *)
  lister_list : L → res (list pod)
}.

Class WorkQueue (Q : Type) := {
  queue_get : M Q (option string);                 (* [None]: shut down *)
  queue_add : string → M Q unit;
  queue_add_rate_limited : string → M Q unit;
  queue_forget : string → M Q unit;
  queue_done : string → M Q unit;
  queue_shut_down : M Q unit
}.

(** ** The state *)

Record rstate (K D L Q : Type) := MkR {
  rs_kube : K;
  rs_host : fs;                          (* the volume root *)
  rs_docker : D;
  rs_lister : L;
  rs_queue : Q;
  rs_failed : gmap string string;        (* failedPods, by uid *)
  rs_seq : N                             (* the recorder's seq *)
}.
Arguments MkR {K D L Q}.
Arguments rs_kube {K D L Q}.
Arguments rs_host {K D L Q}.
Arguments rs_docker {K D L Q}.
Arguments rs_lister {K D L Q}.
Arguments rs_queue {K D L Q}.
Arguments rs_failed {K D L Q}.
Arguments rs_seq {K D L Q}.

(** ** Event names *)

Definition hex_digit (n : N) : ascii :=
  if (n <? 10)%N then ascii_of_N (48 + n) else ascii_of_N (87 + n).

Fixpoint hex_go (fuel : nat) (n : N) (acc : string) : string :=
  match fuel with
  | 0 => acc
  | S fuel' => let acc' := String (hex_digit (n mod 16)) acc in
               if (n <? 16)%N then acc' else hex_go fuel' (n / 16) acc'
  end.

(** [%x] of an int64. *)
Definition hex_int (z : Z) : string :=
  (if (z <? 0)%Z then "-" else "") +:+ hex_go 16 (Z.abs_N z) "".

Definition event_name (pod_name : string) (nanos : Z) (seq : N) (uuid : string) : string :=
  let name := pod_name +:+ "." +:+ hex_int nanos +:+ "." +:+ format_uint seq in
  if (253 <? String.length name)%nat then str_take 200 pod_name +:+ "." +:+ uuid else name.

(** [error.Error()], given the texts of the errors of the operating system. *)
Fixpoint error_text (sys_text : err → string) (e : err) : string :=
  match e with
  | ErrText m => m
  | ErrExt m => m
  | ErrWrap w c => w +:+ ": " +:+ error_text sys_text c
  | _ => sys_text e
  end.

Definition int64 (z : Z) : Z :=
  ((z + 9223372036854775808) mod 18446744073709551616 - 9223372036854775808)%Z.

(** A value an informer's handler is given. *)
Inductive informer_obj := OPod (p : pod) | OTombstone (o : option pod) | OOther.

(** [asPod]. *)
Definition as_pod (o : informer_obj) : option pod :=
  match o with OPod p => Some p | _ => None end.

Definition pod_key (p : pod) : string := p_namespace p +:+ "/" +:+ p_name p.

Section reconciler.
Context {K D L Q : Type} `{KubeAPI K} `{DockerRuntime D} `{PodLister L} `{WorkQueue Q}.
(** [volumeRoot], the clock and the random uuids, the text of system errors and
    of durations, and the orders of the [range] loops over maps. *)
Context (volume_root : option path) (now : Z) (clock : N → Z) (uuids : N → string)
        (sys_text : err → string) (duration_text : Z → string)
        (range : gmap string string → list (string * string))
        (range_groups : gmap string (list string) → list (string * list string))
        (split_key : string → res (string * string)).
Abbreviation St := (rstate K D L Q).

Definition on_kube {A} (m : M K A) : M St A :=
  zoom rs_kube (λ k s, MkR k (rs_host s) (rs_docker s) (rs_lister s) (rs_queue s) (rs_failed s) (rs_seq s)) m.
Definition on_docker {A} (m : M D A) : M St A :=
  zoom rs_docker (λ d s, MkR (rs_kube s) (rs_host s) d (rs_lister s) (rs_queue s) (rs_failed s) (rs_seq s)) m.
Definition on_queue {A} (m : M Q A) : M St A :=
  zoom rs_queue (λ q s, MkR (rs_kube s) (rs_host s) (rs_docker s) (rs_lister s) q (rs_failed s) (rs_seq s)) m.
Definition on_rhost {A} (m : M fs A) : M St A :=
  zoom rs_host (λ f s, MkR (rs_kube s) f (rs_docker s) (rs_lister s) (rs_queue s) (rs_failed s) (rs_seq s)) m.
Definition on_projection {A} (m : M (K * fs) A) : M St A :=
  zoom (λ s, (rs_kube s, rs_host s))
       (λ x s, MkR (fst x) (snd x) (rs_docker s) (rs_lister s) (rs_queue s) (rs_failed s) (rs_seq s)) m.
Definition set_failed (g : gmap string string → gmap string string) (s : St) : St :=
  MkR (rs_kube s) (rs_host s) (rs_docker s) (rs_lister s) (rs_queue s) (g (rs_failed s)) (rs_seq s).
Definition bump_seq (s : St) : St :=
  MkR (rs_kube s) (rs_host s) (rs_docker s) (rs_lister s) (rs_queue s) (rs_failed s) (u64_inc (rs_seq s)).

(** ** The recorder *)

(** [Event]: the error of the API server is dropped. *)
Definition event (p : pod) (type_ reason message : string) : M St unit :=
  modify bump_seq ;;;
  let* seq := gets rs_seq in
  on_kube (create_event (MkKEvent (event_name (p_name p) (clock seq) seq (uuids seq))
    (p_namespace p) (p_name p) (p_uid p) type_ reason message "kubelet-lite")) ;;;
  ret tt.

(** ** Status *)

Definition patch_status (p : pod) (st : pod_status) : M St (res unit) :=
  let* r := on_kube (patch_pod_status (p_namespace p) (p_name p) st) in
  match r with
  | Err e => if is_api_not_found e then ok tt else fail e
  | Ok _ => ok tt
  end.

Definition mark_failed_once (p : pod) (msg : string) : M St (res unit) :=
  let* prev := gets (λ s, rs_failed s !! p_uid p) in
  if bool_decide (prev = Some msg) then ok tt
  else
    let? _ := patch_status p (failed_pod_status msg) in
    modify (set_failed (insert (p_uid p) msg)) ;;; ok tt.

(** ** Starting a Pod *)

Definition specs_of (p : pod) : M St (res (list container_spec)) :=
  container_specs_from_pod
    (Some (λ p c, on_projection (on_api (resolve_env (p_namespace p) c)),
           λ p c, on_projection (project_volumes range (default [] volume_root) p c))) p.

(** The loop of [reconcilePod] over the specifications, and what follows it. *)
Fixpoint start_all (p : pod) (specs : list container_spec) (views : gmap string container_view)
    : M St (res unit) :=
  match specs with
  | [] => patch_status p (pod_status_from_views now p views)
  | sp :: specs' =>
      let n := container_name (p_uid p) (sp_name sp) in
      let* i := on_docker (inspect n) in
      match i with
      | Err e => fail (ErrWrap ("inspect " +:+ n) e)
      | Ok (Some v) => start_all p specs' (<[sp_name sp := v]> views)
      | Ok None =>
          event p "Normal" "Pulling" ("Pulling image " +:+ quote (sp_image sp)) ;;;
          let* pl := on_docker (ensure_pulled (sp_image sp) (sp_pull_policy sp)) in
          match pl with
          | Err e =>
              event p "Warning" "Failed" ("Failed to pull image " +:+ quote (sp_image sp)
                +:+ " for container " +:+ quote (sp_name sp) +:+ ": " +:+ error_text sys_text e) ;;;
              mark_failed_once p ("image pull failed for " +:+ quote (sp_name sp) +:+ ": "
                                  +:+ error_text sys_text e)
          | Ok _ =>
              event p "Normal" "Pulled" ("Successfully pulled image " +:+ quote (sp_image sp)) ;;;
              let* c := on_docker (create_and_start n sp) in
              match c with
              | Err e =>
                  event p "Warning" "Failed" ("Failed to create container " +:+ quote (sp_name sp)
                    +:+ ": " +:+ error_text sys_text e) ;;;
                  mark_failed_once p ("create/start " +:+ quote (sp_name sp) +:+ " failed: "
                                      +:+ error_text sys_text e)
              | Ok _ =>
                  event p "Normal" "Created" ("Created container: " +:+ sp_name sp) ;;;
                  event p "Normal" "Started" ("Started container " +:+ sp_name sp) ;;;
                  let* i2 := on_docker (inspect n) in
                  match i2 with
                  | Err e => fail (ErrWrap ("inspect " +:+ n +:+ " after start") e)
                  | Ok v => start_all p specs'
                              (<[sp_name sp := default (MkView "" "" "" false 0 0 0 false) v]> views)
                  end
              end
          end
      end
  end.

(** ** Stopping a Pod *)

Definition container_names_by_label (uid : string) : M St (list string) :=
  let* r := on_docker list_managed in
  match r with
  | Err _ => ret []
  | Ok l => ret (map mc_docker_name (List.filter (λ m, String.eqb (mc_uid m) uid) l))
  end.

Definition container_names_for_pod (p : pod) : M St (list string) :=
  match p_containers p with
  | [] => container_names_by_label (p_uid p)
  | cs => ret (map (λ c, container_name (p_uid p) (c_name c)) cs)
  end.

Definition grace_of (p : pod) : Z :=
  match p_grace p with Some g => int64 (g * 1000000000) | None => 30000000000 end.

(** The loop of [terminatePod], over the names in the order they are stopped. *)
Fixpoint stop_all (p : pod) (grace : Z) (names : list string) : M St (res unit) :=
  match names with
  | [] => ok tt
  | n :: names' =>
      let* i := on_docker (inspect n) in
      match i with
      | Err e => fail (ErrWrap ("inspect " +:+ n +:+ " during terminate") e)
      | Ok None => stop_all p grace names'
      | Ok (Some _) =>
          event p "Normal" "Killing" ("Stopping container " +:+ n +:+ " (grace="
                                      +:+ duration_text grace +:+ ")") ;;;
          on_docker (stop_container n grace) ;;;
          stop_all p grace names'
      end
  end.

Definition terminate_pod (p : pod) : M St (res unit) :=
  let* names := container_names_for_pod p in
  let? _ := stop_all p (grace_of p) (rev names) in
  let* r := on_kube (delete_pod (p_namespace p) (p_name p) 0) in
  match r with
  | Err e => if is_api_not_found e then ok tt else fail e
  | Ok _ => ok tt
  end.

Definition reconcile_pod (p : pod) : M St (res unit) :=
  if String.eqb (p_uid p) "" then ok tt
  else if p_deleting p then terminate_pod p
  else
    let* specs := specs_of p in
    match specs with
    | Err e => mark_failed_once p (error_text sys_text e)
    | Ok specs => start_all p specs ∅
    end.

(** ** Reaping *)

Definition remove_volumes (uid : string) : M St unit :=
  match volume_root with
  | None => ret tt
  | Some root => on_rhost (os_remove_all (pod_volume_root root uid)) ;;; ret tt
  end.

Definition ten_seconds : Z := 10000000000.

Fixpoint reap_names (names : list string) : M St (res unit) :=
  match names with
  | [] => ok tt
  | n :: names' =>
      on_docker (stop_container n ten_seconds) ;;;
      let* r := on_docker (remove_container n) in
      match r with
      | Err e => fail (ErrWrap ("remove " +:+ n) e)
      | Ok _ => reap_names names'
      end
  end.

Definition reap_by_uid (uid : string) : M St (res unit) :=
  let* names := container_names_by_label uid in
  match names with
  | [] => ok tt
  | _ =>
      let? _ := reap_names (rev names) in
      remove_volumes uid ;;; ok tt
  end.

(** [orphansByUID]: names are appended in the order of the list. *)
Definition add_orphan (known : gset string) (g : gmap string (list string)) (m : managed)
    : gmap string (list string) :=
  if bool_decide (mc_uid m ∈ known) then g
  else <[mc_uid m := default [] (g !! mc_uid m) ++ [mc_docker_name m]]> g.

Definition orphans_by_uid (known : gset string) (l : list managed) : gmap string (list string) :=
  fold_left (add_orphan known) l ∅.

(** Errors are logged and dropped. *)
Fixpoint reap_group (names : list string) : M St unit :=
  match names with
  | [] => ret tt
  | n :: names' =>
      on_docker (stop_container n ten_seconds) ;;;
      on_docker (remove_container n) ;;;
      reap_group names'
  end.

Fixpoint reap_groups (groups : list (string * list string)) : M St unit :=
  match groups with
  | [] => ret tt
  | (uid, names) :: groups' => reap_group names ;;; remove_volumes uid ;;; reap_groups groups'
  end.

Definition reap_orphans : M St (res unit) :=
  let? managed := on_docker list_managed in
  match managed with
  | [] => ok tt
  | _ =>
      let? pods := (let* l := gets rs_lister in of_res (lister_list l)) in
      let known : gset string := list_to_set (map p_uid pods) in
      reap_groups (range_groups (orphans_by_uid known managed)) ;;; ok tt
  end.

(** ** The queue and the informer *)

Definition reconcile_key (key : string) : M St (res unit) :=
  let? '(ns, name) := of_res (split_key key) in
  let* l := gets rs_lister in
  match lister_get l ns name with
  | Err e => if is_api_not_found e then ok tt else fail e
  | Ok p => reconcile_pod p
  end.

(** The result is whether the worker goes on. *)
Definition process_next : M St bool :=
  let* k := on_queue queue_get in
  match k with
  | None => ret false
  | Some key =>
      let* r := reconcile_key key in
      (match r with
       | Err _ => on_queue (queue_add_rate_limited key)
       | Ok _ => on_queue (queue_forget key)
       end) ;;;
      on_queue (queue_done key) ;;;
      ret true
  end.

(** [for r.processNext(ctx) {}]. *)
Fixpoint run_worker (fuel : nat) : M St unit :=
  match fuel with
  | 0 => stop_with OutOfFuel
  | S fuel' => let* more := process_next in if more then run_worker fuel' else ret tt
  end.

(** [Run]: [synced] is what [WaitForCacheSync] returns, [goroutines] what the
    worker, the reaper and the handlers do until the context is done. *)
Definition run_main (synced : bool) (goroutines : M St unit) : M St (res unit) :=
  let* r := (if negb synced then fail (ErrText "cache sync failed")
             else reap_orphans ;;; goroutines ;;; ok tt) in
  on_queue queue_shut_down ;;;                       (* deferred *)
  ret r.

Definition on_add_or_update (o : informer_obj) : M St unit :=
  match as_pod o with None => ret tt | Some p => on_queue (queue_add (pod_key p)) end.

Definition on_delete (o : informer_obj) : M St unit :=
  match (match o with OPod p => Some p | OTombstone t => t | OOther => None end) with
  | None => ret tt
  | Some p => modify (set_failed (delete (p_uid p))) ;;; reap_by_uid (p_uid p) ;;; ret tt
  end.

(** [New]: the state a reconciler starts with, and the handlers it registers
    with the informer. *)
Definition new_reconciler (kube : K) (host : fs) (docker : D) (lister : L) (queue : Q) : St :=
  MkR kube host docker lister queue ∅ 0.

Inductive notification :=
  | OnAdd (o : informer_obj)
  | OnUpdate (old o : informer_obj)
  | OnDelete (o : informer_obj).

Definition handle (n : notification) : M St unit :=
  match n with
  | OnAdd o | OnUpdate _ o => on_add_or_update o
  | OnDelete o => on_delete o
  end.
End reconciler.
