(* ===== verification/ReconcilerFacts.v ===== *)
(** * What the reconciler does to the containers

    Against the promise of the container runtime ([RuntimeLaws]) and any API
    client, any lister and any queue: reconciling a live Pod only adds its own
    containers, in the order of its specification, however the run ends; and
    with a daemon that answers it ends with all of them there and their status
    reported. *)

From S2P Require Import Prelude GoStrings Fs Translate Projection Docker Reconciler.

(** ** Computations that leave the containers alone *)

Section framing.
Context {K D L Q : Type} `{KubeAPI K} `{DockerRuntime D} `{PodLister L} `{WorkQueue Q}.
Context (volume_root : option path) (now : Z) (clock : N → Z) (uuids : N → string)
        (sys_text : err → string) (duration_text : Z → string)
        (range : gmap string string → list (string * string))
        (range_groups : gmap string (list string) → list (string * list string)).
Abbreviation St := (rstate K D L Q).
Implicit Types (s : St) (p : pod) (n : string).

(** [m] ends, whatever its end, without a call of the runtime, and with the same
    lister. *)
Definition undisturbed s s' : Prop := rs_docker s' = rs_docker s ∧ rs_lister s' = rs_lister s.

#[export] Instance undisturbed_preorder : PreOrder undisturbed.
Proof. split; [done|]. intros s1 s2 s3 [Ha Hb] [Hc Hd]. split; congruence. Qed.

Definition frames {A} (m : M St A) : Prop := moves undisturbed m.

Lemma frames_bind {A B} (m : M St A) (f : A → M St B) :
  frames m → (∀ a, frames (f a)) → frames (bind m f).
Proof. apply moves_bind, _. Qed.

Lemma frames_ret {A} (a : A) : frames (ret a).
Proof. apply moves_pure; [exact _|done]. Qed.

Lemma frames_ebind {A B} (m : M St (res A)) (f : A → M St (res B)) :
  frames m → (∀ a, frames (f a)) → frames (ebind m f).
Proof. apply moves_ebind, _. Qed.

Lemma frames_gets {A} (f : St → A) : frames (gets f).
Proof. done. Qed.

Lemma frames_modify_failed g : frames (modify (set_failed g)).
Proof. done. Qed.

Lemma frames_modify_seq : frames (modify bump_seq).
Proof. done. Qed.

Lemma frames_kube {A} (m : M K A) : frames (on_kube m).
Proof. by apply moves_zoom. Qed.

Lemma frames_host {A} (m : M fs A) : frames (on_rhost m).
Proof. by apply moves_zoom. Qed.

Lemma frames_projection {A} (m : M (K * fs) A) : frames (on_projection m).
Proof. by apply moves_zoom. Qed.

Create HintDb frames discriminated.
#[local] Hint Resolve frames_ret frames_gets frames_modify_failed frames_modify_seq frames_kube
  frames_host frames_projection : frames.

Ltac frames_tac :=
  repeat first
    [ solve [eauto with frames]
    | apply frames_bind; [|intros ?]
    | apply frames_ebind; [|intros ?]
    | match goal with
      | |- frames (match ?x with _ => _ end) => destruct x
      | |- frames (if ?b then _ else _) => destruct b
      end
    | apply frames_ret ].

Lemma frames_event p t r msg : frames (event clock uuids p t r msg).
Proof. unfold event. frames_tac. Qed.

Lemma frames_patch p st : frames (patch_status p st).
Proof. unfold patch_status. frames_tac. Qed.

#[local] Hint Resolve frames_event frames_patch : frames.

Lemma frames_mark p msg : frames (mark_failed_once p msg).
Proof. unfold mark_failed_once. frames_tac. Qed.

Lemma frames_volumes uid : frames (remove_volumes volume_root uid).
Proof. unfold remove_volumes. frames_tac. Qed.

#[local] Hint Resolve frames_mark frames_volumes : frames.

Lemma frames_specs p : frames (specs_of volume_root range p).
Proof.
  unfold specs_of, container_specs_from_pod. destruct (p_containers p); [by frames_tac|].
  apply moves_specs_from; [exact _|]. intros re pv [= <- <-]. split; intros; apply frames_projection.
Qed.

(** One call of the container runtime. *)
Lemma on_docker_run {A} (m : M D A) s d' o :
  m (rs_docker s) = (d', o) → ∃ s', on_docker m s = (s', o) ∧ rs_docker s' = d' ∧
    rs_kube s' = rs_kube s ∧ rs_host s' = rs_host s ∧ rs_lister s' = rs_lister s ∧
    rs_queue s' = rs_queue s ∧ rs_failed s' = rs_failed s ∧ rs_seq s' = rs_seq s.
Proof. intros E. eexists. split; [by apply zoom_run|done]. Qed.

Lemma wp_docker {A} (m : M D A) Qp s d' a :
  m (rs_docker s) = (d', Val a) →
  (∀ s', rs_docker s' = d' → rs_lister s' = rs_lister s → Qp s' (Val a)) →
  wp (on_docker m) Qp s.
Proof.
  intros E HQ. apply wp_zoom. unfold wp. rewrite E. by apply HQ.
Qed.

End framing.

Section reconciler_facts.
Context {K D L Q : Type} `{KubeAPI K} `{RuntimeLaws D} `{PodLister L} `{WorkQueue Q}.
Context (volume_root : option path) (now : Z) (clock : N → Z) (uuids : N → string)
        (sys_text : err → string) (duration_text : Z → string)
        (range : gmap string string → list (string * string))
        (range_groups : gmap string (list string) → list (string * list string)).
Abbreviation St := (rstate K D L Q).
Implicit Types (s : St) (p : pod) (n : string).

Definition boxes s : gmap string dcontainer := containers (rs_docker s).

(** A framed computation before the rest. *)
Lemma wp_framed {A} (m : M St A) Qp s : frames m →
  (∀ s' o, boxes s' = boxes s → rs_lister s' = rs_lister s → Qp s' o) → wp m Qp s.
Proof. intros Hm HQ. eapply wp_mono; [|apply Hm]. intros s' o [Hd ?].
  apply HQ; [|done]. unfold boxes. by rewrite Hd. Qed.

(** ** Starting a Pod *)

Lemma container_name_prefix uid name : has_prefix "klite_" (container_name uid name) = true.
Proof. done. Qed.

Abbreviation name_of p := (λ sp, container_name (p_uid p) (sp_name sp)).

(** From [m] to [m']: every container is kept; a new one has the name and the
    labels of one of the specifications, and all the earlier ones exist. *)
Definition grows p (specs : list container_spec) (m m' : gmap string dcontainer) : Prop :=
  m ⊆ m' ∧
  ∀ n c, m !! n = None → m' !! n = Some c →
    ∃ i sp, specs !! i = Some sp ∧ n = name_of p sp ∧ dc_labels c = sp_labels sp ∧
            ∀ j spj, (j < i)%nat → specs !! j = Some spj → is_Some (m' !! name_of p spj).

Lemma grows_refl p specs m : grows p specs m m.
Proof. split; [done|]. intros n c E1 E2. congruence. Qed.

(** One step: the first specification's container exists after it. *)
Lemma grows_cons p sp specs m m1 m2 :
  (∀ k, k ≠ name_of p sp → m1 !! k = m !! k) →
  (∀ c, m !! name_of p sp = Some c → m1 !! name_of p sp = Some c) →
  (∀ c, m1 !! name_of p sp = Some c → dc_labels c = sp_labels sp ∨ m !! name_of p sp = Some c) →
  is_Some (m1 !! name_of p sp) ∨ m2 = m1 →
  grows p specs m1 m2 → grows p (sp :: specs) m m2.
Proof.
  intros Hk Hold Hnew Hex [Hsub Hg]. assert (Hm : m ⊆ m1).
  { apply map_subseteq_spec. intros k c E. destruct (decide (k = name_of p sp)) as [->|Hne]; [by apply Hold|].
    by rewrite Hk. }
  split; [by transitivity m1|]. intros n c E1 E2. destruct (m1 !! n) as [c1|] eqn:E.
  - assert (c1 = c) as -> by (rewrite map_subseteq_spec in Hsub; apply Hsub in E; congruence).
    destruct (decide (n = name_of p sp)) as [->|Hne]; [|by rewrite Hk in E; congruence].
    exists 0%nat, sp. split; [done|]. split; [done|]. split; [|lia].
    destruct (Hnew c E); [done|congruence].
  - destruct (Hg n c E E2) as (i & spi & Ei & -> & Hl & Hj). destruct Hex as [[c0 Hc0]|Em]; [|subst; congruence].
    exists (S i), spi. split; [done|]. split; [done|]. split; [done|].
    intros [|j] spj Hlt Ej; [|apply (Hj j); [lia|done]]. injection Ej as <-. exists c0.
    rewrite map_subseteq_spec in Hsub. by apply Hsub.
Qed.

Lemma start_all_grows p specs views s :
  wp (start_all now clock uuids sys_text p specs views)
     (λ s' _, grows p specs (boxes s) (boxes s')) s.
Proof.
  revert views s. induction specs as [|sp specs IH]; intros views s; cbn [start_all].
  { apply wp_framed; [apply frames_patch|]. intros s' _ -> _. apply grows_refl. }
  set (n := container_name (p_uid p) (sp_name sp)).
  destruct (inspect_law n (rs_docker s)) as (d1 & i & E & Hd1 & Hi); [by left|].
  apply wp_bind. eapply wp_docker; [done|]. intros s1 Hs1 _.
  assert (Hb1 : boxes s1 = boxes s) by (unfold boxes; congruence).
  destruct i as [[v|]|e]; simpl in Hi.
  - assert (Hex : is_Some (boxes s !! n)).
    { unfold boxes. destruct (containers (rs_docker s) !! n); [by eexists|done]. }
    eapply wp_mono; [|apply IH]. intros s' o Hg. simpl in Hg. rewrite Hb1 in Hg.
    apply (grows_cons _ _ _ _ (boxes s)); eauto.
  - assert (Hnone : boxes s !! n = None).
    { unfold boxes. by destruct (containers (rs_docker s) !! n). }
    apply wp_bind, wp_framed; [apply frames_event|]. intros s2 [u|k] Hb2 _; rewrite Hb1 in Hb2;
      [|rewrite Hb2; apply grows_refl].
    destruct (pull_law (sp_image sp) (sp_pull_policy sp) (rs_docker s2)) as (d3 & pl & E3 & Hd3).
    apply wp_bind. eapply wp_docker; [done|]. intros s3 Hs3 _.
    assert (Hb3 : boxes s3 = boxes s) by (unfold boxes in *; congruence). destruct pl as [[]|e].
    + apply wp_bind, wp_framed; [apply frames_event|]. intros s4 [u4|k] Hb4 _; rewrite Hb3 in Hb4;
        [|rewrite Hb4; apply grows_refl].
      destruct (create_law n sp (rs_docker s4)) as (d5 & c & E5 & Hk & Hnew & Hex); [done|].
      apply wp_bind. eapply wp_docker; [done|]. intros s5 Hs5 _.
      assert (Hb5 : boxes s5 = containers d5) by (unfold boxes; congruence).
      fold (boxes s4) in Hk, Hnew. rewrite Hb4 in Hk, Hnew.
      assert (Hstep : ∀ m2, is_Some (boxes s5 !! n) ∨ m2 = boxes s5 →
                grows p specs (boxes s5) m2 → grows p (sp :: specs) (boxes s) m2).
      { intros m2 Hm2 Hg. rewrite Hb5 in Hm2, Hg. apply (grows_cons _ _ _ _ (containers d5)); auto. fold n. congruence. }
      assert (Hend : ∀ s', boxes s' = boxes s5 → grows p (sp :: specs) (boxes s) (boxes s')).
      { intros s' ->. apply Hstep; [by right|apply grows_refl]. }
      destruct c as [id|e].
      * apply wp_bind, wp_framed; [apply frames_event|]. intros s6 [u6|k] Hb6 _; [|by apply Hend].
        apply wp_bind, wp_framed; [apply frames_event|]. intros s7 [u7|k] Hb7 _; [|apply Hend; congruence].
        destruct (inspect_law n (rs_docker s7)) as (d8 & i8 & E8 & Hd8 & Hi8); [by left|].
        apply wp_bind. eapply wp_docker; [done|]. intros s8 Hs8 _.
        assert (Hb8 : boxes s8 = boxes s5) by (unfold boxes in *; congruence).
        destruct i8 as [v|e8]; [|by apply Hend].
        eapply wp_mono; [|apply IH]. intros s' o Hg. rewrite Hb8 in Hg. apply Hstep; [|done].
        left. rewrite Hb5. by apply Hex.
      * apply wp_bind, wp_framed; [apply frames_event|]. intros s6 [u6|k] Hb6 _; [|by apply Hend].
        apply wp_framed; [apply frames_mark|]. intros s' _ Hb' _. apply Hend. congruence.
    + apply wp_bind, wp_framed; [apply frames_event|]. intros s4 [u4|k] Hb4 _; rewrite Hb3 in Hb4;
        [|rewrite Hb4; apply grows_refl].
      apply wp_framed; [apply frames_mark|]. intros s' _ Hb' _. rewrite Hb', Hb4. apply grows_refl.
  - change (grows p (sp :: specs) (boxes s) (boxes s1)). rewrite Hb1. apply grows_refl.
Qed.

(** The specifications of a Pod, when there are any, are those of its
    containers in order. *)
Lemma specs_names p s s' specs : specs_of volume_root range p s = (s', Val (Ok specs)) →
  length specs = length (p_containers p) ∧
  ∀ i sp, specs !! i = Some sp → ∃ c, p_containers p !! i = Some c ∧ sp_name sp = c_name c ∧
    sp_labels sp = pod_labels_for p (c_name c) ∧
    sp_pull_policy sp = resolve_pull_policy (c_pull_policy c) (c_image c).
Proof.
  unfold specs_of, container_specs_from_pod. destruct (p_containers p) as [|c0 cs]; [done|].
  intros [Hlen Hk]%specs_from_ok. split; [done|]. intros i sp Hi.
  destruct (lookup_lt_is_Some_2 (c0 :: cs) i) as [c Hc].
  { rewrite <- Hlen. by apply lookup_lt_is_Some_1. }
  exists c. split; [done|]. destruct (Hk i c Hc) as (env & mounts & Es).
  rewrite Hi in Es. by injection Es as ->.
Qed.

(** What a run of [reconcile_pod] on a live Pod does to the containers. *)
Definition only_adds p (m m' : gmap string dcontainer) : Prop :=
  m ⊆ m' ∧
  ∀ n b, m !! n = None → m' !! n = Some b →
    ∃ i c, p_containers p !! i = Some c ∧ n = container_name (p_uid p) (c_name c) ∧
      dc_labels b = pod_labels_for p (c_name c) ∧
      ∀ j cj, (j < i)%nat → p_containers p !! j = Some cj →
        is_Some (m' !! container_name (p_uid p) (c_name cj)).

Lemma only_adds_refl p m : only_adds p m m.
Proof. split; [done|congruence]. Qed.

Lemma grows_only_adds p s s1 specs m m' :
  specs_of volume_root range p s = (s1, Val (Ok specs)) → grows p specs m m' → only_adds p m m'.
Proof.
  intros [Hlen Hn]%specs_names [Hsub Hg]. split; [done|]. intros n b E1 E2.
  destruct (Hg n b E1 E2) as (i & sp & Hi & -> & Hl & Hj).
  destruct (Hn i sp Hi) as (c & Hc & -> & Hlab & _). exists i, c. split; [done|]. split; [done|].
  split; [by rewrite Hl|]. intros j cj Hlt Ej.
  destruct (lookup_lt_is_Some_2 specs j) as [spj Hspj].
  { rewrite Hlen. by apply lookup_lt_is_Some_1. }
  destruct (Hn j spj Hspj) as (cj' & Ecj & En & _). rewrite Ecj in Ej. injection Ej as ->.
  rewrite <- En. by apply (Hj j).
Qed.

Lemma reconcile_adds p s : p_deleting p = false →
  wp (reconcile_pod volume_root now clock uuids sys_text duration_text range p)
     (λ s' _, only_adds p (boxes s) (boxes s')) s.
Proof.
  intros Hlive. unfold reconcile_pod. rewrite Hlive.
  destruct (String.eqb (p_uid p) ""); [apply wp_ret, only_adds_refl|].
  unfold wp, bind. pose proof (wp_framed _ (λ s' _, boxes s' = boxes s) s (frames_specs volume_root range p)
    (λ _ _ E _, E)) as Hb. unfold wp in Hb.
  destruct (specs_of volume_root range p s) as [s1 [[specs|e]|k]] eqn:Es; simpl in Hb.
  - pose proof (start_all_grows p specs ∅ s1) as Hg. unfold wp in Hg.
    destruct (start_all _ _ _ _ _ _ _ _) as [s2 o]. simpl in *. rewrite Hb in Hg.
    by eapply grows_only_adds.
  - rewrite <- Hb. apply (wp_framed _ (λ s' _, only_adds p (boxes s1) (boxes s')) s1
      (frames_mark p (error_text sys_text e))). intros s' _ -> _. apply only_adds_refl.
  - simpl. rewrite Hb. apply only_adds_refl.
Qed.

(** C7: reconciling a live Pod, however the run ends, leaves every container
    there is as it is; a container it creates is one of the Pod's, carries the
    labels the reaper looks for, and every container before it in the
    specification exists: no sibling without the sandbox whose network it
    joins. *)
Theorem reconcile_only_adds p s :
  p_deleting p = false →
  wp (reconcile_pod volume_root now clock uuids sys_text duration_text range p)
     (λ s' _, boxes s ⊆ boxes s' ∧
        ∀ n b, boxes s !! n = None → boxes s' !! n = Some b →
          ∃ i c, p_containers p !! i = Some c ∧ n = container_name (p_uid p) (c_name c) ∧
            dc_labels b = pod_labels_for p (c_name c) ∧
            ∀ j cj, (j < i)%nat → p_containers p !! j = Some cj →
              is_Some (boxes s' !! container_name (p_uid p) (c_name cj))) s.
Proof. apply reconcile_adds. Qed.

(** ** Convergence *)

(** Every request of the API client returns. *)
Definition kube_returns : Prop :=
  (∀ ns n k, ∃ k' r, get_config_map ns n k = (k', Val r)) ∧
  (∀ ns n k, ∃ k' r, get_secret ns n k = (k', Val r)) ∧
  (∀ ns n st k, ∃ k' r, patch_pod_status ns n st k = (k', Val r)) ∧
  (∀ ns n g k, ∃ k' r, delete_pod ns n g k = (k', Val r)) ∧
  (∀ e k, ∃ k' r, create_event e k = (k', Val r)).

(** The policies with which an image can always be had. *)
Definition pullable (policy : string) : Prop := policy = "Always" ∨ policy = "IfNotPresent".

(** A runtime that answers, pulls every image, and creates a container whose
    name is free. *)
Definition reliable : Prop :=
  (∀ ref pol (d d' : D) r, pullable pol → ensure_pulled ref pol d = (d', Val r) → is_ok r = true) ∧
  (∀ n (d d' : D) r, inspect n d = (d', Val r) → is_ok r = true) ∧
  (∀ n sp (d d' : D) r, has_prefix "klite_" n = true → containers d !! n = None →
     create_and_start n sp d = (d', Val r) → is_ok r = true).

Hypothesis Hkube : kube_returns.

(** Everything but the API client's state and the counter of events. *)
Definition same s s' : Prop :=
  rs_docker s' = rs_docker s ∧ rs_lister s' = rs_lister s ∧ rs_failed s' = rs_failed s ∧
  rs_host s' = rs_host s ∧ rs_queue s' = rs_queue s.

Lemma event_run p t r msg s : ∃ s', event clock uuids p t r msg s = (s', Val tt) ∧ same s s'.
Proof.
  destruct Hkube as (_ & _ & _ & _ & Hev). unfold event.
  unfold bind at 1, modify. unfold bind at 1, gets.
  edestruct Hev as (k' & r' & E). erewrite bind_val by (apply zoom_run, E).
  by eexists.
Qed.

Lemma patch_run p st s : ∃ s' r k', patch_status p st s = (s', Val r) ∧
  rs_docker s' = rs_docker s ∧ rs_lister s' = rs_lister s ∧ rs_failed s' = rs_failed s ∧
  patch_pod_status (p_namespace p) (p_name p) st (rs_kube s) = (rs_kube s', Val k') ∧
  r = match k' with Err e => if is_api_not_found e then Ok tt else Err e | Ok _ => Ok tt end.
Proof.
  destruct Hkube as (_ & _ & Hpatch & _). unfold patch_status.
  destruct (Hpatch (p_namespace p) (p_name p) st (rs_kube s)) as (k1 & r & E).
  erewrite bind_val by (apply zoom_run, E).
  eexists _, (match r with Err e => if is_api_not_found e then Ok tt else Err e | Ok _ => Ok tt end), r.
  split; [destruct r as [u|e]; [|destruct (is_api_not_found e)]; reflexivity|done].
Qed.

(** What the last request of a successful run reports. *)
Definition reported p (names : list string) (views : gmap string container_view) s s' (r : res unit) : Prop :=
  ∃ k views' k', patch_pod_status (p_namespace p) (p_name p) (pod_status_from_views now p views') k
                   = (rs_kube s', Val k') ∧
    r = match k' with Err e => if is_api_not_found e then Ok tt else Err e | Ok _ => Ok tt end ∧
    rs_failed s' = rs_failed s ∧ boxes s ⊆ boxes s' ∧
    (∀ x, x ∈ names → is_Some (boxes s' !! container_name (p_uid p) x) ∧
                      views' !! x = dc_view <$> boxes s' !! container_name (p_uid p) x) ∧
    (∀ x, x ∉ names → views' !! x = views !! x).

Lemma reported_cons p x names v views s s1 s' r c :
  boxes s ⊆ boxes s1 → rs_failed s1 = rs_failed s →
  boxes s1 !! container_name (p_uid p) x = Some c → v = dc_view c →
  reported p names (<[x := v]> views) s1 s' r → reported p (x :: names) views s s' r.
Proof.
  intros Hsub Hf Hc -> (k & views' & k' & E & Hr & Hf' & Hsub' & Hin & Hout).
  exists k, views', k'. split; [done|]. split; [done|]. split; [congruence|]. split; [by etransitivity|].
  assert (Hc' : boxes s' !! container_name (p_uid p) x = Some c).
  { rewrite map_subseteq_spec in Hsub'. by apply Hsub'. }
  split.
  - intros y [->|Hy]%elem_of_cons; [|by apply Hin]. rewrite Hc'. split; [by eexists|].
    destruct (decide (x ∈ names)) as [Hx|Hx]; [by rewrite (proj2 (Hin x Hx)), Hc'|].
    by rewrite Hout, lookup_insert_eq.
  - intros y Hy. rewrite not_elem_of_cons in Hy. destruct Hy as [Hne Hy].
    by rewrite Hout, lookup_insert_ne.
Qed.

Lemma start_all_reports p specs views s : reliable → Forall (λ sp, pullable (sp_pull_policy sp)) specs →
  ∃ s' r, start_all now clock uuids sys_text p specs views s = (s', Val r) ∧
    reported p (map sp_name specs) views s s' r.
Proof.
  intros (Rpull & Rinsp & Rcreate) Hpol. revert views s.
  induction Hpol as [|sp specs Hsp Hpol IH]; intros views s; cbn [start_all map].
  { destruct (patch_run p (pod_status_from_views now p views) s)
      as (s' & r & k' & E & Hd & Hl & Hf & Ek & Hr). eexists _, _. split; [done|].
    exists (rs_kube s), views, k'. split; [done|]. split; [done|]. split; [done|].
    split; [unfold boxes; by rewrite Hd|]. split; [|done]. intros x Hx. by apply elem_of_nil in Hx. }
  set (n := container_name (p_uid p) (sp_name sp)).
  destruct (inspect_law n (rs_docker s)) as (d1 & i & E & Hd1 & Hi); [by left|].
  destruct (on_docker_run _ _ _ _ E) as (s1 & E1 & Hs1 & Hk1 & _ & _ & _ & Hf1 & _).
  erewrite bind_val by exact E1. assert (Hb1 : boxes s1 = boxes s) by (unfold boxes; congruence).
  pose proof (Rinsp _ _ _ _ E) as Hok. destruct i as [o|]; [|done]. simpl in Hi.
  fold (boxes s) in Hi. destruct (boxes s !! n) as [c|] eqn:En; simpl in Hi; subst o.
  { destruct (IH (<[sp_name sp := dc_view c]> views) s1) as (s' & r & E' & Hrep). eexists _, _.
    split; [exact E'|]. eapply reported_cons; [by rewrite Hb1|done| |done|exact Hrep].
    by rewrite Hb1. }
  destruct (event_run p "Normal" "Pulling" ("Pulling image " +:+ quote (sp_image sp)) s1)
    as (s2 & E2 & Hs2 & _ & Hf2 & _). erewrite bind_val by exact E2.
  destruct (pull_law (sp_image sp) (sp_pull_policy sp) (rs_docker s2)) as (d3 & pl & E3 & Hd3).
  destruct (on_docker_run _ _ _ _ E3) as (s3 & E3' & Hs3 & _ & _ & _ & _ & Hf3 & _).
  erewrite bind_val by exact E3'. pose proof (Rpull _ _ _ _ _ Hsp E3) as Hpl. destruct pl as [[]|]; [|done].
  destruct (event_run p "Normal" "Pulled" ("Successfully pulled image " +:+ quote (sp_image sp)) s3)
    as (s4 & E4 & Hs4 & _ & Hf4 & _). erewrite bind_val by exact E4.
  assert (Hb4 : boxes s4 = boxes s) by (unfold boxes in *; congruence).
  destruct (create_law n sp (rs_docker s4)) as (d5 & c & E5 & Hk & _ & Hex); [done|].
  destruct (on_docker_run _ _ _ _ E5) as (s5 & E5' & Hs5 & _ & _ & _ & _ & Hf5 & _).
  erewrite bind_val by exact E5'.
  assert (Hokc : is_ok c = true) by (refine (Rcreate _ _ _ _ _ (container_name_prefix _ _) _ E5); fold (boxes s4); by rewrite Hb4).
  destruct (Hex Hokc) as [c5 Hc5]. destruct c as [id|]; [|done].
  destruct (event_run p "Normal" "Created" ("Created container: " +:+ sp_name sp) s5)
    as (s6 & E6 & Hs6 & _ & Hf6 & _). erewrite bind_val by exact E6.
  destruct (event_run p "Normal" "Started" ("Started container " +:+ sp_name sp) s6)
    as (s7 & E7 & Hs7 & _ & Hf7 & _). erewrite bind_val by exact E7.
  destruct (inspect_law n (rs_docker s7)) as (d8 & i8 & E8 & Hd8 & Hi8); [by left|].
  destruct (on_docker_run _ _ _ _ E8) as (s8 & E8' & Hs8 & _ & _ & _ & _ & Hf8 & _).
  erewrite bind_val by exact E8'. pose proof (Rinsp _ _ _ _ E8) as Hok8. destruct i8 as [o8|]; [|done].
  simpl in Hi8. assert (Hb8 : boxes s8 = containers d5) by (unfold boxes in *; congruence).
  assert (Ho8 : o8 = Some (dc_view c5)).
  { rewrite Hi8. rewrite <- Hd8. unfold boxes in Hb8. rewrite Hs8 in Hb8. by rewrite Hb8, Hc5. }
  clear Hi8. subst o8. destruct (IH (<[sp_name sp := dc_view c5]> views) s8) as (s' & r & E' & Hrep).
  eexists _, _. split; [exact E'|].
  eapply (reported_cons _ _ _ (dc_view c5) _ _ s8); [|congruence| |done|exact Hrep]; rewrite Hb8.
  - apply map_subseteq_spec. intros y b Ey. rewrite Hk; [fold (boxes s4); by rewrite Hb4|].
    intros ->. congruence.
  - done.
Qed.

Lemma names_of_specs p s s1 specs : specs_of volume_root range p s = (s1, Val (Ok specs)) →
  map sp_name specs = map c_name (p_containers p).
Proof.
  intros [Hlen Hn]%specs_names. apply list_eq_same_length with (length (p_containers p)).
  - by rewrite length_map.
  - by rewrite length_map.
  - intros i x y _. rewrite !list_lookup_fmap.
    destruct (specs !! i) as [sp|] eqn:E; simpl; [|done]. destruct (Hn i sp E) as (c & -> & -> & _).
    simpl. congruence.
Qed.

Lemma specs_pullable p s s1 specs :
  Forall (λ c, pullable (resolve_pull_policy (c_pull_policy c) (c_image c))) (p_containers p) →
  specs_of volume_root range p s = (s1, Val (Ok specs)) →
  Forall (λ sp, pullable (sp_pull_policy sp)) specs.
Proof.
  intros Hpol [_ Hn]%specs_names. apply Forall_lookup. intros i sp Hi.
  destruct (Hn i sp Hi) as (c & Hc & _ & _ & ->). by apply (Forall_lookup_1 _ _ _ _ Hpol Hc).
Qed.

Lemma all_there p s : p_deleting p = false →
  (∀ c, c ∈ p_containers p → is_Some (boxes s !! container_name (p_uid p) (c_name c))) →
  wp (reconcile_pod volume_root now clock uuids sys_text duration_text range p)
     (λ s' _, boxes s' = boxes s) s.
Proof.
  intros Hlive Hall. eapply wp_mono; [|by apply reconcile_adds]. intros s' o [Hsub Hnew]. simpl.
  apply map_eq. intros n. destruct (boxes s !! n) as [c|] eqn:E.
  - rewrite map_subseteq_spec in Hsub. by apply Hsub.
  - destruct (boxes s' !! n) as [b|] eqn:E'; [|done].
    destruct (Hnew n b E E') as (i & c & Hc & -> & _). apply list_elem_of_lookup_2 in Hc.
    destruct (Hall c Hc). congruence.
Qed.

Lemma reconcile_runs p s s1 specs :
  reliable → p_uid p ≠ "" → p_deleting p = false →
  Forall (λ c, pullable (resolve_pull_policy (c_pull_policy c) (c_image c))) (p_containers p) →
  specs_of volume_root range p s = (s1, Val (Ok specs)) →
  ∃ s' r, reconcile_pod volume_root now clock uuids sys_text duration_text range p s = (s', Val r) ∧
    (∀ c, c ∈ p_containers p → is_Some (boxes s' !! container_name (p_uid p) (c_name c))) ∧
    (∃ k views k',
       patch_pod_status (p_namespace p) (p_name p) (pod_status_from_views now p views) k
         = (rs_kube s', Val k') ∧
       (∀ c, c ∈ p_containers p →
          views !! c_name c = dc_view <$> boxes s' !! container_name (p_uid p) (c_name c)) ∧
       is_ok r = match k' with Err e => is_api_not_found e | Ok _ => true end) ∧
    wp (reconcile_pod volume_root now clock uuids sys_text duration_text range p)
       (λ s'' _, boxes s'' = boxes s') s'.
Proof.
  intros Hrel Huid Hlive Hpol Hs.
  destruct (start_all_reports p specs ∅ s1 Hrel (specs_pullable _ _ _ _ Hpol Hs)) as (s' & r & E & Hrep).
  exists s', r. split.
  { unfold reconcile_pod. rewrite (proj2 (String.eqb_neq _ _)), Hlive by done.
    by erewrite bind_val by exact Hs. }
  rewrite (names_of_specs _ _ _ _ Hs) in Hrep.
  destruct Hrep as (k & views & k' & Ek & -> & _ & _ & Hin & _).
  assert (Hall : ∀ c, c ∈ p_containers p →
    is_Some (boxes s' !! container_name (p_uid p) (c_name c)) ∧
    views !! c_name c = dc_view <$> boxes s' !! container_name (p_uid p) (c_name c)).
  { intros c Hc. apply Hin. by apply list_elem_of_fmap_2. }
  split; [intros c Hc; by apply Hall|]. split.
  - exists k, views, k'. split; [done|]. split; [intros c Hc; by apply Hall|].
    destruct k' as [|e]; [done|]. by destruct (is_api_not_found e).
  - apply all_there; [done|]. intros c Hc. by apply Hall.
Qed.

(** C8: when the daemon answers, the images can be pulled, and the environment
    and volumes of a live Pod resolve, reconciling it returns, with every container of the Pod created;
    the status it reports last is made from what the daemon says of each of
    them, failing only if the API server refuses it; and reconciling the Pod
    again changes no container. *)
Theorem reconcile_converges p s s1 specs :
  reliable → p_uid p ≠ "" → p_deleting p = false →
  Forall (λ c, pullable (resolve_pull_policy (c_pull_policy c) (c_image c))) (p_containers p) →
  specs_of volume_root range p s = (s1, Val (Ok specs)) →
  ∃ s' r, reconcile_pod volume_root now clock uuids sys_text duration_text range p s = (s', Val r) ∧
    (∀ c, c ∈ p_containers p → is_Some (boxes s' !! container_name (p_uid p) (c_name c))) ∧
    (∃ k views k',
       patch_pod_status (p_namespace p) (p_name p) (pod_status_from_views now p views) k
         = (rs_kube s', Val k') ∧
       (∀ c, c ∈ p_containers p →
          views !! c_name c = dc_view <$> boxes s' !! container_name (p_uid p) (c_name c)) ∧
       is_ok r = match k' with Err e => is_api_not_found e | Ok _ => true end) ∧
    wp (reconcile_pod volume_root now clock uuids sys_text duration_text range p)
       (λ s'' _, boxes s'' = boxes s') s'.
Proof. apply reconcile_runs. Qed.
End reconciler_facts.
