(* ===== verification/ReconcilerReap.v ===== *)
(** * The reapers

    Reaping the Pod of a uid removes exactly its containers, the orphan reaper
    those of the Pods the lister does not know; both remove the volumes. *)

From S2P Require Import Prelude GoStrings Fs Translate Projection Docker.
From S2P Require Import Reconciler ReconcilerFacts.

(** ** The list of managed containers *)

Section managed_lists.
Context (m : gmap string dcontainer) (l : list managed).
Hypothesis Hl : l ≡ₚ omap managed_of (map_to_list m).

Lemma managed_in x : x ∈ l ↔
  ∃ c, m !! mc_docker_name x = Some c ∧ uid_of c = mc_uid x ∧ mc_uid x ≠ "" ∧
       mc_container x = default "" (dc_labels c !! "io.k8s.container.name").
Proof.
  rewrite Hl, list_elem_of_omap. split.
  - intros ([n c] & Hin & E). unfold managed_of in E.
    destruct (String.eqb_spec (uid_of c) ""); [done|]. injection E as <-. simpl.
    exists c. split; [by apply elem_of_map_to_list|done].
  - intros (c & Hc & Hu & Hne & Hn). exists (mc_docker_name x, c).
    split; [by apply elem_of_map_to_list|]. unfold managed_of. rewrite Hu.
    rewrite (proj2 (String.eqb_neq _ _)) by done. rewrite <- Hn. by destruct x.
Qed.

Lemma managed_names_nodup : NoDup (map mc_docker_name l).
Proof.
  rewrite Hl. clear l Hl. pose proof (NoDup_fst_map_to_list m) as Hnd.
  induction (map_to_list m) as [|[n c] l IH]; [constructor|]. simpl in Hnd.
  apply NoDup_cons in Hnd as [Hn Hnd]. cbn [omap list_omap].
  destruct (managed_of (n, c)) as [x|] eqn:E; [|by apply IH].
  simpl. apply NoDup_cons. split; [|by apply IH].
  assert (En : mc_docker_name x = n).
  { unfold managed_of in E. by destruct (String.eqb (uid_of c) ""); [|injection E as <-]. }
  rewrite En. intros Hin. apply Hn. change (n ∈ map fst l).
  apply list_elem_of_fmap in Hin as (y & -> & Hy). apply list_elem_of_omap in Hy as ([k b] & Hin & Ey).
  apply list_elem_of_fmap. exists (k, b). split; [|done]. unfold managed_of in Ey.
  by destruct (String.eqb (uid_of b) ""); [|injection Ey as <-].
Qed.

Definition names_of_uid (u : string) : list string :=
  map mc_docker_name (List.filter (λ x, String.eqb (mc_uid x) u) l).

Lemma names_of_uid_in u n : u ≠ "" →
  n ∈ names_of_uid u ↔ ∃ c, m !! n = Some c ∧ uid_of c = u.
Proof.
  intros Hu. unfold names_of_uid. rewrite list_elem_of_fmap. split.
  - intros (x & -> & Hx). rewrite list_elem_of_In, List.filter_In in Hx.
    destruct Hx as [Hx Eu]. apply String.eqb_eq in Eu. apply list_elem_of_In, managed_in in Hx as (c & Hc & Hu' & _).
    exists c. split; [done|congruence].
  - intros (c & Hc & Eu). exists (MkManaged u (default "" (dc_labels c !! "io.k8s.container.name")) n).
    split; [done|]. rewrite list_elem_of_In, List.filter_In, <- list_elem_of_In.
    split; [|by rewrite String.eqb_refl]. apply managed_in. simpl. eauto.
Qed.

Lemma names_of_uid_nodup u : NoDup (names_of_uid u).
Proof.
  unfold names_of_uid. pose proof managed_names_nodup as Hnd. clear Hl.
  induction l as [|x l' IH]; [constructor|]. simpl in Hnd. apply NoDup_cons in Hnd as [Hx Hnd]. simpl.
  destruct (String.eqb (mc_uid x) u); [|by apply IH]. simpl. apply NoDup_cons.
  split; [|by apply IH]. intros Hin. apply Hx. apply list_elem_of_fmap in Hin as (y & -> & Hy).
  apply list_elem_of_fmap. exists y. split; [done|].
  rewrite list_elem_of_In, List.filter_In in Hy. destruct Hy. by apply list_elem_of_In.
Qed.
End managed_lists.

(** ** Grouping *)


Lemma orphans_fold known l g u :
  fold_left (add_orphan known) l g !! u =
    if decide (u ∈ known) then g !! u
    else match names_of_uid l u with
         | [] => g !! u
         | ns => Some (default [] (g !! u) ++ ns)
         end.
Proof.
  revert g. induction l as [|x l IH]; intros g; [by case_decide|]. cbn [fold_left]. rewrite IH.
  unfold names_of_uid. cbn [List.filter]. unfold add_orphan.
  destruct (String.eqb_spec (mc_uid x) u) as [Ex|Ex]; case_bool_decide as Hk.
  - subst u. by rewrite !decide_True.
  - subst u. rewrite !decide_False by done. cbn [map]. rewrite lookup_insert_eq.
    destruct (map mc_docker_name (List.filter _ l)) as [|n ns] eqn:E; [done|].
    f_equal. simpl. by rewrite <- app_assoc.
  - done.
  - by rewrite lookup_insert_ne.
Qed.

Lemma orphans_lookup known l u ns : orphans_by_uid known l !! u = Some ns →
  u ∉ known ∧ ns = names_of_uid l u.
Proof.
  unfold orphans_by_uid. rewrite orphans_fold. case_decide; [done|]. rewrite lookup_empty.
  destruct (names_of_uid l u) eqn:E; [done|]. by intros [= <-].
Qed.

(** ** Reaping *)

Section reaping.
Context {K D L Q : Type} `{RuntimeLaws D} `{PodLister L}.
Context (volume_root : option path)
        (range_groups : gmap string (list string) → list (string * list string)).
Hypothesis Hgroups : ∀ g, range_groups g ≡ₚ map_to_list g.
Abbreviation St := (rstate K D L Q).
Implicit Types (s : St) (n u : string).

(** A run that removes the containers named [ns], all of them when [all], and
    changes no other container, nor the volumes. *)
Definition reaped (ns : list string) (all : bool) s s' : Prop :=
  (∀ k, k ∉ ns → boxes s' !! k = boxes s !! k) ∧
  (∀ k, boxes s !! k = None → boxes s' !! k = None) ∧
  (all = true → ∀ k, k ∈ ns → boxes s' !! k = None) ∧
  rs_host s' = rs_host s ∧ rs_lister s' = rs_lister s.

Definition present (ns : list string) s : Prop := NoDup ns ∧ ∀ k, k ∈ ns → is_Some (boxes s !! k).

Lemma reaped_refl ns s : (ns = [] ∨ ∀ k, k ∈ ns → boxes s !! k = None) → ∀ b, reaped ns b s s.
Proof.
  intros Hns b. split; [done|]. split; [done|]. split; [|done]. intros _ k Hk.
  destruct Hns as [->|Hns]; [by apply elem_of_nil in Hk|by apply Hns].
Qed.

(** Stop and remove the first of the names. *)
Lemma stop_remove n g ns s : present (n :: ns) s → ∃ s1 q s2 r,
  on_docker (stop_container n g) s = (s1, Val q) ∧
  on_docker (remove_container n) s1 = (s2, Val r) ∧
  (r = Ok tt ∧ boxes s2 !! n = None ∨ (∃ e, r = Err e)) ∧
  (∀ k, k ≠ n → boxes s2 !! k = boxes s !! k) ∧
  rs_host s2 = rs_host s ∧ rs_lister s2 = rs_lister s ∧ present ns s2 ∧ n ∉ ns.
Proof.
  intros [Hnd Hex]. apply NoDup_cons in Hnd as [Hn Hnd].
  assert (Hexn : is_Some (boxes s !! n)) by (apply Hex; by left).
  destruct (stop_law n g (rs_docker s)) as (d1 & q & E1 & Hk1 & Hl1); [by right|].
  destruct (on_docker_run _ _ _ _ E1) as (s1 & E1' & Hs1 & _ & Hh1 & Hli1 & _).
  destruct (remove_law n (rs_docker s1)) as (d2 & r & E2 & Hd2).
  { right. rewrite Hs1. unfold boxes in Hexn. destruct Hexn as [c Hc]. rewrite Hc in Hl1.
    destruct (containers d1 !! n); [by eexists|done]. }
  destruct (on_docker_run _ _ _ _ E2) as (s2 & E2' & Hs2 & _ & Hh2 & Hli2 & _).
  assert (Hother : ∀ k, k ≠ n → boxes s2 !! k = boxes s !! k).
  { intros k Hk. unfold boxes. rewrite Hs2, Hd2, Hs1. destruct r; rewrite ?lookup_delete_ne by done; by apply Hk1. }
  exists s1, q, s2, r. split; [done|]. split; [done|]. split.
  { destruct r as [[]|e]; [left|right; by eexists]. split; [done|]. unfold boxes.
    by rewrite Hs2, Hd2, lookup_delete_eq. }
  split; [done|]. split; [congruence|]. split; [congruence|]. split; [|done]. split; [done|].
  intros k Hk. rewrite Hother by (intros ->; done). apply Hex. by right.
Qed.

Lemma reaped_cons n ns b s s2 s' :
  (∀ k, k ≠ n → boxes s2 !! k = boxes s !! k) → is_Some (boxes s !! n) →
  rs_host s2 = rs_host s → rs_lister s2 = rs_lister s → n ∉ ns →
  (b = true → boxes s2 !! n = None) → reaped ns b s2 s' → reaped (n :: ns) b s s'.
Proof.
  intros Hk Hex Hh Hl Hn Hgone (Hr1 & Hr2 & Hr3 & Hr4 & Hr5). split.
  - intros k [Hne Hns]%not_elem_of_cons. by rewrite Hr1, Hk.
  - split; [|split; [|split; congruence]].
    + intros k Ek. apply Hr2. rewrite Hk; [done|]. intros ->. destruct Hex. congruence.
    + intros Hb k [->|Hin]%elem_of_cons; [|by apply Hr3]. by apply Hr2, Hgone.
Qed.

Lemma reap_names_run ns s : present ns s →
  ∃ s' r, reap_names ns s = (s', Val r) ∧ reaped ns (is_ok r) s s'.
Proof.
  revert s. induction ns as [|n ns IH]; intros s Hp; cbn [reap_names].
  { eexists _, _. split; [done|]. apply reaped_refl. by left. }
  destruct (stop_remove n ten_seconds ns s Hp) as (s1 & q & s2 & r & E1 & E2 & Hr & Hk & Hh & Hli & Hp2 & Hn).
  assert (Hexn : is_Some (boxes s !! n)) by (apply Hp; by left).
  erewrite bind_val by exact E1. erewrite bind_val by exact E2.
  destruct Hr as [[-> Hg]|[e ->]].
  - destruct (IH s2 Hp2) as (s' & r' & E & Hrp). eexists _, _. split; [exact E|].
    by apply (reaped_cons n ns _ s s2).
  - eexists _, _. split; [done|]. split; [|split; [|by split]].
    + intros k [Hne _]%not_elem_of_cons. by apply Hk.
    + intros k Ek. rewrite Hk; [done|]. intros ->. destruct Hexn. congruence.
Qed.

(** The loop of the orphan reaper goes on when a removal fails. *)
Definition removes_all : Prop := ∀ n (d d' : D) r, remove_container n d = (d', Val r) → is_ok r = true.

Lemma reap_group_run ns s : present ns s →
  ∃ s', reap_group ns s = (s', Val tt) ∧ reaped ns false s s' ∧ (removes_all → reaped ns true s s').
Proof.
  revert s. induction ns as [|n ns IH]; intros s Hp; cbn [reap_group].
  { eexists _. split; [done|]. split; [|intros _]; apply reaped_refl; by left. }
  destruct (stop_remove n ten_seconds ns s Hp) as (s1 & q & s2 & r & E1 & E2 & Hr & Hk & Hh & Hli & Hp2 & Hn).
  assert (Hexn : is_Some (boxes s !! n)) by (apply Hp; by left).
  erewrite bind_val by exact E1. erewrite bind_val by exact E2.
  destruct (IH s2 Hp2) as (s' & E & Hrp & Hall). exists s'. split; [done|]. split.
  - by apply (reaped_cons n ns _ s s2).
  - intros Hra. apply (reaped_cons n ns _ s s2); [done..| |by apply Hall]. intros _.
    destruct Hr as [[_ Hg]|[e ->]]; [done|]. revert E2. unfold on_docker, zoom.
    destruct (remove_container n (rs_docker s1)) as [d o] eqn:E2. intros [= _ ->].
    by apply Hra in E2.
Qed.

Lemma remove_volumes_run u s : quiet (rs_host s) → ∃ s',
  remove_volumes volume_root u s = (s', Val tt) ∧ boxes s' = boxes s ∧ rs_lister s' = rs_lister s ∧
  rs_host s' = match volume_root with
               | None => rs_host s
               | Some root => MkFs (remove_tree (pod_volume_root root u) (fs_nodes (rs_host s))) []
               end.
Proof.
  intros Hq. unfold remove_volumes. destruct volume_root as [root|]; [|by exists s].
  eexists. split.
  - erewrite bind_val; [reflexivity|]. by apply zoom_run, syscall_quiet.
  - done.
Qed.

Lemma by_label_run u s : u ≠ "" → ∃ s' ns,
  container_names_by_label u s = (s', Val ns) ∧
  boxes s' = boxes s ∧ rs_host s' = rs_host s ∧ rs_lister s' = rs_lister s ∧
  ((∃ d e, list_managed (rs_docker s) = (d, Val (Err e))) ∧ ns = [] ∨
   NoDup ns ∧ ∀ n, n ∈ ns ↔ ∃ c, boxes s !! n = Some c ∧ uid_of c = u).
Proof.
  intros Hu. destruct (list_law (rs_docker s)) as (d & r & E & Hd & Hr).
  destruct (on_docker_run _ _ _ _ E) as (s' & E' & Hs' & _ & Hh & Hli & _).
  unfold container_names_by_label. erewrite bind_val by exact E'.
  assert (Hb : boxes s' = boxes s) by (unfold boxes; congruence).
  destruct r as [l|e]; eexists _, _; (split; [done|]); (split; [done|]); (split; [done|]); (split; [done|]).
  - right. split; [by eapply names_of_uid_nodup|]. intros n. by apply names_of_uid_in.
  - left. eauto.
Qed.

(** C25: reaping the Pod of a uid returns; it changes no container of another
    Pod and creates none; when it reports no error no container of the uid is
    left, unless the daemon refused the listing, an error that is swallowed;
    and when it has removed containers the volumes of the Pod are gone too. *)
Theorem reap_removes_pod u s :
  u ≠ "" → quiet (rs_host s) →
  ∃ s' r, reap_by_uid volume_root u s = (s', Val r) ∧
    (∀ n c, boxes s !! n = Some c → uid_of c ≠ u → boxes s' !! n = Some c) ∧
    (∀ n, boxes s !! n = None → boxes s' !! n = None) ∧
    ((∃ d e, list_managed (rs_docker s) = (d, Val (Err e))) ∧ r = Ok tt ∧ boxes s' = boxes s ∨
     (is_ok r = true →
        (∀ n c, boxes s' !! n = Some c → uid_of c ≠ u) ∧
        ∀ n c root, boxes s !! n = Some c → uid_of c = u → volume_root = Some root →
          ∀ q, pod_volume_root root u `prefix_of` q → fs_nodes (rs_host s') !! q = None)).
Proof.
  intros Hu Hq. destruct (by_label_run u s Hu) as (s1 & ns & E1 & Hb1 & Hh1 & Hl1 & Hns).
  unfold reap_by_uid. erewrite bind_val by exact E1.
  destruct Hns as [[Herr ->]|[Hnd Hns]].
  { eexists _, _. split; [done|]. rewrite Hb1. split; [done|]. split; [done|]. by left. }
  assert (Hkeep : ∀ s' b, reaped (rev ns) b s1 s' →
    (∀ n c, boxes s !! n = Some c → uid_of c ≠ u → boxes s' !! n = Some c) ∧
    (∀ n, boxes s !! n = None → boxes s' !! n = None)).
  { intros s' b (Hr1 & Hr2 & _). rewrite Hb1 in Hr1, Hr2. split; [|done].
    intros n c Hc Hne. rewrite Hr1; [done|]. rewrite elem_of_rev, Hns.
    intros (c' & Hc' & Ec'). congruence. }
  destruct ns as [|n0 ns0] eqn:Ens; [|rewrite <- Ens in *; clear Ens].
  { eexists _, _. split; [done|]. destruct (Hkeep s1 true) as [Hk1 Hk2]; [by apply reaped_refl; left|].
    split; [done|]. split; [done|]. right. intros _. rewrite Hb1. split.
    - intros n c Hc Ec. apply (not_elem_of_nil n), Hns. by exists c.
    - intros n c root Hc Ec. exfalso. apply (not_elem_of_nil n), Hns. by exists c. }
  destruct (reap_names_run (rev ns) s1) as (s2 & r & E2 & Hr).
  { split; [by apply NoDup_rev|]. intros k.
    rewrite elem_of_rev, Hns, Hb1. intros (c & Hc & _). by exists c. }
  destruct (Hkeep s2 (is_ok r) Hr) as [Hk1 Hk2]. destruct Hr as (Hr1 & Hr2 & Hr3 & Hr4 & Hr5).
  destruct r as [[]|e].
  - erewrite ebind_ok by exact E2. destruct (remove_volumes_run u s2) as (s3 & E3 & Hb3 & _ & Hh3); [congruence|].
    erewrite bind_val by exact E3. eexists _, _. split; [done|]. rewrite Hb3. split; [done|]. split; [done|].
    right. intros _. split.
    + intros n c Hc Ec. assert (Hin : boxes s !! n <> None) by (intros En; apply Hk2 in En; congruence).
      destruct (boxes s !! n) as [c1|] eqn:Ec1; [|done].
      destruct (decide (uid_of c1 = u)) as [Ec2|Ec2].
      * rewrite Hr3 in Hc; [done..|]. rewrite elem_of_rev, Hns. by exists c1.
      * apply Hk1 in Ec1; [|done]. congruence.
    + intros n c root Hc Ec Hroot q Hpre. rewrite Hh3, Hroot. simpl. unfold remove_tree.
      apply map_lookup_filter_None. right. intros x _. simpl. unfold in_tree.
      by rewrite bool_decide_true.
  - erewrite ebind_err by exact E2. eexists _, _. split; [done|]. split; [done|]. split; [done|]. by right.
Qed.

(** Groups of containers of different uids. *)
Definition groups_of (gs : list (string * list string)) s : Prop :=
  NoDup (map fst gs) ∧
  ∀ u ns, (u, ns) ∈ gs → NoDup ns ∧ ∀ n, n ∈ ns → ∃ c, boxes s !! n = Some c ∧ uid_of c = u.

Lemma reap_groups_run gs s : groups_of gs s → quiet (rs_host s) →
  ∃ s', reap_groups volume_root gs s = (s', Val tt) ∧
    (∀ n c, boxes s !! n = Some c → uid_of c ∉ map fst gs → boxes s' !! n = Some c) ∧
    (∀ n, boxes s !! n = None → boxes s' !! n = None) ∧
    (removes_all → ∀ u ns n, (u, ns) ∈ gs → n ∈ ns → boxes s' !! n = None).
Proof.
  revert s. induction gs as [|[u ns] gs IH]; intros s [Hnd Hg] Hq; cbn [reap_groups].
  { exists s. split; [done|]. split; [done|]. split; [done|]. intros _ u ns n Hin. by apply elem_of_nil in Hin. }
  change (NoDup (u :: map fst gs)) in Hnd. apply NoDup_cons in Hnd as [Hu Hnd].
  destruct (Hg u ns) as [Hnns Hns]; [by left|].
  destruct (reap_group_run ns s) as (s1 & E1 & (Hr1 & Hr2 & _ & Hh1 & Hl1) & Hall).
  { split; [done|]. intros k Hk. destruct (Hns k Hk) as (c & Hc & _). by exists c. }
  destruct (remove_volumes_run u s1) as (s2 & E2 & Hb2 & Hl2 & Hh2); [by rewrite Hh1|].
  erewrite bind_val by exact E1. erewrite bind_val by exact E2.
  assert (Hstay : ∀ n c, boxes s !! n = Some c → uid_of c ≠ u → boxes s2 !! n = Some c).
  { intros n c Hc Hne. rewrite Hb2, Hr1; [done|]. intros Hin. destruct (Hns n Hin) as (c' & Hc' & <-). congruence. }
  destruct (IH s2) as (s' & E & H1' & H2' & H3').
  { split; [done|]. intros v ms Hin. destruct (Hg v ms) as [Hm Hms]; [by right|]. split; [done|].
    intros n Hn. destruct (Hms n Hn) as (c & Hc & Ev). exists c. split; [|done]. apply Hstay; [done|].
    rewrite Ev. intros ->. apply Hu. apply list_elem_of_fmap. by exists (u, ms). }
  { rewrite Hh2. destruct volume_root; [done|]. by rewrite Hh1. }
  exists s'. split; [done|]. split; [|split].
  - intros n c Hc [Hne Hin]%not_elem_of_cons. apply H1'; [|done]. by apply Hstay.
  - intros n Hn. apply H2'. rewrite Hb2. by apply Hr2.
  - intros Hra v ms n [[= -> ->]|Hin]%elem_of_cons Hn; [|by apply (H3' Hra v ms)].
    apply H2'. rewrite Hb2. destruct (Hall Hra) as (_ & _ & Hgone & _). by apply Hgone.
Qed.

Lemma orphan_groups known l s : l ≡ₚ omap managed_of (map_to_list (boxes s)) →
  groups_of (range_groups (orphans_by_uid known l)) s ∧
  (∀ u, u ∈ map fst (range_groups (orphans_by_uid known l)) → u ∉ known ∧ u ≠ "") ∧
  ∀ n c, boxes s !! n = Some c → uid_of c ∉ known → uid_of c ≠ "" →
    ∃ ns, (uid_of c, ns) ∈ range_groups (orphans_by_uid known l) ∧ n ∈ ns.
Proof.
  intros Hl. set (g := orphans_by_uid known l).
  assert (Hin : ∀ u ns, (u, ns) ∈ range_groups g ↔ g !! u = Some ns).
  { intros u ns. rewrite (Hgroups g). apply elem_of_map_to_list. }
  assert (Hne : ∀ u ns, g !! u = Some ns → u ∉ known ∧ u ≠ "" ∧ ns = names_of_uid l u).
  { intros u ns E. pose proof E as [Hk ->]%orphans_lookup. split; [done|]. split; [|done].
    unfold g, orphans_by_uid in E. rewrite orphans_fold, decide_False, lookup_empty in E by done.
    destruct (names_of_uid l u) as [|n ns] eqn:En; [done|].
    assert (Hn : n ∈ names_of_uid l u) by (rewrite En; by left).
    unfold names_of_uid in Hn. apply list_elem_of_fmap in Hn as (x & _ & Hx).
    rewrite list_elem_of_In, List.filter_In in Hx. destruct Hx as [Hx Eu].
    apply String.eqb_eq in Eu as <-. apply list_elem_of_In in Hx.
    apply (managed_in _ _ Hl) in Hx. by destruct Hx as (c & _ & _ & Hne & _). }
  split; [split|split].
  - rewrite (Hgroups g). apply NoDup_fst_map_to_list.
  - intros u ns (Hk & Hu & ->)%Hin%Hne. split; [by eapply names_of_uid_nodup|].
    intros n Hn. by apply (names_of_uid_in (boxes s)) in Hn.
  - intros u Hu. apply list_elem_of_fmap in Hu as ([u' ns] & -> & Hu%Hin%Hne). by destruct Hu as (? & ? & _).
  - intros n c Hc Hk Hu.
    assert (Hn : n ∈ names_of_uid l (uid_of c)) by (apply (names_of_uid_in (boxes s)); eauto).
    exists (names_of_uid l (uid_of c)). split; [|done]. apply Hin. unfold g, orphans_by_uid.
    rewrite orphans_fold, decide_False, lookup_empty by done.
    by destruct (names_of_uid l (uid_of c)); [apply elem_of_nil in Hn|].
Qed.

Lemma orphans_run s :
  quiet (rs_host s) →
  ∃ s' r, reap_orphans volume_root range_groups s = (s', Val r) ∧
    (∀ n, boxes s !! n = None → boxes s' !! n = None) ∧
    match lister_list (rs_lister s) with
    | Err _ => boxes s' = boxes s
    | Ok pods =>
        (∀ n c, boxes s !! n = Some c → uid_of c = "" ∨ uid_of c ∈ map p_uid pods → boxes s' !! n = Some c) ∧
        (is_ok r = true → removes_all →
         ∀ n c, boxes s' !! n = Some c → uid_of c = "" ∨ uid_of c ∈ map p_uid pods)
    end.
Proof.
  intros Hq. destruct (list_law (rs_docker s)) as (d & r & E & Hd & Hr).
  destruct (on_docker_run _ _ _ _ E) as (s1 & E1 & Hs1 & _ & Hh1 & Hl1 & _).
  assert (Hb1 : boxes s1 = boxes s) by (unfold boxes; congruence).
  unfold reap_orphans. destruct r as [l|e].
  2:{ erewrite ebind_err by exact E1. eexists _, _. split; [done|]. rewrite Hb1.
      split; [done|]. by destruct (lister_list (rs_lister s)). }
  erewrite ebind_ok by exact E1. fold (boxes s) in Hr. destruct l as [|x l'] eqn:El.
  { eexists _, _. split; [done|]. rewrite Hb1. split; [done|].
    destruct (lister_list (rs_lister s)) as [pods|e]; [|done]. split; [done|].
    intros _ _ n c Hc. left. destruct (decide (uid_of c = "")) as [|Hu]; [done|exfalso].
    apply (not_elem_of_nil n). by apply (names_of_uid_in _ _ Hr (uid_of c) n Hu); exists c. }
  rewrite <- El in E, E1, Hr. rewrite <- El. clear El x l' E E1.
  assert (El : (let* l := gets rs_lister in of_res (lister_list l) : M St (res (list pod))) s1
               = (s1, Val (lister_list (rs_lister s)))) by (unfold bind, gets; by rewrite Hl1).
  destruct (lister_list (rs_lister s)) as [pods|e].
  2:{ erewrite ebind_err by exact El. eexists _, _. split; [done|]. by rewrite Hb1. }
  erewrite ebind_ok by exact El. set (known := list_to_set (map p_uid pods) : gset string).
  destruct (orphan_groups known l s1) as (Hg & Hk & Hin); [by rewrite Hb1|].
  destruct (reap_groups_run _ s1 Hg) as (s2 & E2 & Hr1 & Hr2 & Hr3); [by rewrite Hh1|].
  erewrite bind_val by exact E2. eexists _, _. split; [done|]. rewrite Hb1 in Hr1, Hr2.
  split; [done|]. split.
  - intros n c Hc Hknown. apply Hr1; [done|]. intros [Hk1 Hk2]%Hk. destruct Hknown as [|Hp]; [done|].
    apply Hk1. unfold known. by apply elem_of_list_to_set.
  - intros _ Hra n c Hc. destruct (decide (uid_of c = "")) as [|Hu]; [by left|right].
    destruct (decide (uid_of c ∈ known)) as [Hkn|Hkn]; [by apply elem_of_list_to_set in Hkn|exfalso].
    destruct (boxes s !! n) as [c0|] eqn:Ec0; [|apply Hr2 in Ec0; congruence].
    destruct (decide (uid_of c0 ∈ map fst (range_groups (orphans_by_uid known l)))) as [Hi|Hi].
    + destruct (Hin n c0) as (ns & Hns & Hnn); [by rewrite Hb1|by apply Hk..|].
      rewrite (Hr3 Hra _ _ _ Hns Hnn) in Hc. done.
    + apply Hr1 in Ec0 as Ec1; [|done]. assert (c0 = c) as -> by congruence.
      destruct (Hin n c) as (ns & Hns & Hnn); [by rewrite Hb1|done..|].
      apply Hi. apply list_elem_of_fmap. by exists (uid_of c, ns).
Qed.

(** C24: the orphan reaper returns; it leaves every container of a Pod the
    lister knows, and every container that is not of a Pod, as it is; when the
    daemon and the lister answer and removals succeed it leaves no container
    of any other Pod; when the lister fails it changes nothing. *)
Theorem orphans_reaped s :
  quiet (rs_host s) →
  ∃ s' r, reap_orphans volume_root range_groups s = (s', Val r) ∧
    (∀ n, boxes s !! n = None → boxes s' !! n = None) ∧
    match lister_list (rs_lister s) with
    | Err _ => boxes s' = boxes s
    | Ok pods =>
        (∀ n c, boxes s !! n = Some c → uid_of c = "" ∨ uid_of c ∈ map p_uid pods → boxes s' !! n = Some c) ∧
        (is_ok r = true → removes_all →
         ∀ n c, boxes s' !! n = Some c → uid_of c = "" ∨ uid_of c ∈ map p_uid pods)
    end.
Proof. apply orphans_run. Qed.
End reaping.
