(* ===== verification/ReconcilerEnd.v ===== *)
(** * Terminating a Pod, reporting a failure once, naming events

    The order of the calls of [terminatePod] is stated on a runtime and an API
    client that record the calls made to them: an instance of each interface
    over any other instance. *)

From S2P Require Import Prelude GoStrings Fs Translate Projection Docker.
From S2P Require Import Reconciler ReconcilerFacts.

(** ** Recording the calls *)

Inductive docker_call :=
  | CPull (ref policy : string)
  | CCreate (name : string)
  | CInspect (name : string)
  | CStop (name : string) (grace : Z)
  | CRemove (name : string)
  | CList.

Inductive kube_call :=
  | KGetConfigMap (namespace name : string)
  | KGetSecret (namespace name : string)
  | KPatch (namespace name : string)
  | KDelete (namespace name : string) (grace : Z)
  | KEvent (e : kevent).

(** Run [m], then append [c] to the record. *)
Definition recording {S C A} (c : C) (m : M S A) : M (S * list C) A := λ s,
  let '(s', o) := m s.1 in ((s', s.2 ++ [c]), o).

#[export] Instance recorded_runtime {D} `{DockerRuntime D} : DockerRuntime (D * list docker_call) := {|
  ensure_pulled r p := recording (CPull r p) (ensure_pulled r p);
  create_and_start n sp := recording (CCreate n) (create_and_start n sp);
  inspect n := recording (CInspect n) (inspect n);
  stop_container n g := recording (CStop n g) (stop_container n g);
  remove_container n := recording (CRemove n) (remove_container n);
  list_managed := recording CList list_managed
|}.

#[export] Instance recorded_kube {K} `{KubeAPI K} : KubeAPI (K * list kube_call) := {|
  get_config_map ns n := recording (KGetConfigMap ns n) (get_config_map ns n);
  get_secret ns n := recording (KGetSecret ns n) (get_secret ns n);
  patch_pod_status ns n st := recording (KPatch ns n) (patch_pod_status ns n st);
  delete_pod ns n g := recording (KDelete ns n g) (delete_pod ns n g);
  create_event e := recording (KEvent e) (create_event e)
|}.

Definition is_delete (c : kube_call) : bool := match c with KDelete _ _ _ => true | _ => false end.
Definition deletes (l : list kube_call) : list kube_call := List.filter is_delete l.

Lemma recording_run {S C A} (c : C) (m : M S A) s s' l o :
  m s = (s', o) → recording c m (s, l) = ((s', l ++ [c]), o).
Proof. unfold recording. simpl. by intros ->. Qed.

(** ** Terminating *)

Section terminate.
Context {K D L Q : Type} `{KubeAPI K} `{RuntimeLaws D}.
Context (clock : N → Z) (uuids : N → string) (duration_text : Z → string).
Hypothesis Hkube : kube_returns (K := K).
Abbreviation St := (rstate (K * list kube_call) (D * list docker_call) L Q).
Implicit Types (s : St) (p : pod) (n : string).

Definition there s : gmap string dcontainer := containers (rs_docker s).1.
Definition calls s : list docker_call := (rs_docker s).2.
Definition requests s : list kube_call := (rs_kube s).2.

(** The calls for the names that are treated. *)
Definition stop_calls (m : gmap string dcontainer) (grace : Z) (done_ : list string) : list docker_call :=
  flat_map (λ n, CInspect n :: (if bool_decide (is_Some (m !! n)) then [CStop n grace] else [])) done_.

Lemma killing_run p t r msg s : ∃ s', event clock uuids p t r msg s = (s', Val tt) ∧
  rs_docker s' = rs_docker s ∧ deletes (requests s') = deletes (requests s).
Proof.
  destruct Hkube as (_ & _ & _ & _ & Hev). unfold event. unfold bind at 1, modify. unfold bind at 1, gets.
  edestruct Hev as (k' & r' & E). erewrite bind_val.
  2:{ unfold on_kube. apply zoom_run. cbn [create_event recorded_kube].
      rewrite (surjective_pairing (rs_kube (bump_seq s))). apply recording_run. exact E. }
  eexists. split; [reflexivity|]. split; [done|]. unfold requests. simpl.
  unfold deletes. rewrite List.filter_app. simpl. by rewrite app_nil_r.
Qed.

(** A recorded call of the runtime. *)
Lemma recorded_call {A} (c : docker_call) (m : M D A) s d o : m (rs_docker s).1 = (d, o) →
  ∃ s', on_docker (recording c m) s = (s', o) ∧ there s' = containers d ∧
    calls s' = calls s ++ [c] ∧ requests s' = requests s ∧ rs_kube s' = rs_kube s ∧
    (rs_docker s').1 = d.
Proof.
  intros E. eexists. split.
  - unfold on_docker. apply zoom_run. rewrite (surjective_pairing (rs_docker s)). by apply recording_run.
  - done.
Qed.

Lemma stop_calls_ext m m' g l : (∀ n, is_Some (m !! n) ↔ is_Some (m' !! n)) →
  stop_calls m g l = stop_calls m' g l.
Proof.
  intros Hm. unfold stop_calls. apply List.flat_map_ext. intros n.
  by rewrite (bool_decide_ext _ _ (Hm n)).
Qed.

(** What ends the loop: nothing is left, or the last call, an inspection, failed. *)
Definition stopped_at s (rest : list string) : Prop :=
  match rest with [] => True | n :: _ => ∃ d e, inspect n d = ((rs_docker s).1, Val (Err e)) end.

Lemma stop_all_run p g names s :
  (∀ n, n ∈ names → has_prefix "klite_" n = true ∨ is_Some (there s !! n)) →
  ∃ s' r did rest, names = did ++ rest ∧
    stop_all clock uuids duration_text p g names s = (s', Val r) ∧
    calls s' = calls s ++ stop_calls (there s) g did ++
                 match rest with [] => [] | n :: _ => [CInspect n] end ∧
    deletes (requests s') = deletes (requests s) ∧ (is_ok r = true ↔ rest = []) ∧
    (∀ n, is_Some (there s' !! n) ↔ is_Some (there s !! n)) ∧ stopped_at s' rest.
Proof.
  revert s. induction names as [|n names IH]; intros s Hn; cbn [stop_all].
  { exists s, (Ok tt), [], []. cbn. by rewrite app_nil_r. }
  assert (Hn0 : has_prefix "klite_" n = true ∨ is_Some (there s !! n)) by (apply Hn; by left).
  destruct (inspect_law n (rs_docker s).1 Hn0) as (d1 & i & E & Hd1 & Hi).
  destruct (recorded_call (CInspect n) _ s _ _ E) as (s1 & E1 & Ht1 & Hc1 & Hr1 & _ & Hs1).
  rewrite Hd1 in Ht1. fold (there s) in Ht1, Hi.
  erewrite bind_val by exact E1. destruct i as [[v|]|e]; simpl in Hi.
  - assert (Hex : is_Some (there s !! n)) by (destruct (there s !! n); [by eexists|done]).
    destruct (killing_run p "Normal" "Killing" ("Stopping container " +:+ n +:+ " (grace="
                +:+ duration_text g +:+ ")") s1) as (s2 & E2 & Hd2 & Hr2).
    erewrite bind_val by exact E2.
    assert (Ht2 : there s2 = there s) by (unfold there in *; congruence).
    destruct (stop_law n g (rs_docker s2).1) as (d3 & q & E3 & Hk3 & Hl3);
      [right; fold (there s2); by rewrite Ht2|].
    destruct (recorded_call (CStop n g) _ s2 _ _ E3) as (s3 & E3' & Ht3 & Hc3 & Hr3 & _).
    erewrite bind_val by exact E3'. fold (there s2) in Hk3, Hl3. rewrite Ht2 in Hk3, Hl3.
    assert (Hsame : ∀ k, is_Some (there s3 !! k) ↔ is_Some (there s !! k)).
    { intros k. rewrite Ht3. destruct (decide (k = n)) as [->|Hk]; [|by rewrite Hk3].
      destruct (containers d3 !! n), (there s !! n); simpl in Hl3; try done; by split. }
    destruct (IH s3) as (s' & r & did & rest & -> & E' & Hcalls & Hdel & Hok & Hsame' & Hat).
    { intros k Hk. rewrite Hsame. apply Hn. by right. }
    exists s', r, (n :: did), rest. split; [done|]. split; [exact E'|].
    split; [|split; [congruence|split; [done|split; [intros k; by rewrite Hsame'|done]]]].
    assert (Hc2 : calls s2 = calls s1) by (unfold calls; by rewrite Hd2).
    rewrite Hcalls, Hc3, Hc2, Hc1, (stop_calls_ext _ _ _ _ Hsame). unfold stop_calls at 2.
    cbn [flat_map]. rewrite bool_decide_true by done. cbn [app]. fold (stop_calls (there s) g did).
    by rewrite <- !app_assoc.
  - destruct (IH s1) as (s' & r & did & rest & -> & E' & Hcalls & Hdel & Hok & Hsame' & Hat).
    { intros k Hk. rewrite Ht1. apply Hn. by right. }
    exists s', r, (n :: did), rest. split; [done|]. split; [exact E'|].
    split; [|split; [congruence|split; [done|split; [intros k; by rewrite Hsame', Ht1|done]]]].
    rewrite Hcalls, Hc1, Ht1. unfold stop_calls at 2. cbn [flat_map].
    rewrite bool_decide_false by (destruct (there s !! n); [done|by intros [? ?]]).
    cbn [app]. by rewrite <- app_assoc.
  - eexists s1, _, [], (n :: names). split; [done|]. split; [reflexivity|]. cbn.
    split; [done|]. split; [by rewrite Hr1|]. split; [done|]. split; [intros k; by rewrite Ht1|].
    exists (rs_docker s).1, e. by rewrite Hs1.
Qed.

(** The containers of a Pod, from its specification or the labels. *)
Lemma pod_names_run p s : ∃ s' names c, container_names_for_pod p s = (s', Val names) ∧
  there s' = there s ∧ calls s' = calls s ++ c ∧ requests s' = requests s ∧
  (∀ n, n ∈ names → has_prefix "klite_" n = true ∨ is_Some (there s !! n)) ∧
  (p_containers p ≠ [] → c = [] ∧ names = map (λ x, container_name (p_uid p) (c_name x)) (p_containers p)).
Proof.
  unfold container_names_for_pod. destruct (p_containers p) as [|c0 cs] eqn:Ep.
  - unfold container_names_by_label. destruct (list_law (rs_docker s).1) as (d & r & E & Hd & Hr).
    destruct (recorded_call CList _ s _ _ E) as (s' & E' & Ht & Hc & Hreq & _).
    rewrite Hd in Ht. fold (there s) in Ht, Hr.
    erewrite bind_val by exact E'. destruct r as [l|e]; eexists _, _, _; (split; [reflexivity|]);
      (split; [exact Ht|]); (split; [exact Hc|]); (split; [exact Hreq|]); (split; [|done]).
    + intros n Hn. right. apply list_elem_of_fmap in Hn as (x & -> & Hx).
      rewrite list_elem_of_In, List.filter_In, <- list_elem_of_In in Hx. destruct Hx as [Hx _].
      rewrite Hr in Hx. apply list_elem_of_omap in Hx as ([k b] & Hin & Eb). apply elem_of_map_to_list in Hin.
      unfold managed_of in Eb. destruct (String.eqb (uid_of b) ""); [done|]. injection Eb as <-. simpl. by exists b.
    + intros n Hn. by apply elem_of_nil in Hn.
  - exists s, (map (λ x, container_name (p_uid p) (c_name x)) (c0 :: cs)), [].
    split; [reflexivity|]. split; [done|]. split; [by rewrite app_nil_r|]. split; [done|]. split; [|done].
    intros n Hn. left. apply list_elem_of_fmap in Hn as (x & -> & _). done.
Qed.

(** The result: the answer to the request for the deletion, or the failure. *)
Definition ended p s (r : res unit) (rest : list string) : Prop :=
  match rest with
  | [] => ∃ k r', delete_pod (p_namespace p) (p_name p) 0 k = ((rs_kube s).1, Val r') ∧
                  is_ok r = match r' with Err e => is_api_not_found e | Ok _ => true end
  | _ :: _ => is_ok r = false ∧ stopped_at s rest
  end.

Lemma terminate_run p s :
  p_containers p ≠ [] →
  ∃ s' r did rest, terminate_pod clock uuids duration_text p s = (s', Val r) ∧
    rev (map (λ x, container_name (p_uid p) (c_name x)) (p_containers p)) = did ++ rest ∧
    calls s' = calls s ++
      flat_map (λ n, CInspect n :: (if bool_decide (is_Some (there s !! n))
                                    then [CStop n (grace_of p)] else [])) did ++
      match rest with [] => [] | n :: _ => [CInspect n] end ∧
    ended p s' r rest ∧
    deletes (requests s') = deletes (requests s) ++
      match rest with [] => [KDelete (p_namespace p) (p_name p) 0] | _ :: _ => [] end.
Proof.
  intros Hp. destruct (pod_names_run p s) as (s1 & names & c & E1 & Ht1 & Hc1 & Hr1 & Hn & Hnames).
  destruct (Hnames Hp) as [-> Enames]. rewrite app_nil_r in Hc1. unfold terminate_pod.
  erewrite bind_val by exact E1.
  destruct (stop_all_run p (grace_of p) (rev names) s1) as (s2 & r & did & rest & En & E2 & Hcalls & Hdel & Hok & _ & Hat).
  { intros n Hin. rewrite Ht1. apply Hn. by rewrite elem_of_rev in Hin. }
  rewrite Hc1, Ht1 in Hcalls. rewrite Enames in En. destruct rest as [|n rest].
  - destruct r as [[]|e]; [|by pose proof (proj2 Hok eq_refl)]. erewrite ebind_ok by exact E2.
    destruct Hkube as (_ & _ & _ & Hdelete & _).
    destruct (Hdelete (p_namespace p) (p_name p) 0%Z (rs_kube s2).1) as (k3 & r3 & E3).
    erewrite bind_val.
    2:{ unfold on_kube. apply zoom_run. cbn [delete_pod recorded_kube].
        rewrite (surjective_pairing (rs_kube s2)). apply recording_run. exact E3. }
    eexists _, (match r3 with Err e => if is_api_not_found e then Ok tt else Err e | Ok _ => Ok tt end), did, [].
    split; [destruct r3 as [u|e]; [|destruct (is_api_not_found e)]; reflexivity|].
    split; [done|]. split; [exact Hcalls|]. split.
    { eexists _, r3. split; [exact E3|]. destruct r3 as [u|e]; [|destruct (is_api_not_found e) eqn:Ee]; simpl; by rewrite ?Ee. }
    unfold requests. simpl. unfold deletes. rewrite List.filter_app. simpl.
    change (List.filter is_delete (rs_kube s2).2) with (deletes (requests s2)). by rewrite Hdel, Hr1.
  - destruct r as [u|e]; [by pose proof (proj1 Hok eq_refl)|]. erewrite ebind_err by exact E2.
    eexists _, _, did, (n :: rest). split; [reflexivity|]. split; [done|]. split; [exact Hcalls|].
    split; [done|]. by rewrite Hdel, Hr1, app_nil_r.
Qed.

(** Terminating a Pod returns.  The daemon is asked about the containers
    in the reverse of their order in the specification, the sandbox last, and
    those that exist are stopped with the Pod's grace period; if an inspection
    fails, that is the last call, the rest is not touched, the object not
    deleted and an error returned; otherwise the object is deleted, once, with
    grace 0, and the result is the answer to that request, a missing object
    counting as success. *)
Theorem terminate_in_reverse p s :
  p_containers p ≠ [] →
  ∃ s' r did rest, terminate_pod clock uuids duration_text p s = (s', Val r) ∧
    rev (map (λ x, container_name (p_uid p) (c_name x)) (p_containers p)) = did ++ rest ∧
    calls s' = calls s ++
      flat_map (λ n, CInspect n :: (if bool_decide (is_Some (there s !! n))
                                    then [CStop n (grace_of p)] else [])) did ++
      match rest with [] => [] | n :: _ => [CInspect n] end ∧
    ended p s' r rest ∧
    deletes (requests s') = deletes (requests s) ++
      match rest with [] => [KDelete (p_namespace p) (p_name p) 0] | _ :: _ => [] end.
Proof. apply terminate_run. Qed.
End terminate.

(** ** Names of events *)

Lemma format_go_length fuel n acc : (String.length (format_go fuel n acc) <= fuel + String.length acc)%nat.
Proof.
  revert n acc. induction fuel as [|fuel IH]; intros n acc; cbn [format_go]; [done|].
  destruct (n <? 10)%N; [simpl; lia|]. etransitivity; [apply IH|]. simpl. lia.
Qed.

Lemma hex_go_length fuel n acc : (String.length (hex_go fuel n acc) <= fuel + String.length acc)%nat.
Proof.
  revert n acc. induction fuel as [|fuel IH]; intros n acc; cbn [hex_go]; [done|].
  destruct (n <? 16)%N; [simpl; lia|]. etransitivity; [apply IH|]. simpl. lia.
Qed.

Lemma str_take_length n s : (n <= String.length s)%nat → String.length (str_take n s) = n.
Proof.
  unfold str_take. revert s. induction n as [|n IH]; intros [|c s] Hn; simpl in *; try lia.
  by rewrite IH by lia.
Qed.

Lemma hex_int_length z : (String.length (hex_int z) <= 17)%nat.
Proof.
  unfold hex_int. rewrite length_append. pose proof (hex_go_length 16 (Z.abs_N z) "") as Hx.
  set (x := hex_go 16 (Z.abs_N z) "") in *. clearbody x. destruct (z <? 0)%Z; simpl in *; lia.
Qed.

Lemma format_uint_length n : (String.length (format_uint n) <= 20)%nat.
Proof. exact (format_go_length 20 n ""). Qed.

(** The text before the cut. *)
Definition full_name (name : string) (nanos : Z) (seq : N) : string :=
  name +:+ "." +:+ hex_int nanos +:+ "." +:+ format_uint seq.

Lemma event_name_cut name nanos seq uuid :
  event_name name nanos seq uuid = full_name name nanos seq ∧
    (String.length (full_name name nanos seq) <= 253)%nat ∨
  event_name name nanos seq uuid = str_take 200 name +:+ "." +:+ uuid ∧ (214 < String.length name)%nat.
Proof.
  unfold event_name. fold (full_name name nanos seq). destruct (Nat.ltb_spec 253 (String.length (full_name name nanos seq))) as [Hlt|Hle].
  - right. split; [done|]. unfold full_name in Hlt. rewrite !length_append in Hlt.
    pose proof (hex_int_length nanos). pose proof (format_uint_length seq). cbn [String.length] in Hlt. lia.
  - by left.
Qed.

Lemma seq_part name nanos seq :
  full_name name nanos seq = (name +:+ "." +:+ hex_int nanos) +:+ String "." (format_uint seq).
Proof. unfold full_name. by rewrite !append_assoc. Qed.

Lemma no_dot_seq seq : contains_byte "." (format_uint seq) = false.
Proof. by apply all_digits_no_byte; [|apply all_digits_format]. Qed.

(** The name of an event is a valid length for any Pod name, the slice
    that shortens a long name is in range, and two events of a Pod with
    different numbers and different uuids have different names. *)
Theorem event_name_valid name t1 q1 u1 t2 q2 u2 :
  (q1 <= max_u64)%N → (q2 <= max_u64)%N → q1 ≠ q2 → u1 ≠ u2 →
  String.length u1 = 36 → String.length u2 = 36 →
  contains_byte "." u1 = false → contains_byte "." u2 = false →
  (String.length (event_name name t1 q1 u1) <= 253)%nat ∧
  ((253 < String.length (full_name name t1 q1))%nat → (200 <= String.length name)%nat) ∧
  event_name name t1 q1 u1 ≠ event_name name t2 q2 u2.
Proof.
  intros Hq1 Hq2 Hq Hu Hl1 Hl2 Hd1 Hd2.
  pose proof (event_name_cut name t1 q1 u1) as C1. pose proof (event_name_cut name t2 q2 u2) as C2.
  assert (Hcut : ∀ a q u, contains_byte "." u = false → String.length u = 36 →
    full_name name a q ≠ str_take 200 name +:+ "." +:+ u).
  { intros a q u Hd Hl E. rewrite seq_part in E.
    apply append_split_unique in E as [_ E]; [|apply no_dot_seq|done].
    pose proof (format_uint_length q) as Hlen. rewrite E in Hlen. lia. }
  split; [|split].
  - destruct C1 as [[-> Hle]|[-> Hgt]]; [done|]. rewrite !length_append, str_take_length by lia. cbn [String.length]. lia.
  - unfold full_name. rewrite !length_append. pose proof (hex_int_length t1).
    pose proof (format_uint_length q1). cbn [String.length]. lia.
  - destruct C1 as [[-> _]|[-> _]], C2 as [[-> _]|[-> _]].
    + rewrite !seq_part. intros E. apply append_split_unique in E as [_ E]; [|apply no_dot_seq..].
      apply Hq. pose proof (parse_format_uint q1 Hq1) as P1. rewrite E, parse_format_uint in P1 by done.
      by injection P1.
    + by apply Hcut.
    + intros E. by apply (Hcut t2 q2 u1).
    + intros E. apply append_inj_l in E. by injection E as ->.
Qed.

Lemma event_name_valid_witness :
  event_name "web" 1000 1 "11111111-1111-1111-1111-111111111111"
    ≠ event_name "web" 1000 2 "21111111-1111-1111-1111-111111111111".
Proof.
  apply (event_name_valid "web" 1000 1 "11111111-1111-1111-1111-111111111111"
           1000 2 "21111111-1111-1111-1111-111111111111"); try done.
Defined.

(** ** Failures *)

Section failures.
Context {K D L Q : Type} `{KubeAPI K} `{RuntimeLaws D} `{PodLister L} `{WorkQueue Q}.
Context (volume_root : option path) (now : Z) (clock : N → Z) (uuids : N → string)
        (sys_text : err → string) (duration_text : Z → string)
        (range : gmap string string → list (string * string)).
Hypothesis Hkube : kube_returns (K := K).
Abbreviation St := (rstate K D L Q).
Implicit Types (s : St) (p : pod).

(** The failures that were reported are the same. *)
Definition same_failures s s' : Prop := rs_failed s' = rs_failed s.

#[export] Instance same_failures_preorder : PreOrder same_failures.
Proof. split; [done|]. intros s1 s2 s3 Ha Hb. unfold same_failures in *. congruence. Qed.

Lemma keeps_specs p : moves same_failures (specs_of volume_root range p).
Proof.
  unfold specs_of, container_specs_from_pod. destruct (p_containers p) as [|c0 cs]; [by apply moves_pure; [exact _|]|].
  apply moves_specs_from; [exact _|]. intros re pv [= <- <-]. split; intros c; by apply moves_zoom.
Qed.

(** A failure that was not the last one reported for the Pod is reported
    with one status patch, and remembered if the server takes it; the same
    failure is then not reported again; a refused patch is tried again. *)
Theorem failure_reported_once p msg s :
  rs_failed s !! p_uid p ≠ Some msg →
  ∃ s' r k', mark_failed_once p msg s = (s', Val r) ∧
    patch_pod_status (p_namespace p) (p_name p) (failed_pod_status msg) (rs_kube s) = (rs_kube s', Val k') ∧
    is_ok r = match k' with Err e => is_api_not_found e | Ok _ => true end ∧
    rs_failed s' = (if is_ok r then <[p_uid p := msg]> (rs_failed s) else rs_failed s) ∧
    (is_ok r = true → mark_failed_once p msg s' = (s', Val (Ok tt))).
Proof.
  intros Hne. unfold mark_failed_once. unfold bind at 1, gets at 1. rewrite bool_decide_false by done.
  destruct (patch_run Hkube p (failed_pod_status msg) s) as (s1 & r & k' & E & _ & _ & Hf & Ek & Hr).
  destruct r as [[]|e].
  - erewrite ebind_ok by exact E. eexists _, _, k'. split; [reflexivity|]. split; [exact Ek|]. split.
    { destruct k' as [|e]; [done|]. by destruct (is_api_not_found e). }
    simpl. rewrite Hf. split; [done|]. intros _. unfold bind, gets. simpl.
    by rewrite lookup_insert_eq, bool_decide_true.
  - erewrite ebind_err by exact E. eexists _, _, k'. split; [reflexivity|]. split; [exact Ek|]. split.
    { destruct k' as [|e']; [done|]. by destruct (is_api_not_found e'). }
    simpl. by split.
Qed.

(** The memory of a failure outlives it.  A Pod that failed with a message
    and is then reconciled with success has its healthy status reported; if it
    fails again with the same message nothing is reported, and the status the
    server has stays the healthy one. *)
Theorem recovered_failure_unreported p msg s s1 specs :
  rs_failed s !! p_uid p = Some msg →
  reliable (D := D) → p_uid p ≠ "" → p_deleting p = false →
  Forall (λ c, pullable (resolve_pull_policy (c_pull_policy c) (c_image c))) (p_containers p) →
  specs_of volume_root range p s = (s1, Val (Ok specs)) →
  ∃ s' r k views k',
    reconcile_pod volume_root now clock uuids sys_text duration_text range p s = (s', Val r) ∧
    patch_pod_status (p_namespace p) (p_name p) (pod_status_from_views now p views) k
      = (rs_kube s', Val k') ∧
    mark_failed_once p msg s' = (s', Val (Ok tt)).
Proof.
  intros Hmsg Hrel Huid Hlive Hpol Hs.
  destruct (start_all_reports now clock uuids sys_text Hkube p specs ∅ s1 Hrel
              (specs_pullable _ _ _ _ _ _ Hpol Hs))
    as (s' & r & E & k & views & k' & Ek & _ & Hf & _).
  exists s', r, k, views, k'. split; [|split; [exact Ek|]].
  - unfold reconcile_pod. rewrite (proj2 (String.eqb_neq _ _)), Hlive by done.
    by erewrite bind_val by exact Hs.
  - pose proof (keeps_specs p s) as Hk. unfold wp in Hk. rewrite Hs in Hk. simpl in Hk.
    unfold mark_failed_once, bind, gets. by rewrite Hf, Hk, Hmsg, bool_decide_true.
Qed.
End failures.
