(* ===== verification/KubeRaces.v ===== *)
(** * The worker, the reaper and the informer's handlers at the same time

    The worker, the periodic orphan reaper and [DeleteFunc] run in goroutines
    of their own and meet at the Docker daemon.  [shared] is a daemon that
    others use too: before each call of the goroutine in view, one turn of the
    others changes it.  It is a [DockerRuntime] like any other, so the very
    definitions of Reconciler run on it; a turn may be any number of calls, and
    each call of the runtime is one step.  A goroutine [spares] the containers
    whose names are not its own: every property of those that the others keep,
    it keeps too. *)

From S2P Require Import Prelude GoStrings Fs Translate Projection Docker.
From S2P Require Import Reconciler ReconcilerFacts ReconcilerReap.

(** ** A daemon with other clients *)

Record shared (D : Type) := MkShared { sh_docker : D; sh_turns : list (D → D) }.
Arguments MkShared {D}.
Arguments sh_docker {D}.
Arguments sh_turns {D}.

(** The daemon the next call finds. *)
Definition next_docker {D} (s : shared D) : D :=
  match sh_turns s with [] => sh_docker s | t :: _ => t (sh_docker s) end.

Definition after_turn {D A} (m : M D A) : M (shared D) A := λ s,
  let '(d, o) := m (next_docker s) in (MkShared d (tail (sh_turns s)), o).

#[export] Instance shared_runtime {D} `{DockerRuntime D} : DockerRuntime (shared D) := {|
  ensure_pulled ref policy := after_turn (ensure_pulled ref policy);
  create_and_start n sp := after_turn (create_and_start n sp);
  inspect n := after_turn (inspect n);
  stop_container n g := after_turn (stop_container n g);
  remove_container n := after_turn (remove_container n);
  list_managed := after_turn list_managed
|}.

(** ** What a goroutine leaves to the others *)

Section spares.
Context {K D L Q : Type} `{KubeAPI K} `{RuntimeLaws D} `{PodLister L} `{WorkQueue Q}.
Context (volume_root : option path) (now : Z) (clock : N → Z) (uuids : N → string)
        (sys_text : err → string) (duration_text : Z → string)
        (range : gmap string string → list (string * string))
        (range_groups : gmap string (list string) → list (string * list string)).
Abbreviation St := (rstate K (shared D) L Q).
Abbreviation boxmap := (gmap string dcontainer).
Implicit Types (s : St) (p : pod) (n : string) (I : boxmap → Prop) (P : string → Prop).

Definition there s : boxmap := containers (sh_docker (rs_docker s)).

(** The others keep [I]. *)
Definition kept I (turns : list (D → D)) : Prop :=
  Forall (λ t, ∀ d, I (containers d) → I (containers (t d))) turns.

Definition holds I s : Prop := I (there s) ∧ kept I (sh_turns (rs_docker s)).

(** [m] keeps [I] when the others do, and does not change the lister. *)
Definition preserves I {A} (m : M St A) : Prop := ∀ s, holds I s →
  wp m (λ s' _, holds I s' ∧ rs_lister s' = rs_lister s) s.

(** [I] is about the containers whose names are not in [P]. *)
Definition outside P I : Prop := ∀ m m' : boxmap,
  (∀ n, ¬ P n → m' !! n = m !! n) → I m → I m'.

Definition spares P {A} (m : M St A) : Prop := ∀ I, outside P I → preserves I m.

Lemma preserves_bind I {A B} (m : M St A) (f : A → M St B) :
  preserves I m → (∀ a, preserves I (f a)) → preserves I (bind m f).
Proof.
  intros Hm Hf s Hs. apply wp_bind. eapply wp_mono; [|by apply Hm].
  intros s1 [a|k] [Hh1 El]; [|done]. eapply wp_mono; [|by apply Hf].
  simpl. intros s2 o [Hh2 El2]. by rewrite El2.
Qed.

Lemma preserves_ebind I {A B} (m : M St (res A)) (f : A → M St (res B)) :
  preserves I m → (∀ a, preserves I (f a)) → preserves I (ebind m f).
Proof. intros Hm Hf. unfold ebind. apply preserves_bind; [done|]. intros [a|e]; [apply Hf|done]. Qed.

Lemma preserves_frames I {A} (m : M St A) : frames m → preserves I m.
Proof.
  intros Hm s Hs. eapply wp_mono; [|apply Hm]. simpl. intros s' o [Hd El]. split; [|done].
  unfold holds, there. by rewrite Hd.
Qed.

(** One call of the runtime. *)
Lemma preserves_call I {A} (m : M D A) :
  (∀ d, I (containers d) → wp m (λ d' _, I (containers d')) d) →
  preserves I (on_docker (after_turn m) : M St A).
Proof.
  intros Hm s [Hi Ht]. unfold on_docker. apply wp_zoom. unfold wp, after_turn.
  destruct (m (next_docker (rs_docker s))) as [d o] eqn:E. simpl.
  assert (Hn : I (containers (next_docker (rs_docker s))) ∧ kept I (tail (sh_turns (rs_docker s)))).
  { unfold next_docker, kept in *. destruct (sh_turns (rs_docker s)) as [|t ts]; [done|].
    apply Forall_cons in Ht as [Ht1 Ht2]. simpl. auto. }
  split; [|done]. split; [|apply Hn]. unfold there. simpl.
  specialize (Hm _ (proj1 Hn)). unfold wp in Hm. by rewrite E in Hm.
Qed.

Definition klite n : Prop := has_prefix "klite_" n = true.

Section own_names.
Context (P : string → Prop) I.
Hypothesis Hout : outside P I.

Lemma own_pull ref pol : preserves I (on_docker (ensure_pulled ref pol)).
Proof.
  apply preserves_call. intros d Hi. destruct (pull_law ref pol d) as (d' & r & E & Hd).
  unfold wp. rewrite E. simpl. by rewrite Hd.
Qed.

Lemma own_inspect n : klite n → preserves I (on_docker (inspect n)).
Proof.
  intros Hn. apply preserves_call. intros d Hi.
  destruct (inspect_law n d) as (d' & r & E & Hd & _); [by left|]. unfold wp. rewrite E. simpl. by rewrite Hd.
Qed.

Lemma own_list : preserves I (on_docker list_managed).
Proof.
  apply preserves_call. intros d Hi. destruct (list_law d) as (d' & r & E & Hd & _).
  unfold wp. rewrite E. simpl. by rewrite Hd.
Qed.

Lemma own_create n sp : klite n → P n → preserves I (on_docker (create_and_start n sp)).
Proof.
  intros Hn HP. apply preserves_call. intros d Hi.
  destruct (create_law n sp d Hn) as (d' & r & E & Hk & _). unfold wp. rewrite E. simpl.
  eapply Hout; [|exact Hi]. intros k Hnk. apply Hk. by intros ->.
Qed.

Lemma own_stop n g : klite n → P n → preserves I (on_docker (stop_container n g)).
Proof.
  intros Hn HP. apply preserves_call. intros d Hi.
  destruct (stop_law n g d) as (d' & r & E & Hk & _); [by left|]. unfold wp. rewrite E. simpl.
  eapply Hout; [|exact Hi]. intros k Hnk. apply Hk. by intros ->.
Qed.

Lemma own_remove n : klite n → P n → preserves I (on_docker (remove_container n)).
Proof.
  intros Hn HP. apply preserves_call. intros d Hi.
  destruct (remove_law n d) as (d' & r & E & Hd); [by left|]. unfold wp. rewrite E. simpl.
  eapply Hout; [|exact Hi]. intros k Hnk. rewrite Hd. destruct r; [|done].
  apply lookup_delete_ne. by intros ->.
Qed.
End own_names.

(** Statements without a call of the runtime first, then the calls by name. *)
Ltac keeps_step :=
  first
    [ match goal with
      | |- preserves _ (ok _) => apply preserves_frames, frames_ret
      | |- preserves _ (fail _) => apply preserves_frames, frames_ret
      | |- preserves _ (ret _) => apply preserves_frames, frames_ret
      | |- preserves _ (gets _) => apply preserves_frames, frames_gets
      | |- preserves _ (event _ _ _ _ _ _) => apply preserves_frames, frames_event
      | |- preserves _ (patch_status _ _) => apply preserves_frames, frames_patch
      | |- preserves _ (mark_failed_once _ _) => apply preserves_frames, frames_mark
      | |- preserves _ (remove_volumes _ _) => apply preserves_frames, frames_volumes
      | |- preserves _ (specs_of _ _ _) => apply preserves_frames, frames_specs
      | |- preserves _ (on_kube _) => apply preserves_frames, frames_kube
      | |- preserves _ (on_docker (ensure_pulled _ _)) => apply own_pull
      | |- preserves _ (on_docker (inspect _)) => apply own_inspect
      | |- preserves _ (on_docker list_managed) => apply own_list
      | |- preserves _ (match ?x with _ => _ end) => destruct x
      | |- preserves _ (if ?b then _ else _) => destruct b
      end
    | apply preserves_bind; [|intros ?]
    | apply preserves_ebind; [|intros ?] ].

Section own_runs.
Context (P : string → Prop) I.
Hypothesis Hout : outside P I.

Lemma start_all_own p specs views :
  Forall (λ sp, P (container_name (p_uid p) (sp_name sp))) specs →
  preserves I (start_all now clock uuids sys_text p specs views).
Proof.
  intros Hs. revert views. induction Hs as [|sp specs Hsp Hs IH]; intros views; cbn [start_all].
  { keeps_step. }
  repeat first [apply IH | keeps_step]; try apply container_name_prefix.
  apply (own_create P I Hout); [apply container_name_prefix|done].
Qed.

Lemma stop_all_own p g names : Forall (λ n, klite n ∧ P n) names →
  preserves I (stop_all clock uuids duration_text p g names).
Proof.
  induction 1 as [|n names [Hn HP] Hs IH]; cbn [stop_all]; [keeps_step|].
  repeat first [done | apply IH | keeps_step]. by apply (own_stop P I Hout).
Qed.

Lemma reap_group_own ns : Forall (λ n, klite n ∧ P n) ns → preserves I (reap_group ns).
Proof.
  induction 1 as [|n ns [Hn HP] Hs IH]; cbn [reap_group]; [keeps_step|].
  repeat first [apply IH | by apply (own_stop P I Hout) | by apply (own_remove P I Hout) | keeps_step].
Qed.

Lemma reap_groups_own gs : Forall (λ g, Forall (λ n, klite n ∧ P n) g.2) gs →
  preserves I (reap_groups volume_root gs).
Proof.
  induction 1 as [|[u ns] gs Hg Hs IH]; cbn [reap_groups]; [keeps_step|].
  repeat first [apply IH | by apply reap_group_own | keeps_step].
Qed.
End own_runs.

(** The containers of a Pod, by name. *)
Definition name_of_pod p n : Prop := ∃ c, c ∈ p_containers p ∧ n = container_name (p_uid p) (c_name c).

Lemma start_names p s s' specs : specs_of volume_root range p s = (s', Val (Ok specs)) →
  Forall (λ sp, name_of_pod p (container_name (p_uid p) (sp_name sp))) specs.
Proof.
  intros [_ Hk]%specs_names. apply Forall_lookup. intros i sp Hi.
  destruct (Hk i sp Hi) as (c & Hc & -> & _). exists c. split; [by eapply list_elem_of_lookup_2|done].
Qed.

Lemma terminate_own p I : outside (name_of_pod p) I → p_containers p ≠ [] →
  preserves I (terminate_pod clock uuids duration_text p).
Proof.
  intros Hout Hne. unfold terminate_pod, container_names_for_pod.
  assert (Hn : Forall (λ n, klite n ∧ name_of_pod p n)
    (rev (map (λ c, container_name (p_uid p) (c_name c)) (p_containers p)))).
  { apply Forall_rev, Forall_fmap, Forall_forall. intros c Hc. split; [apply container_name_prefix|].
    by exists c. }
  destruct (p_containers p) as [|c cs]; [done|].
  intros s Hs. apply wp_bind, wp_ret. revert s Hs.
  change (preserves I (let? _ := stop_all clock uuids duration_text p (grace_of p)
    (rev (map (λ c, container_name (p_uid p) (c_name c)) (c :: cs))) in
    let* r := on_kube (delete_pod (p_namespace p) (p_name p) 0) in
    match r with Err e => if is_api_not_found e then ok tt else fail e | Ok _ => ok tt end)).
  apply preserves_ebind; [by eapply stop_all_own|]. intros _. repeat keeps_step.
Qed.

Lemma reconcile_own p I : outside (name_of_pod p) I → (p_deleting p = true → p_containers p ≠ []) →
  preserves I (reconcile_pod volume_root now clock uuids sys_text duration_text range p).
Proof.
  intros Hout Hne. unfold reconcile_pod. destruct (String.eqb (p_uid p) ""); [keeps_step|].
  destruct (p_deleting p); [by apply terminate_own; auto|].
  intros s Hs. apply wp_bind.
  pose proof (preserves_frames I _ (frames_specs volume_root range p) s Hs) as Hf. unfold wp in *.
  destruct (specs_of volume_root range p s) as [s1 [[specs|e]|k]] eqn:Es; simpl in *; [..|done];
    destruct Hf as [Hh1 <-].
  - exact (start_all_own _ I Hout p specs ∅ (start_names p s s1 specs Es) s1 Hh1).
  - exact (preserves_frames I _ (frames_mark p (error_text sys_text e)) s1 Hh1).
Qed.

(** The worker touches only its Pod: while it reconciles a Pod, live or
    being deleted, and others use the daemon before each of its calls, any
    property of the containers that do not have the names of the Pod's, and that
    the others keep, still holds when it ends, however it ends. *)
Theorem worker_spares p I s :
  outside (name_of_pod p) I → (p_deleting p = true → p_containers p ≠ []) →
  I (there s) → kept I (sh_turns (rs_docker s)) →
  wp (reconcile_pod volume_root now clock uuids sys_text duration_text range p) (λ s' _, I (there s')) s.
Proof.
  intros Hout Hne Hi Hk. eapply wp_mono; [|by apply reconcile_own]. by intros s' o [[Hi' _] _].
Qed.

(** ** The reaper *)

Definition doomed (d : D) (known : list string) n : Prop :=
  ∃ c, containers d !! n = Some c ∧ uid_of c ≠ "" ∧ uid_of c ∉ known.

Lemma orphan_names (m : boxmap) l known : l ≡ₚ omap managed_of (map_to_list m) →
  ∀ n, (∃ u ns, orphans_by_uid known l !! u = Some ns ∧ n ∈ ns) ↔
       ∃ c, m !! n = Some c ∧ uid_of c ≠ "" ∧ uid_of c ∉ known.
Proof.
  intros Hl n. split.
  - intros (u & ns & [Hu ->]%orphans_lookup & Hn). unfold names_of_uid in Hn.
    apply list_elem_of_fmap in Hn as (x & -> & Hx).
    rewrite list_elem_of_In, List.filter_In, <- list_elem_of_In in Hx. destruct Hx as [Hx <-%String.eqb_eq].
    apply (managed_in m l Hl) in Hx as (c & Hc & Eu & Hne & _). exists c. by rewrite Eu.
  - intros (c & Hc & Hne & Hk). exists (uid_of c), (names_of_uid l (uid_of c)).
    assert (Hn : n ∈ names_of_uid l (uid_of c)) by (apply (names_of_uid_in m l Hl _ n Hne); eauto).
    split; [|done]. unfold orphans_by_uid. rewrite orphans_fold, decide_False, lookup_empty by done.
    by destruct (names_of_uid l (uid_of c)); [apply elem_of_nil in Hn|].
Qed.

Lemma list_run s : ∃ s1 r, on_docker list_managed s = (s1, Val r) ∧
  there s1 = containers (next_docker (rs_docker s)) ∧
  sh_turns (rs_docker s1) = tail (sh_turns (rs_docker s)) ∧ rs_lister s1 = rs_lister s ∧
  match r with Ok l => l ≡ₚ omap managed_of (map_to_list (there s1)) | Err _ => True end.
Proof.
  destruct (list_law (next_docker (rs_docker s))) as (d & r & E & Hd & Hr).
  eexists _, r. split; [apply zoom_run; cbn [list_managed shared_runtime]; unfold after_turn; by rewrite E|].
  unfold there. simpl. rewrite Hd. split; [done|]. split; [done|]. split; [done|]. exact Hr.
Qed.

(** What the reaper removes stays away, when the others do not bring it back. *)
Definition absent n (m : boxmap) : Prop := m !! n = None.

Lemma absent_stop n k g : klite k → preserves (absent n) (on_docker (stop_container k g)).
Proof.
  intros Hk. apply preserves_call. intros d Hi.
  destruct (stop_law k g d) as (d' & r & E & Hn & Hl); [by left|]. unfold wp. rewrite E. simpl. unfold absent in *.
  destruct (decide (n = k)) as [->|Hne]; [|by rewrite Hn].
  rewrite Hi in Hl. by destruct (containers d' !! k).
Qed.

Lemma absent_remove n k : klite k → preserves (absent n) (on_docker (remove_container k)).
Proof.
  intros Hk. apply preserves_call. intros d Hi.
  destruct (remove_law k d) as (d' & r & E & Hd); [by left|]. unfold wp. rewrite E. simpl. unfold absent in *.
  rewrite Hd. destruct r; [|done]. by apply lookup_delete_None; right.
Qed.

Lemma reap_group_absent n ns : Forall klite ns → preserves (absent n) (reap_group ns).
Proof.
  induction 1 as [|k ns Hk Hs IH]; cbn [reap_group]; [keeps_step|].
  repeat first [apply IH | by apply absent_stop | by apply absent_remove | keeps_step].
Qed.

Lemma reap_groups_absent n gs : Forall (λ g, Forall klite g.2) gs →
  preserves (absent n) (reap_groups volume_root gs).
Proof.
  induction 1 as [|[u ns] gs Hg Hs IH]; cbn [reap_groups]; [keeps_step|].
  repeat first [apply IH | by apply reap_group_absent | keeps_step].
Qed.

(** The turns that are left after a call are some of those before it. *)
Lemma call_turns {A} (m : M D A) n s : kept (absent n) (sh_turns (rs_docker s)) →
  wp (on_docker (after_turn m)) (λ s' _, kept (absent n) (sh_turns (rs_docker s'))) s.
Proof.
  intros Hk. unfold on_docker. apply wp_zoom. unfold wp, after_turn.
  destruct (m (next_docker (rs_docker s))) as [d o]. simpl. unfold kept in *.
  by destruct (sh_turns (rs_docker s)); [|apply Forall_cons in Hk as [_ Hk]].
Qed.

Lemma remove_gone n s : removes_all (D := D) → klite n → kept (absent n) (sh_turns (rs_docker s)) →
  wp (on_docker (remove_container n)) (λ s' _, holds (absent n) s') s.
Proof.
  intros Hra Hn Hk. pose proof (call_turns (remove_container n) n s Hk) as Ht.
  unfold on_docker in *. apply wp_zoom. cbn [remove_container shared_runtime] in *. unfold wp, zoom in *.
  unfold after_turn in *.
  destruct (remove_law n (next_docker (rs_docker s))) as (d' & r & E & Hd); [by left|].
  rewrite E in *. simpl in *. split; [|exact Ht]. unfold absent, there. simpl. rewrite Hd.
  apply Hra in E. destruct r; [|done]. by apply lookup_delete_eq.
Qed.

(** [Q] of a run that returns. *)
Abbreviation returned Qs := (λ s' o, match o with Val _ => Qs s' | Stuck _ => True end).

Lemma wp_returned_bind {A B} (m : M St A) (f : A → M St B) (Q1 Q2 : St → Prop) s :
  wp m (returned Q1) s → (∀ a s1, Q1 s1 → wp (f a) (returned Q2) s1) → wp (bind m f) (returned Q2) s.
Proof. intros Hm Hf. apply wp_bind. eapply wp_mono; [|exact Hm]. intros s1 [a|k]; [apply Hf|done]. Qed.

Lemma wp_returned {A} (m : M St A) (Q1 : St → Prop) Q2 s :
  wp m Q2 s → (∀ s' o, Q2 s' o → Q1 s') → wp m (returned Q1) s.
Proof. intros Hm HQ. eapply wp_mono; [|exact Hm]. intros s' [a|k] Hq; [by eapply HQ|done]. Qed.

Lemma reap_group_gone n ns s : removes_all (D := D) → Forall klite ns → n ∈ ns →
  kept (absent n) (sh_turns (rs_docker s)) → wp (reap_group ns) (returned (holds (absent n))) s.
Proof.
  intros Hra Hkl. revert s. induction Hkl as [|k ns Hk Hkl IH]; intros s Hin Hkept; [by apply elem_of_nil in Hin|].
  cbn [reap_group].
  eapply wp_returned_bind; [eapply wp_returned; [by apply call_turns|intros s1 o Hs1; exact Hs1]|].
  intros _ s1 Hk1. simpl in Hk1. apply elem_of_cons in Hin as [->|Hin].
  - eapply wp_returned_bind; [eapply wp_returned; [by apply remove_gone|intros s2 o Hs2; exact Hs2]|].
    intros _ s2 Hs2. eapply wp_returned; [by apply (reap_group_absent k ns Hkl)|]. by intros s3 o [Hs3 _].
  - eapply wp_returned_bind; [eapply wp_returned; [by apply call_turns|intros s2 o Hs2; exact Hs2]|].
    intros _ s2 Hs2. by apply IH.
Qed.

Lemma reap_groups_gone n gs s : removes_all (D := D) → Forall (λ g, Forall klite g.2) gs →
  (∃ u ns, (u, ns) ∈ gs ∧ n ∈ ns) → kept (absent n) (sh_turns (rs_docker s)) →
  wp (reap_groups volume_root gs) (returned (λ s', absent n (there s'))) s.
Proof.
  intros Hra Hkl. revert s. induction Hkl as [|[u ns] gs Hk Hkl IH]; intros s (v & ms & Hin & Hn) Hkept;
    [by apply elem_of_nil in Hin|].
  cbn [reap_groups]. destruct (decide (n ∈ ns)) as [Hns|Hns].
  - eapply wp_returned_bind; [by apply reap_group_gone|]. intros _ s1 Hs1.
    eapply wp_returned_bind; [eapply wp_returned; [apply (preserves_frames (absent n) _ (frames_volumes volume_root u) s1 Hs1)
      |intros s2 o [Hs2 _]; exact Hs2]|].
    intros _ s2 Hs2. eapply wp_returned; [by apply (reap_groups_absent n gs Hkl)|]. by intros s3 o [[Hs3 _] _].
  - apply elem_of_cons in Hin as [[= -> ->]|Hin]; [done|].
    eapply wp_returned_bind with (Q1 := λ s1, kept (absent n) (sh_turns (rs_docker s1))).
    + clear - Hk Hkept. revert s Hkept. induction ns as [|k ns IHn]; intros s Hkept; [done|].
      apply Forall_cons in Hk as [_ Hk]. cbn [reap_group].
      do 2 (eapply wp_returned_bind; [eapply wp_returned; [by apply call_turns|intros s2 o Hs2; exact Hs2]|];
        clear s Hkept; intros _ s Hkept; simpl in Hkept). by apply IHn.
    + intros _ s1 Hk1. eapply wp_returned_bind with (Q1 := λ s2, kept (absent n) (sh_turns (rs_docker s2))).
      * eapply wp_returned; [apply (frames_volumes volume_root u)|]. simpl. by intros s2 o [-> _].
      * intros _ s2 Hk2. apply IH; [eauto|done].
Qed.

Hypothesis Hgroups : ∀ g, range_groups g ≡ₚ map_to_list g.

Lemma orphan_groups_names (m : boxmap) l known : l ≡ₚ omap managed_of (map_to_list m) →
  (∀ n c, m !! n = Some c → uid_of c ≠ "" → klite n) →
  let gs := range_groups (orphans_by_uid (list_to_set known) l) in
  (Forall (λ g, Forall (λ n, klite n ∧ ∃ c, m !! n = Some c ∧ uid_of c ≠ "" ∧ uid_of c ∉ known) g.2) gs) ∧
  ∀ n c, m !! n = Some c → uid_of c ≠ "" → uid_of c ∉ known → ∃ u ns, (u, ns) ∈ gs ∧ n ∈ ns.
Proof.
  intros Hl Hkl gs.
  assert (Hin : ∀ u ns, (u, ns) ∈ gs ↔ orphans_by_uid (list_to_set known) l !! u = Some ns).
  { intros u ns. unfold gs. rewrite (Hgroups _). apply elem_of_map_to_list. }
  pose proof (orphan_names m l (list_to_set known) Hl) as Hor. split.
  - apply Forall_forall. intros [u ns] Hg. apply Forall_forall. intros n Hn. simpl in Hn.
    destruct (proj1 (Hor n)) as (c & Hc & Hne & Hk); [exists u, ns; by rewrite <- Hin|].
    split; [by eapply Hkl|]. exists c. by rewrite elem_of_list_to_set in Hk.
  - intros n c Hc Hne Hk. destruct (proj2 (Hor n)) as (u & ns & Hg & Hn).
    + exists c. by rewrite elem_of_list_to_set.
    + exists u, ns. by rewrite Hin.
Qed.

(** C26: the reaper touches only what it found orphaned: while it runs, and
    others use the daemon before each of its calls, any property of the other
    containers that the others keep still holds when it ends, however it ends.
    Orphaned means listed by the reaper with the uid of a Pod that the lister,
    read after the listing, does not know; a container of a known Pod and one
    created after the listing are not.  And when it ends without an error and
    removals succeed, every orphan is gone that the others do not bring back. *)
Theorem reaper_spares I s pods :
  let d1 := next_docker (rs_docker s) in
  lister_list (rs_lister s) = Ok pods →
  (∀ n c, containers d1 !! n = Some c → uid_of c ≠ "" → klite n) →
  outside (doomed d1 (map p_uid pods)) I → I (containers d1) → kept I (sh_turns (rs_docker s)) →
  wp (reap_orphans volume_root range_groups) (λ s' o, I (there s') ∧
     (o = Val (Ok tt) → removes_all (D := D) →
      ∀ n, doomed d1 (map p_uid pods) n → kept (absent n) (sh_turns (rs_docker s)) →
      there s' !! n = None)) s.
Proof.
  intros d1 Hli Hkl Hout Hi Hk. unfold reap_orphans.
  destruct (list_run s) as (s1 & r & E & Hb1 & Ht1 & Hl1 & Hr). fold d1 in Hb1.
  assert (Hk1 : ∀ I, kept I (sh_turns (rs_docker s)) → kept I (sh_turns (rs_docker s1))).
  { intros J HJ. rewrite Ht1. unfold kept in *. by destruct (sh_turns (rs_docker s)); [|apply Forall_cons in HJ as [_ HJ]]. }
  apply wp_ebind. unfold wp at 1. rewrite E. simpl. rewrite <- Hb1 in Hkl, Hi.
  destruct r as [l|e]; [|split; [done|by intros]].
  destruct l as [|x l'] eqn:El.
  { split; [done|]. intros _ _ n (c & Hc & Hne & Hk') _. exfalso. rewrite <- Hb1 in Hc.
    apply (not_elem_of_nil n). change ([] : list string) with (names_of_uid [] (uid_of c)).
    apply (names_of_uid_in _ _ Hr _ _ Hne). eauto. }
  rewrite <- El in Hr. rewrite <- El. clear E El x l'.
  apply wp_ebind, wp_bind, wp_gets, wp_ret. rewrite Hl1, Hli.
  destruct (orphan_groups_names (there s1) l (map p_uid pods) Hr Hkl) as [Hown Hall].
  set (gs := range_groups (orphans_by_uid (list_to_set (map p_uid pods)) l)) in *.
  assert (HP : preserves I (reap_groups volume_root gs)).
  { eapply reap_groups_own; [exact Hout|]. unfold doomed. by rewrite <- Hb1. }
  assert (Hkl' : Forall (λ g, Forall klite g.2) gs).
  { eapply Forall_impl; [exact Hown|]. intros g Hg. eapply Forall_impl; [exact Hg|]. by intros n [? _]. }
  apply wp_bind. unfold wp.
  assert (Hgone : ∀ n, removes_all (D := D) → doomed d1 (map p_uid pods) n → kept (absent n) (sh_turns (rs_docker s)) →
    wp (reap_groups volume_root gs) (returned (λ s', absent n (there s'))) s1).
  { intros n Hra (c & Hc & Hne & Hn) Habs. rewrite <- Hb1 in Hc.
    apply reap_groups_gone; [done|done|by eapply Hall|by apply Hk1]. }
  specialize (HP s1 (conj Hi (Hk1 I Hk))). unfold wp in HP, Hgone.
  destruct (reap_groups volume_root gs s1) as [s2 [u|k]]; simpl in *.
  - destruct HP as [[HP _] _]. split; [exact HP|]. intros _ Hra n Hd Habs. by apply Hgone.
  - destruct HP as [[HP _] _]. split; [exact HP|]. by intros.
Qed.
End spares.

(** ** A Pod deleted while the worker starts it *)

Section leak.
Context {K D L Q : Type} `{KubeAPI K} `{RuntimeLaws D} `{PodLister L} `{WorkQueue Q}.
Context (volume_root : option path) (now : Z) (clock : N → Z) (uuids : N → string)
        (sys_text : err → string) (duration_text : Z → string)
        (range : gmap string string → list (string * string))
        (range_groups : gmap string (list string) → list (string * list string)).
Hypothesis Hgroups : ∀ g, range_groups g ≡ₚ map_to_list g.
Hypothesis Hkube : kube_returns (K := K).
Abbreviation St := (rstate K D L Q).
Implicit Types (s : St) (p : pod).

Lemma delete_finds_nothing p s :
  p_uid p ≠ "" → (∀ n c, boxes s !! n = Some c → uid_of c ≠ p_uid p) →
  ∃ s1, on_delete volume_root (OPod p) s = (s1, Val tt) ∧ boxes s1 = boxes s ∧
    rs_host s1 = rs_host s ∧ rs_lister s1 = rs_lister s.
Proof.
  intros Hu Hno. set (s0 := set_failed (delete (p_uid p)) s).
  destruct (by_label_run (p_uid p) s0 Hu) as (s1 & ns & E & Hb & Hh & Hl & Hns).
  assert (ns = []) as ->.
  { destruct Hns as [[_ ->]|[_ Hns]]; [done|]. destruct ns as [|n ns]; [done|exfalso].
    destruct (proj1 (Hns n)) as (c & Hc & Ec); [by left|]. by eapply Hno. }
  exists s1. split; [|done]. unfold on_delete. erewrite bind_val by reflexivity. fold s0.
  erewrite bind_val; [|unfold reap_by_uid; erewrite bind_val by exact E; reflexivity]. done.
Qed.

(** C27: a Pod can leave its containers behind, until the next periodic reap: its
    deletion is handled when the worker has fetched the Pod and not yet created
    a container.  The handler finds nothing to reap; the worker then creates
    every container of the Pod that is gone; and the orphan reaper, whose lister
    no longer has the Pod, leaves none of them. *)
Theorem leaked_until_reaped p s :
  reliable (D := D) → p_uid p ≠ "" → p_deleting p = false →
  Forall (λ c, pullable (resolve_pull_policy (c_pull_policy c) (c_image c))) (p_containers p) →
  (∀ n c, boxes s !! n = Some c → uid_of c ≠ p_uid p) →
  ∃ s1, on_delete volume_root (OPod p) s = (s1, Val tt) ∧ boxes s1 = boxes s ∧
    ∀ s1' specs, specs_of volume_root range p s1 = (s1', Val (Ok specs)) →
    ∃ s2 r, reconcile_pod volume_root now clock uuids sys_text duration_text range p s1 = (s2, Val r) ∧
      (∀ c, c ∈ p_containers p → is_Some (boxes s2 !! container_name (p_uid p) (c_name c))) ∧
      ∀ s3 pods, boxes s3 = boxes s2 → quiet (rs_host s3) →
        lister_list (rs_lister s3) = Ok pods → p_uid p ∉ map p_uid pods →
        ∃ s4 r', reap_orphans volume_root range_groups s3 = (s4, Val r') ∧
          (is_ok r' = true → removes_all (D := D) →
           ∀ n c, boxes s4 !! n = Some c → uid_of c ≠ p_uid p).
Proof.
  intros Hrel Hu Hlive Hpol Hno.
  destruct (delete_finds_nothing p s Hu Hno) as (s1 & E1 & Hb1 & Hh1 & Hl1).
  exists s1. split; [done|]. split; [done|]. intros s1' specs Hs.
  destruct (reconcile_runs volume_root now clock uuids sys_text duration_text range Hkube p s1 s1' specs)
    as (s2 & r & E2 & Hall & _); [done..|].
  exists s2, r. split; [done|]. split; [done|]. intros s3 pods Hb3 Hq Hli Hp.
  destruct (orphans_run volume_root range_groups Hgroups s3 Hq) as (s4 & r' & E4 & _ & H4).
  rewrite Hli in H4. destruct H4 as [_ H4]. exists s4, r'. split; [done|].
  intros Hok Hra n c Hc Ec. destruct (H4 Hok Hra n c Hc) as [E|E]; congruence.
Qed.
End leak.
