(* ===== verification/KubeReturns.v ===== *)
(** * The worker returns

    Every call the worker makes returns, when the API client and the runtime
    answer and the process is not killed: no branch of [reconcilePod] panics or
    blocks, whatever fails.  It leaves the lister and the queue alone, keeps
    every container that exists, and creates none but the Pod's. *)

From S2P Require Import Prelude GoStrings Fs Translate Projection Docker.
From S2P Require Import Reconciler ReconcilerFacts ReconcilerReap.

(** ** The projection *)

Section projection.
Context {K : Type} `{KubeAPI K}.
Context (range : gmap string string → list (string * string)).
(** What the requests preserve of the API server. *)
Context (inv : K → Prop).

(** Each request of the client returns, and preserves [inv]. *)
Definition kube_keeps : Prop :=
  (∀ ns n, returns inv (get_config_map ns n)) ∧
  (∀ ns n, returns inv (get_secret ns n)) ∧
  (∀ ns n st, returns inv (patch_pod_status ns n st)) ∧
  (∀ ns n g, returns inv (delete_pod ns n g)) ∧
  (∀ e, returns inv (create_event e)).

Hypothesis Hkube : kube_keeps.

Lemma returns_append_all {A} (entry : A → M K (res (list string))) l out :
  (∀ x, returns inv (entry x)) → returns inv (append_all entry l out).
Proof.
  intros He. revert out. induction l as [|x l IH]; intros out; cbn [append_all]; [apply returns_ret|].
  by apply returns_ebind.
Qed.

Lemma returns_env_from ns ef : returns inv (env_from_entry ns ef).
Proof. destruct Hkube as (Hc & Hs & _). unfold env_from_entry. whole_steps ltac:(by auto). Qed.

Lemma returns_env ns e : returns inv (env_entry ns e).
Proof. destruct Hkube as (Hc & Hs & _). unfold env_entry, env_key. whole_steps ltac:(by auto). Qed.

Lemma returns_resolve_env ns c : returns inv (resolve_env ns c).
Proof.
  unfold resolve_env. apply returns_ebind; [|intros out]; apply returns_append_all; intros.
  - apply returns_env_from.
  - apply returns_env.
Qed.

(** The state of the projection, with no crash ahead. *)
Definition projecting (x : K * fs) : Prop := inv x.1 ∧ no_crash x.2.

Lemma returns_on_api {A} (m : M K A) : returns inv m → returns projecting (on_api m).
Proof. apply returns_zoom; unfold projecting; naive_solver. Qed.

Lemma returns_on_host {A} (m : M fs A) : returns no_crash m → returns projecting (on_host m).
Proof. apply returns_zoom; unfold projecting; naive_solver. Qed.

Lemma returns_ensure_dir d : returns no_crash (ensure_dir d).
Proof. unfold ensure_dir. whole_steps ltac:(apply returns_syscall). Qed.

Lemma returns_write_key_files d files : returns no_crash (write_key_files range d files).
Proof.
  unfold write_key_files. apply returns_ebind; [apply returns_ensure_dir|intros _].
  apply returns_bind; [apply returns_syscall|]. intros es. apply returns_bind.
  - generalize (match es with Ok es => es | Err _ => [] end). clear es.
    intros es. induction es as [|[n b] es IH]; cbn [remove_stale]; [apply returns_ret|].
    whole_steps ltac:(first [exact IH|apply returns_syscall]).
  - intros _. induction (range files) as [|[k b] l IH]; cbn [write_files]; [apply returns_ret|].
    unfold os_write_file. whole_steps ltac:(first [exact IH|apply returns_syscall]).
Qed.

Lemma returns_materialise {A} kind (request : M K (res A)) data r src v :
  returns inv request → returns projecting (materialise range kind request data r src v).
Proof.
  intros Hr. unfold materialise.
  whole_steps ltac:(first [by apply returns_on_api|apply returns_on_host;
    first [apply returns_ensure_dir|apply returns_write_key_files]]).
Qed.

Lemma returns_project root p c : returns projecting (project_volumes range root p c).
Proof.
  destruct Hkube as (Hc & Hs & _). unfold project_volumes. generalize (@nil host_mount).
  induction (c_mounts c) as [|vm vms IH]; intros out; cbn [mount_all]; [apply returns_ret|].
  unfold materialise_config_map, materialise_secret.
  whole_steps ltac:(first [by apply IH|apply returns_materialise; by auto]).
Qed.
End projection.

(** ** What happens to the containers *)

(** Those that exist stay, with their labels; new ones are of the Pods [u]. *)
Definition evolves (u : list string) (m m' : gmap string dcontainer) : Prop :=
  (∀ n c, m !! n = Some c → ∃ c', m' !! n = Some c' ∧ dc_labels c' = dc_labels c) ∧
  (∀ n c', m !! n = None → m' !! n = Some c' → uid_of c' ∈ u).

#[export] Instance evolves_preorder u : PreOrder (evolves u).
Proof.
  split; [split; [eauto|congruence]|]. intros m1 m2 m3 [Hk1 Hn1] [Hk2 Hn2]. split.
  - intros n c (c2 & E2 & Hl2)%Hk1. destruct (Hk2 n c2 E2) as (c3 & E3 & Hl3). exists c3. split; congruence.
  - intros n c3 E1 E3. destruct (m2 !! n) as [c2|] eqn:E2; [|by eapply Hn2].
    destruct (Hk2 n c2 E2) as (c3' & E3' & Hl). assert (c3' = c3) as -> by congruence.
    unfold uid_of. rewrite Hl. by eapply (Hn1 n c2).
Qed.

Lemma evolves_exists u m m' n : evolves u m m' → is_Some (m !! n) → is_Some (m' !! n).
Proof. intros [Hk _] [c Hc]. destruct (Hk n c Hc) as (c' & ? & _). by exists c'. Qed.

Lemma evolves_uid u m m' n c c' : evolves u m m' → m !! n = Some c → m' !! n = Some c' →
  uid_of c' = uid_of c.
Proof. intros [Hk _] Hc Hc'. destruct (Hk n c Hc) as (c2 & E & Hl). unfold uid_of. congruence. Qed.

Lemma evolves_mono u v m m' : u ⊆ v → evolves u m m' → evolves v m m'.
Proof. intros Huv [Hk Hn]. split; [done|]. intros n c' E E'. by apply Huv, (Hn n). Qed.

Section handlers.
Context {K D L Q : Type} `{KubeAPI K} `{RuntimeLaws D} `{PodLister L} `{WorkQueue Q}.
Context (volume_root : option path) (now : Z) (clock : N → Z) (uuids : N → string)
        (sys_text : err → string) (duration_text : Z → string)
        (range : gmap string string → list (string * string))
        (range_groups : gmap string (list string) → list (string * list string)).
Abbreviation St := (rstate K D L Q).
Implicit Types (s : St) (p : pod) (n : string).

(** A condition on the API server and the host in which the worker's requests
    return, and which they preserve. *)
Context (good : K → fs → Prop).
Definition calm s : Prop := good (rs_kube s) (rs_host s).
Hypothesis Hpatch : ∀ f ns n st, returns (λ k, good k f) (patch_pod_status ns n st).
Hypothesis Hdelete : ∀ f ns n g, returns (λ k, good k f) (delete_pod ns n g).
Hypothesis Hevent : ∀ f e, returns (λ k, good k f) (create_event e).

(** The lister and the queue are the same. *)
Definition aside s s' : Prop := rs_lister s' = rs_lister s ∧ rs_queue s' = rs_queue s.

#[export] Instance aside_preorder : PreOrder aside.
Proof. split; [done|]. intros s1 s2 s3 [Ha Hb] [Hc Hd]. split; congruence. Qed.

Lemma returns_kube {A} (m : M K A) : (∀ f, returns (λ k, good k f) m) → returns calm (on_kube m).
Proof.
  intros Hm s Hs. apply wp_zoom. eapply wp_mono; [|by apply (Hm (rs_host s)), Hs]. simpl.
  intros k o [Hk Ho]. by split.
Qed.

Lemma returns_docker {A} (m : M D A) : (∀ d, ∃ d' a, m d = (d', Val a)) → returns calm (on_docker m).
Proof.
  intros Hm. apply (returns_zoom _ (λ _, True)); [done..|]. intros d _.
  unfold wp. destruct (Hm d) as (d' & a & ->). split; [done|by eexists].
Qed.

Lemma returns_inspect n : has_prefix "klite_" n = true → returns calm (on_docker (inspect n)).
Proof.
  intros Hn. apply returns_docker. intros d.
  destruct (inspect_law n d) as (d' & r & E & _); [by left|eauto].
Qed.

Lemma returns_pull ref pol : returns calm (on_docker (ensure_pulled ref pol)).
Proof. apply returns_docker. intros d. destruct (pull_law ref pol d) as (d' & r & E & _). eauto. Qed.

Lemma returns_create n sp : has_prefix "klite_" n = true → returns calm (on_docker (create_and_start n sp)).
Proof.
  intros Hn. apply returns_docker. intros d.
  destruct (create_law n sp d) as (d' & r & E & _); [done|eauto].
Qed.

Lemma returns_list : returns calm (on_docker list_managed).
Proof. apply returns_docker. intros d. destruct (list_law d) as (d' & r & E & _). eauto. Qed.

Lemma returns_gets {A} (f : St → A) : returns calm (gets f).
Proof. apply returns_pure. eauto. Qed.

Create HintDb worker discriminated.
#[local] Hint Resolve returns_kube returns_inspect returns_pull returns_create returns_list returns_gets
  container_name_prefix : worker.

Lemma returns_event p t r msg : returns calm (event clock uuids p t r msg).
Proof.
  unfold event.
  apply returns_bind; [by apply returns_modify|intros _].
  whole_steps ltac:(by auto with worker).
Qed.

Lemma returns_patch p st : returns calm (patch_status p st).
Proof. unfold patch_status. whole_steps ltac:(by auto with worker). Qed.

#[local] Hint Resolve returns_event returns_patch : worker.

Lemma returns_mark p msg : returns calm (mark_failed_once p msg).
Proof.
  unfold mark_failed_once. whole_steps ltac:(first [by auto with worker|by apply returns_modify]).
Qed.

#[local] Hint Resolve returns_mark : worker.

Lemma returns_start_all p specs views :
  returns calm (start_all now clock uuids sys_text p specs views).
Proof.
  revert views. induction specs as [|sp specs IH]; intros views; cbn [start_all]; [apply returns_patch|].
  whole_steps ltac:(first [by auto with worker|by apply IH]).
Qed.
(** ** The lister and the queue stay aside *)

Lemma aside_zoom {T A} (getT : St → T) setT (m : M T A) :
  (∀ s t, aside s (setT t s)) → moves aside (zoom getT setT m).
Proof. by apply moves_zoom. Qed.

Ltac aside_tac := whole_steps ltac:(first [apply moves_zoom; done|apply moves_modify; done|done|by auto with worker]).

Lemma aside_event p t r msg : moves aside (event clock uuids p t r msg).
Proof. unfold event. aside_tac. Qed.

Lemma aside_patch p st : moves aside (patch_status p st).
Proof. unfold patch_status. aside_tac. Qed.

#[local] Hint Resolve aside_event aside_patch : worker.

Lemma aside_mark p msg : moves aside (mark_failed_once p msg).
Proof. unfold mark_failed_once. aside_tac. Qed.

#[local] Hint Resolve aside_mark : worker.

Lemma aside_start_all p specs views : moves aside (start_all now clock uuids sys_text p specs views).
Proof.
  revert views. induction specs as [|sp specs IH]; intros views; cbn [start_all]; [apply aside_patch|].
  whole_steps ltac:(first [by apply IH|apply moves_zoom; done|by auto with worker]).
Qed.

Lemma aside_stop_all p g names : moves aside (stop_all clock uuids duration_text p g names).
Proof.
  induction names as [|n names IH]; cbn [stop_all]; [by apply moves_pure; [exact _|]|].
  whole_steps ltac:(first [exact IH|apply moves_zoom; done|by auto with worker]).
Qed.

Lemma aside_reconcile p :
  moves aside (reconcile_pod volume_root now clock uuids sys_text duration_text range p).
Proof.
  unfold reconcile_pod, specs_of, container_specs_from_pod, terminate_pod, container_names_for_pod,
    container_names_by_label.
  whole_steps ltac:(first [apply aside_stop_all|apply aside_start_all|apply aside_mark
    |apply moves_specs_from; [exact _|intros ? ? [= <- <-]; split; intros; by apply moves_zoom]
    |apply moves_zoom; done]).
Qed.

(** ** Stopping *)

Definition names_ok (names : list string) (m : gmap string dcontainer) : Prop :=
  ∀ n, n ∈ names → has_prefix "klite_" n = true ∨ is_Some (m !! n).

Lemma calm_docker {A} (m : M D A) s d a : m (rs_docker s) = (d, Val a) → calm s →
  ∃ s', on_docker m s = (s', Val a) ∧ calm s' ∧ boxes s' = containers d.
Proof. intros E Hs. eexists. split; [by apply zoom_run|by split]. Qed.

Lemma calm_framed {A} (m : M St A) s : returns calm m → frames m → calm s →
  ∃ s' a, m s = (s', Val a) ∧ calm s' ∧ boxes s' = boxes s.
Proof.
  intros Hr Hf Hs. destruct (returns_run calm m s Hr Hs) as (s' & a & E & Hs').
  exists s', a. split; [done|]. split; [done|].
  apply (moves_run _ m s s' _ Hf) in E as [Hd _]. unfold boxes. by rewrite Hd.
Qed.

Lemma stop_all_evolves p g names s u : calm s → names_ok names (boxes s) →
  ∃ s' r, stop_all clock uuids duration_text p g names s = (s', Val r) ∧ calm s' ∧
          evolves u (boxes s) (boxes s').
Proof.
  revert s. induction names as [|n names IH]; intros s Hs Hn; cbn [stop_all].
  { by exists s, (Ok tt). }
  assert (Hn0 : has_prefix "klite_" n = true ∨ is_Some (boxes s !! n)) by (apply Hn; by left).
  assert (Hrest : names_ok names (boxes s)) by (intros k Hk; apply Hn; by right).
  destruct (inspect_law n (rs_docker s) Hn0) as (d1 & i & E1 & Hd1 & _).
  destruct (calm_docker _ _ _ _ E1 Hs) as (s1 & E1' & Hs1 & Hb1). rewrite Hd1 in Hb1. fold (boxes s) in Hb1.
  erewrite bind_val by exact E1'. destruct i as [[v|]|e].
  - destruct (calm_framed _ s1 (returns_event p "Normal" "Killing" ("Stopping container " +:+ n +:+ " (grace="
      +:+ duration_text g +:+ ")")) (frames_event _ _ _ _ _ _) Hs1) as (s2 & a2 & E2 & Hs2 & Hb2).
    erewrite bind_val by exact E2. rewrite Hb1 in Hb2.
    destruct (stop_law n g (rs_docker s2)) as (d3 & q & E3 & Hk3 & Hl3); [by fold (boxes s2); rewrite Hb2|].
    destruct (calm_docker _ _ _ _ E3 Hs2) as (s3 & E3' & Hs3 & Hb3).
    erewrite bind_val by exact E3'. fold (boxes s2) in Hk3, Hl3. rewrite Hb2, <- Hb3 in Hk3, Hl3.
    assert (Hev : evolves u (boxes s) (boxes s3)).
    { split; intros k c Hc; (destruct (decide (k = n)) as [->|Hk]; [|rewrite Hk3 by done; try congruence; eauto]).
      - rewrite Hc in Hl3. destruct (boxes s3 !! n); [|done]. simpl in Hl3. injection Hl3. eauto.
      - intros Hc'. by rewrite Hc, Hc' in Hl3. }
    destruct (IH s3 Hs3) as (s' & r & E & Hs' & Hev').
    { intros k Hk. destruct (Hrest k Hk); [by left|right; by eapply evolves_exists]. }
    exists s', r. split; [done|]. split; [done|by etransitivity].
  - destruct (IH s1 Hs1) as (s' & r & E & Hs' & Hev); [by rewrite Hb1|]. rewrite Hb1 in Hev. eauto.
  - eexists s1, _. split; [done|]. split; [done|]. by rewrite Hb1.
Qed.

Lemma names_for_pod p s : p_uid p ≠ "" → calm s →
  ∃ s' names, container_names_for_pod p s = (s', Val names) ∧ calm s' ∧ boxes s' = boxes s ∧
    names_ok names (boxes s).
Proof.
  intros Hu Hs. unfold container_names_for_pod. destruct (p_containers p) as [|c0 cs].
  - destruct (by_label_run (p_uid p) s Hu) as (s' & ns & E & Hb & Hh & Hl & Hns). exists s', ns.
    split; [exact E|]. split; [|split; [done|]].
    + assert (Hr : returns calm (container_names_by_label (p_uid p))).
      { unfold container_names_by_label. whole_steps ltac:(apply returns_list). }
      destruct (returns_run calm _ s Hr Hs) as (s2 & a & E2 & Hs2). congruence.
    + intros n Hn. destruct Hns as [[_ ->]|[_ Hns]]; [by apply elem_of_nil in Hn|].
      right. apply Hns in Hn as (c & Hc & _). by exists c.
  - exists s, (map (λ c, container_name (p_uid p) (c_name c)) (c0 :: cs)). split; [done|].
    split; [done|]. split; [done|]. intros n (c & -> & _)%list_elem_of_fmap. by left.
Qed.

(** One turn of [reconcilePod], whatever the Pod. *)
Lemma reconcile_turn p s : (p_deleting p = false → returns calm (specs_of volume_root range p)) → calm s →
  ∃ s' r, reconcile_pod volume_root now clock uuids sys_text duration_text range p s = (s', Val r) ∧
    calm s' ∧ evolves [p_uid p] (boxes s) (boxes s') ∧ aside s s'.
Proof.
  intros Hspecs Hs.
  assert (Hrun : ∃ s' r, reconcile_pod volume_root now clock uuids sys_text duration_text range p s
                           = (s', Val r) ∧ calm s' ∧ evolves [p_uid p] (boxes s) (boxes s')).
  2:{ destruct Hrun as (s' & r & E & Hs' & Hev). exists s', r. split; [done|]. split; [done|].
      split; [done|]. by eapply moves_run; [apply aside_reconcile|]. }
  destruct (p_deleting p) eqn:Edel.
  - unfold reconcile_pod. rewrite Edel. destruct (String.eqb_spec (p_uid p) "") as [Hu|Hu].
    { by exists s, (Ok tt). }
    unfold terminate_pod. destruct (names_for_pod p s Hu Hs) as (s1 & names & E1 & Hs1 & Hb1 & Hok).
    erewrite bind_val by exact E1.
    destruct (stop_all_evolves p (grace_of p) (rev names) s1 [p_uid p] Hs1) as (s2 & r & E2 & Hs2 & Hev).
    { intros n Hn. rewrite elem_of_rev in Hn. rewrite Hb1. by apply Hok. }
    rewrite Hb1 in Hev. destruct r as [u|e]; [erewrite ebind_ok by exact E2|
      erewrite ebind_err by exact E2; by eexists _, _].
    destruct (returns_run calm _ s2 (returns_kube _ (λ f, Hdelete f (p_namespace p) (p_name p) 0%Z)) Hs2)
      as (s3 & r3 & E3 & Hs3).
    assert (Hb3 : boxes s3 = boxes s2).
    { apply (moves_run _ _ _ _ _ (frames_kube _)) in E3 as [Hd _]. unfold boxes. by rewrite Hd. }
    erewrite bind_val by exact E3. rewrite <- Hb3 in Hev.
    destruct r3 as [u3|e3]; [|destruct (is_api_not_found e3)]; by eexists _, _.
  - assert (Hr : returns calm (reconcile_pod volume_root now clock uuids sys_text duration_text range p)).
    { unfold reconcile_pod. rewrite Edel. destruct (String.eqb _ _); [apply returns_ret|].
      apply returns_bind; [by apply Hspecs|]. intros [specs|e]; [apply returns_start_all|apply returns_mark]. }
    destruct (returns_run calm _ s Hr Hs) as (s' & r & E & Hs'). exists s', r. split; [done|]. split; [done|].
    pose proof (reconcile_adds volume_root now clock uuids sys_text duration_text range p s Edel) as Ha.
    unfold wp in Ha. rewrite E in Ha. destruct Ha as [Hsub Hnew]. simpl in *. rewrite map_subseteq_spec in Hsub.
    split; [eauto|]. intros n c Hn Hc. destruct (Hnew n c Hn Hc) as (i & x & _ & _ & Hl & _).
    unfold uid_of. rewrite Hl. by left.
Qed.
End handlers.

(** ** The projection in a calm state *)

Section specs.
Context {K D L Q : Type} `{KubeAPI K}.
Context (volume_root : option path) (range : gmap string string → list (string * string)).
Context (inv : K → Prop).
Hypothesis Hkube : kube_keeps inv.
Abbreviation St := (rstate K D L Q).

(** The condition of the previous section that asks least of the host: it does
    not crash. *)
Definition no_crash_ahead (k : K) (f : fs) : Prop := inv k ∧ no_crash f.

Lemma returns_specs p : returns (calm no_crash_ahead : St → Prop) (specs_of volume_root range p).
Proof.
  assert (Hp : ∀ A (m : M (K * fs) A), returns (projecting inv) m →
    returns (calm no_crash_ahead : St → Prop) (on_projection m)).
  { intros A m. apply returns_zoom; unfold calm, no_crash_ahead, projecting; naive_solver. }
  unfold specs_of, container_specs_from_pod. destruct (p_containers p); [apply returns_ret|].
  apply returns_specs_from. intros re pv [= <- <-]. split; intros; apply Hp.
  - by apply returns_on_api, returns_resolve_env.
  - by apply returns_project.
Qed.

Lemma no_crash_requests (f : fs) :
  (∀ ns n st, returns (λ k, no_crash_ahead k f) (patch_pod_status ns n st)) ∧
  (∀ ns n g, returns (λ k, no_crash_ahead k f) (delete_pod ns n g)) ∧
  (∀ e, returns (λ k, no_crash_ahead k f) (create_event e)).
Proof.
  assert (Hk : ∀ A (m : M K A), returns inv m → returns (λ k, no_crash_ahead k f) m).
  { intros A m Hm k [Hi Hf]. eapply wp_mono; [|by apply Hm]. simpl. intros k' o [Hi' Ho]. by split. }
  destruct Hkube as (_ & _ & Hp & Hd & He). split; [|split]; intros; by apply Hk.
Qed.
End specs.
