(* ===== verification/Worker.v ===== *)
(** * The work queue and the worker's loop

    The queue is client-go code: [WorkQueueLaws] states what it documents,
    through the [queue_view] it shows.  A key is handed out to one worker at a
    time; a key added while it is handed out is queued again when the worker is
    done; adding a queued key changes nothing; a queue that is shut down takes
    nothing in, and is drained before [Get] reports the shutdown.  The theorems
    are about the loop of the worker over that queue, and about [Run]. *)

From S2P Require Import Prelude GoStrings Fs Translate Projection Docker.
From S2P Require Import Reconciler ReconcilerFacts ReconcilerReap KubeReturns.

(** ** The queue *)

Record queue_view := MkQV {
  qv_queue : list string;         (* waiting, in order *)
  qv_dirty : gset string;         (* to be processed *)
  qv_processing : gset string;    (* handed out *)
  qv_later : list string;         (* to be added when their delay is over *)
  qv_down : bool }.

Definition view_add (k : string) (v : queue_view) : queue_view :=
  if qv_down v || bool_decide (k ∈ qv_dirty v) then v
  else MkQV (if bool_decide (k ∈ qv_processing v) then qv_queue v else qv_queue v ++ [k])
         ({[k]} ∪ qv_dirty v) (qv_processing v) (qv_later v) (qv_down v).

Definition view_get (v : queue_view) : option (string * queue_view) :=
  match qv_queue v with
  | [] => None
  | k :: ks => Some (k, MkQV ks (qv_dirty v ∖ {[k]}) ({[k]} ∪ qv_processing v) (qv_later v) (qv_down v))
  end.

Definition view_done (k : string) (v : queue_view) : queue_view :=
  MkQV (if bool_decide (k ∈ qv_dirty v) then qv_queue v ++ [k] else qv_queue v)
    (qv_dirty v) (qv_processing v ∖ {[k]}) (qv_later v) (qv_down v).

Definition view_later (k : string) (v : queue_view) : queue_view :=
  if qv_down v then v
  else MkQV (qv_queue v) (qv_dirty v) (qv_processing v) (qv_later v ++ [k]) (qv_down v).

Definition view_down (v : queue_view) : queue_view :=
  MkQV (qv_queue v) (qv_dirty v) (qv_processing v) (qv_later v) true.

Class WorkQueueLaws (Q : Type) `{WorkQueue Q} := {
  view : Q → queue_view;
  get_law q : match view_get (view q) with
              | Some (k, v) => ∃ q', queue_get q = (q', Val (Some k)) ∧ view q' = v
              | None => qv_down (view q) = true → ∃ q', queue_get q = (q', Val None) ∧ view q' = view q
              end;
  add_law k q : ∃ q', queue_add k q = (q', Val tt) ∧ view q' = view_add k (view q);
  later_law k q : ∃ q', queue_add_rate_limited k q = (q', Val tt) ∧ view q' = view_later k (view q);
  forget_law k q : ∃ q', queue_forget k q = (q', Val tt) ∧ view q' = view q;
  done_law k q : ∃ q', queue_done k q = (q', Val tt) ∧ view q' = view_done k (view q);
  down_law q : ∃ q', queue_shut_down q = (q', Val tt) ∧ view q' = view_down (view q)
}.

(** What client-go documents of the lister: it finds by namespace and name the
    Pods it lists. *)
Class PodListerLaws (L : Type) `{PodLister L} := {
  lists l pods p : lister_list l = Ok pods → p ∈ pods → NoDup (map pod_key pods) →
    lister_get l (p_namespace p) (p_name p) = Ok p
}.

(** Nothing is handed out, and each key to be processed waits once. *)
Definition settled (v : queue_view) : Prop :=
  qv_processing v = ∅ ∧ qv_dirty v = list_to_set (qv_queue v) ∧ NoDup (qv_queue v).

Lemma settled_add k v : settled v → settled (view_add k v).
Proof.
  intros (Hp & Hd & Hn). unfold view_add. destruct (qv_down v); [done|]. simpl.
  case_bool_decide as Hk; [done|]. rewrite Hp, bool_decide_false by set_solver.
  split; [done|]. simpl. rewrite Hd in Hk |- *. rewrite elem_of_list_to_set in Hk. split.
  - rewrite list_to_set_app_L. set_solver.
  - apply NoDup_app. split; [done|]. split; [|apply NoDup_singleton]. set_solver.
Qed.

(** One turn of the worker on a settled queue. *)
Lemma settled_turn k ks v v' (later : bool) : settled v → view_get v = Some (k, v') → qv_queue v = k :: ks →
  let v2 := view_done k (if later then view_later k v' else v') in
  settled v2 ∧ qv_queue v2 = ks ∧ qv_down v2 = qv_down v ∧
  qv_later v2 = if later && negb (qv_down v) then qv_later v ++ [k] else qv_later v.
Proof.
  intros (Hp & Hd & Hn) Hg Hq. unfold view_get in Hg. rewrite Hq in Hg, Hd, Hn. injection Hg as <-.
  apply NoDup_cons in Hn as [Hk Hn]. unfold view_later, view_done, settled. simpl.
  rewrite Hp, Hd. simpl.
  assert (Hdirty : (({[k]} ∪ list_to_set ks) ∖ {[k]} : gset string) = list_to_set ks)
    by (apply set_eq; intros x; rewrite elem_of_difference, elem_of_union, elem_of_singleton, elem_of_list_to_set; naive_solver).
  assert (Hnot : k ∉ (list_to_set ks : gset string)) by by rewrite elem_of_list_to_set.
  destruct later, (qv_down v); simpl; rewrite Hdirty, bool_decide_false by done;
    (split; [split; [set_solver|done]|done]).
Qed.

(** ** The worker *)

Section worker.
Context {K D L Q : Type} `{KubeAPI K} `{RuntimeLaws D} `{PodListerLaws L} `{WorkQueueLaws Q}.
Context (volume_root : option path) (now : Z) (clock : N → Z) (uuids : N → string)
        (sys_text : err → string) (duration_text : Z → string)
        (range : gmap string string → list (string * string))
        (range_groups : gmap string (list string) → list (string * list string))
        (split_key : string → res (string * string)).
Abbreviation St := (rstate K D L Q).
Implicit Types (s : St) (p : pod).

Abbreviation reconcile := (reconcile_pod volume_root now clock uuids sys_text duration_text range).
Abbreviation turn := (process_next volume_root now clock uuids sys_text duration_text range split_key).
Abbreviation loop := (run_worker volume_root now clock uuids sys_text duration_text range split_key).

(** [n] turns of the worker. *)
Fixpoint process_many (n : nat) : M St unit :=
  match n with
  | 0 => ret tt
  | S n' => turn ;;; process_many n'
  end.

Context (good : K → fs → Prop).
Abbreviation calm := (calm good).
Hypothesis Hpatch : ∀ f ns n st, returns (λ k, good k f) (patch_pod_status ns n st).
Hypothesis Hdelete : ∀ f ns n g, returns (λ k, good k f) (delete_pod ns n g).
Hypothesis Hevent : ∀ f e, returns (λ k, good k f) (create_event e).

(** The Pods the lister lists; [SplitMetaNamespaceKey] splits their keys. *)
Context (pods : list pod).
Hypothesis Hkeys : NoDup (map pod_key pods).
Hypothesis Hsplit : ∀ p, p ∈ pods → split_key (pod_key p) = Ok (p_namespace p, p_name p).
Hypothesis Hspecs : ∀ p, p ∈ pods → p_deleting p = false →
  returns calm (specs_of volume_root range p : M St _).

Abbreviation qview s := (view (rs_queue s)).
Definition listing s : Prop := lister_list (rs_lister s) = Ok pods.

Lemma reconcile_key_run p s : p ∈ pods → listing s →
  reconcile_key volume_root now clock uuids sys_text duration_text range split_key (pod_key p) s = reconcile p s.
Proof.
  intros Hp Hl. unfold reconcile_key. rewrite Hsplit by done. erewrite ebind_ok by reflexivity.
  cbv beta iota. erewrite bind_val by reflexivity. by rewrite (lists _ pods p Hl Hp Hkeys).
Qed.

(** A call of the queue changes only the queue. *)
Lemma queue_call {A} (m : M Q A) s q a : m (rs_queue s) = (q, Val a) →
  ∃ s', on_queue m s = (s', Val a) ∧ rs_queue s' = q ∧ rs_lister s' = rs_lister s ∧
    boxes s' = boxes s ∧ (calm s → calm s') ∧ rs_kube s' = rs_kube s.
Proof. intros E. eexists. by split; [apply zoom_run|]. Qed.

(** One turn, on the key of a Pod. *)
Lemma turn_run p ks s :
  p ∈ pods → listing s → calm s → settled (qview s) → qv_queue (qview s) = pod_key p :: ks →
  ∃ s0 s1 s' r, reconcile p s0 = (s1, Val r) ∧ calm s0 ∧ boxes s0 = boxes s ∧
    turn s = (s', Val true) ∧ boxes s' = boxes s1 ∧ evolves [p_uid p] (boxes s) (boxes s') ∧
    listing s' ∧ calm s' ∧ settled (qview s') ∧ qv_queue (qview s') = ks ∧
    qv_down (qview s') = qv_down (qview s) ∧
    qv_later (qview s') = qv_later (qview s) ++
      (if is_ok r || qv_down (qview s) then [] else [pod_key p]).
Proof.
  intros Hp Hl Hs Hset Hq. unfold process_next.
  pose proof (get_law (rs_queue s)) as Hget. unfold view_get in Hget. rewrite Hq in Hget.
  destruct Hget as (q0 & E0 & Hv0).
  destruct (queue_call _ s _ _ E0) as (s0 & E0' & Hq0 & Hl0 & Hb0 & Hc0 & _).
  erewrite bind_val by exact E0'. cbv beta iota.
  destruct (reconcile_turn volume_root now clock uuids sys_text duration_text range good Hpatch Hdelete Hevent
              p s0 (Hspecs p Hp) (Hc0 Hs)) as (s1 & r & E1 & Hs1 & Hev & Hl1 & Hq1).
  erewrite bind_val by (rewrite reconcile_key_run; [exact E1|done|unfold listing; by rewrite Hl0]).
  set (later := negb (is_ok r)).
  assert (Hrep : ∃ q2, (match r with Err _ => queue_add_rate_limited (pod_key p) | Ok _ => queue_forget (pod_key p) end)
                          (rs_queue s1) = (q2, Val tt) ∧
                        view q2 = if later then view_later (pod_key p) (view q0) else view q0).
  { rewrite Hq1, Hq0. unfold later. destruct r; [apply forget_law|apply later_law]. }
  destruct Hrep as (q2 & E2 & Hv2).
  destruct (queue_call _ s1 _ _ E2) as (s2 & E2' & Hq2 & Hl2 & Hb2 & Hc2 & _).
  destruct (done_law (pod_key p) q2) as (q3 & E3 & Hv3). rewrite <- Hq2 in E3.
  destruct (queue_call _ s2 _ _ E3) as (s3 & E3' & Hq3 & Hl3 & Hb3 & Hc3 & _).
  destruct (settled_turn (pod_key p) ks (qview s) (view q0) later Hset) as (Hset' & Hqs & Hdown & Hlater);
    [unfold view_get; by rewrite Hq, Hv0|done|].
  rewrite <- Hv2, <- Hv3 in Hset', Hqs, Hdown, Hlater. rewrite <- Hq3 in Hset', Hqs, Hdown, Hlater.
  exists s0, s1, s3, r. split; [done|]. split; [by apply Hc0|]. split; [done|]. split.
  { assert (Em : (match r with Err _ => on_queue (queue_add_rate_limited (pod_key p))
                  | Ok _ => on_queue (queue_forget (pod_key p)) end) s1 = (s2, Val tt)) by (by destruct r).
    erewrite bind_val by exact Em. by erewrite bind_val by exact E3'. }
  split; [congruence|]. split; [by rewrite Hb3, Hb2, <- Hb0|]. split; [unfold listing in *; congruence|].
  split; [by auto|]. split; [done|]. split; [done|]. split; [done|].
  rewrite Hlater. unfold later. destruct (is_ok r), (qv_down _); simpl; by rewrite ?app_nil_r.
Qed.
(** A Pod that can run: its images can be pulled and its environment and
    volumes resolve. *)
Definition healthy p : Prop :=
  p_uid p ≠ "" ∧ p_deleting p = false ∧
  Forall (λ c, pullable (resolve_pull_policy (c_pull_policy c) (c_image c))) (p_containers p) ∧
  ∀ s, calm s → ∃ s1 specs, specs_of volume_root range p s = (s1, Val (Ok specs)).

Definition all_up p s : Prop :=
  ∀ c, c ∈ p_containers p → is_Some (boxes s !! container_name (p_uid p) (c_name c)).

(** A queue that has been drained, with [failed] put off. *)
Definition drained (v v' : queue_view) (failed : list string) : Prop :=
  settled v' ∧ qv_queue v' = [] ∧ qv_down v' = qv_down v ∧ qv_later v' = qv_later v ++ failed ∧
  (qv_down v = true → failed = []) ∧ failed `sublist_of` qv_queue v.

Hypothesis Hkube : kube_returns (K := K).

Lemma drain_queue ps s : ps ⊆ pods → listing s → calm s → settled (qview s) → qv_queue (qview s) = map pod_key ps →
  ∃ s' failed, process_many (length ps) s = (s', Val tt) ∧ listing s' ∧ calm s' ∧
    evolves (map p_uid pods) (boxes s) (boxes s') ∧ drained (qview s) (qview s') failed ∧
    (reliable (D := D) → ∀ p, p ∈ ps → healthy p → all_up p s').
Proof.
  revert s. induction ps as [|p ps IH]; intros s Hsub Hl Hs Hset Hq; cbn [process_many length].
  { exists s, []. split; [done|]. split; [done|]. split; [done|]. split; [done|].
    split; [unfold drained; rewrite Hq, app_nil_r; by repeat split; try apply Hset|].
    intros _ p Hp. by apply elem_of_nil in Hp. }
  assert (Hp : p ∈ pods) by (apply Hsub; by left).
  destruct (turn_run p (map pod_key ps) s Hp Hl Hs Hset Hq)
    as (s0 & s1 & s2 & r & E1 & Hs0 & Hb0 & E2 & Hb2 & Hev & Hl2 & Hs2 & Hset2 & Hq2 & Hd2 & Hlat2).
  erewrite bind_val by exact E2.
  destruct (IH s2) as (s' & failed & E & Hl' & Hs' & Hev' & (Hset' & Hq' & Hd' & Hlat' & Hdn & Hsubl) & Hup);
    [intros x Hx; apply Hsub; by right|done..|].
  exists s', ((if is_ok r || qv_down (qview s) then [] else [pod_key p]) ++ failed).
  split; [done|]. split; [done|]. split; [done|]. split.
  { etransitivity; [|exact Hev']. eapply evolves_mono; [|exact Hev].
    intros x Hx%list_elem_of_singleton. subst x. by apply list_elem_of_fmap_2. }
  split.
  - split; [done|]. split; [done|]. split; [congruence|]. split; [by rewrite Hlat', Hlat2, app_assoc|].
    rewrite Hd2 in Hdn. rewrite Hq2 in Hsubl. rewrite Hq. split.
    + intros Hdown. rewrite Hdown, orb_true_r. simpl. by apply Hdn.
    + destruct (is_ok r || _); simpl; by constructor.
  - intros Hrel x Hx Hh. apply elem_of_cons in Hx as [->|Hx]; [|by apply Hup].
    destruct Hh as (Hu & Hlive & Hpol & Hres). destruct (Hres s0 Hs0) as (s3 & specs & Es).
    destruct (reconcile_runs volume_root now clock uuids sys_text duration_text range Hkube p s0 s3 specs
                Hrel Hu Hlive Hpol Es) as (s4 & r4 & E4 & Hall & _).
    intros c Hc. eapply evolves_exists; [exact Hev'|]. rewrite Hb2.
    assert (s4 = s1) as -> by congruence. by apply Hall.
Qed.

(** The loop ends when the queue is shut down and drained. *)
Lemma stops ps s fuel : ps ⊆ pods → listing s → calm s → settled (qview s) →
  qv_queue (qview s) = map pod_key ps → qv_down (qview s) = true → (length ps < fuel)%nat →
  ∃ s', loop fuel s = (s', Val tt) ∧ qv_queue (qview s') = [] ∧ qv_later (qview s') = qv_later (qview s) ∧
    evolves (map p_uid pods) (boxes s) (boxes s').
Proof.
  revert s fuel. induction ps as [|p ps IH]; intros s [|fuel] Hsub Hl Hs Hset Hq Hdown Hfuel; try (simpl in *; lia);
    cbn [run_worker].
  - pose proof (get_law (rs_queue s)) as Hget. unfold view_get in Hget. rewrite Hq in Hget. simpl in Hget.
    destruct (Hget Hdown) as (q & E & Hv). destruct (queue_call _ s _ _ E) as (s' & E' & Hq' & _ & Hb & _).
    exists s'. split; [|by rewrite Hq', Hv, Hb].
    unfold process_next. by erewrite bind_val by (erewrite bind_val by exact E'; reflexivity).
  - assert (Hp : p ∈ pods) by (apply Hsub; by left).
    destruct (turn_run p (map pod_key ps) s Hp Hl Hs Hset Hq)
      as (s0 & s1 & s2 & r & E1 & Hs0 & Hb0 & E2 & Hb2 & Hev & Hl2 & Hs2 & Hset2 & Hq2 & Hd2 & Hlat2).
    erewrite bind_val by exact E2.
    destruct (IH s2 fuel) as (s' & E & Hq' & Hlat' & Hev'); [intros x Hx; apply Hsub; by right|done..| | |].
    { by rewrite Hd2. }
    { simpl in Hfuel. lia. }
    exists s'. split; [done|]. split; [done|]. split.
    + by rewrite Hlat', Hlat2, Hdown, orb_true_r, app_nil_r.
    + etransitivity; [|exact Hev']. eapply evolves_mono; [|exact Hev].
      intros x Hx%list_elem_of_singleton. subst x. by apply list_elem_of_fmap_2.
Qed.
(** C20: a worker whose queue is shut down stops.  It takes the keys that were
    queued, one turn each, puts none of them off, whatever the reconciliations
    report, and returns; it creates only containers of Pods it was given.  The
    fuel is one more than the keys. *)
Theorem worker_stops s fuel :
  listing s → calm s → settled (qview s) → qv_down (qview s) = true →
  (∀ k, k ∈ qv_queue (qview s) → k ∈ map pod_key pods) →
  (length (qv_queue (qview s)) < fuel)%nat →
  ∃ s', loop fuel s = (s', Val tt) ∧ qv_queue (qview s') = [] ∧ qv_later (qview s') = qv_later (qview s) ∧
    ∀ n c, boxes s !! n = None → boxes s' !! n = Some c → ∃ p, p ∈ pods ∧ uid_of c = p_uid p.
Proof.
  intros Hl Hs Hset Hdown Hin Hfuel.
  assert (Hps : ∃ ps, ps ⊆ pods ∧ qv_queue (qview s) = map pod_key ps).
  { clear -Hin. induction (qv_queue (qview s)) as [|k ks IH]; [exists []; split; [apply list_subseteq_nil|done]|].
    destruct IH as (ps & Hps & E); [intros x Hx; apply Hin; by right|].
    assert (Hk : k ∈ map pod_key pods) by (apply Hin; by left).
    apply list_elem_of_fmap in Hk as (p & -> & Hp).
    exists (p :: ps). split; [|by rewrite E]. intros x [->|Hx]%elem_of_cons; [done|by apply Hps]. }
  destruct Hps as (ps & Hps & Hq). rewrite Hq, length_map in Hfuel.
  destruct (stops ps s fuel Hps Hl Hs Hset Hq Hdown Hfuel) as (s' & E & Hq' & Hlat & _ & Hnew).
  exists s'. split; [done|]. split; [done|]. split; [done|]. intros n c E1 E2.
  apply (Hnew n c E1) in E2. apply list_elem_of_fmap in E2 as (p & -> & Hp). by exists p.
Qed.

(** ** The start of the kubelet *)

Hypothesis Hgroups : ∀ g, range_groups g ≡ₚ map_to_list g.
Hypothesis Hquiet : ∀ k f, good k f → quiet f.
Hypothesis Hremove : ∀ k d, moves (λ f f', good k f → good k f') (os_remove_all d).

Lemma reap_stays s : listing s → calm s → (∀ (d d' : D) r, list_managed d = (d', Val r) → is_ok r = true) →
  ∃ s', reap_orphans volume_root range_groups s = (s', Val (Ok tt)) ∧ calm s' ∧ aside s s'.
Proof.
  intros Hl Hs Hlist.
  destruct (orphans_run volume_root range_groups Hgroups s) as (s' & r & E & _); [by eapply Hquiet|].
  pose (R := λ s s' : St, (calm s → calm s') ∧ aside s s').
  assert (HR : PreOrder R).
  { split; [done|]. intros s1 s2 s3 [Ha [Hb Hc]] [Hd [He Hf]]. split; [auto|]. split; congruence. }
  assert (Hd : ∀ A (m : M D A), moves R (on_docker m)) by (intros; by apply moves_zoom).
  assert (Hv : ∀ u, moves R (remove_volumes volume_root u)).
  { intros u. unfold remove_volumes. destruct volume_root; [|by apply moves_pure].
    apply moves_bind; [exact _| |intros; by apply moves_pure]. intros s1. apply wp_zoom.
    eapply wp_mono; [|apply (Hremove (rs_kube s1))]. intros f o Hf. by split. }
  assert (Hg : ∀ ns, moves R (reap_group ns)).
  { induction ns as [|n ns IH]; cbn [reap_group]; [by apply moves_pure|].
    whole_steps ltac:(first [apply IH|apply Hd]). }
  assert (Hgs : ∀ gs, moves R (reap_groups volume_root gs)).
  { induction gs as [|[u ns] gs IH]; cbn [reap_groups]; [by apply moves_pure|].
    whole_steps ltac:(first [apply IH|apply Hg|apply Hv]). }
  assert (HRs : moves R (reap_orphans volume_root range_groups)).
  { unfold reap_orphans. whole_steps ltac:(first [apply Hd|apply Hgs]). }
  destruct (moves_run R _ s s' _ HRs E) as [Hs' Ha].
  exists s'. split; [|by split; [apply Hs'|]]. rewrite E. do 2 f_equal.
  unfold reap_orphans in E. destruct (list_law (rs_docker s)) as (d & l & El & _).
  pose proof (Hlist _ _ _ El) as Hok. destruct l as [l|]; [|done].
  destruct (on_docker_run _ s _ _ El) as (s1 & E1 & _ & _ & _ & Hl1 & _).
  rewrite (ebind_ok _ _ _ _ _ E1) in E. destruct l as [|x l]; [by injection E|].
  rewrite (ebind_ok _ _ _ s1 pods) in E by (unfold bind, gets, of_res; rewrite Hl1; by unfold listing in Hl; rewrite Hl).
  apply bind_inv in E as (s2 & u & _ & E). by injection E.
Qed.

(** C9: the start of the kubelet, [Run] with the reap of the orphans, the
    worker and the shutdown of the queue.  Whatever containers a former kubelet
    left, and whatever the Pods are, [Run] reaps and then reconciles every Pod
    listed and returns; at the end every container of every healthy Pod exists,
    no container is of a Pod that is gone, every container of a Pod that is
    listed is still there, the queue is empty and shut down, and the keys put
    off for another try are among those that were queued, each once. *)
Theorem kubelet_starts s :
  reliable (D := D) → removes_all (D := D) →
  (∀ (d d' : D) r, list_managed d = (d', Val r) → is_ok r = true) →
  listing s → calm s → settled (qview s) → qv_queue (qview s) ≡ₚ map pod_key pods →
  ∃ s' failed,
    run_main volume_root range_groups true (process_many (length pods)) s = (s', Val (Ok tt)) ∧
    (∀ p c, p ∈ pods → healthy p → c ∈ p_containers p →
       is_Some (boxes s' !! container_name (p_uid p) (c_name c))) ∧
    (∀ n c, boxes s' !! n = Some c → uid_of c = "" ∨ uid_of c ∈ map p_uid pods) ∧
    (∀ n c, boxes s !! n = Some c → uid_of c = "" ∨ uid_of c ∈ map p_uid pods →
       ∃ c', boxes s' !! n = Some c' ∧ dc_labels c' = dc_labels c) ∧
    qv_queue (qview s') = [] ∧ qv_down (qview s') = true ∧
    qv_later (qview s') = qv_later (qview s) ++ failed ∧ failed `sublist_of` qv_queue (qview s).
Proof.
  intros Hrel Hrem Hlist Hl Hs Hset Hq.
  destruct (reap_stays s Hl Hs Hlist) as (s1 & E1 & Hs1 & Hl1 & Hq1).
  destruct (orphans_run volume_root range_groups Hgroups s) as (s1' & r & E1' & Hnone & Horph); [by eapply Hquiet|].
  rewrite E1 in E1'. injection E1' as <- <-. rewrite Hl in Horph. destruct Horph as [Hkeep Hgone].
  specialize (Hgone eq_refl Hrem).
  destruct (Permutation_map_inv _ _ Hq) as (ps & Eq & Hperm).
  rewrite (Permutation_length Hperm).
  destruct (drain_queue ps s1) as (s2 & failed & E2 & Hl2 & Hs2 & [Hold Hnew] & (Hset2 & Hq2 & Hd2 & Hlat2 & _ & Hsub) & Hup).
  { intros x Hx. by rewrite Hperm. }
  { unfold listing. by rewrite Hl1. }
  { done. }
  { by rewrite Hq1. }
  { by rewrite Hq1. }
  destruct (down_law (rs_queue s2)) as (q3 & E3 & Hv3).
  destruct (queue_call _ s2 _ _ E3) as (s3 & E3' & Hq3 & Hl3 & Hb3 & _).
  exists s3, failed. split.
  { unfold run_main. cbn [negb].
    assert (Ebody : (reap_orphans volume_root range_groups ;;; process_many (length ps) ;;; ok tt) s
                    = (s2, Val (Ok tt))).
    { erewrite bind_val by exact E1. by erewrite bind_val by exact E2. }
    erewrite bind_val by exact Ebody. by erewrite bind_val by exact E3'. }
  rewrite Hb3, Hq3, Hv3. rewrite Hq1 in Hlat2, Hsub. split; [|split; [|split]].
  - intros p c Hp Hh. apply Hup; [done| |done]. by rewrite <- Hperm.
  - intros n c Hc. destruct (boxes s1 !! n) as [c1|] eqn:Ec1; [|right; by eapply Hnew].
    destruct (Hold n c1 Ec1) as (c' & Ec' & Hlab). assert (c' = c) as -> by congruence.
    unfold uid_of. rewrite Hlab. by apply (Hgone n).
  - intros n c Hc Hk. apply Hold. by apply Hkeep.
  - done.
Qed.
End worker.
