(* ===== verification/Lifecycle.v ===== *)
(** * The life of the kubelet's process

    [run] of cmd/kubelet-lite/main.go, [Run] of internal/kubelet/logs.go and
    [Run] of internal/kubelet/reconciler.go as goroutines that share a context,
    three channels and the queue.  A goroutine is a program counter and a step
    function; [exec] is one step of the process, a run a list of events.  What
    is left open is an event: a signal, the end of [Serve], the outcome of
    [Listen], the sync of the informer.  A step of the worker or of a reaper is
    a whole reconciliation or reap: these return ([Worker], [ReconcilerReap]). *)

From S2P Require Import Prelude GoStrings.

(** ** The goroutines and what they share *)

Abbreviation gerror := (option err).           (* an [error]: [None] is nil *)

Inductive main_pc :=
  | MSelect                                    (* select on logErr and recErr *)
  | MJoinRec (e : gerror)                      (* <-recErr, to return [e] *)
  | MJoinLog (e : gerror)                      (* <-logErr, to return [e] *)
  | MReturned (e : gerror).

Inductive log_pc :=
  | LListen                                    (* net.Listen *)
  | LSelect                                    (* select on ctx.Done and errCh *)
  | LShutdown                                  (* srv.Shutdown *)
  | LReturned.

Inductive rec_pc :=
  | RSync                                      (* WaitForCacheSync *)
  | RReap                                      (* the first reapOrphans *)
  | RWait                                      (* <-ctx.Done *)
  | RReturned.

(** A goroutine under [wait.UntilWithContext]: before the check of the context
    and the first call, in the queue or on the timer, at work, returned. *)
Inductive loop_pc := Starting | Waiting | Busy | Ended.

Record shared := MkShared {
  sh_cancelled : bool;                         (* ctx is done *)
  sh_log_err : option gerror;                  (* the buffer of logErr *)
  sh_rec_err : option gerror;                  (* the buffer of recErr *)
  sh_serve_err : option err;                   (* the buffer of errCh *)
  sh_started : bool;                           (* the loops were started *)
  sh_queue_down : bool;
  sh_docker_closed : bool }.

Record proc := MkProc {
  pr_main : main_pc; pr_log : log_pc; pr_rec : rec_pc;
  pr_worker : loop_pc; pr_reaper : loop_pc; pr_sh : shared }.

Definition boot : proc :=
  MkProc MSelect LListen RSync Starting Starting (MkShared false None None None false false false).

Definition cancel (s : shared) : shared :=
  MkShared true (sh_log_err s) (sh_rec_err s) (sh_serve_err s) (sh_started s) (sh_queue_down s) (sh_docker_closed s).
Definition set_log_err (e : option gerror) (s : shared) : shared :=
  MkShared (sh_cancelled s) e (sh_rec_err s) (sh_serve_err s) (sh_started s) (sh_queue_down s) (sh_docker_closed s).
Definition set_rec_err (e : option gerror) (s : shared) : shared :=
  MkShared (sh_cancelled s) (sh_log_err s) e (sh_serve_err s) (sh_started s) (sh_queue_down s) (sh_docker_closed s).
Definition set_serve_err (e : option err) (s : shared) : shared :=
  MkShared (sh_cancelled s) (sh_log_err s) (sh_rec_err s) e (sh_started s) (sh_queue_down s) (sh_docker_closed s).
Definition start_loops (s : shared) : shared :=
  MkShared (sh_cancelled s) (sh_log_err s) (sh_rec_err s) (sh_serve_err s) true (sh_queue_down s) (sh_docker_closed s).
Definition shut_queue (s : shared) : shared :=
  MkShared (sh_cancelled s) (sh_log_err s) (sh_rec_err s) (sh_serve_err s) (sh_started s) true (sh_docker_closed s).
Definition close_docker (s : shared) : shared :=
  MkShared (sh_cancelled s) (sh_log_err s) (sh_rec_err s) (sh_serve_err s) (sh_started s) (sh_queue_down s) true.

(** ** Steps *)

Inductive event :=
  | Signal                                     (* SIGINT, SIGTERM *)
  | ListenOk | ListenFails (e : err)
  | ServeEnds (e : err)                        (* srv.Serve returns *)
  | LogCancelled | LogServeErr | ShutdownOk
  | Synced | SyncStopped                       (* WaitForCacheSync: true, false *)
  | FirstReaped | RecCancelled
  | WorkerEnters | WorkerTakes | WorkerDone | WorkerEnds
  | ReaperWakes | ReaperDone | ReaperEnds
  | MainLog | MainRec | JoinRec | JoinLog.

#[export] Instance event_eq_dec : EqDecision event.
Proof. solve_decision. Defined.

Definition server_closed : err := ErrExt "http: Server closed".
Definition listen_error (addr : string) (e : err) : err := ErrWrap ("log listen " +:+ addr) e.
Definition sync_error : err := ErrText "cache sync failed".

(** [run], from its two [go] statements on.  It returns through its deferred
    calls, [cancel] and [docker.Close]. *)
Definition main_step (ev : event) (m : main_pc) (s : shared) : option (main_pc * shared) :=
  match ev, m with
  | MainLog, MSelect => e ← sh_log_err s; Some (MJoinRec e, cancel (set_log_err None s))
  | MainRec, MSelect => e ← sh_rec_err s; Some (MJoinLog e, cancel (set_rec_err None s))
  | JoinRec, MJoinRec e => _ ← sh_rec_err s; Some (MReturned e, close_docker (cancel (set_rec_err None s)))
  | JoinLog, MJoinLog e => _ ← sh_log_err s; Some (MReturned e, close_docker (cancel (set_log_err None s)))
  | _, _ => None
  end.

Section log_server.
Context (addr : string).

(** [LogServer.Run], and the send of what it returns on logErr. *)
Definition log_step (ev : event) (l : log_pc) (s : shared) : option (log_pc * shared) :=
  match ev, l with
  | ListenOk, LListen => Some (LSelect, s)
  | ListenFails e, LListen => Some (LReturned, set_log_err (Some (Some (listen_error addr e))) s)
  | LogCancelled, LSelect => if sh_cancelled s then Some (LShutdown, s) else None
  | ShutdownOk, LShutdown => Some (LReturned, set_log_err (Some None) s)
  | LogServeErr, LSelect =>
      e ← sh_serve_err s;
      Some (LReturned, set_log_err (Some (if bool_decide (e = server_closed) then None else Some e)) s)
  | _, _ => None
  end.

(** The goroutine of [srv.Serve]: it returns [ErrServerClosed] once [Shutdown]
    is called, and not before. *)
Definition serve_step (ev : event) (l : log_pc) (s : shared) : option shared :=
  match ev with
  | ServeEnds e =>
      if bool_decide (sh_serve_err s = None) &&
         match l with
         | LListen => false
         | LSelect => bool_decide (e ≠ server_closed)
         | LShutdown | LReturned => bool_decide (e = server_closed)
         end
      then Some (set_serve_err (Some e) s) else None
  | _ => None
  end.

(** [Reconciler.Run]: it returns through its deferred [queue.ShutDown]; what it
    returns is sent on recErr.  The sync stops only when the context is done. *)
Definition rec_step (ev : event) (r : rec_pc) (s : shared) : option (rec_pc * shared) :=
  match ev, r with
  | Synced, RSync => Some (RReap, s)
  | SyncStopped, RSync =>
      if sh_cancelled s then Some (RReturned, set_rec_err (Some (Some sync_error)) (shut_queue s)) else None
  | FirstReaped, RReap => Some (RWait, start_loops s)
  | RecCancelled, RWait =>
      if sh_cancelled s then Some (RReturned, set_rec_err (Some None) (shut_queue s)) else None
  | _, _ => None
  end.

(** The worker's [runWorker], and the reaper's [reapOrphans]. *)
Definition worker_step (ev : event) (w : loop_pc) (s : shared) : option loop_pc :=
  match ev, w with
  | WorkerEnters, Starting => if sh_started s && negb (sh_cancelled s) then Some Waiting else None
  | WorkerTakes, Waiting => Some Busy
  | WorkerDone, Busy => Some Waiting
  | WorkerEnds, Starting => if sh_started s && sh_cancelled s then Some Ended else None
  | WorkerEnds, Waiting => if sh_queue_down s then Some Ended else None
  | _, _ => None
  end.

Definition reaper_step (ev : event) (w : loop_pc) (s : shared) : option loop_pc :=
  match ev, w with
  | ReaperWakes, (Starting | Waiting) => if sh_started s && negb (sh_cancelled s) then Some Busy else None
  | ReaperDone, Busy => Some Waiting
  | ReaperEnds, (Starting | Waiting) => if sh_started s && sh_cancelled s then Some Ended else None
  | _, _ => None
  end.

(** One step of the process, which ends when [run] has returned. *)
Definition exec (ev : event) (p : proc) : option proc :=
  let '(MkProc m l r w q s) := p in
  match m with MReturned _ => None | _ =>
  match ev with
  | Signal => Some (MkProc m l r w q (cancel s))
  | MainLog | MainRec | JoinRec | JoinLog =>
      '(m', s') ← main_step ev m s; Some (MkProc m' l r w q s')
  | ListenOk | ListenFails _ | LogCancelled | LogServeErr | ShutdownOk =>
      '(l', s') ← log_step ev l s; Some (MkProc m l' r w q s')
  | ServeEnds _ => s' ← serve_step ev l s; Some (MkProc m l r w q s')
  | Synced | SyncStopped | FirstReaped | RecCancelled =>
      '(r', s') ← rec_step ev r s; Some (MkProc m l r' w q s')
  | WorkerEnters | WorkerTakes | WorkerDone | WorkerEnds => w' ← worker_step ev w s; Some (MkProc m l r w' q s)
  | ReaperWakes | ReaperDone | ReaperEnds => q' ← reaper_step ev q s; Some (MkProc m l r w q' s)
  end
  end.

Fixpoint exec_all (evs : list event) (p : proc) : option proc :=
  match evs with
  | [] => Some p
  | ev :: evs' => p' ← exec ev p; exec_all evs' p'
  end.

(** A run from the start of the goroutines. *)
Inductive run : list event → proc → Prop :=
  | run_boot : run [] boot
  | run_step evs ev p p' : run evs p → exec ev p = Some p' → run (evs ++ [ev]) p'.

(** ** What the goroutines know of each other *)

(** A result is in its channel from the return of its goroutine until [run]
    takes it; the context and the queue are down where they must be. *)
Definition joined (p : proc) : Prop :=
  let '(MkProc m l r _ _ s) := p in
  (r = RReturned → sh_queue_down s = true) ∧
  match m with
  | MSelect => (l = LReturned ↔ is_Some (sh_log_err s)) ∧ (r = RReturned ↔ is_Some (sh_rec_err s))
  | MJoinRec _ => sh_cancelled s = true ∧ l = LReturned ∧ (r = RReturned ↔ is_Some (sh_rec_err s))
  | MJoinLog _ => sh_cancelled s = true ∧ r = RReturned ∧ (l = LReturned ↔ is_Some (sh_log_err s))
  | MReturned _ => sh_cancelled s = true ∧ l = LReturned ∧ r = RReturned ∧ sh_docker_closed s = true
  end.

(** One step taken apart, by cases on the event and the counters it moves. *)
Ltac exec_cases H :=
  unfold exec, main_step, log_step, serve_step, rec_step, worker_step, reaper_step in H;
  repeat (case_match; simplify_option_eq; try done); simplify_eq/=.

Lemma joined_step ev p p' : exec ev p = Some p' → joined p → joined p'.
Proof.
  destruct p as [m l r w q s]. intros H. exec_cases H; unfold is_Some; naive_solver.
Qed.

Lemma run_joined evs p : run evs p → joined p.
Proof.
  induction 1 as [|evs ev p p' _ IH H]; [|by eapply joined_step].
  unfold joined, boot, is_Some. naive_solver.
Qed.

(** ** Results *)

(** The run explains an error of the log server, of the reconciler. *)
Definition failed (evs : list event) (e : err) : Prop :=
  (∃ e0, ListenFails e0 ∈ evs ∧ e = listen_error addr e0) ∨ (ServeEnds e ∈ evs ∧ e ≠ server_closed).
Definition unsynced (evs : list event) (e : err) : Prop :=
  e = sync_error ∧ Signal ∈ evs ∧ Synced ∉ evs.

Definition result (errs : list event → err → Prop) (evs : list event) (e : gerror) : Prop :=
  match e with None => Signal ∈ evs | Some e => errs evs e end.

(** Where each result comes from.  Before the first result is taken the context
    is done only by a signal. *)
Record explained (evs : list event) (p : proc) : Prop := MkExplained {
  ex_sync : pr_rec p = RSync → Synced ∉ evs;
  ex_serve e : sh_serve_err (pr_sh p) = Some e → ServeEnds e ∈ evs;
  ex_closed : sh_serve_err (pr_sh p) = Some server_closed → pr_log p = LShutdown ∨ pr_log p = LReturned;
  ex_cancel : pr_main p = MSelect ∨ (∃ e, pr_main p = MJoinLog e) →
    sh_cancelled (pr_sh p) = true → Signal ∈ evs;
  ex_shutdown : pr_log p = LShutdown → sh_cancelled (pr_sh p) = true;
  ex_log e : pr_main p = MSelect → sh_log_err (pr_sh p) = Some e → result failed evs e;
  ex_rec e : pr_main p = MSelect → sh_rec_err (pr_sh p) = Some e → result unsynced evs e;
  ex_join_rec e : pr_main p = MJoinRec e → result failed evs e;
  ex_join_log e : pr_main p = MJoinLog e → result unsynced evs e;
  ex_returned e : pr_main p = MReturned e → result (λ evs e, failed evs e ∨ unsynced evs e) evs e
}.

Lemma failed_snoc evs ev e : failed evs e → failed (evs ++ [ev]) e.
Proof. unfold failed. setoid_rewrite elem_of_app. naive_solver. Qed.

Lemma unsynced_snoc evs ev e : ev ≠ Synced → unsynced evs e → unsynced (evs ++ [ev]) e.
Proof.
  intros Hev (-> & Hs & Hn). split; [done|]. rewrite !elem_of_app. split; [by left|].
  intros [H|H%list_elem_of_singleton]; [done|congruence].
Qed.

Lemma result_mono (P Q : list event → err → Prop) evs ev e :
  (∀ x, P evs x → Q (evs ++ [ev]) x) → result P evs e → result Q (evs ++ [ev]) e.
Proof. intros HPQ. destruct e as [e|]; [apply HPQ|]. simpl. intros H. apply elem_of_app. by left. Qed.

Lemma unsynced_signal evs e : result unsynced evs e → Signal ∈ evs.
Proof. destruct e as [e|]; [|done]. by intros (_ & ? & _). Qed.

Lemma explained_step evs ev p p' : joined p → exec ev p = Some p' → explained evs p → explained (evs ++ [ev]) p'.
Proof.
  intros Hj H [H1 H2 Hc H3 H4 H5 H6 H7 H8 H9].
  assert (Hold : ∀ x, x ∈ evs → x ∈ evs ++ [ev]) by (intros; apply elem_of_app; by left).
  assert (Hnew : ev ∈ evs ++ [ev]) by (apply elem_of_app; right; by left).
  assert (Hsync : ev ≠ Synced → Synced ∉ evs → Synced ∉ evs ++ [ev]).
  { intros Hne Hn [Hin|Hin%list_elem_of_singleton]%elem_of_app; [done|congruence]. }
  assert (Hf : ∀ e, result failed evs e → result failed (evs ++ [ev]) e).
  { intros e. apply result_mono. intros x. apply failed_snoc. }
  assert (Hu : ev ≠ Synced → ∀ e, result unsynced evs e → result unsynced (evs ++ [ev]) e).
  { intros Hne e. apply result_mono. intros x. by apply unsynced_snoc. }
  assert (Hw : ∀ e P Q, (P = failed ∨ P = unsynced) → (Q = λ evs e, failed evs e ∨ unsynced evs e) → ev ≠ Synced →
    result P evs e → result Q (evs ++ [ev]) e).
  { intros e P Q HP -> Hne. apply result_mono. intros x Hx. destruct HP as [->| ->].
    - left. by apply failed_snoc.
    - right. by apply unsynced_snoc. }
  destruct p as [m l r w q s]. simpl in *.
  exec_cases H; split; simpl in *; intros; try solve [eauto 3]; destruct_or?; destruct_and?;
    repeat match goal with H : ∃ _, _ |- _ => destruct H end; simplify_eq/=; try solve [eauto 3].
  all: try match goal with |- result _ _ _ => eapply Hw; [| reflexivity | done | by eauto]; by auto end.
  all: try solve [apply Hold; eauto using unsynced_signal].
  all: try match goal with |- failed _ _ => first [left; by eauto | right; by eauto] end.
  all: try solve [match goal with H : sh_serve_err _ = Some server_closed |- _ => by destruct (Hc H) end].
  all: try solve [match goal with H : _ && _ = true |- _ => apply andb_true_iff in H as [? ?] end; by case_bool_decide].
  - by destruct (Hc eq_refl).
  - naive_solver.
  - split; [done|]. split; [by apply Hold, H3; [left|]|]. apply Hsync; [done|by apply H1].
Qed.

Lemma run_explained evs p : run evs p → explained evs p.
Proof.
  induction 1 as [|evs ev p p' Hr IH H].
  - split; simpl; try done; try naive_solver. by intros _ ?%elem_of_nil.
  - eapply explained_step; [by eapply run_joined|done..].
Qed.

(** ** The end *)

(** The events of the goroutines [run] waits for. *)
Definition awaited (ev : event) : bool :=
  match ev with
  | ListenOk | ListenFails _ | ServeEnds _ | LogCancelled | LogServeErr | ShutdownOk
  | Synced | SyncStopped | FirstReaped | RecCancelled | MainLog | MainRec | JoinRec | JoinLog => true
  | _ => false
  end.

(** The awaited events that are left. *)
Definition rank (p : proc) : nat :=
  match pr_main p with MSelect => 2 | MJoinRec _ | MJoinLog _ => 1 | MReturned _ => 0 end +
  match pr_log p with LListen => 3 | LSelect => 2 | LShutdown => 1 | LReturned => 0 end +
  match pr_rec p with RSync => 3 | RReap => 2 | RWait => 1 | RReturned => 0 end +
  match sh_serve_err (pr_sh p) with None => 1 | Some _ => 0 end.

Lemma rank_step ev p p' : exec ev p = Some p' →
  if awaited ev then (rank p' < rank p)%nat else rank p' = rank p.
Proof. destruct p as [m l r w q s]. intros H. exec_cases H; unfold rank; simpl; repeat case_match; simplify_eq/=; lia. Qed.

Lemma rank_run evs p : run evs p → (length (List.filter awaited evs) + rank p <= 9)%nat.
Proof.
  induction 1 as [|evs ev p p' _ IH H]; [done|]. apply rank_step in H. rewrite List.filter_app, length_app.
  simpl. destruct (awaited ev); simpl; lia.
Qed.

(** Something has ended, or was told to. *)
Definition ending (p : proc) : Prop :=
  sh_cancelled (pr_sh p) = true ∨ is_Some (sh_log_err (pr_sh p)) ∨ is_Some (sh_rec_err (pr_sh p)).

Lemma ending_progress p : joined p → ending p → (∀ e, pr_main p ≠ MReturned e) →
  ∃ ev p', awaited ev = true ∧ exec ev p = Some p'.
Proof.
  destruct p as [m l r w q s]. unfold joined, ending. simpl. intros [_ Hj] He Hm.
  destruct m as [|e|e|e]; [| | |by destruct (Hm e)].
  - destruct (sh_log_err s) as [e|] eqn:El; [exists MainLog; simpl; rewrite El; eauto|].
    destruct (sh_rec_err s) as [e|] eqn:Er; [exists MainRec; simpl; rewrite Er; eauto|].
    destruct He as [Hc|[[? ?]|[? ?]]]; [|done..].
    destruct r; [exists SyncStopped|exists FirstReaped|exists RecCancelled|]; simpl; rewrite ?Hc; eauto.
    by destruct Hj as [_ [[? ?] _]].
  - destruct Hj as (Hc & _ & Hj). destruct (sh_rec_err s) as [e'|] eqn:Er; [exists JoinRec; simpl; rewrite Er; eauto|].
    destruct r; [exists SyncStopped|exists FirstReaped|exists RecCancelled|]; simpl; rewrite ?Hc; eauto.
    by destruct Hj as [[? ?] _].
  - destruct Hj as (Hc & _ & Hj). destruct (sh_log_err s) as [e'|] eqn:El; [exists JoinLog; simpl; rewrite El; eauto|].
    destruct l; [exists ListenOk|exists LogCancelled|exists ShutdownOk|]; simpl; rewrite ?Hc; eauto.
    by destruct Hj as [[? ?] _].
Qed.

(** C21: the process ends.  In any run at most nine steps are of the goroutines
    [run] waits for, whatever the worker, the reaper and signals do in between;
    and from any point at which a signal has come or a server has returned, such
    a step is possible until [run] has returned, so it returns. *)
Theorem process_ends evs p :
  run evs p →
  (length (List.filter awaited evs) + rank p <= 9)%nat ∧
  (ending p → (∀ e, pr_main p ≠ MReturned e) → ∃ ev p', awaited ev = true ∧ exec ev p = Some p').
Proof.
  intros Hr. split; [by apply rank_run|]. apply ending_progress. by eapply run_joined.
Qed.

(** C15: what [run] returns.  It returns nil only if a signal came; an error is
    that of listening or serving, or, if the signal came before the informer had
    synced, the failure of the sync.  When it returns both servers have
    returned, the queue is shut down and the Docker client closed. *)
Theorem exit_status evs p r :
  run evs p → pr_main p = MReturned r →
  match r with
  | None => Signal ∈ evs
  | Some e => (∃ e0, ListenFails e0 ∈ evs ∧ e = listen_error addr e0) ∨
              (ServeEnds e ∈ evs ∧ e ≠ server_closed) ∨
              (e = sync_error ∧ Signal ∈ evs ∧ Synced ∉ evs)
  end ∧
  pr_log p = LReturned ∧ pr_rec p = RReturned ∧
  sh_cancelled (pr_sh p) = true ∧ sh_queue_down (pr_sh p) = true ∧ sh_docker_closed (pr_sh p) = true.
Proof.
  intros Hr Hm. split.
  - pose proof (ex_returned _ _ (run_explained _ _ Hr) r Hm) as He. destruct r as [e|]; [|done].
    unfold result, failed, unsynced in He. tauto.
  - apply run_joined in Hr. destruct p as [m l q w w' s]. simpl in *. subst m. naive_solver.
Qed.
End log_server.

(** ** Concrete runs *)

Lemma exec_all_run addr evs p evs' p' : run addr evs p → exec_all addr evs' p = Some p' → run addr (evs ++ evs') p'.
Proof.
  revert evs p. induction evs' as [|ev evs' IH]; intros evs p Hr; simpl.
  - intros [= ->]. by rewrite app_nil_r.
  - destruct (exec addr ev p) as [p1|] eqn:E; [|done]. simpl. intros H.
    change (ev :: evs') with ([ev] ++ evs'). rewrite app_assoc. eapply IH; [|done]. by econstructor.
Qed.

(** A signal while the worker reconciles: both servers return, and [run]
    without an error, while the worker still uses the closed client: nothing
    waits for it. *)
Definition signal_run : list event :=
  [ListenOk; Synced; FirstReaped; WorkerEnters; WorkerTakes; Signal; LogCancelled; RecCancelled; MainRec;
   ShutdownOk; JoinLog].

Example worker_not_joined : ∃ p, exec_all ":10350" signal_run boot = Some p ∧
  pr_main p = MReturned None ∧ pr_worker p = Busy ∧ sh_docker_closed (pr_sh p) = true.
Proof. eexists. split; [vm_compute; reflexivity|done]. Qed.

(** A signal before the sync: what [run] returns depends on the select. *)
Example early_signal_race : ∃ p1 p2,
  exec_all ":10350" [ListenOk; Signal; SyncStopped; LogCancelled; ShutdownOk; MainLog; JoinRec] boot = Some p1 ∧
  exec_all ":10350" [ListenOk; Signal; SyncStopped; LogCancelled; ShutdownOk; MainRec; JoinLog] boot = Some p2 ∧
  pr_main p1 = MReturned None ∧ pr_main p2 = MReturned (Some sync_error).
Proof. eexists _, _. split; [vm_compute; reflexivity|]. split; [vm_compute; reflexivity|done]. Qed.

Lemma run_of evs p : exec_all ":10350" evs boot = Some p → run ":10350" evs p.
Proof. intros H. exact (exec_all_run ":10350" [] boot evs p (run_boot _) H). Qed.

Lemma exit_status_witness :
  ∃ p, exec_all ":10350" [ListenFails (ErrIO "bind"); MainLog; SyncStopped; JoinRec] boot = Some p ∧
    pr_main p = MReturned (Some (listen_error ":10350" (ErrIO "bind"))) ∧ pr_rec p = RReturned.
Proof.
  assert (E : ∃ p, exec_all ":10350" [ListenFails (ErrIO "bind"); MainLog; SyncStopped; JoinRec] boot = Some p
    ∧ pr_main p = MReturned (Some (listen_error ":10350" (ErrIO "bind"))))
    by (eexists; split; [vm_compute; reflexivity|reflexivity]).
  destruct E as (p & E & Hm). exists p. split; [exact E|]. split; [exact Hm|].
  exact (proj1 (proj2 (proj2 (exit_status ":10350" _ p _ (run_of _ _ E) Hm)))).
Defined.

Lemma process_ends_witness :
  ∃ p, exec_all ":10350" [ListenOk; Synced; Signal] boot = Some p ∧
    ∃ ev p', awaited ev = true ∧ exec ":10350" ev p = Some p'.
Proof.
  assert (E : ∃ p, exec_all ":10350" [ListenOk; Synced; Signal] boot = Some p ∧ ending p ∧
    ∀ e, pr_main p ≠ MReturned e) by (eexists; split; [vm_compute; reflexivity|split; [by left|done]]).
  destruct E as (p & E & He & Hm). exists p. split; [exact E|].
  exact (proj2 (process_ends ":10350" _ p (run_of _ _ E)) He Hm).
Defined.
