(* ===== verification/Logs.v ===== *)
(** * Logs ([internal/kubelet/logs.go], [docker.go] [Logs], [internal/apiserver/podlogs.go])

    The API server proxies [pods/log] to the kubelet's log endpoint: it
    decodes the client's query, encodes it again, and forwards the request; the
    endpoint decodes it, picks the container and copies its log, cut at a
    number of bytes.  The demultiplexer of the Docker SDK ([stdcopy.StdCopy])
    is an argument; a log is finite here, what has been read of it. *)

From S2P Require Import Prelude GoStrings Urls Fs Translate Projection Docker Reconciler.

(** ** Results without effects *)

Definition res_bind {A B} (x : res A) (f : A → res B) : res B :=
  match x with Ok a => f a | Err e => Err e end.
Notation "'let!' x ':=' c 'in' k" := (res_bind c (λ x, k))
  (at level 10, x name, c at level 100, k at level 200) : go_scope.

(** [get] of the two decoders: the first value of a key. *)
Definition get (q : values) (k : string) : string :=
  match q !! k with Some (v :: _) => v | _ => "" end.

(** An option that is absent, or parsed; errors carry its name. *)
Definition field {A} (q : values) (k : string) (dflt : A) (parse : string → res A) : res A :=
  let v := get q k in
  if String.eqb v "" then Ok dflt
  else match parse v with Ok a => Ok a | Err e => Err (ErrWrap k e) end.

Definition int_ptr (s : string) : res (option Z) := let! n := parse_int s in Ok (Some n).

(** ** The API server's side *)

Record pod_log_options := MkPodLogOptions {
  po_container : string; po_follow : bool; po_previous : bool; po_timestamps : bool;
  po_since : option Z; po_tail : option Z; po_limit : option Z }.

Definition convert_url_values (q : values) : res pod_log_options :=
  let! follow := field q "follow" false parse_bool in
  let! previous := field q "previous" false parse_bool in
  let! timestamps := field q "timestamps" false parse_bool in
  let! since := field q "sinceSeconds" None int_ptr in
  let! tail := field q "tailLines" None int_ptr in
  let! limit := field q "limitBytes" None int_ptr in
  Ok (MkPodLogOptions (get q "container") follow previous timestamps since tail limit).

Definition set_if (b : bool) (k v : string) (q : values) : values := if b then <[k := [v]]> q else q.

Definition set_int (o : option Z) (k : string) (q : values) : values :=
  match o with Some n => <[k := [format_int n]]> q | None => q end.

Definition log_values (o : pod_log_options) : values :=
  let v := set_if (negb (String.eqb (po_container o) "")) "container" (po_container o) ∅ in
  let v := set_if (po_follow o) "follow" "true" v in
  let v := set_if (po_timestamps o) "timestamps" "true" v in
  let v := set_int (po_tail o) "tailLines" v in
  let v := set_int (po_since o) "sinceSeconds" v in
  set_int (po_limit o) "limitBytes" v.

Definition encode_log_query (o : pod_log_options) : string := encode (log_values o).

(** The path of the request [Connect] makes. *)
Definition connect_path (upstream ns name : string) : string :=
  trim_right slash upstream +:+ "/containerLogs/" +:+ ns +:+ "/" +:+ name.

(** [NewConnectOptions], [ConnectMethods]: how the generic server asks for a log. *)
Definition new_connect_options : pod_log_options := MkPodLogOptions "" false false false None None None.
Definition connect_methods : list string := ["GET"].

(** [Connect] up to its handler: the path and the query of the request to the
    kubelet.  The options are [None] when they are of another type [type]. *)
Definition connect (type upstream : string) (namespace : option string) (name : string)
    (options : option pod_log_options) : res (string * string) :=
  match options with
  | None => Err (ErrText ("invalid options type " +:+ type))
  | Some opts =>
      match namespace with
      | None => Err (ErrBadRequest (ErrText "namespace required"))
      | Some ns => if String.eqb ns "" then Err (ErrBadRequest (ErrText "namespace required"))
                   else Ok (connect_path upstream ns name, encode_log_query opts)
      end
  end.

(** What the handler answers: an error of the API, or the status and the
    content type of the kubelet before the body. *)
Inductive proxied :=
  | InternalError (cause : err)
  | ServiceUnavailable (msg : string)
  | Forwarded (status : Z) (content_type : string).

Definition forward (text : err → string) (request : res unit) (reply : res (Z * string)) : proxied :=
  match request, reply with
  | Err e, _ => InternalError e
  | Ok _, Err e => ServiceUnavailable ("kubelet log backend: " +:+ text e)
  | Ok _, Ok (status, ct) =>
      Forwarded status (if String.eqb ct "" then "text/plain; charset=utf-8" else ct)
  end.

(** ** The kubelet's side *)

Definition parse_log_options (q : values) : res log_options :=
  let! follow := field q "follow" false parse_bool in
  let! timestamps := field q "timestamps" false parse_bool in
  let! tail := field q "tailLines" None int_ptr in
  let! since := field q "sinceSeconds" None int_ptr in
  let! limit := field q "limitBytes" None int_ptr in
  Ok (MkLogOptions (get q "container") follow timestamps tail since limit).

(** [%v] of a []string. *)
Definition show_list (l : list string) : string := "[" +:+ join " " l +:+ "]".

Definition pick_container (requested : string) (available : list string) : res string :=
  if negb (String.eqb requested "") then
    if existsb (String.eqb requested) available then Ok requested
    else Err (ErrText ("container " +:+ quote requested +:+ " is not in pod (have: "
                       +:+ show_list available +:+ ")"))
  else match available with
       | [c] => Ok c
       | [] => Err (ErrText "pod has no containers")
       | _ => Err (ErrText ("a container name must be specified for pods with multiple containers (have: "
                            +:+ show_list available +:+ ")"))
       end.

(** [listerResolver.Resolve]. *)
Definition lister_resolve {L} `{PodLister L} (l : L) (ns name : string) : res (string * list string) :=
  let! p := lister_get l ns name in
  if String.eqb (p_uid p) "" then Err (ErrText ("pod " +:+ ns +:+ "/" +:+ name +:+ " has no UID"))
  else Ok (p_uid p, map c_name (p_containers p)).

(** ** [limitWriter] *)

Definition err_limit : err := ErrText "log byte limit reached".
Definition err_closed_pipe : err := ErrExt "io: read/write on closed pipe".
Definition err_container_not_found : err := ErrText "container not found".

Record limit_writer (W : Type) := MkLimit { lw_w : W; lw_n : Z }.
Arguments MkLimit {W}.
Arguments lw_w {W}.
Arguments lw_n {W}.

Definition limit_write {W} (write : string → M W (Z * option err)) (p : string)
    : M (limit_writer W) (Z * option err) :=
  let* n := gets lw_n in
  if (n <=? 0)%Z then ret (0%Z, Some err_limit)
  else
    let p := if (n <? Z.of_nat (String.length p))%Z then str_take (Z.to_nat n) p else p in
    let* r := zoom lw_w (λ w l, MkLimit w (lw_n l)) (write p) in
    let '(k, e) := r in
    modify (λ l, MkLimit (lw_w l) (lw_n l - k)%Z) ;;;
    let* n := gets lw_n in
    ret (k, match e with
            | None => if (n <=? 0)%Z then Some err_limit else None
            | Some e => Some e
            end).

(** The writing end of the pipe: the reader takes everything. *)
Definition pipe_write (p : string) : M string (Z * option err) :=
  λ w, (w +:+ p, Val (Z.of_nat (String.length p), None)).

(** ** [dockerRT.Logs] *)

Record docker_logs := MkDockerLogs { dl_follow : bool; dl_timestamps : bool; dl_tail : string; dl_since : string }.

(** What the daemon sends: the payloads of its frames, and the error that ends
    the stream if not its end. *)
Record log_stream := MkStream { ls_frames : list string; ls_error : option err }.

Class LogSDK (D : Type) := { sdk_container_logs : string → docker_logs → M D (res log_stream) }.

(** Run [m] on a state of its own. *)
Definition nested {S W A} (w : W) (m : M W A) : M S (W * A) := λ s,
  match m w with (w', Val a) => (s, Val (w', a)) | (_, Stuck k) => (s, Stuck k) end.

Definition std_copier : Type :=
  ∀ W : Type, (string → M W (Z * option err)) → log_stream → M W (option err).

Inductive response := Rsp (status : Z) (body : string).

Definition http_error (msg : string) (status : Z) : response := Rsp status (msg +:+ String "010" "").

(** [strings.SplitN(s, "/", 2)], when it has two parts. *)
Definition split_two (s : string) : option (string * string) :=
  if contains_byte slash s then Some (cut slash s) else None.

Section logs.
Context {D : Type} `{LogSDK D}.
Context (std_copy : std_copier) (now : Z) (time_text : Z → string) (sys_text : err → string)
        (resolve : string → string → res (string * list string)).

Definition docker_logs_of (opts : log_options) : docker_logs :=
  MkDockerLogs (lg_follow opts) (lg_timestamps opts)
    (match lg_tail opts with Some n => format_int n | None => "" end)
    (match lg_since opts with
     | Some n => if (0 <? n)%Z then time_text (now + int64 (- n * 1000000000))%Z else ""
     | None => ""
     end).

Definition copy_plain (st : log_stream) : M D (string * option err) :=
  nested "" (std_copy string pipe_write st).

Definition copy_log (opts : log_options) (st : log_stream) : M D (string * option err) :=
  match lg_limit opts with
  | Some n =>
      if (0 <? n)%Z then
        let* '(l, e) := nested (MkLimit "" n) (std_copy (limit_writer string) (limit_write pipe_write) st) in
        ret (lw_w l, e)
      else copy_plain st
  | None => copy_plain st
  end.

(** The bytes the reader gets, and the error that ends them if not EOF. *)
Definition rt_logs (name : string) (opts : log_options) : M D (res (string * option err)) :=
  let* rc := sdk_container_logs name (docker_logs_of opts) in
  match rc with
  | Err e => if is_docker_not_found e then fail err_container_not_found
             else fail (ErrWrap ("ContainerLogs(" +:+ name +:+ ")") e)
  | Ok st =>
      let* '(data, e) := copy_log opts st in
      ok (data, match e with
                | Some e => if bool_decide (e = err_closed_pipe) || bool_decide (e = err_limit)
                            then None else Some e
                | None => None
                end)
  end.

Definition is_container_not_found (e : err) : bool := bool_decide (e = err_container_not_found).

(** [handleLogs] from the Pod on. *)
Definition serve_logs (ns name : string) (q : values) : M D response :=
  match resolve ns name with
  | Err e => ret (if is_api_not_found e then http_error ("pod " +:+ ns +:+ "/" +:+ name +:+ " not found") 404
                  else http_error (error_text sys_text e) 500)
  | Ok (uid, names) =>
      match parse_log_options q with
      | Err e => ret (http_error (error_text sys_text e) 400)
      | Ok opts =>
          match pick_container (lg_container opts) names with
          | Err e => ret (http_error (error_text sys_text e) 400)
          | Ok c =>
              let* r := rt_logs (container_name uid c) opts in
              match r with
              | Err e => ret (if is_container_not_found e
                              then http_error ("no container for pod " +:+ ns +:+ "/" +:+ name +:+ " yet") 404
                              else http_error (error_text sys_text e) 500)
              | Ok (data, _) => ret (Rsp 200 data)
              end
          end
      end
  end.

Definition handle_logs (meth path : string) (q : values) : M D response :=
  if negb (String.eqb meth "GET") then ret (http_error "method not allowed" 405)
  else
    match split_two (trim_prefix "/containerLogs/" path) with
    | Some (ns, name) =>
        if String.eqb ns "" || String.eqb name ""
        then ret (http_error "expected /containerLogs/{namespace}/{name}" 400)
        else serve_logs ns name q
    | None => ret (http_error "expected /containerLogs/{namespace}/{name}" 400)
    end.
End logs.

(** ** The proxy is transparent *)

Definition kubelet_options (o : pod_log_options) : log_options :=
  MkLogOptions (po_container o) (po_follow o) (po_timestamps o) (po_tail o) (po_since o) (po_limit o).

Lemma get_insert q k j v : get (<[k := [v]]> q) j = if decide (j = k) then v else get q j.
Proof.
  unfold get. case_decide as Hj; [subst; by rewrite lookup_insert_eq|by rewrite lookup_insert_ne].
Qed.

Lemma get_set_if b q k j v : get (set_if b k v q) j = if decide (j = k ∧ b = true) then v else get q j.
Proof.
  destruct b; simpl; [rewrite get_insert|rewrite decide_False by naive_solver; done].
  apply decide_ext. naive_solver.
Qed.

Lemma get_set_int o q k j :
  get (set_int o k q) j =
    if decide (j = k) then match o with Some n => format_int n | None => get q j end else get q j.
Proof. destruct o; simpl; [by rewrite get_insert|by case_decide]. Qed.

Lemma full_insert q k v : full q → full (<[k := [v]]> q).
Proof. intros Hq j l [[_ <-]|[_ Hl]]%lookup_insert_Some; [done|by eapply Hq]. Qed.

Lemma full_log_values o : full (log_values o).
Proof.
  assert (Hif : ∀ b k v q, full q → full (set_if b k v q)) by (intros []; eauto using full_insert).
  assert (Hint : ∀ n k q, full q → full (set_int n k q)) by (intros []; simpl; eauto using full_insert).
  unfold log_values. repeat first [apply Hint|apply Hif]. intros k l. by rewrite lookup_empty.
Qed.

Lemma format_int_nonempty n : format_int n ≠ "".
Proof.
  unfold format_int. destruct (n <? 0)%Z; [done|]. apply format_go_nonempty. by left.
Qed.

Definition int_text (o : option Z) : string := match o with Some n => format_int n | None => "" end.

Definition int64_option (o : option Z) : Prop := match o with Some n => is_int64 n | None => True end.

Lemma field_bool q k (b : bool) : get q k = (if b then "true" else "") → field q k false parse_bool = Ok b.
Proof. unfold field. intros ->. by destruct b. Qed.

Lemma field_int q k o : int64_option o → get q k = int_text o →
  field q k None int_ptr = Ok o.
Proof.
  unfold field, int_text. intros Ho ->. destruct o as [n|]; [|done].
  rewrite (proj2 (String.eqb_neq _ _)) by apply format_int_nonempty.
  unfold int_ptr. simpl in Ho. by rewrite parse_format_int.
Qed.

Lemma int_ptr_bound q k o : field q k None int_ptr = Ok o → int64_option o.
Proof.
  unfold field. destruct (String.eqb (get q k) ""); [by intros [= <-]|]. unfold int_ptr.
  destruct (parse_int (get q k)) as [n|e] eqn:E; [|done]. intros [= <-]. by eapply parse_int_bound.
Qed.

Lemma get_log_values o : let v := log_values o in
  get v "container" = po_container o ∧
  get v "follow" = (if po_follow o then "true" else "") ∧
  get v "timestamps" = (if po_timestamps o then "true" else "") ∧
  get v "tailLines" = int_text (po_tail o) ∧ get v "sinceSeconds" = int_text (po_since o) ∧
  get v "limitBytes" = int_text (po_limit o).
Proof.
  destruct o as [c f p t s tl l]. unfold log_values. cbn [po_container po_follow po_timestamps po_since po_tail po_limit].
  rewrite !get_set_int, !get_set_if. simpl.
  destruct f, t, s, tl, l; simpl; repeat split;
    (destruct (String.eqb_spec c "") as [->|]; reflexivity).
Qed.

Lemma parse_encoded o :
  int64_option (po_tail o) → int64_option (po_since o) → int64_option (po_limit o) →
  parse_log_options (query (encode_log_query o)) = Ok (kubelet_options o).
Proof.
  intros Ht Hs Hl. unfold encode_log_query. rewrite query_encode by apply full_log_values.
  destruct (get_log_values o) as (Gc & Gf & Gts & Gt & Gs & Gl). unfold parse_log_options.
  rewrite (field_bool _ _ _ Gf), (field_bool _ _ _ Gts), (field_int _ _ _ Ht Gt), (field_int _ _ _ Hs Gs),
    (field_int _ _ _ Hl Gl), Gc. done.
Qed.

Lemma transparent q :
  match convert_url_values q with
  | Ok o => parse_log_options q = Ok (kubelet_options o) ∧
            parse_log_options (query (encode_log_query o)) = Ok (kubelet_options o)
  | Err e => is_ok (parse_log_options q) = false ∨ is_ok (field q "previous" false parse_bool) = false
  end.
Proof.
  unfold convert_url_values, parse_log_options at 1 3.
  destruct (field q "follow" false parse_bool) as [f|]; simpl; [|by left].
  destruct (field q "previous" false parse_bool) as [pr|]; simpl; [|by right].
  destruct (field q "timestamps" false parse_bool) as [ts|]; simpl; [|by left].
  destruct (field q "sinceSeconds" None int_ptr) as [s|] eqn:Es; simpl.
  2:{ left. by destruct (field q "tailLines" None int_ptr). }
  destruct (field q "tailLines" None int_ptr) as [t|] eqn:Et; simpl; [|by left].
  destruct (field q "limitBytes" None int_ptr) as [l|] eqn:El; simpl; [|by left].
  split; [done|]. apply parse_encoded; simpl; by eapply int_ptr_bound.
Qed.

(** The proxy is transparent.  When the API server can decode the client's
    query, what the kubelet decodes from the query the proxy encodes is what
    it would decode from the client's; the kubelet refuses a query only if
    the API server does; and the API server refuses one the kubelet would take
    only for the option the kubelet does not know. *)
Theorem log_query_transparent q :
  match convert_url_values q with
  | Ok o => parse_log_options q = Ok (kubelet_options o) ∧
            parse_log_options (query (encode_log_query o)) = Ok (kubelet_options o)
  | Err e => is_ok (parse_log_options q) = false ∨ is_ok (field q "previous" false parse_bool) = false
  end.
Proof. apply transparent. Qed.

(** ** Bytes *)

(** The documented loop of the demultiplexer: each payload is one write; a
    failing or short write ends it, else the end of the stream. *)
Fixpoint write_all {W} (write : string → M W (Z * option err)) (fs : list string) (end_ : option err)
    : M W (option err) :=
  match fs with
  | [] => ret end_
  | f :: fs' =>
      let* '(k, e) := write f in
      match e with
      | Some e => ret (Some e)
      | None => if (k =? Z.of_nat (String.length f))%Z then write_all write fs' end_
                else ret (Some (ErrExt "short write"))
      end
  end.

Fixpoint concat_all (fs : list string) : string :=
  match fs with [] => "" | f :: fs' => f +:+ concat_all fs' end.

Lemma write_all_pipe fs end_ w : write_all pipe_write fs end_ w = (w +:+ concat_all fs, Val end_).
Proof.
  revert w. induction fs as [|f fs IH]; intros w; cbn [write_all concat_all]; [by rewrite append_nil_r|].
  unfold bind, pipe_write at 1. by rewrite Z.eqb_refl, IH, append_assoc.
Qed.

Lemma str_take_all n s : (String.length s <= n)%nat → str_take n s = s.
Proof.
  unfold str_take. revert n. induction s as [|c s IH]; intros [|n] Hn; simpl in *; try done; [lia|].
  by rewrite IH by lia.
Qed.

Lemma str_take_app n s t : (String.length s <= n)%nat →
  str_take n (s +:+ t) = s +:+ str_take (n - String.length s) t.
Proof.
  unfold str_take. revert n. induction s as [|c s IH]; intros n Hn; [by rewrite Nat.sub_0_r|].
  destruct n as [|n]; simpl in *; [lia|]. by rewrite IH by lia.
Qed.

Lemma str_take_short n s t : (n <= String.length s)%nat → str_take n (s +:+ t) = str_take n s.
Proof.
  unfold str_take. revert n. induction s as [|c s IH]; intros n Hn; simpl in *.
  - assert (n = 0) as -> by lia. by destruct t.
  - destruct n as [|n]; [done|]. simpl. by rewrite IH by lia.
Qed.

Lemma length_take n s : String.length (str_take n s) = Nat.min n (String.length s).
Proof.
  unfold str_take. revert n. induction s as [|c s IH]; intros [|n]; simpl; try done. by rewrite IH.
Qed.

(** The first [n > 0] bytes, whatever their split into frames. *)
Lemma write_all_limited fs end_ w n : (0 < n)%Z →
  ∃ l e, write_all (limit_write pipe_write) fs end_ (MkLimit w n) = (l, Val e) ∧
    lw_w l = w +:+ str_take (Z.to_nat n) (concat_all fs) ∧
    e = (if (n <=? Z.of_nat (String.length (concat_all fs)))%Z then Some err_limit else end_).
Proof.
  revert w n. induction fs as [|f fs IH]; intros w n Hn; cbn [write_all concat_all].
  { eexists _, _. split; [done|]. simpl. rewrite str_take_all by (simpl; lia). rewrite append_nil_r.
    split; [done|]. by rewrite (proj2 (Z.leb_gt _ _)) by lia. }
  unfold bind at 1, limit_write at 1, bind, gets at 1. cbn [lw_n].
  rewrite (proj2 (Z.leb_gt n 0)) by done. unfold zoom, pipe_write, modify, gets, ret. cbn [lw_w lw_n].
  rewrite length_append, Nat2Z.inj_add.
  destruct (Z.ltb_spec n (Z.of_nat (String.length f))) as [Hlt|Hge].
  - rewrite length_take, Nat.min_l by lia. rewrite Z2Nat.id, Z.sub_diag by lia. simpl.
    eexists _, _. split; [done|]. simpl. rewrite str_take_short by lia. split; [done|].
    by rewrite (proj2 (Z.leb_le _ _)) by lia.
  - destruct (Z.leb_spec (n - Z.of_nat (String.length f)) 0) as [Hz|Hz].
    + eexists _, _. split; [done|]. simpl. rewrite str_take_app by lia.
      replace (Z.to_nat n - String.length f) with 0 by lia.
      assert (E0 : str_take 0 (concat_all fs) = "") by (by destruct (concat_all fs)).
      rewrite E0, append_nil_r. split; [done|]. by rewrite (proj2 (Z.leb_le _ _)) by lia.
    + rewrite Z.eqb_refl. destruct (IH (w +:+ f) (n - Z.of_nat (String.length f))%Z) as (l & e & E & Hl & He); [lia|].
      exists l, e. split; [exact E|]. rewrite Hl, str_take_app, append_assoc by lia.
      split; [do 3 f_equal; lia|]. rewrite He.
      destruct (Z.leb_spec (n - Z.of_nat (String.length f)) (Z.of_nat (String.length (concat_all fs)))),
        (Z.leb_spec n (Z.of_nat (String.length f) + Z.of_nat (String.length (concat_all fs)))); done || lia.
Qed.

Lemma cut_join c s x y : contains_byte c s = true → cut c s = (x, y) → s = x +:+ String c y.
Proof.
  revert x y. induction s as [|a s IH]; intros x y; simpl; [done|].
  destruct (Ascii.eqb_spec a c) as [->|Hne]; [by intros _ [= <- <-]|]. simpl. intros Hs.
  destruct (cut c s) as [x' y'] eqn:E. intros [= <- <-]. simpl. f_equal. by apply IH.
Qed.

Section logs_facts.
Context {D : Type} `{LogSDK D}.
Context (std_copy : std_copier) (now : Z) (time_text : Z → string) (sys_text : err → string)
        (resolve : string → string → res (string * list string)).
Hypothesis Hcopy : ∀ W write st, std_copy W write st = write_all write (ls_frames st) (ls_error st).
Implicit Types (d : D) (opts : log_options).

(** C37: the log a client gets is that of the container, the payloads of all
    frames in order; with a positive limit, exactly its first bytes up to the
    limit; a stream that failed ends in its error, unless the limit came
    first. *)
Theorem logs_limited name opts d d1 st :
  sdk_container_logs name (docker_logs_of now time_text opts) d = (d1, Val (Ok st)) →
  ls_error st ≠ Some err_limit → ls_error st ≠ Some err_closed_pipe →
  let log := concat_all (ls_frames st) in
  rt_logs std_copy now time_text name opts d = (d1, Val (Ok
    match lg_limit opts with
    | Some n => if (0 <? n)%Z
                then (str_take (Z.to_nat n) log,
                      if (n <=? Z.of_nat (String.length log))%Z then None else ls_error st)
                else (log, ls_error st)
    | None => (log, ls_error st)
    end)).
Proof.
  intros E He1 He2 log. unfold rt_logs. erewrite bind_val by exact E. cbv beta iota.
  assert (Hplain : copy_plain std_copy st d1 = (d1, Val (log, ls_error st))).
  { unfold copy_plain, nested. by rewrite Hcopy, write_all_pipe. }
  assert (Hres : match ls_error st with
                 | Some e => if bool_decide (e = err_closed_pipe) || bool_decide (e = err_limit)
                             then None else Some e
                 | None => None end = ls_error st).
  { destruct (ls_error st) as [e|]; [|done]. rewrite !bool_decide_false by congruence. done. }
  assert (Hp : (let* '(data, e) := copy_plain std_copy st in
                ok (data, match e with
                          | Some e => if bool_decide (e = err_closed_pipe) || bool_decide (e = err_limit)
                                      then None else Some e
                          | None => None end)) d1 = (d1, Val (Ok (log, ls_error st)))).
  { erewrite bind_val by exact Hplain. cbv beta iota. by rewrite Hres. }
  unfold copy_log. destruct (lg_limit opts) as [n|]; [|exact Hp].
  destruct (Z.ltb_spec 0 n) as [Hn|Hn]; [|exact Hp].
  destruct (write_all_limited (ls_frames st) (ls_error st) "" n Hn) as (l & e & El & Hl & He).
  rewrite bind_assoc. erewrite bind_val.
  2:{ unfold nested. by rewrite Hcopy, El. }
  cbv beta iota. unfold bind, ret. rewrite Hl, He. fold log.
  destruct (n <=? Z.of_nat (String.length log))%Z; [|by rewrite Hres].
  by rewrite (bool_decide_true (err_limit = err_limit)), orb_true_r.
Qed.

(** C36: a client that asks the API server for a log is answered as if it had
    asked the kubelet: the proxied request is for the same Pod, with the same
    options. *)
Theorem proxy_serves_same upstream ns name q o d :
  trim_right slash upstream = "" → ns ≠ "" → contains_byte slash ns = false → name ≠ "" →
  convert_url_values q = Ok o →
  handle_logs std_copy now time_text sys_text resolve "GET" (connect_path upstream ns name)
    (query (encode_log_query o)) d
  = serve_logs std_copy now time_text sys_text resolve ns name q d.
Proof.
  intros Hup Hns Hs Hname Hq. pose proof (transparent q) as Ht. rewrite Hq in Ht. destruct Ht as [H1 H2].
  unfold handle_logs, connect_path. rewrite Hup. change ("" +:+ ?x) with x. cbn [negb].
  rewrite trim_prefix_app. unfold split_two. rewrite contains_byte_app, Hs.
  change (contains_byte slash ("/" +:+ name)) with true. change ("/" +:+ name) with (String slash name).
  rewrite cut_app by done. cbn [orb]. rewrite (proj2 (String.eqb_neq ns "")), (proj2 (String.eqb_neq name "")) by done.
  cbn [orb].
  unfold serve_logs. by rewrite H1, H2.
Qed.

(** C38: a log that is served is that of one container of the Pod asked for:
    the one named in the request, or the Pod's only container when none is
    named. *)
Theorem serves_own_container meth path q d d' body :
  handle_logs std_copy now time_text sys_text resolve meth path q d = (d', Val (Rsp 200 body)) →
  ∃ ns name uid names opts c e,
    meth = "GET" ∧ trim_prefix "/containerLogs/" path = ns +:+ "/" +:+ name ∧ ns ≠ "" ∧ name ≠ "" ∧
    resolve ns name = Ok (uid, names) ∧ parse_log_options q = Ok opts ∧ c ∈ names ∧
    (get q "container" = c ∨ get q "container" = "" ∧ names = [c]) ∧
    rt_logs std_copy now time_text (container_name uid c) opts d = (d', Val (Ok (body, e))).
Proof.
  unfold handle_logs, serve_logs, split_two, http_error, ret. destruct (String.eqb_spec meth "GET") as [->|]; [|done]. cbn [negb].
  destruct (contains_byte slash _) eqn:Hs; [|done]. destruct (cut slash _) as [ns name] eqn:Hcut.
  destruct (String.eqb_spec ns "") as [|Hns]; [done|]. destruct (String.eqb_spec name "") as [|Hname]; [done|].
  cbn [orb]. destruct (resolve ns name) as [[uid names]|e] eqn:Er;
    [|by destruct (is_api_not_found e)].
  destruct (parse_log_options q) as [opts|e] eqn:Eo; [|done].
  destruct (pick_container (lg_container opts) names) as [c|e] eqn:Ec; [|done].
  unfold bind at 1. destruct (rt_logs _ _ _ _ _ _) as [d1 [[[data e]|e]|k]] eqn:El;
    [|by destruct (is_container_not_found e)|done].
  intros [= -> ->]. exists ns, name, uid, names, opts, c, e. split; [done|]. split; [by apply cut_join|].
  split; [done|]. split; [done|]. split; [done|]. split; [done|].
  assert (Eg : lg_container opts = get q "container").
  { unfold parse_log_options, res_bind in Eo. repeat case_match; try done. by injection Eo as <-. }
  rewrite Eg in Ec. unfold pick_container in Ec. destruct (String.eqb_spec (get q "container") "") as [Eq|Eq]; cbn [negb] in Ec.
  - destruct names as [|x [|]]; [done| |done]. injection Ec as ->. split; [by left|]. split; [by right|done].
  - destruct (existsb _ names) eqn:Ex; [|done]. injection Ec as <-.
    apply List.existsb_exists in Ex as (x & Hx & Ex%String.eqb_eq). subst x.
    split; [by apply list_elem_of_In|]. split; [by left|done].
Qed.
End logs_facts.

(** ** Witnesses *)

#[export] Instance sample_logs : LogSDK (list string) := {|
  sdk_container_logs n _ := λ d,
    (d, Val (if bool_decide (n ∈ d) then Ok (MkStream ["hello "; "world"] None)
             else Err (ErrExt "docker: not found")))
|}.

Definition sample_copy : std_copier := λ W write st, write_all write (ls_frames st) (ls_error st).
Definition sample_resolve (ns name : string) : res (string * list string) :=
  if String.eqb ns "default" && String.eqb name "web" then Ok ("u1", ["a"; "b"]) else Err (ErrExt "NotFound").
Definition sample_text (z : Z) : string := "".
Definition sample_sys (e : err) : string := "".
Definition sample_query : values := <["container" := ["b"]]> (<["limitBytes" := ["8"]]> ∅).
Definition sample_options : pod_log_options := MkPodLogOptions "b" false false false None None (Some 8%Z).

Lemma logs_limited_witness :
  rt_logs sample_copy 0 sample_text "klite_u1_b" (kubelet_options sample_options) ["klite_u1_b"]
  = (["klite_u1_b"], Val (Ok ("hello wo", None))).
Proof.
  exact (logs_limited sample_copy 0 sample_text (λ _ _ _, eq_refl) "klite_u1_b"
           (kubelet_options sample_options) ["klite_u1_b"] ["klite_u1_b"] (MkStream ["hello "; "world"] None)
           eq_refl ltac:(discriminate) ltac:(discriminate)).
Defined.

Lemma proxy_serves_same_witness :
  handle_logs sample_copy 0 sample_text sample_sys sample_resolve "GET" "/containerLogs/default/web"
    (query "container=b&limitBytes=8") ["klite_u1_b"]
  = serve_logs sample_copy 0 sample_text sample_sys sample_resolve "default" "web" sample_query ["klite_u1_b"].
Proof.
  exact (proxy_serves_same sample_copy 0 sample_text sample_sys sample_resolve "/" "default" "web"
           sample_query sample_options ["klite_u1_b"] eq_refl ltac:(discriminate) eq_refl
           ltac:(discriminate) eq_refl).
Defined.

Lemma serves_own_container_witness : ∃ uid names c,
  sample_resolve "default" "web" = Ok (uid, names) ∧ c ∈ names.
Proof.
  destruct (serves_own_container (H := sample_logs) sample_copy 0 sample_text sample_sys sample_resolve "GET"
              "/containerLogs/default/web" sample_query ["klite_u1_b"] ["klite_u1_b"] "hello wo" ltac:(vm_compute; reflexivity))
    as (ns & name & uid & names & opts & c & e & _ & E & _ & _ & Hr & _ & Hc & _).
  exists "u1", ["a"; "b"], "b". split; [reflexivity|]. right. left.
Defined.
