(* ===== verification/Streams.v ===== *)
(** * A log request under way

    Four parties pass a log on: the goroutine of [dockerRT.Logs], which copies
    the daemon's stream into a pipe; the loop of [handleLogs], which reads the
    pipe and writes the response; the loop of [Connect], which reads that
    response and writes its own; and the client.  Each is a program counter,
    [exec] one step, a run a list of events; Logs has the same request as one
    computation.  A write can fail at any time, and the connection between the
    API server and the kubelet can break; the daemon sends finitely many
    frames.  A connection takes what is written to it or fails: a client that
    neither reads nor closes, which would hold up its writer, is not here. *)

From S2P Require Import Prelude GoStrings Fs Translate Docker Logs.

(** ** The parties *)

(** [io.Copy] of [stdcopy.StdCopy] through the [limitWriter], if there is one:
    [l] is what may still be written. *)
Inductive producer :=
  | PRead (l : option Z)                       (* reads a frame of the daemon *)
  | PWrite (p : string) (l : option Z)         (* in [pw.Write], [p] not yet taken; then [l] *)
  | PClosed (e : option err).                  (* the pipe is closed with EOF, or with an error *)

Inductive handler :=
  | HRead                                      (* rc.Read *)
  | HWrite (p : string)                        (* w.Write *)
  | HReturned.                                 (* rc.Close was called *)

Inductive proxy :=
  | XRead                                      (* resp.Body.Read *)
  | XWrite (p : string)
  | XReturned.

Record transfer := MkTransfer {
  tr_frames : list string;                     (* what the daemon has yet to send *)
  tr_end : option err;                         (* the error that ends its stream, if any *)
  tr_prod : producer; tr_hand : handler;
  tr_net : string;                             (* sent by the kubelet, not yet read *)
  tr_prox : proxy;
  tr_client : string }.                        (* what the client got *)

Definition buffer_size : nat := 32 * 1024.

Lemma buffer_pos : (0 < buffer_size)%nat.
Proof. apply Nat.ltb_lt. reflexivity. Qed.

#[global] Opaque buffer_size.

Inductive event :=
  | DaemonFrame | DaemonEnd | StreamCancelled
  | PipeRead | PipeEnd | PipeClosed
  | HandWrite | HandFails
  | NetRead (k : nat) | NetEnd | NetFails
  | ProxWrite | ProxFails.

(** ** Steps *)

(** [limitWriter.Write] cuts the payload. *)
Definition cut_to (l : option Z) (f : string) : string :=
  match l with
  | Some n => if (n <? Z.of_nat (String.length f))%Z then str_take (Z.to_nat n) f else f
  | None => f
  end.

Definition less (l : option Z) (k : nat) : option Z := (λ n, (n - Z.of_nat k)%Z) <$> l.

(** After a write: the limit ends the copy, without an error for the reader. *)
Definition after_write (l : option Z) : producer :=
  match l with
  | Some n => if (n <=? 0)%Z then PClosed None else PRead (Some n)
  | None => PRead None
  end.

(** How the pipe is closed at the end of the copy. *)
Definition close_with (e : option err) : option err :=
  match e with
  | Some e => if bool_decide (e = err_closed_pipe) || bool_decide (e = err_limit) then None else Some e
  | None => None
  end.

Definition context_canceled : err := ErrExt "context canceled".

(** The goroutine of [Logs].  Its stream is cancelled with the request, when
    the handler has returned or the API server is gone. *)
Definition producer_step (ev : event) (t : transfer) : option (list string * producer) :=
  match ev, tr_prod t with
  | DaemonFrame, PRead l =>
      match tr_frames t with
      | f :: fs => Some (fs, PWrite (cut_to l f) (less l (String.length (cut_to l f))))
      | [] => None
      end
  | DaemonEnd, PRead _ => match tr_frames t with [] => Some ([], PClosed (close_with (tr_end t))) | _ => None end
  | StreamCancelled, PRead _ =>
      match tr_hand t, tr_prox t with
      | HReturned, _ | _, XReturned => Some (tr_frames t, PClosed (close_with (Some context_canceled)))
      | _, _ => None
      end
  | PipeClosed, PWrite _ _ =>
      match tr_hand t with
      | HReturned => Some (tr_frames t, PClosed (close_with (Some err_closed_pipe)))
      | _ => None
      end
  | _, _ => None
  end.

(** A read of the pipe takes what fits the buffer from the write under way,
    which returns when all was taken. *)
Definition pipe_step (p : string) (l : option Z) : producer * handler :=
  (if (buffer_size <? String.length p)%nat then PWrite (str_drop buffer_size p) l else after_write l,
   if String.eqb p "" then HRead else HWrite (str_take buffer_size p)).

(** A read of the response takes some of what has arrived. *)
Definition readable (k : nat) (net : string) : bool :=
  (1 <=? k)%nat && (k <=? String.length net)%nat && (k <=? buffer_size)%nat.

Definition exec (ev : event) (t : transfer) : option transfer :=
  let '(MkTransfer fs e p h net x c) := t in
  match ev with
  | DaemonFrame | DaemonEnd | StreamCancelled | PipeClosed =>
      '(fs', p') ← producer_step ev t; Some (MkTransfer fs' e p' h net x c)
  | PipeRead =>
      match h, p with
      | HRead, PWrite d l => let '(p', h') := pipe_step d l in Some (MkTransfer fs e p' h' net x c)
      | _, _ => None
      end
  | PipeEnd => match h, p with HRead, PClosed _ => Some (MkTransfer fs e p HReturned net x c) | _, _ => None end
  | HandWrite =>
      match h with
      | HWrite d => Some (MkTransfer fs e p HRead (match x with XReturned => net | _ => net +:+ d end) x c)
      | _ => None
      end
  | HandFails => match h with HWrite _ => Some (MkTransfer fs e p HReturned net x c) | _ => None end
  | NetRead k =>
      match x with
      | XRead => if readable k net
                 then Some (MkTransfer fs e p h (str_drop k net) (XWrite (str_take k net)) c) else None
      | _ => None
      end
  | NetEnd => match x, h with
              | XRead, HReturned => if String.eqb net "" then Some (MkTransfer fs e p h net XReturned c) else None
              | _, _ => None
              end
  | NetFails => match x with XRead => Some (MkTransfer fs e p h net XReturned c) | _ => None end
  | ProxWrite => match x with XWrite d => Some (MkTransfer fs e p h net XRead (c +:+ d)) | _ => None end
  | ProxFails => match x with XWrite _ => Some (MkTransfer fs e p h net XReturned c) | _ => None end
  end.

Definition failure (ev : event) : bool :=
  match ev with HandFails | NetFails | ProxFails => true | _ => false end.

(** A request for a log: the limit is the positive one of the options. *)
Definition start (st : log_stream) (limit : option Z) : transfer :=
  MkTransfer (ls_frames st) (ls_error st)
    (PRead (match limit with Some n => if (0 <? n)%Z then Some n else None | None => None end))
    HRead "" XRead "".

Inductive run (t0 : transfer) : list event → transfer → Prop :=
  | run_start : run t0 [] t0
  | run_step evs ev t t' : run t0 evs t → exec ev t = Some t' → run t0 (evs ++ [ev]) t'.

(** ** Nothing is lost, added or reordered *)

Definition take_to (l : option Z) (s : string) : string :=
  match l with Some n => str_take (Z.to_nat n) s | None => s end.

(** What the producer will still write. *)
Definition to_write (p : producer) (fs : list string) : string :=
  match p with
  | PRead l => take_to l (concat_all fs)
  | PWrite d l => d +:+ take_to l (concat_all fs)
  | PClosed _ => ""
  end.

(** What is on its way to the client. *)
Definition coming (t : transfer) : string :=
  match tr_prox t with
  | XReturned => ""
  | x => match x with XWrite d => d | _ => "" end +:+ tr_net t +:+
         match tr_hand t with
         | HReturned => ""
         | h => match h with HWrite d => d | _ => "" end +:+ to_write (tr_prod t) (tr_frames t)
         end
  end.

Lemma take_drop n s : str_take n s +:+ str_drop n s = s.
Proof.
  unfold str_take. revert n. induction s as [|a s IH]; intros [|n]; simpl; try done. by rewrite IH.
Qed.

Lemma take_drop_more n s r : str_take n s +:+ str_drop n s +:+ r = s +:+ r.
Proof. by rewrite <- append_assoc, take_drop. Qed.

Lemma take_zero s : str_take 0 s = "".
Proof. by destruct s. Qed.

Lemma take_to_none n s : (n <= 0)%Z → take_to (Some n) s = "".
Proof. intros Hn. simpl. rewrite Z2Nat.nonpos by done. apply take_zero. Qed.

(** A frame and the rest, cut. *)
Lemma take_frame l f s : take_to l (f +:+ s) = cut_to l f +:+ take_to (less l (String.length (cut_to l f))) s.
Proof.
  destruct l as [n|]; [|done]. unfold take_to, cut_to, less. simpl.
  destruct (Z.ltb_spec n (Z.of_nat (String.length f))) as [Hlt|Hge].
  - rewrite str_take_short by lia. rewrite length_take.
    destruct (decide (0 <= n)%Z) as [Hn|Hn].
    + rewrite Nat.min_l by lia. rewrite Z2Nat.id, Z.sub_diag by done. simpl.
      by rewrite take_zero, append_nil_r.
    + rewrite (Z2Nat.nonpos n) by lia. simpl. rewrite take_zero. simpl.
      by rewrite Z2Nat.nonpos, take_zero by lia.
  - rewrite str_take_app by lia. do 2 f_equal. lia.
Qed.

Lemma take_to_empty l : take_to l "" = "".
Proof. destruct l as [n|]; [|done]. simpl. unfold str_take. by destruct (Z.to_nat n). Qed.

Lemma to_write_after l fs : to_write (after_write l) fs = take_to l (concat_all fs).
Proof.
  unfold after_write. destruct l as [n|]; [|done]. destruct (Z.leb_spec n 0); [|done].
  by rewrite take_to_none.
Qed.

Lemma pipe_step_bytes p l fs : let '(p', h') := pipe_step p l in
  match h' with HWrite d => d | _ => "" end +:+ to_write p' fs = to_write (PWrite p l) fs ∧ h' ≠ HReturned.
Proof.
  unfold pipe_step. destruct (Nat.ltb_spec buffer_size (String.length p)) as [Hlt|Hge].
  - destruct (String.eqb_spec p "") as [->|Hp]; [cbn [String.length] in Hlt; lia|].
    split; [|done]. cbn [to_write]. by rewrite <- append_assoc, take_drop.
  - rewrite to_write_after. destruct (String.eqb_spec p "") as [->|Hp]; [done|]. split; [|done].
    cbn [to_write]. by rewrite str_take_all.
Qed.

#[local] Opaque pipe_step readable.

(** The whole log: what the client has, what is coming, and what was lost, nothing
    unless a write failed. *)
Definition delivered (log : string) (evs : list event) (t : transfer) : Prop :=
  ∃ lost, tr_client t +:+ coming t +:+ lost = log ∧ (existsb failure evs = false → lost = "").

Lemma delivered_step log evs ev t t' : exec ev t = Some t' → delivered log evs t → delivered log (evs ++ [ev]) t'.
Proof.
  intros H (lost & Hlog & Hff).
  (* [t'] has the same bytes, unless the event is a failure, and then a prefix of them *)
  assert (Hstep : ∃ lost', tr_client t +:+ coming t = (tr_client t' +:+ coming t') +:+ lost' ∧
                           (failure ev = false → lost' = "")).
  2:{ destruct Hstep as (lost' & E & Hf). exists (lost' +:+ lost). split.
      - by rewrite <- Hlog, <- (append_assoc (tr_client t)), E, !append_assoc.
      - rewrite existsb_app. simpl. rewrite orb_false_r, orb_false_iff. intros [H1 H2].
        by rewrite Hff, Hf. }
  assert (Hsame : ∀ s s' : string, s = s' → ∃ lost', s = s' +:+ lost' ∧ (failure ev = false → lost' = ""))
    by (intros s s' ->; exists ""; by rewrite append_nil_r).
  assert (Hlost : ∀ s s' lost' : string, failure ev = true → s = s' +:+ lost' →
    ∃ lost', s = s' +:+ lost' ∧ (failure ev = false → lost' = "")) by (intros s s' lost' -> ->; by exists lost').
  destruct t as [fs e p h net x c]. unfold coming.
  destruct ev; simpl in H; repeat (case_match; simplify_option_eq; try done); simplify_eq/=.
  all: try solve [apply Hsame; rewrite ?take_frame, ?take_to_empty, ?append_assoc, ?append_nil_r; done].
  all: try solve [eapply Hlost; [done|]; rewrite ?append_assoc; simpl; reflexivity].
  all: repeat match goal with H : String.eqb _ _ = true |- _ => apply String.eqb_eq in H as -> end.
  all: try solve [apply Hsame; by rewrite ?take_drop_more, ?append_nil_r].
  all: match goal with H : pipe_step ?d ?l = _ |- context [take_to ?l (concat_all ?fs)] =>
         pose proof (pipe_step_bytes d l fs) as Hp; rewrite H in Hp; destruct Hp as [Hp Hh]; cbn [to_write] in Hp;
         apply Hsame; rewrite <- Hp; by rewrite ?append_assoc end.
Qed.

Lemma run_delivered log t0 evs t : tr_client t0 +:+ coming t0 = log → run t0 evs t → delivered log evs t.
Proof.
  intros Hlog. induction 1 as [|evs ev t t' _ IH H]; [|by eapply delivered_step].
  exists "". by rewrite append_nil_r.
Qed.

(** ** The request ends *)

Definition finished (t : transfer) : Prop :=
  (∃ e, tr_prod t = PClosed e) ∧ tr_hand t = HReturned ∧ tr_prox t = XReturned.

(** Every step spends some of this: bytes are dearer the further they are from
    the client. *)
Definition prod_cost (p : producer) : nat :=
  match p with PRead _ => 2 | PWrite p _ => 3 + 8 * String.length p | PClosed _ => 0 end.
Definition hand_cost (h : handler) : nat :=
  match h with HRead => 1 | HWrite p => 2 + 6 * String.length p | HReturned => 0 end.
Definition cost (t : transfer) : nat :=
  10 * String.length (concat_all (tr_frames t)) + 3 * length (tr_frames t) +
  prod_cost (tr_prod t) + hand_cost (tr_hand t) + 4 * String.length (tr_net t) +
  match tr_prox t with XRead => 1 | XWrite p => 2 + 2 * String.length p | XReturned => 0 end.

Lemma cut_length l f : (String.length (cut_to l f) <= String.length f)%nat.
Proof. unfold cut_to. destruct l; [|done]. destruct (_ <? _)%Z; [|done]. rewrite length_take. lia. Qed.

Lemma drop_length n s : String.length (str_drop n s) = (String.length s - n)%nat.
Proof.
  pose proof (f_equal String.length (take_drop n s)) as E. rewrite length_append, length_take in E. lia.
Qed.

Lemma pipe_cost p l fs e net x c :
  let '(p', h') := pipe_step p l in
  (cost (MkTransfer fs e p' h' net x c) < cost (MkTransfer fs e (PWrite p l) HRead net x c))%nat.
Proof.
  Transparent pipe_step. unfold pipe_step. Opaque pipe_step. pose proof buffer_pos as Hb.
  destruct (Nat.ltb_spec buffer_size (String.length p)) as [Hlt|Hge].
  - destruct (String.eqb_spec p "") as [->|Hp]; [cbn [String.length] in Hlt; lia|].
    unfold cost. cbn [tr_frames tr_prod tr_hand tr_net tr_prox prod_cost hand_cost].
    rewrite drop_length, length_take. lia.
  - assert (Ha : (prod_cost (after_write l) <= 2)%nat).
    { unfold after_write. destruct l as [n|]; [|done]. destruct (n <=? 0)%Z; simpl; lia. }
    unfold cost. cbn [tr_frames tr_prod tr_hand tr_net tr_prox].
    destruct (String.eqb_spec p "") as [->|Hp]; cbn [prod_cost hand_cost]; [lia|]. rewrite str_take_all by done.
    assert (String.length p ≠ 0) by (by destruct p). lia.
Qed.

Lemma readable_pos k net : readable k net = true → (1 <= k <= String.length net)%nat.
Proof. Transparent readable. unfold readable. rewrite !andb_true_iff, !Nat.leb_le. Opaque readable. lia. Qed.

Lemma exec_cost ev t t' : exec ev t = Some t' → (cost t' < cost t)%nat.
Proof.
  destruct t as [fs e p h net x c]. destruct ev; simpl; intros H;
    repeat (case_match; simplify_option_eq; try done); simplify_eq/=.
  all: try match goal with H : pipe_step ?p ?l = _ |- context [MkTransfer ?fs ?e _ _ ?net ?x ?c] =>
         pose proof (pipe_cost p l fs e net x c) as Hc; by rewrite H in Hc end.
  all: unfold cost; cbn [tr_frames tr_prod tr_hand tr_net tr_prox prod_cost hand_cost concat_all length];
    rewrite ?length_append, ?drop_length, ?length_take.
  all: try match goal with H : readable _ _ = true |- _ => apply readable_pos in H end.
  all: try match goal with |- context [cut_to ?l ?f] => pose proof (cut_length l f) end.
  all: lia.
Qed.

Lemma run_cost t0 evs t : run t0 evs t → (length evs + cost t <= cost t0)%nat.
Proof. induction 1 as [|evs ev t t' _ IH H]; [done|]. apply exec_cost in H. rewrite length_app. simpl. lia. Qed.

Lemma read_net a s : readable 1 (String a s) = true.
Proof.
  Transparent readable. unfold readable. Opaque readable. pose proof buffer_pos.
  by rewrite !(proj2 (Nat.leb_le _ _)) by (simpl; lia).
Qed.

Lemma exec_progress t : ¬ finished t → ∃ ev t', failure ev = false ∧ exec ev t = Some t'.
Proof.
  destruct t as [fs e p h net x c]. intros Hn.
  assert (Hprod : ∀ l, p = PRead l → ∃ ev t', failure ev = false ∧ exec ev (MkTransfer fs e p h net x c) = Some t').
  { intros l ->. destruct fs; [exists DaemonEnd|exists DaemonFrame]; eexists; (split; [done|reflexivity]). }
  assert (Hhand : h ≠ HReturned → ∃ ev t', failure ev = false ∧ exec ev (MkTransfer fs e p h net x c) = Some t').
  { intros Hh. destruct h as [|d|]; [|exists HandWrite; eexists; (split; [done|reflexivity])|done].
    destruct p as [l|d l|e']; [by eapply Hprod| |exists PipeEnd; eexists; (split; [done|reflexivity])].
    exists PipeRead. simpl. destruct (pipe_step d l). eauto. }
  destruct x as [|d|].
  - destruct net as [|a net].
    + destruct h; [by apply Hhand..|]. exists NetEnd. eexists. split; [done|reflexivity].
    + exists (NetRead 1). cbn [exec]. rewrite read_net. eauto.
  - exists ProxWrite. eexists. split; [done|reflexivity].
  - destruct h; [by apply Hhand..|]. destruct p as [l|d l|e']; [by eapply Hprod| |].
    + exists PipeClosed. eexists. split; [done|reflexivity].
    + destruct Hn. split; [by eexists|done].
Qed.

(** C13: a client reads the container's log.  However the four parties are
    scheduled, what it has at any point is a prefix of the log, cut at a
    positive limit; unless a write or the connection fails it lacks only what is
    on its way, and once all parties are done it has everything. *)
Theorem client_reads_log st limit evs t :
  let l := match limit with Some n => if (0 <? n)%Z then Some n else None | None => None end in
  let log := take_to l (concat_all (ls_frames st)) in
  run (start st limit) evs t →
  (∃ rest, log = tr_client t +:+ rest) ∧
  (existsb failure evs = false → log = tr_client t +:+ coming t) ∧
  (existsb failure evs = false → finished t → tr_client t = log).
Proof.
  intros l log Hr.
  destruct (run_delivered log (start st limit) evs t eq_refl Hr) as (lost & Hlog & Hff).
  assert (Hall : existsb failure evs = false → log = tr_client t +:+ coming t).
  { intros Hf. rewrite (Hff Hf), append_nil_r in Hlog. done. }
  split; [by exists (coming t +:+ lost)|]. split; [done|]. intros Hf (_ & _ & Hx). rewrite Hall by done.
  unfold coming. by rewrite Hx, append_nil_r.
Qed.

(** C22: a log request ends.  A run has no more steps than [cost] at its start,
    which grows with the bytes and frames the daemon sends, whatever fails and
    whoever leaves first; and until all parties are done a step that is not a
    failure is possible: neither the goroutine at the pipe nor a handler is left
    behind. *)
Theorem log_request_ends st limit evs t :
  run (start st limit) evs t →
  (length evs + cost t <= cost (start st limit))%nat ∧
  (¬ finished t → ∃ ev t', failure ev = false ∧ exec ev t = Some t').
Proof. intros Hr. split; [by apply run_cost|apply exec_progress]. Qed.

(** ** A request with a limit, and a client that leaves *)

Fixpoint play (evs : list event) (t : transfer) : option transfer :=
  match evs with [] => Some t | ev :: evs' => t' ← exec ev t; play evs' t' end.

Lemma play_run t0 evs t evs' t' : run t0 evs t → play evs' t = Some t' → run t0 (evs ++ evs') t'.
Proof.
  revert evs t. induction evs' as [|ev evs' IH]; intros evs t Hr; simpl.
  - intros [= ->]. by rewrite app_nil_r.
  - destruct (exec ev t) as [t1|] eqn:E; [|done]. simpl. intros H.
    change (ev :: evs') with ([ev] ++ evs'). rewrite app_assoc. eapply IH; [|done]. by econstructor.
Qed.

Definition sample_stream : log_stream := MkStream ["hello "; ""; "world"] None.
Definition limited_events : list event :=
  [DaemonFrame; PipeRead; HandWrite; NetRead 2; DaemonFrame; ProxWrite; PipeRead; NetRead 4; DaemonFrame;
   PipeRead; ProxWrite; HandWrite; PipeEnd; NetRead 2; ProxWrite; NetEnd].

Lemma client_reads_log_witness :
  ∃ t, play limited_events (start sample_stream (Some 8%Z)) = Some t ∧ tr_client t = "hello wo".
Proof.
  assert (E : ∃ t, play limited_events (start sample_stream (Some 8%Z)) = Some t ∧ finished t).
  { eexists. split; [vm_compute; reflexivity|]. split; [by eexists|done]. }
  destruct E as (t & E & Hf). exists t. split; [exact E|].
  exact (proj2 (proj2 (client_reads_log sample_stream (Some 8%Z) limited_events t
    (play_run _ [] _ limited_events t (run_start _) E))) eq_refl Hf).
Defined.

Lemma log_request_ends_witness :
  ∃ t, play [DaemonFrame; PipeRead; HandFails] (start sample_stream None) = Some t ∧
    ∃ ev t', failure ev = false ∧ exec ev t = Some t'.
Proof.
  assert (E : ∃ t, play [DaemonFrame; PipeRead; HandFails] (start sample_stream None) = Some t ∧ ¬ finished t).
  { eexists. split; [vm_compute; reflexivity|]. by intros [[? ?] _]. }
  destruct E as (t & E & Hf). exists t. split; [exact E|].
  exact (proj2 (log_request_ends sample_stream None _ t (play_run _ [] _ _ t (run_start _) E)) Hf).
Defined.
