(* ===== verification/Strategy.v ===== *)
(** * What the API server does to an object before it is stored ([internal/apiserver/strategy.go])

    The strategies of the resources: functions on the object a request
    carries, which the generic registry calls before it writes to the storage.
    The parts of an object no strategy looks into are types of their own. *)

From S2P Require Import Prelude GoStrings.

(** ** Objects *)

Section objects.
Context {Meta Spec Status NsStatus : Type}.

Record pod_spec := MkPodSpec { sp_grace : option Z; sp_rest : Spec }.
Record pod_obj := MkPodObj { pd_meta : Meta; pd_spec : pod_spec; pd_status : Status }.
Record namespace_obj := MkNamespaceObj {
  nsp_meta : Meta; nsp_finalizers : option (list string); nsp_status : NsStatus }.
(** [None] is a nil map. *)
Record secret_obj := MkSecretObj {
  so_meta : Meta; so_data : option (gmap string string); so_string_data : option (gmap string string) }.

Inductive object :=
  | PodO (p : pod_obj)
  | NamespaceO (n : namespace_obj)
  | SecretO (s : secret_obj)
  | OtherO (m : Meta).

Record strategy := MkStrategy {
  st_namespaced : bool;
  st_reset_status : option (object → object);
  st_before_write : option (object → object) }.

Definition run_hook (h : option (object → object)) (o : object) : object :=
  match h with Some f => f o | None => o end.

Context (no_status : Status) (no_ns_status : NsStatus).
(** The order in which [range] visits a map. *)
Context (range : gmap string string → list (string * string)).

(** ** The strategies *)

Definition reset_pod (o : object) : object :=
  match o with PodO p => PodO (MkPodObj (pd_meta p) (pd_spec p) no_status) | _ => o end.

Definition new_pod_strategy : strategy := MkStrategy true (Some reset_pod) None.

Definition reset_namespace (o : object) : object :=
  match o with
  | NamespaceO n => NamespaceO (MkNamespaceObj (nsp_meta n)
      (match nsp_finalizers n with None => Some ["kubernetes"] | f => f end) no_ns_status)
  | _ => o
  end.

Definition new_namespace_strategy : strategy := MkStrategy false (Some reset_namespace) None.

Definition new_event_strategy : strategy := MkStrategy true None None.
Definition new_config_data_strategy (namespaced : bool) : strategy := MkStrategy namespaced None None.

Definition fold_string_data (o : object) : object :=
  match o with
  | SecretO s =>
      match so_string_data s with
      | None => o
      | Some m =>
          if bool_decide (m = ∅) then o
          else SecretO (MkSecretObj (so_meta s)
                 (Some (fold_left (λ d kv, <[kv.1 := kv.2]> d) (range m) (default ∅ (so_data s)))) None)
      end
  | _ => o
  end.

Definition new_secret_strategy : strategy :=
  let s := new_config_data_strategy true in
  MkStrategy (st_namespaced s) (st_reset_status s) (Some fold_string_data).

Definition prepare_for_create (s : strategy) (o : object) : object :=
  run_hook (st_before_write s) (run_hook (st_reset_status s) o).

Definition prepare_for_update (s : strategy) (o old : object) : object := run_hook (st_before_write s) o.

(** [podStatusStrategy.PrepareForUpdate]. *)
Definition prepare_status_update (o old : object) : object :=
  match o, old with
  | PodO new, PodO old => PodO (MkPodObj (pd_meta old) (pd_spec old) (pd_status new))
  | _, _ => o
  end.

(** ** Graceful deletion *)

Definition default_grace_period_seconds : Z := 30.

(** [CheckGracefulDelete]: the options, nil or with a grace period, as it
    leaves them, and whether the deletion is graceful. *)
Definition check_graceful_delete (o : object) (options : option (option Z)) : option (option Z) * bool :=
  match options with
  | None => (None, false)
  | Some g =>
      match o with
      | PodO p =>
          let period := match sp_grace (pd_spec p) with Some s => s | None => default_grace_period_seconds end in
          let g := match g with None => period | Some g => g end in
          (Some (Some g), (0 <? g)%Z)
      | _ => (options, false)
      end
  end.

(** ** The interface of the generic registry

    [rest.RESTCreateStrategy], [RESTUpdateStrategy], [RESTDeleteStrategy] and
    [RESTGracefulDeleteStrategy].  The strategies of Pods embed an
    [objectStrategy] and have one method of their own; Go promotes the others. *)

Inductive rest_strategy :=
  | ObjectStrategy (s : strategy)
  | PodGracefulStrategy (s : strategy)
  | PodStatusStrategy (s : strategy).

Definition embedded (r : rest_strategy) : strategy :=
  match r with ObjectStrategy s | PodGracefulStrategy s | PodStatusStrategy s => s end.

Definition new_pod_graceful_strategy : rest_strategy := PodGracefulStrategy new_pod_strategy.
Definition new_pod_status_strategy : rest_strategy := PodStatusStrategy new_pod_strategy.

Definition namespace_scoped (r : rest_strategy) : bool := st_namespaced (embedded r).
Definition rest_prepare_for_create (r : rest_strategy) (o : object) : object := prepare_for_create (embedded r) o.
Definition rest_prepare_for_update (r : rest_strategy) (o old : object) : object :=
  match r with
  | PodStatusStrategy _ => prepare_status_update o old
  | _ => prepare_for_update (embedded r) o old
  end.

(** The errors and the warnings of a strategy: none. *)
Definition validate (r : rest_strategy) (o : object) : list string := [].
Definition warnings_on_create (r : rest_strategy) (o : object) : list string := [].
Definition validate_update (r : rest_strategy) (o old : object) : list string := [].
Definition warnings_on_update (r : rest_strategy) (o old : object) : list string := [].
Definition canonicalize (r : rest_strategy) (o : object) : object := o.
Definition allow_create_on_update (r : rest_strategy) : bool := false.
Definition allow_unconditional_update (r : rest_strategy) : bool := true.

(** [CheckGracefulDelete], for the strategies that have it. *)
Definition graceful_delete (r : rest_strategy) : option (object → option (option Z) → option (option Z) * bool) :=
  match r with PodGracefulStrategy _ => Some check_graceful_delete | _ => None end.

(** ** What they guarantee *)

Hypothesis Hrange : ∀ m, range m ≡ₚ map_to_list m.

Lemma fold_inserts (l : list (string * string)) (d : gmap string string) : NoDup (map fst l) →
  fold_left (λ d kv, <[kv.1 := kv.2]> d) l d = list_to_map l ∪ d.
Proof.
  revert d. induction l as [|[k v] l IH]; intros d Hnd; [by rewrite left_id_L by apply _|].
  change (NoDup (k :: map fst l)) in Hnd. apply NoDup_cons in Hnd as [Hk Hnd].
  cbn [fold_left fst snd]. rewrite IH by done. simpl.
  assert (Hn : (list_to_map l : gmap string string) !! k = None) by by apply not_elem_of_list_to_map_1.
  rewrite <- insert_union_l. by rewrite insert_union_r.
Qed.

Lemma fold_range (m d : gmap string string) :
  fold_left (λ d kv, <[kv.1 := kv.2]> d) (range m) d = m ∪ d.
Proof.
  assert (Hnd : NoDup (map fst (range m))) by (rewrite (Hrange m); apply NoDup_fst_map_to_list).
  rewrite fold_inserts by done. f_equal. rewrite <- (list_to_map_to_list m) at 2.
  apply list_to_map_proper; [done|apply Hrange].
Qed.

Lemma folded m d : m ≠ ∅ → ∀ meta,
  fold_string_data (SecretO (MkSecretObj meta d (Some m))) = SecretO (MkSecretObj meta (Some (m ∪ default ∅ d)) None).
Proof. intros Hm meta. simpl. by rewrite bool_decide_false, fold_range. Qed.

(** A Secret is stored with its [StringData] folded into its [Data]: on
    creation and on update every string entry is a data entry, over one of the
    same key, the other entries are kept, no string data is left, and a second
    pass changes nothing, whatever the order the map is walked in. *)
Theorem secret_data_folded meta d m old :
  m ≠ ∅ →
  let s' := SecretO (MkSecretObj meta (Some (m ∪ default ∅ d)) None) in
  prepare_for_create new_secret_strategy (SecretO (MkSecretObj meta d (Some m))) = s' ∧
  prepare_for_update new_secret_strategy (SecretO (MkSecretObj meta d (Some m))) old = s' ∧
  prepare_for_update new_secret_strategy s' old = s' ∧
  ∀ k, (m ∪ default ∅ d) !! k = match m !! k with Some v => Some v | None => default ∅ d !! k end.
Proof.
  intros Hm. cbv zeta. unfold prepare_for_create, prepare_for_update, run_hook. cbn [st_before_write st_reset_status
    new_secret_strategy new_config_data_strategy]. rewrite folded by done.
  split; [done|]. split; [done|]. split; [done|]. intros k. rewrite lookup_union.
  by destruct (m !! k), (default ∅ d !! k).
Qed.

(** A status update changes the status and nothing else; a new Pod starts
    without a status, and a new namespace with the default finalizer and no
    status. *)
Theorem status_kept_apart (new old : pod_obj) (n : namespace_obj) :
  prepare_status_update (PodO new) (PodO old) = PodO (MkPodObj (pd_meta old) (pd_spec old) (pd_status new)) ∧
  prepare_for_create new_pod_strategy (PodO new) = PodO (MkPodObj (pd_meta new) (pd_spec new) no_status) ∧
  prepare_for_create new_namespace_strategy (NamespaceO n) =
    NamespaceO (MkNamespaceObj (nsp_meta n) (Some (default ["kubernetes"] (nsp_finalizers n))) no_ns_status).
Proof. split; [done|]. split; [done|]. unfold prepare_for_create. simpl. by destruct (nsp_finalizers n). Qed.

(** The two phases of the deletion of a Pod.  Asked without a grace period,
    the deletion is graceful with the Pod's period, 30 seconds when it has
    none, unless that period is not positive; the deletion the kubelet asks
    for at the end, with grace 0, is never graceful, so the object goes; an
    explicit period is kept; nothing else is deleted gracefully. *)
Theorem delete_phases (p : pod_obj) (g : Z) :
  let period := default 30%Z (sp_grace (pd_spec p)) in
  check_graceful_delete (PodO p) (Some None) = (Some (Some period), (0 <? period)%Z) ∧
  check_graceful_delete (PodO p) (Some (Some 0%Z)) = (Some (Some 0%Z), false) ∧
  check_graceful_delete (PodO p) (Some (Some g)) = (Some (Some g), (0 <? g)%Z) ∧
  check_graceful_delete (PodO p) None = (None, false) ∧
  ∀ s opts, check_graceful_delete (SecretO s) opts = (opts, false).
Proof.
  cbv zeta. unfold check_graceful_delete, default_grace_period_seconds.
  split; [by destruct (sp_grace (pd_spec p))|]. split; [done|]. split; [done|]. split; [done|].
  by intros s [].
Qed.
End objects.

Arguments pod_spec : clear implicits.
Arguments pod_obj : clear implicits.
Arguments object : clear implicits.

Lemma secret_data_folded_witness :
  let m : gmap string string := <["k" := "new"]> ∅ in
  let d : gmap string string := <["k" := "old"]> (<["j" := "x"]> ∅) in
  let s : object unit unit unit unit := SecretO (MkSecretObj tt (Some d) (Some m)) in
  prepare_for_create (new_secret_strategy map_to_list) s = SecretO (MkSecretObj tt (Some (m ∪ d)) None).
Proof.
  intros m d s.
  exact (proj1 (secret_data_folded map_to_list (λ m, Permutation_refl _) tt (Some d) m s
                  ltac:(apply (bool_decide_unpack _); vm_compute; exact I))).
Defined.
