(* ===== verification/Deletion.v ===== *)
(** * The deletion of a Pod, from the API server to the kubelet and back

    A DELETE of a Pod takes two requests: the first marks the Pod (the strategy
    says so, Strategy), the kubelet sees the mark, stops the containers and asks
    again (ReconcilerEnd), and the strategy lets that request remove it.  The
    registry between them is k8s.io/apiserver code: it sets the deletion time
    and the grace period of the strategy's options on the object. *)

From S2P Require Import Prelude GoStrings Fs Translate Projection Docker.
From S2P Require Import Reconciler ReconcilerFacts ReconcilerEnd Strategy.

Section deletion.
Context {K D L Q : Type} `{KubeAPI K} `{RuntimeLaws D} `{PodLister L} `{WorkQueue Q}.
Context {Meta Spec Status NsStatus : Type}.
Context (volume_root : option path) (now : Z) (clock : N → Z) (uuids : N → string)
        (sys_text : err → string) (duration_text : Z → string)
        (range : gmap string string → list (string * string)).
Hypothesis Hkube : kube_returns (K := K).
Abbreviation St := (rstate (K * list kube_call) (D * list docker_call) L Q).
Implicit Types (s : St) (p : pod) (po : pod_obj Meta Spec Status).

(** What the kubelet sees of a Pod after a graceful DELETE whose options the
    strategy left as [opts]. *)
Definition marked (opts : option (option Z)) p : Prop :=
  p_deleting p = true ∧ p_grace p = default None opts.

Lemma grace_small g p : p_grace p = Some g → (0 < g)%Z → (g * 1000000000 < 9223372036854775808)%Z →
  grace_of p = (g * 1000000000)%Z.
Proof.
  intros E Hg Hb. unfold grace_of. rewrite E. unfold int64. rewrite Z.mod_small by lia. lia.
Qed.

(** C12: a Pod is deleted in two phases.  A DELETE without a grace period is
    graceful when the Pod's period is positive.  Reconciling the Pod so marked
    returns, and its calls to the runtime are exactly these: for the containers
    of the specification, last one first, an inspection and, when the container
    exists, a stop with the Pod's period; the first inspection the daemon fails
    ends it, with an error and without a request for the deletion.  If the
    daemon answers every inspection none is left, and one deletion is asked for,
    whose answer is the result (a missing object counts as success) and which
    the strategy takes as immediate. *)
Theorem pod_deleted_in_two_phases po p s period :
  period = default 30%Z (sp_grace (pd_spec po)) →
  (0 < period)%Z → (period * 1000000000 < 9223372036854775808)%Z →
  p_uid p ≠ "" → p_containers p ≠ [] →
  marked (check_graceful_delete (NsStatus := NsStatus) (PodO po) (Some None)).1 p →
  (check_graceful_delete (NsStatus := NsStatus) (PodO po) (Some None)).2 = true ∧
  (∃ s' r did rest,
    reconcile_pod volume_root now clock uuids sys_text duration_text range p s = (s', Val r) ∧
    rev (map (λ x, container_name (p_uid p) (c_name x)) (p_containers p)) = did ++ rest ∧
    calls s' = calls s ++
      flat_map (λ n, CInspect n :: (if bool_decide (is_Some (there s !! n))
                                    then [CStop n (period * 1000000000)%Z] else [])) did ++
      match rest with [] => [] | n :: _ => [CInspect n] end ∧
    deletes (requests s') = deletes (requests s) ++
      match rest with [] => [KDelete (p_namespace p) (p_name p) 0%Z] | _ => [] end ∧
    match rest with
    | [] => ∃ k r', delete_pod (p_namespace p) (p_name p) 0 k = ((rs_kube s').1, Val r') ∧
                    is_ok r = match r' with Err e => is_api_not_found e | Ok _ => true end
    | n :: _ => is_ok r = false ∧ ∃ d e, inspect n d = ((rs_docker s').1, Val (Err e))
    end ∧
    ((∀ n (d d' : D) v, inspect n d = (d', Val v) → is_ok v = true) → rest = [])) ∧
  (check_graceful_delete (NsStatus := NsStatus) (PodO po) (Some (Some 0%Z))).2 = false.
Proof.
  intros Hper Hpos Hbound Hu Hc [Hdel Hgr].
  assert (Hg : check_graceful_delete (NsStatus := NsStatus) (PodO po) (Some None) = (Some (Some period), true)).
  { unfold check_graceful_delete, default_grace_period_seconds. rewrite Hper in Hpos |- *.
    destruct (sp_grace (pd_spec po)) as [g|]; simpl in *; by rewrite (proj2 (Z.ltb_lt _ _)) by done. }
  rewrite Hg in Hgr |- *. simpl in Hgr. split; [done|]. split; [|done].
  destruct (terminate_run clock uuids duration_text Hkube p s Hc)
    as (s' & r & did & rest & E & Hn & Hcalls & Hend & Hdels).
  rewrite (grace_small period p Hgr Hpos Hbound) in Hcalls. exists s', r, did, rest. split.
  { unfold reconcile_pod. by rewrite (proj2 (String.eqb_neq _ _)), Hdel by done. }
  split; [done|]. split; [done|]. split; [by rewrite Hdels; destruct rest|].
  destruct rest as [|n rest]; [done|]. split; [exact Hend|].
  intros Hans. destruct Hend as (_ & d & e & Ei). by apply Hans in Ei.
Qed.
End deletion.
