(* ===== verification/Tables.v ===== *)
(** * Tables for kubectl ([internal/apiserver/tables.go])

    The table convertors of the five resources, on the fields they read.  The
    present, which [time.Since] reads, is an argument; a time is the number of
    nanoseconds since the zero time, a duration an int64 of nanoseconds.
    [Seconds], [Minutes] and [Hours] are float64 arithmetic, computed with the
    Standard Library's specification of IEEE 754. *)

From Stdlib Require Import SpecFloat.
From S2P Require Import Prelude GoStrings Translate.

(** ** Objects, as far as the columns read them *)

Record tmeta := MkTMeta { tm_name : string; tm_creation : Z }.

Record tstatus := MkTStatus {                 (* corev1.ContainerStatus *)
  ts_ready : bool; ts_restarts : Z;
  ts_waiting : option string;                 (* State.Waiting, its Reason *)
  ts_terminated : option string }.

Record tpod := MkTPod {
  tp_meta : tmeta; tp_deletion : option Z; tp_containers : list string; tp_node : string;
  tp_phase : string; tp_reason : string; tp_ip : string; tp_statuses : list tstatus }.

Record tnamespace := MkTNamespace { tn_meta : tmeta; tn_phase : string }.

Record tconfig_map := MkTConfigMap {
  tc_meta : tmeta; tc_data : gmap string string; tc_binary : gmap string string }.

Record tsecret := MkTSecret {
  tx_meta : tmeta; tx_type : string; tx_data : gmap string string; tx_string_data : gmap string string }.

Record tevent := MkTEvent {
  te_meta : tmeta; te_last : Z; te_first : Z; te_time : Z; te_type : string; te_reason : string;
  te_kind : string; te_name : string; te_message : string }.

(** [runtime.Object]: a type switch tells the constructors apart. *)
Inductive tobject :=
  | OPod (o : tpod) | OPodList (rv : string) (items : list tpod)
  | ONamespace (o : tnamespace) | ONamespaceList (rv : string) (items : list tnamespace)
  | OConfigMap (o : tconfig_map) | OConfigMapList (rv : string) (items : list tconfig_map)
  | OSecret (o : tsecret) | OSecretList (rv : string) (items : list tsecret)
  | OEvent (o : tevent) | OEventList (rv : string) (items : list tevent)
  | OOther (type : string).

Definition type_of (o : tobject) : string :=
  match o with
  | OPod _ => "*v1.Pod" | OPodList _ _ => "*v1.PodList"
  | ONamespace _ => "*v1.Namespace" | ONamespaceList _ _ => "*v1.NamespaceList"
  | OConfigMap _ => "*v1.ConfigMap" | OConfigMapList _ _ => "*v1.ConfigMapList"
  | OSecret _ => "*v1.Secret" | OSecretList _ _ => "*v1.SecretList"
  | OEvent _ => "*v1.Event" | OEventList _ _ => "*v1.EventList"
  | OOther t => t
  end.

(** ** [metav1.Table] *)

Record column := MkColumn { co_name : string; co_type : string; co_format : string; co_priority : Z }.
Inductive cell := CString (s : string) | CInt (n : Z).
Record row := MkRow { ro_cells : list cell; ro_object : tobject }.
Record table := MkTable { ta_columns : list column; ta_rows : list row; ta_rv : string }.

(** [tableOptions]: nil, or an object of another type, is [None]. *)
Definition table_no_headers (opts : option bool) : bool :=
  match opts with Some no_headers => no_headers | None => false end.

(** ** Ages *)

Definition minute : Z := 60 * second.
Definition hour : Z := 60 * minute.

(** [float64(x)], [int(f)] for a finite [f] in the range of int64. *)
Definition float64 (x : Z) : spec_float := binary_normalize 53 1024 x 0 false.
Definition float_int (f : spec_float) : Z :=
  match f with
  | S754_finite s m e =>
      let x := if (0 <=? e)%Z then (Z.pos m * 2 ^ e)%Z else (Z.pos m / 2 ^ (- e))%Z in
      if s then (- x)%Z else x
  | _ => 0%Z
  end.
Definition float_div : spec_float → spec_float → spec_float := SFdiv 53 1024.

(** [d.Seconds()], [d.Minutes()], [d.Hours()]: the quotient and the remainder
    by the unit, the remainder divided by the unit as a float64. *)
Definition in_unit (unit d : Z) : spec_float :=
  SFadd 53 1024 (float64 (Z.quot d unit)) (float_div (float64 (Z.rem d unit)) (float64 unit)).

Definition short_human_duration (d : Z) : string :=
  if (d <? second)%Z then "0s"
  else if (d <? minute)%Z then format_int (float_int (in_unit second d)) +:+ "s"
  else if (d <? hour)%Z then format_int (float_int (in_unit minute d)) +:+ "m"
  else if (d <? 24 * hour)%Z then format_int (float_int (in_unit hour d)) +:+ "h"
  else if (d <? 365 * 24 * hour)%Z
  then format_int (float_int (float_div (in_unit hour d) (float64 24))) +:+ "d"
  else format_int (float_int (float_div (float_div (in_unit hour d) (float64 24)) (float64 365))) +:+ "y".

(** [t.Sub(u)]: the difference saturates at the ends of int64. *)
Definition time_sub (t u : Z) : Z :=
  Z.max (-9223372036854775808) (Z.min 9223372036854775807 (t - u)).

Section tables.
Context (now : Z).

Definition translate_timestamp_since (t : Z) : string :=
  if is_zero t then "<unknown>" else short_human_duration (time_sub now t).

Definition string_or_none (s : string) : string := if String.eqb s "" then "<none>" else s.

(** ** Cells *)

(** The loop of [podReadinessCounts]: [restarts] is an int32. *)
Definition count_status (acc : Z * Z) (cs : tstatus) : Z * Z :=
  ((acc.1 + if ts_ready cs then 1 else 0)%Z, int32 (acc.2 + ts_restarts cs)).

Definition pod_readiness_counts (p : tpod) : Z * Z * Z :=
  let '(ready, restarts) := fold_left count_status (tp_statuses p) (0, 0)%Z in
  (ready, Z.of_nat (length (tp_containers p)), restarts).

(** The reason one container gives: [Some] when it returns. *)
Definition set_reason (o : option string) : option string :=
  match o with Some r => if String.eqb r "" then None else Some r | None => None end.

Definition reason_of (cs : tstatus) : option string :=
  match set_reason (ts_waiting cs) with
  | Some r => Some r
  | None => set_reason (ts_terminated cs)
  end.

Fixpoint status_reason (l : list tstatus) : option string :=
  match l with
  | [] => None
  | cs :: l' => match reason_of cs with Some r => Some r | None => status_reason l' end
  end.

Definition pod_display_status (p : tpod) : string :=
  match tp_deletion p with
  | Some _ => "Terminating"
  | None =>
      match status_reason (tp_statuses p) with
      | Some r => r
      | None =>
          if negb (String.eqb (tp_reason p) "") then tp_reason p
          else if String.eqb (tp_phase p) "" then "Pending" else tp_phase p
      end
  end.

Definition event_last_seen (e : tevent) : Z :=
  if negb (is_zero (te_last e)) then te_last e
  else if negb (is_zero (te_first e)) then te_first e
  else if negb (is_zero (te_time e)) then te_time e
  else tm_creation (te_meta e).

Definition age (m : tmeta) : cell := CString (translate_timestamp_since (tm_creation m)).

(** ** The convertors *)

Definition scol (name format : string) (priority : Z) : column := MkColumn name "string" format priority.
Definition icol (name : string) : column := MkColumn name "integer" "" 0.

Definition pod_columns : list column :=
  [scol "Name" "name" 0; scol "Ready" "" 0; scol "Status" "" 0; icol "Restarts"; scol "Age" "" 0;
   scol "IP" "" 1; scol "Node" "" 1].
Definition namespace_columns : list column := [scol "Name" "name" 0; scol "Status" "" 0; scol "Age" "" 0].
Definition config_map_columns : list column := [scol "Name" "name" 0; icol "Data"; scol "Age" "" 0].
Definition secret_columns : list column :=
  [scol "Name" "name" 0; scol "Type" "" 0; icol "Data"; scol "Age" "" 0].
Definition event_columns : list column :=
  [scol "Last Seen" "" 0; scol "Type" "" 0; scol "Reason" "" 0; scol "Object" "" 0; scol "Message" "" 0].

(** The closures [add]. *)
Definition pod_row (p : tpod) : row :=
  let '(ready, total, restarts) := pod_readiness_counts p in
  MkRow [CString (tm_name (tp_meta p));
         CString (format_int ready +:+ "/" +:+ format_int total);
         CString (pod_display_status p); CInt restarts; age (tp_meta p);
         CString (string_or_none (tp_ip p)); CString (string_or_none (tp_node p))] (OPod p).

Definition namespace_row (n : tnamespace) : row :=
  MkRow [CString (tm_name (tn_meta n));
         CString (if String.eqb (tn_phase n) "" then "Active" else tn_phase n);
         age (tn_meta n)] (ONamespace n).

Definition config_map_row (c : tconfig_map) : row :=
  MkRow [CString (tm_name (tc_meta c));
         CInt (Z.of_nat (size (tc_data c)) + Z.of_nat (size (tc_binary c)));
         age (tc_meta c)] (OConfigMap c).

Definition secret_row (s : tsecret) : row :=
  MkRow [CString (tm_name (tx_meta s));
         CString (if String.eqb (tx_type s) "" then "Opaque" else tx_type s);
         CInt (Z.of_nat (size (tx_data s)) + Z.of_nat (size (tx_string_data s)));
         age (tx_meta s)] (OSecret s).

Definition event_row (e : tevent) : row :=
  MkRow [CString (translate_timestamp_since (event_last_seen e)); CString (te_type e);
         CString (te_reason e); CString (te_kind e +:+ "/" +:+ te_name e);
         CString (te_message e)] (OEvent e).

Definition headers (cols : list column) (opts : option bool) : list column :=
  if negb (table_no_headers opts) then cols else [].

Definition unexpected (convertor : string) (o : tobject) : res table :=
  Err (ErrText (convertor +:+ ": unexpected type " +:+ type_of o)).

Definition pod_table (o : tobject) (opts : option bool) : res table :=
  let cols := headers pod_columns opts in
  match o with
  | OPod p => Ok (MkTable cols [pod_row p] "")
  | OPodList rv items => Ok (MkTable cols (map pod_row items) rv)
  | _ => unexpected "podTableConvertor" o
  end.

(** [meta.ListAccessor(object)]: the resourceVersion of a list. *)
Definition list_accessor (o : tobject) : option string :=
  match o with
  | OPodList rv _ | ONamespaceList rv _ | OConfigMapList rv _ | OSecretList rv _
  | OEventList rv _ => Some rv
  | _ => None
  end.

Definition namespace_table (o : tobject) (opts : option bool) : res table :=
  let cols := headers namespace_columns opts in
  let t := match o with
           | ONamespace n => Ok (MkTable cols [namespace_row n] "")
           | ONamespaceList rv items => Ok (MkTable cols (map namespace_row items) rv)
           | _ => unexpected "namespaceTableConvertor" o
           end in
  match t with
  | Err e => Err e
  | Ok t => Ok (match list_accessor o with
                | Some rv => MkTable (ta_columns t) (ta_rows t) rv
                | None => t
                end)
  end.

Definition config_map_table (o : tobject) (opts : option bool) : res table :=
  let cols := headers config_map_columns opts in
  match o with
  | OConfigMap c => Ok (MkTable cols [config_map_row c] "")
  | OConfigMapList rv items => Ok (MkTable cols (map config_map_row items) rv)
  | _ => unexpected "configMapTableConvertor" o
  end.

Definition secret_table (o : tobject) (opts : option bool) : res table :=
  let cols := headers secret_columns opts in
  match o with
  | OSecret s => Ok (MkTable cols [secret_row s] "")
  | OSecretList rv items => Ok (MkTable cols (map secret_row items) rv)
  | _ => unexpected "secretTableConvertor" o
  end.

Definition event_table (o : tobject) (opts : option bool) : res table :=
  let cols := headers event_columns opts in
  match o with
  | OEvent e => Ok (MkTable cols [event_row e] "")
  | OEventList rv items => Ok (MkTable cols (map event_row items) rv)
  | _ => unexpected "eventTableConvertor" o
  end.
End tables.

(** ** Typing *)

Section typing.
Context (now : Z).

(** A cell has the type its column declares. *)
Definition cell_fits (c : column) (x : cell) : Prop :=
  match x with CString _ => co_type c = "string" | CInt _ => co_type c = "integer" end.

Definition row_fits (cols : list column) (r : row) : Prop := Forall2 cell_fits cols (ro_cells r).

(** A convertor, its columns, and the objects it is given. *)
Inductive convertor := CPod | CNamespace | CConfigMap | CSecret | CEvent.

Definition columns_of (c : convertor) : list column :=
  match c with
  | CPod => pod_columns | CNamespace => namespace_columns | CConfigMap => config_map_columns
  | CSecret => secret_columns | CEvent => event_columns
  end.

Definition convert (c : convertor) : tobject → option bool → res table :=
  match c with
  | CPod => pod_table now | CNamespace => namespace_table now | CConfigMap => config_map_table now
  | CSecret => secret_table now | CEvent => event_table now
  end.

(** The items of an object the convertor accepts. *)
Definition items_of (c : convertor) (o : tobject) : option (list tobject) :=
  match c, o with
  | CPod, OPod _ | CNamespace, ONamespace _ | CConfigMap, OConfigMap _ | CSecret, OSecret _
  | CEvent, OEvent _ => Some [o]
  | CPod, OPodList _ l => Some (map OPod l)
  | CNamespace, ONamespaceList _ l => Some (map ONamespace l)
  | CConfigMap, OConfigMapList _ l => Some (map OConfigMap l)
  | CSecret, OSecretList _ l => Some (map OSecret l)
  | CEvent, OEventList _ l => Some (map OEvent l)
  | _, _ => None
  end.

Lemma rows_fit {A} (f : A → row) (obj : A → tobject) cols (l : list A) :
  (∀ x, row_fits cols (f x)) → (∀ x, ro_object (f x) = obj x) →
  Forall (row_fits cols) (map f l) ∧ map ro_object (map f l) = map obj l.
Proof.
  intros Hf Ho. split.
  - induction l; simpl; by constructor.
  - rewrite map_map. by apply map_ext.
Qed.

Ltac row_of :=
  intros; unfold row_fits, pod_row, namespace_row, config_map_row, secret_row, event_row;
  repeat match goal with |- context [let '(_, _) := ?e in _] => destruct e end; simpl;
  repeat constructor.

Lemma pod_row_fits p : row_fits pod_columns (pod_row now p) ∧ ro_object (pod_row now p) = OPod p.
Proof. unfold pod_row. destruct (pod_readiness_counts p) as [[]]. split; [row_of|done]. Qed.

(** C33: every table is well typed: a convertor accepts exactly the objects and
    lists of its kind; it gives one row for each item, in the order of the
    list, carrying that item; every row has one cell for each column, of the
    type the column declares; the columns are left out when the client asks,
    and the table has the resourceVersion of the list. *)
Theorem table_well_typed c o opts :
  match items_of c o with
  | Some items => ∃ t, convert c o opts = Ok t ∧
      map ro_object (ta_rows t) = items ∧ Forall (row_fits (columns_of c)) (ta_rows t) ∧
      ta_columns t = (if table_no_headers opts then [] else columns_of c) ∧
      ta_rv t = default "" (list_accessor o)
  | None => ∃ msg, convert c o opts = Err (ErrText msg)
  end.
Proof.
  assert (Hh : ∀ cols, headers cols opts = if table_no_headers opts then [] else cols)
    by (intros; unfold headers; by destruct (table_no_headers opts)).
  destruct c, o; simpl; unfold unexpected; try (eexists; reflexivity);
    (eexists; split; [reflexivity|]); cbn [ta_rows ta_columns ta_rv list_accessor default]; rewrite Hh.
  1: change [pod_row now o] with (map (pod_row now) [o]).
  3: change [namespace_row now o] with (map (namespace_row now) [o]).
  5: change [config_map_row now o] with (map (config_map_row now) [o]).
  7: change [secret_row now o] with (map (secret_row now) [o]).
  9: change [event_row now o] with (map (event_row now) [o]).
  all: lazymatch goal with |- ?A ∧ ?B ∧ _ => cut (B ∧ A); [by intros [HB HA]|] end.
  1,2: apply (rows_fit _ OPod); intros; apply pod_row_fits.
  1,2: apply (rows_fit _ ONamespace); [row_of|done].
  1,2: apply (rows_fit _ OConfigMap); [row_of|done].
  1,2: apply (rows_fit _ OSecret); [row_of|done].
  1,2: apply (rows_fit _ OEvent); [row_of|done].
Qed.
End typing.

(** ** The Pods the kubelet reports *)

Section kubelet_pods.
Context (now : Z).

Definition phase_text (ph : phase) : string :=
  match ph with
  | PodPending => "Pending" | PodRunning => "Running" | PodSucceeded => "Succeeded" | PodFailed => "Failed"
  end.

(** The status the kubelet writes, as the table reads it back; the kubelet sets
    no restart count. *)
Definition tstatus_of (cs : container_status) : tstatus :=
  match cs_state cs with
  | Waiting r => MkTStatus (cs_ready cs) 0 (Some r) None
  | Running _ => MkTStatus (cs_ready cs) 0 None None
  | Terminated _ r _ _ _ => MkTStatus (cs_ready cs) 0 None (Some r)
  end.

Definition reported (p : pod) (created : Z) (node : string) (st : pod_status) : tpod :=
  MkTPod (MkTMeta (p_name p) created) (if p_deleting p then Some created else None)
    (map c_name (p_containers p)) node (phase_text (ps_phase st)) (ps_reason st) (ps_pod_ip st)
    (map tstatus_of (ps_containers st)).

Lemma count_statuses l r t : (0 <= t)%Z → fold_left count_status (map tstatus_of l) (t, r)
  = ((t + Z.of_nat (length (List.filter cs_ready l)))%Z, fold_left (λ n _, int32 (n + 0)) l r).
Proof.
  revert t r. induction l as [|cs l IH]; intros t r Ht; [by rewrite Z.add_0_r|].
  cbn [map fold_left]. unfold count_status at 2. cbn [fst snd].
  assert (E : ts_ready (tstatus_of cs) = cs_ready cs ∧ ts_restarts (tstatus_of cs) = 0%Z)
    by (unfold tstatus_of; by destruct (cs_state cs)).
  destruct E as [-> ->]. simpl. destruct (cs_ready cs); rewrite IH by lia; [|f_equal; lia].
  f_equal. simpl. lia.
Qed.

Lemma no_restarts (l : list container_status) : fold_left (λ n _, int32 (n + 0)) l 0%Z = 0%Z.
Proof. induction l; [done|]. simpl. exact IHl. Qed.

Section views.
Context (at_ : Z) (views : gmap string container_view).

(** What a container that is not running shows in the STATUS column. *)
Definition shown_reason (c : container) : option string :=
  match views !! c_name c with
  | None => Some "ContainerCreating"
  | Some v => if v_running v then None
              else Some (if v_oom v then "OOMKilled"
                         else if negb (v_exit v =? 0)%Z then "Error" else "Completed")
  end.

Lemma tally_reasons l :
  map (reason_of ∘ tstatus_of) (t_statuses (tallied at_ views l)) = map shown_reason l.
Proof.
  induction l as [|c l IH] using rev_ind; [done|]. rewrite tallied_snoc, map_app. cbn [map].
  unfold tally_container, shown_reason at 2. destruct (views !! c_name c) as [v|]; cbn [t_statuses].
  - destruct (v_running v); cbn [t_statuses]; rewrite map_app, IH; cbn; [done|].
    by destruct (v_oom v), (negb (v_exit v =? 0)%Z).
  - by rewrite map_app, IH.
Qed.

Lemma status_reason_head l : status_reason l = head (omap id (map reason_of l)).
Proof. induction l as [|cs l IH]; simpl; [done|]. by destruct (reason_of cs). Qed.

Lemma running_no_reason c : shown_reason c = None ↔ is_running views c = true.
Proof.
  unfold shown_reason, is_running. destruct (views !! c_name c) as [v|]; [|done].
  by destruct (v_running v).
Qed.

Lemma all_running_phase p : p_containers p ≠ [] → omap shown_reason (p_containers p) = [] →
  ps_phase (pod_status_from_views at_ p views) = PodRunning.
Proof.
  intros Hne Hn. assert (Hr : ∀ c, In c (p_containers p) → is_running views c = true).
  { intros c Hc. apply running_no_reason. destruct (shown_reason c) as [r|] eqn:E; [|done].
    assert (Hin : r ∈ omap shown_reason (p_containers p)).
    { apply list_elem_of_omap. exists c. split; [by apply list_elem_of_In|done]. }
    rewrite Hn in Hin. by apply elem_of_nil in Hin. }
  unfold pod_status_from_views. fold (tallied at_ views (p_containers p)).
  destruct (tally_flags at_ views (p_containers p)) as (H1 & H2 & H3 & _). cbn [ps_phase].
  assert (G : ∀ f, (∀ c, is_running views c = true → f c = false) → existsb f (p_containers p) = false).
  { intros f Hf. apply not_true_iff_false. rewrite existsb_exists. intros (c & Hc & E).
    by rewrite Hf in E by by apply Hr. }
  rewrite H3, H1, H2, (G (crashed views)), (G (missing views)).
  - assert (Ex : existsb (is_running views) (p_containers p) = true); [|by rewrite Ex].
    apply existsb_exists. destruct (p_containers p) as [|c cs]; [done|].
    exists c. split; [by left|]. apply Hr. by left.
  - unfold is_running, missing. intros c. by destruct (views !! c_name c).
  - unfold is_running, crashed. intros c. destruct (views !! c_name c) as [v|]; [|done].
    by destruct (v_running v).
Qed.

Lemma omap_map_id l : omap id (map shown_reason l) = omap shown_reason l.
Proof.
  induction l as [|c l IH]; [done|].
  change (match shown_reason c with
          | Some r => r :: omap id (map shown_reason l) | None => omap id (map shown_reason l) end =
          match shown_reason c with
          | Some r => r :: omap shown_reason l | None => omap shown_reason l end).
  by rewrite IH.
Qed.

Lemma count_ready (q : list container_status) l : map cs_ready q = map (is_running views) l →
  length (List.filter cs_ready q) = length (List.filter (is_running views) l).
Proof.
  revert l. induction q as [|cs q IH]; intros [|c l] E; simpl in E; try done. injection E as E1 E2.
  simpl. rewrite E1. destruct (is_running views c); simpl; by rewrite (IH l).
Qed.

(** What kubectl shows of a Pod is what runs: in the row of a Pod whose
    status the kubelet computed from its containers, READY is the number of
    running containers over the number of containers, RESTARTS is 0, and STATUS
    is Terminating for a Pod being deleted, else what the first container that
    is not running shows (ContainerCreating, OOMKilled, Error or Completed),
    and Running when all of them run. *)
Theorem kubelet_pod_row p created node :
  p_containers p ≠ [] →
  let r := pod_row now (reported p created node (pod_status_from_views at_ p views)) in
  ro_cells r !! 1 = Some (CString
    (format_int (Z.of_nat (length (List.filter (is_running views) (p_containers p)))) +:+ "/" +:+
     format_int (Z.of_nat (length (p_containers p))))) ∧
  ro_cells r !! 2 = Some (CString
    (if p_deleting p then "Terminating"
     else match omap shown_reason (p_containers p) with r :: _ => r | [] => "Running" end)) ∧
  ro_cells r !! 3 = Some (CInt 0).
Proof.
  intros Hne. cbv zeta. unfold pod_row, pod_readiness_counts, reported.
  cbn [tp_statuses tp_containers tp_meta tp_ip tp_node].
  assert (Est : ps_containers (pod_status_from_views at_ p views) = t_statuses (tallied at_ views (p_containers p)))
    by done.
  rewrite !Est, count_statuses, no_restarts by done. rewrite length_map. cbn [ro_cells].
  destruct (tally_flags at_ views (p_containers p)) as (_ & _ & _ & _ & _ & Hready).
  split; [|split; [|done]].
  - simpl. do 3 f_equal. do 3 f_equal.
    by rewrite Z.add_0_l, (count_ready _ _ Hready).
  - simpl. do 2 f_equal. unfold pod_display_status. cbn [tp_deletion tp_statuses tp_reason tp_phase].
    destruct (p_deleting p); [done|]. rewrite status_reason_head, map_map.
    change (map (λ x, reason_of (tstatus_of x)) ?l) with (map (reason_of ∘ tstatus_of) l).
    rewrite tally_reasons.
    rewrite omap_map_id. destruct (omap shown_reason (p_containers p)) as [|x l] eqn:E; [|done].
    pose proof (all_running_phase p Hne E) as Ep. unfold pod_status_from_views in Ep |- *.
    cbn [ps_phase] in Ep. cbn [head ps_phase ps_reason String.eqb negb]. by rewrite Ep.
Qed.
End views.
End kubelet_pods.

Lemma kubelet_pod_row_witness :
  let p := MkPod "u" "default" "web" false None
             [MkContainer "a" "i" [] [] "" "" [] [] []; MkContainer "b" "i" [] [] "" "" [] [] []] [] in
  let views := <["a" := MkView "1" "i" "j" true 5 0 0 false]>
                 (<["b" := MkView "2" "i" "j" false 5 6 137 true]> ∅) in
  ro_cells (pod_row 9 (reported p 1 "node" (pod_status_from_views 7 p views))) !! 2
  = Some (CString "OOMKilled").
Proof.
  intros p views.
  destruct (kubelet_pod_row 9 7 views p 1 "node" ltac:(discriminate)) as (_ & E & _).
  etransitivity; [exact E|]. vm_compute. reflexivity.
Defined.

(** float64 carries the hours of more than 170 days to within a nanosecond or
    two: the last nanosecond of a day already counts as the next day. *)
Example age_rounds_up : short_human_duration (171 * 24 * hour - 1) = "171d".
Proof. vm_compute. reflexivity. Qed.
