(* ===== verification/Fields.v ===== *)
(** * Field selectors ([internal/apiserver/fields.go], [getAttrs] of [apiserver.go])

    The fields each resource publishes for selection, and the conversions the
    scheme is given for them.  The scheme is apimachinery code: the class
    [FieldScheme], with its default conversion. *)

From S2P Require Import Prelude GoStrings.

(** ** What the resources publish *)

(** The objects, as far as [getAttrs] reads them; the labels are all of them. *)
Record ameta := MkAMeta { am_labels : gmap string string; am_name : string; am_namespace : string }.

Record aref := MkARef {                       (* corev1.ObjectReference *)
  ar_kind : string; ar_namespace : string; ar_name : string; ar_uid : string;
  ar_api_version : string; ar_resource_version : string; ar_field_path : string }.

Inductive aobject :=
  | APod (m : ameta) (node_name phase : string)
  | ANamespace (m : ameta) (phase : string)
  | AEvent (m : ameta) (involved : aref) (reason reporting source type : string)
  | AConfigMap (m : ameta)
  | ASecret (m : ameta) (type : string)
  | AOther (type : string).

Definition attrs : Type := gmap string string * gmap string string.

Definition atype (o : aobject) : string :=
  match o with
  | APod _ _ _ => "*v1.Pod" | ANamespace _ _ => "*v1.Namespace" | AEvent _ _ _ _ _ _ => "*v1.Event"
  | AConfigMap _ => "*v1.ConfigMap" | ASecret _ _ => "*v1.Secret" | AOther t => t
  end.

Definition not_a (what : string) (o : aobject) : res attrs :=
  Err (ErrText ("not " +:+ what +:+ ": " +:+ atype o)).

Definition pod_attrs (o : aobject) : res attrs :=
  match o with
  | APod m node phase => Ok (am_labels m, list_to_map
      [("metadata.name", am_name m); ("metadata.namespace", am_namespace m);
       ("spec.nodeName", node); ("status.phase", phase)])
  | _ => not_a "a Pod" o
  end.

Definition namespace_attrs (o : aobject) : res attrs :=
  match o with
  | ANamespace m phase => Ok (am_labels m, list_to_map
      [("metadata.name", am_name m); ("status.phase", phase)])
  | _ => not_a "a Namespace" o
  end.

Definition event_attrs (o : aobject) : res attrs :=
  match o with
  | AEvent m r reason reporting source type => Ok (am_labels m, list_to_map
      [("metadata.name", am_name m); ("metadata.namespace", am_namespace m);
       ("involvedObject.kind", ar_kind r); ("involvedObject.namespace", ar_namespace r);
       ("involvedObject.name", ar_name r); ("involvedObject.uid", ar_uid r);
       ("involvedObject.apiVersion", ar_api_version r);
       ("involvedObject.resourceVersion", ar_resource_version r);
       ("involvedObject.fieldPath", ar_field_path r); ("reason", reason);
       ("reportingComponent", reporting); ("source", source); ("type", type)])
  | _ => not_a "an Event" o
  end.

Definition config_map_attrs (o : aobject) : res attrs :=
  match o with
  | AConfigMap m => Ok (am_labels m, list_to_map
      [("metadata.name", am_name m); ("metadata.namespace", am_namespace m)])
  | _ => not_a "a ConfigMap" o
  end.

Definition secret_attrs (o : aobject) : res attrs :=
  match o with
  | ASecret m type => Ok (am_labels m, list_to_map
      [("metadata.name", am_name m); ("metadata.namespace", am_namespace m); ("type", type)])
  | _ => not_a "a Secret" o
  end.

(** ** The conversions *)

(** [runtime.FieldLabelConversionFunc]. *)
Definition conversion : Type := string → string → res (string * string).

Class FieldScheme (Sch : Type) := {
  add_conversion : string → conversion → M Sch (res unit);      (* AddFieldLabelConversionFunc *)
  convert_field : Sch → string → conversion;                    (* ConvertFieldLabel of a kind *)
  default_conversion : conversion        (* DefaultMetaV1FieldSelectorConversion *)
}.

Class FieldSchemeLaws (Sch : Type) `{FieldScheme Sch} := {
  add_converts s k f s' : add_conversion k f s = (s', Val (Ok tt)) →
    ∀ k' l v, convert_field s' k' l v = if String.eqb k' k then f l v else convert_field s k' l v;
  default_accepts l v : default_conversion l v = Ok (l, v) ↔ l = "metadata.name" ∨ l = "metadata.namespace"
}.

Definition pod_selectable_fields : gset string := {["spec.nodeName"; "status.phase"]}.
Definition namespace_selectable_fields : gset string := {["status.phase"]}.
Definition secret_selectable_fields : gset string := {["type"]}.
Definition event_selectable_fields : gset string := list_to_set
  ["involvedObject.kind"; "involvedObject.namespace"; "involvedObject.name"; "involvedObject.uid";
   "involvedObject.apiVersion"; "involvedObject.resourceVersion"; "involvedObject.fieldPath";
   "reason"; "reportingComponent"; "source"; "type"].

Section fields.
Context {Sch : Type} `{FieldScheme Sch}.

Definition passthrough_field_selectors (allowed : gset string) : conversion := λ label value,
  if String.eqb label "metadata.name" || String.eqb label "metadata.namespace" then Ok (label, value)
  else if bool_decide (label ∈ allowed) then Ok (label, value)
  else default_conversion label value.

Definition register_field_label_conversions : M Sch (res unit) :=
  let? _ := add_conversion "Pod" (passthrough_field_selectors pod_selectable_fields) in
  let? _ := add_conversion "Namespace" (passthrough_field_selectors namespace_selectable_fields) in
  let? _ := add_conversion "Event" (passthrough_field_selectors event_selectable_fields) in
  let? _ := add_conversion "Secret" (passthrough_field_selectors secret_selectable_fields) in
  ok tt.
End fields.

(** ** Every published field can be selected, and no other *)

Section selectable.
Context {Sch : Type} `{FieldSchemeLaws Sch}.

(** The resources: their kind and their [getAttrs]. *)
Definition resources : list (string * (aobject → res attrs)) :=
  [("Pod", pod_attrs); ("Namespace", namespace_attrs); ("Event", event_attrs);
   ("ConfigMap", config_map_attrs); ("Secret", secret_attrs)].

Lemma passthrough_iff allowed l v :
  passthrough_field_selectors allowed l v = Ok (l, v) ↔
  l = "metadata.name" ∨ l = "metadata.namespace" ∨ l ∈ allowed.
Proof.
  unfold passthrough_field_selectors.
  destruct (String.eqb_spec l "metadata.name") as [->|H1]; simpl; [naive_solver|].
  destruct (String.eqb_spec l "metadata.namespace") as [->|H2]; simpl; [naive_solver|].
  case_bool_decide; [naive_solver|]. rewrite default_accepts. naive_solver.
Qed.

Lemma registered s s' : register_field_label_conversions s = (s', Val (Ok tt)) → ∀ k l v,
  convert_field s' k l v =
    if String.eqb k "Secret" then passthrough_field_selectors secret_selectable_fields l v
    else if String.eqb k "Event" then passthrough_field_selectors event_selectable_fields l v
    else if String.eqb k "Namespace" then passthrough_field_selectors namespace_selectable_fields l v
    else if String.eqb k "Pod" then passthrough_field_selectors pod_selectable_fields l v
    else convert_field s k l v.
Proof.
  unfold register_field_label_conversions, ebind at 1, bind.
  destruct (add_conversion "Pod" _ s) as [s1 [[[]|]|]] eqn:E1; try done.
  unfold ebind at 1, bind.
  destruct (add_conversion "Namespace" _ s1) as [s2 [[[]|]|]] eqn:E2; try done.
  unfold ebind at 1, bind.
  destruct (add_conversion "Event" _ s2) as [s3 [[[]|]|]] eqn:E3; try done.
  unfold ebind at 1, bind.
  destruct (add_conversion "Secret" _ s3) as [s4 [[[]|]|]] eqn:E4; try done.
  intros [= <-] k l v.
  by rewrite (add_converts _ _ _ _ E4), (add_converts _ _ _ _ E3), (add_converts _ _ _ _ E2),
    (add_converts _ _ _ _ E1).
Qed.

Lemma ok_pair_inj {A B} (a a' : A) (b b' : B) : Ok (a, b) = Ok (a', b') → a = a' ∧ b = b'.
Proof. intros E. split; congruence. Qed.

(** The allow lists and the attributes agree: once the conversions are
    registered, a field selector on a resource is accepted, and passed on as it
    is, exactly when it names a field the resource publishes for selection (a
    cluster-scoped namespace also accepts metadata.namespace, which it does not
    publish); so no accepted selector is about a field that is never there. *)
Theorem selectable_iff_published s s' kind get_attrs o labels published l v :
  (∀ k l v, convert_field s k l v = default_conversion l v) →
  register_field_label_conversions s = (s', Val (Ok tt)) →
  (kind, get_attrs) ∈ resources → get_attrs o = Ok (labels, published) →
  convert_field s' kind l v = Ok (l, v) ↔
  is_Some (published !! l) ∨ (kind = "Namespace" ∧ l = "metadata.namespace").
Proof.
  intros Hs Hreg Hin Ho. rewrite (registered s s' Hreg), Hs.
  assert (Hd : ∀ (m : gmap string string) (fs : list (string * string)),
    m = list_to_map fs → NoDup fs.*1 → is_Some (m !! l) ↔ l ∈ fs.*1).
  { intros m fs -> Hnd. split.
    - intros [x Hx]. apply elem_of_list_to_map in Hx; [|done].
      apply list_elem_of_fmap. by exists (l, x).
    - intros ((k & x) & -> & Hx)%list_elem_of_fmap. exists x. by apply elem_of_list_to_map. }
  repeat (apply elem_of_cons in Hin as [[= -> ->]|Hin]); [..|by apply elem_of_nil in Hin];
    destruct o; try done; apply ok_pair_inj in Ho as [<- <-]; (rewrite Hd; [|reflexivity|]);
    try (apply (bool_decide_unpack _); vm_compute; exact I); cbn [String.eqb Ascii.eqb Bool.eqb];
    rewrite ?passthrough_iff, ?default_accepts; cbn [fmap list_fmap fst].
  - unfold pod_selectable_fields. set_solver.
  - unfold namespace_selectable_fields. set_solver.
  - unfold event_selectable_fields. rewrite elem_of_list_to_set. set_solver.
  - set_solver.
  - unfold secret_selectable_fields. set_solver.
Qed.
End selectable.

(** ** A concrete scheme *)

Definition sample_default : conversion := λ l v,
  if String.eqb l "metadata.name" || String.eqb l "metadata.namespace" then Ok (l, v)
  else Err (ErrExt "not a known field selector").

#[export] Instance sample_scheme : FieldScheme (gmap string conversion) := {
  add_conversion k f := λ s, (<[k := f]> s, Val (Ok tt));
  convert_field s k := default sample_default (s !! k);
  default_conversion := sample_default
}.

#[export] Instance sample_scheme_laws : FieldSchemeLaws (gmap string conversion).
Proof.
  constructor.
  - intros s k f s' [= <-] k' l v. simpl. destruct (String.eqb_spec k' k) as [->|Hne].
    + by rewrite lookup_insert_eq.
    + by rewrite lookup_insert_ne.
  - intros l v. simpl. unfold sample_default.
    destruct (String.eqb_spec l "metadata.name") as [->|H1]; simpl; [naive_solver|].
    destruct (String.eqb_spec l "metadata.namespace") as [->|H2]; simpl; naive_solver.
Qed.

Lemma selectable_iff_published_witness :
  let s' := (register_field_label_conversions (∅ : gmap string conversion)).1 in
  convert_field s' "Secret" "type" "Opaque" = Ok ("type", "Opaque").
Proof.
  intros s'.
  apply (selectable_iff_published ∅ s' "Secret" secret_attrs (ASecret (MkAMeta ∅ "s" "ns") "Opaque")
           ∅ (list_to_map [("metadata.name", "s"); ("metadata.namespace", "ns"); ("type", "Opaque")])
           "type" "Opaque").
  - intros k l v. simpl. by rewrite lookup_empty.
  - reflexivity.
  - unfold resources. set_solver.
  - reflexivity.
  - left. vm_compute. eauto.
Defined.
