(* ===== verification/Apiserver.v ===== *)
(** * The assembly of the API server ([internal/apiserver/apiserver.go], [storage.go])

    The options and their defaults, the stores of the five resources over one
    data directory and one resourceVersion counter, the map of REST storages,
    and the wait for the server to listen.  The generic server itself is
    k8s.io/apiserver code: its installation of the storages and [url.Parse]
    are arguments. *)

From S2P Require Import Prelude GoStrings Fs Counter Watch Keys Store StoreFacts StoreSpec.
From S2P Require Import StoreList StoreRuns StoreWatch Strategy Tables Fields.

(** ** [Options] *)

Record options := MkOptions {
  op_bind_address : string; op_bind_port : Z; op_cert_dir : string; op_data_dir : string;
  op_external_host : string; op_kubelet_log_url : string }.

Definition or_else (s d : string) : string := if String.eqb s "" then d else s.

Definition defaults (o : options) : options :=
  let bind := or_else (op_bind_address o) "127.0.0.1" in
  MkOptions bind (op_bind_port o) (or_else (op_cert_dir o) "run/pki") (or_else (op_data_dir o) "data")
    (or_else (op_external_host o) bind) (or_else (op_kubelet_log_url o) "http://127.0.0.1:10350").

(** ** The stores *)

Section assembly.
Context {Obj : Type} `{ApiObject Obj}.
Context {Strat : Type}.                       (* rest.RESTCreateStrategy and the others *)

(** [resourceConfig]; the constructors of objects are those of [ApiObject]. *)
Record resource_config := MkRC {
  rc_resource : string; rc_singular : string; rc_prefix : string; rc_namespaced : bool;
  rc_short_names : list string; rc_table : option convertor;
  rc_get_attrs : aobject → res attrs;
  rc_create : Strat; rc_update : Strat; rc_del : Strat }.

(** [genericregistry.Store], as [newStore] fills it: [gs_storage] is the address
    of its [fsstorage] store. *)
Record generic_store := MkGS {
  gs_resource : string; gs_singular : string;
  gs_key_root : option string → string;
  gs_key : option string → string → res string;
  gs_get_attrs : aobject → res attrs;
  gs_create : Strat; gs_update : Strat; gs_delete : Strat;
  gs_table : option convertor;                (* None: rest.NewDefaultTableConvertor *)
  gs_storage : nat }.

(** The process: the file system, the shared counter, and the stores made so
    far, each with its broadcaster and its key locks. *)
Record process := MkProcess {
  pr_fs : fs; pr_rv : N; pr_stores : list (wstate Obj * gset path); pr_uid : N }.

Definition set_pr_fs (f : fs) (s : process) : process := MkProcess f (pr_rv s) (pr_stores s) (pr_uid s).
Definition set_pr_rv (v : N) (s : process) : process := MkProcess (pr_fs s) v (pr_stores s) (pr_uid s).
Definition add_store (x : wstate Obj) (s : process) : process :=
  MkProcess (pr_fs s) (pr_rv s) (pr_stores s ++ [(x, ∅)]) (pr_uid s).

Context (data_root : string).

Definition new_store (rc : resource_config) : M process (res generic_store) :=
  let* rv := gets pr_rv in
  let* st := zoom pr_fs set_pr_fs (Store.new_store data_root true true (Some rv)) in
  match st with
  | Err e => fail (ErrWrap ("fsstorage(" +:+ rc_resource rc +:+ ")") e)
  | Ok (_, x) =>
      let* id := gets (λ s, length (pr_stores s)) in
      modify (add_store x) ;;;
      ok (MkGS (rc_resource rc) (rc_singular rc)
            (key_root_func (rc_prefix rc) (rc_namespaced rc))
            (key_func (rc_resource rc) (rc_prefix rc) (rc_namespaced rc))
            (rc_get_attrs rc) (rc_create rc) (rc_update rc) (rc_del rc)
            (rc_table rc) id)
  end.

(** [derivePodStatusStore]: a copy with another update strategy. *)
Definition derive_pod_status_store (pods : generic_store) (status_strategy : Strat) : generic_store :=
  MkGS (gs_resource pods) (gs_singular pods) (gs_key_root pods) (gs_key pods) (gs_get_attrs pods)
    (gs_create pods) status_strategy (gs_delete pods) (gs_table pods) (gs_storage pods).

(** [rest.Storage]: a store, one with short names, or the log subresource. *)
Inductive rest_storage {Url : Type} :=
  | RStore (s : generic_store)
  | RShort (s : generic_store) (names : list string)
  | RLog (upstream : Url).

(** Strategies of the resources. *)
Context (pod_strategy pod_status_strategy pod_graceful_strategy namespace_strategy event_strategy
         config_data_strategy secret_strategy : Strat).
Context {Url : Type}.

Definition with_short_names (s : generic_store) (sn : list string) : @rest_storage Url :=
  match sn with [] => RStore s | _ => RShort s sn end.

Definition pods_config : resource_config :=
  MkRC "pods" "pod" "/pods" true ["po"] (Some CPod) pod_attrs pod_strategy pod_strategy pod_graceful_strategy.
Definition namespaces_config : resource_config :=
  MkRC "namespaces" "namespace" "/namespaces" false ["ns"] (Some CNamespace) namespace_attrs
    namespace_strategy namespace_strategy namespace_strategy.
Definition events_config : resource_config :=
  MkRC "events" "event" "/events" true ["ev"] (Some CEvent) event_attrs
    event_strategy event_strategy event_strategy.
Definition config_maps_config : resource_config :=
  MkRC "configmaps" "configmap" "/configmaps" true ["cm"] (Some CConfigMap) config_map_attrs
    config_data_strategy config_data_strategy config_data_strategy.
Definition secrets_config : resource_config :=
  MkRC "secrets" "secret" "/secrets" true [] (Some CSecret) secret_attrs
    secret_strategy secret_strategy secret_strategy.

Definition start_counter : M process (res unit) := λ s,
  match new_counter (clean data_root) (pr_fs s) with
  | (f, Val (Ok c)) => (MkProcess f (ct_rv c) (pr_stores s) (pr_uid s), Val (Ok tt))
  | (f, Val (Err e)) => (set_pr_fs f s, Val (Err (ErrWrap "rv counter" e)))
  | (f, Stuck k) => (set_pr_fs f s, Stuck k)
  end.

Definition build_v1_storage : M process (res (gmap string (@rest_storage Url))) :=
  let? _ := start_counter in
  let? pods := new_store pods_config in
  let pod_status := derive_pod_status_store pods pod_status_strategy in
  let? namespaces := new_store namespaces_config in
  let? events := new_store events_config in
  let? config_maps := new_store config_maps_config in
  let? secrets := new_store secrets_config in
  ok (list_to_map
    [("pods", with_short_names pods ["po"]); ("pods/status", RStore pod_status);
     ("namespaces", with_short_names namespaces ["ns"]); ("events", with_short_names events ["ev"]);
     ("configmaps", with_short_names config_maps ["cm"]); ("secrets", RStore secrets)]).

(** [url.Parse], and the scheme and host of a URL. *)
Context (parse_url : string → res Url) (url_scheme url_host : Url → string).

Definition new_pod_log_rest (upstream : string) : res Url :=
  match parse_url upstream with
  | Err e => Err (ErrWrap ("parse kubelet log url " +:+ Translate.quote upstream) e)
  | Ok u =>
      if String.eqb (url_scheme u) "" || String.eqb (url_host u) ""
      then Err (ErrText ("kubelet log url must have scheme + host, got " +:+ Translate.quote upstream))
      else Ok u
  end.

(** The end of [Build]: the storages of /api/v1 and their installation
    ([server.InstallLegacyAPIGroup]). *)
Context (install : gmap string (@rest_storage Url) → M process (res unit)).

Definition install_storage (log_url : string) : M process (res unit) :=
  let? v1 := build_v1_storage in
  match new_pod_log_rest log_url with
  | Err e => fail (ErrWrap "pod log subresource" e)
  | Ok u =>
      let* r := install (<["pods/log" := RLog u]> v1) in
      match r with
      | Err e => fail (ErrWrap "install /api/v1" e)
      | Ok _ => ok tt
      end
  end.
End assembly.
Arguments process : clear implicits.
Arguments generic_store : clear implicits.
Arguments rest_storage : clear implicits.

(** ** The OpenAPI definitions *)

(** [minimalOpenAPIDefinitions]: by name, the [type] of the schema. *)
Definition definition_names : list string :=
  ["io.k8s.api.core.v1.Pod";
   "io.k8s.api.core.v1.PodList";
   "io.k8s.api.core.v1.PodSpec";
   "io.k8s.api.core.v1.PodStatus";
   "io.k8s.api.core.v1.Namespace";
   "io.k8s.api.core.v1.NamespaceList";
   "io.k8s.api.core.v1.NamespaceSpec";
   "io.k8s.api.core.v1.NamespaceStatus";
   "io.k8s.api.core.v1.Event";
   "io.k8s.api.core.v1.EventList";
   "io.k8s.api.core.v1.EventSource";
   "io.k8s.api.core.v1.EventSeries";
   "io.k8s.api.core.v1.ObjectReference";
   "io.k8s.api.core.v1.ConfigMap";
   "io.k8s.api.core.v1.ConfigMapList";
   "io.k8s.api.core.v1.Secret";
   "io.k8s.api.core.v1.SecretList";
   "io.k8s.apimachinery.pkg.apis.meta.v1.ObjectMeta";
   "io.k8s.apimachinery.pkg.apis.meta.v1.ListMeta";
   "io.k8s.apimachinery.pkg.apis.meta.v1.Status"].

Definition object_schema : list string := ["object"].

Definition minimal_open_api_definitions : gmap string (list string) :=
  fold_left (λ defs name, <[name := object_schema]> defs) definition_names ∅.

(** ** [Build] *)

(** [net.JoinHostPort]. *)
Definition join_host_port (host port : string) : string :=
  if contains_byte ":" host then "[" +:+ host +:+ "]:" +:+ port else host +:+ ":" +:+ port.

(** What [Build] sets in the options and the configuration of the generic
    server: the address to listen on, the serving certificate, the address to
    publish, who is let in, what is served besides the storages. *)
Record server_config (Ip : Type) := MkServerConfig {
  sv_bind_address : option Ip; sv_bind_port : Z; sv_cert_file : path; sv_key_file : path;
  sv_external_address : string; sv_public_address : option Ip;
  sv_anonymous : bool; sv_always_allow : bool; sv_effective_version : string;
  sv_openapi_v2 : bool; sv_openapi_v3 : gmap string (list string); sv_openapi_title : string }.
Arguments MkServerConfig {Ip} _ _ _ _ _ _ _ _ _ _ _ _.

(** [netutils.ParseIPSloppy]. *)
Definition configure {Ip} (parse_ip_sloppy : string → option Ip) (o : options) : server_config Ip :=
  MkServerConfig (parse_ip_sloppy (op_bind_address o)) (op_bind_port o)
    (join_path (clean (op_cert_dir o)) ["server.crt"]) (join_path (clean (op_cert_dir o)) ["server.key"])
    (join_host_port (op_external_host o) (format_int (op_bind_port o)))
    (parse_ip_sloppy (op_bind_address o)) true true "1.34.0" false minimal_open_api_definitions "experiment-k8s-apiserver".

Section build.
Context {Obj : Type} `{ApiObject Obj} {Strat Url Ip : Type}.
Context (pod_strategy pod_status_strategy pod_graceful_strategy namespace_strategy event_strategy
         config_data_strategy secret_strategy : Strat).
Context (parse_url : string → res Url) (url_scheme url_host : Url → string).
Context (install : gmap string (rest_storage Strat Url) → M (process Obj) (res unit)).
(** The generic server: [ApplyTo] of the serving options, [New] of the completed
    configuration. *)
Context (parse_ip_sloppy : string → option Ip)
        (apply_secure new_server : server_config Ip → M (process Obj) (res unit)).

Definition build (o : options) : M (process Obj) (res unit) :=
  let o := defaults o in
  let cfg := configure parse_ip_sloppy o in
  let? _ := wrap "apply secure serving" (apply_secure cfg) in
  let? _ := wrap "create server" (new_server cfg) in
  install_storage (op_data_dir o) pod_strategy pod_status_strategy pod_graceful_strategy
    namespace_strategy event_strategy config_data_strategy secret_strategy parse_url url_scheme url_host
    install (op_kubelet_log_url o).
End build.

(** ** Every store starts as the contract says *)

Section ready.
Context {Obj : Type} `{ApiObjectLaws Obj} {Strat Url : Type}.
Context (pod_strategy pod_status_strategy pod_graceful_strategy namespace_strategy event_strategy
         config_data_strategy secret_strategy : Strat).
Context (data_root : string).
Let root : path := clean data_root.
Hypothesis Hroot : good_base root.
Hypothesis Hne : data_root ≠ "".
Implicit Types (s : process Obj) (f : fs).

(** A store as the operations of Store see it. *)
Definition store_world s (i : nat) : option (world Obj) :=
  (λ x, MkWorld (pr_fs s) (pr_rv s) x.1 x.2 (pr_uid s)) <$> pr_stores s !! i.

Lemma mkdir_root m : layout (Obj := Obj) root m →
  os_mkdir_all root (MkFs m []) = (MkFs m [], Val (Ok tt)).
Proof.
  intros Hl. apply syscall_quiet; [done|]. simpl. apply mkdirs_noop.
  apply (dir_rooted root m root Hl (lay_root root m Hl)).
Qed.

Definition fresh_store : wstate Obj := MkWState (new_broadcaster 1000) ∅ 0 [].

Lemma new_store_run (rc : resource_config) m v stores u : layout (Obj := Obj) root m →
  new_store (Strat := Strat) data_root rc (MkProcess (MkFs m []) v stores u)
  = (MkProcess (MkFs m []) v (stores ++ [(fresh_store, ∅)]) u,
     Val (Ok (MkGS (rc_resource rc) (rc_singular rc)
            (key_root_func (rc_prefix rc) (rc_namespaced rc))
            (key_func (rc_resource rc) (rc_prefix rc) (rc_namespaced rc))
            (rc_get_attrs rc) (rc_create rc) (rc_update rc) (rc_del rc)
            (rc_table rc) (length stores)))).
Proof.
  intros Hl. unfold new_store. run_ok ltac:(reflexivity).
  erewrite bind_val.
  2:{ apply zoom_run. simpl. unfold Store.new_store. rewrite (proj2 (String.eqb_neq _ _)) by done.
      simpl. run_ok ltac:(by apply mkdir_root). run_ok ltac:(reflexivity). reflexivity. }
  reflexivity.
Qed.

Let build := build_v1_storage (Obj := Obj) (Url := Url) data_root pod_strategy pod_status_strategy pod_graceful_strategy
  namespace_strategy event_strategy config_data_strategy secret_strategy.

(** C14: the API server's stores start in the state the storage theorems assume:
    built on a well-formed data directory, the five stores share the files and
    the counter's value, which is the last version on disk; each has an empty
    ring and free locks, so each is in the relation with the contract whose
    objects are those on disk; pods and pods/status are the same store under
    two update strategies, and the others are stores of their own. *)
Theorem stores_ready f u v :
  quiet f → layout (Obj := Obj) root (fs_nodes f) → durable root (fs_nodes f) = Ok v →
  ∃ s' v1 pods, build (MkProcess f 0 [] u) = (s', Val (Ok v1)) ∧
    v1 !! "pods" = Some (RShort pods ["po"]) ∧
    v1 !! "pods/status" = Some (RStore (derive_pod_status_store pods pod_status_strategy)) ∧
    (∃ ns ev cm sec, v1 !! "namespaces" = Some (RShort ns ["ns"]) ∧
       v1 !! "events" = Some (RShort ev ["ev"]) ∧ v1 !! "configmaps" = Some (RShort cm ["cm"]) ∧
       v1 !! "secrets" = Some (RStore sec) ∧
       NoDup (map gs_storage [pods; ns; ev; cm; sec])) ∧
    length (pr_stores s') = 5 ∧
    ∀ i w, store_world s' i = Some w → R root w (MkA (abs (fs_nodes f)) v [] u).
Proof.
  intros Hq Hl Hd. unfold build, build_v1_storage.
  destruct f as [m sch]. unfold quiet in Hq. simpl in *. subst sch.
  erewrite ebind_ok.
  2:{ unfold start_counter, new_counter. cbn [pr_fs]. fold root. by rewrite (load_quiet root (MkFs m []) v). }
  cbn [ct_rv pr_stores pr_uid].
  run_ok ltac:(by apply new_store_run). run_ok ltac:(by apply new_store_run).
  run_ok ltac:(by apply new_store_run). run_ok ltac:(by apply new_store_run).
  run_ok ltac:(by apply new_store_run).
  eexists _, _, _. split; [reflexivity|]. split; [reflexivity|]. split; [reflexivity|].
  split.
  { eexists _, _, _, _. do 4 (split; [reflexivity|]). simpl. apply (bool_decide_unpack _). by vm_compute. }
  split; [done|]. intros i w. unfold store_world. cbn [pr_stores].
  intros E. apply fmap_Some in E as (x & Ex & ->).
  assert (Hx : x = (fresh_store, ∅)).
  { apply list_elem_of_lookup_2 in Ex. set_solver. }
  subst x. by constructor.
Qed.
End ready.

(** ** Requests on several resources *)

Section requests.
Context {Obj : Type} `{ApiObjectLaws Obj} (root : path) (Hroot : good_base root).
Implicit Types (s : process Obj) (o : op Obj).

(** An operation of the store at [i]: it changes the files, the counter and the
    uid counter, which all share, and its own broadcaster and locks. *)
Definition put_world (i : nat) (w : world Obj) s : process Obj :=
  MkProcess (wd_fs w) (wd_rv w) (<[i := (wd_watch w, wd_key_mu w)]> (pr_stores s)) (wd_uid w).

Definition on_store {A} (i : nat) (m : M (world Obj) A) : M (process Obj) A := λ s,
  match store_world s i with
  | None => (s, Stuck Panicked)
  | Some w => let '(w', r) := m w in (put_world i w' s, r)
  end.

(** The contract of the whole server: one map of objects, and a log of events
    for each store. *)
Record gstate := MkG { g_kv : gmap path Obj; g_logs : nat → list (path * event Obj) }.

Definition view (g : gstate) s (i : nat) : astate Obj :=
  MkA (g_kv g) (pr_rv s) (g_logs g i) (pr_uid s).

Definition PR s (g : gstate) : Prop :=
  ∀ i w, store_world s i = Some w → R root w (view g s i).

Definition log_at (i : nat) (l : list (path * event Obj)) (logs : nat → list (path * event Obj))
    : nat → list (path * event Obj) := λ j, if (j =? i)%nat then l else logs j.

(** One request, on the store at [i], and the events it publishes. *)
Inductive pstep : process Obj * gstate → nat * list (path * event Obj) → process Obj * gstate → Prop :=
  | pstep_op s g i w o s' r new :
      op_valid root o → store_world s i = Some w →
      takes (view g s i) (op_spec o (view g s i)).1 (wd_watch w) →
      on_store i (op_run root o) s = (s', Val r) →
      a_log (op_spec o (view g s i)).1 = g_logs g i ++ new →
      pstep (s, g) (i, new)
        (s', MkG (a_kv (op_spec o (view g s i)).1)
                 (log_at i (a_log (op_spec o (view g s i)).1) (g_logs g))).

Inductive prun : process Obj * gstate → list (nat * list (path * event Obj)) →
    process Obj * gstate → Prop :=
  | prun_nil c : prun c [] c
  | prun_cons c x c1 tr c2 : pstep c x c1 → prun c1 tr c2 → prun c (x :: tr) c2.

(** The events of a run, over all stores, in the order of the requests, and
    those of one store. *)
Definition run_events (tr : list (nat * list (path * event Obj))) : list (path * event Obj) :=
  concat (map snd tr).
Definition own_events (i : nat) (tr : list (nat * list (path * event Obj))) : list (path * event Obj) :=
  concat (map snd (List.filter (λ x, (x.1 =? i)%nat) tr)).

Lemma pstep_PR s g i new s' g' :
  PR s g → (pr_rv s < max_u64)%N → pstep (s, g) (i, new) (s', g') →
  PR s' g' ∧ (∀ j, g_logs g' j = if (j =? i)%nat then g_logs g j ++ new else g_logs g j) ∧
  g_kv g' = apply_events new (g_kv g) ∧
  ((new = [] ∧ pr_rv s' = pr_rv s) ∨
   (∃ x, new = [x] ∧ ev_rv x.2 = (pr_rv s + 1)%N ∧ pr_rv s' = (pr_rv s + 1)%N)).
Proof.
  intros HP Hv Hs. inversion Hs as [? ? ? w o ? r ? Hval Ew Htk E Elog]; subst. clear Hs.
  pose proof (HP i w Ew) as HR.
  destruct (op_refines root Hroot o Hval w (view g s i) HR Hv Htk) as (w' & E' & HR' & _).
  set (a' := (op_spec o (view g s i)).1) in *. pose proof (op_spec_evolves o (view g s i)) as Hev.
  fold a' in Hev. unfold on_store in E. rewrite Ew, E' in E. injection E as <- <-.
  assert (Erv : pr_rv (put_world i w' s) = a_rv a') by apply (r_rv _ _ _ HR').
  assert (Euid : pr_uid (put_world i w' s) = a_uid a') by apply (r_uid _ _ _ HR').
  split; [|split; [|split]].
  - intros j wj Ej. unfold store_world in Ej. apply fmap_Some in Ej as ([x k] & Ex & ->).
    cbn [put_world pr_stores] in Ex. unfold view. rewrite Erv, Euid. cbn [g_kv g_logs]. unfold log_at.
    destruct (decide (i = j)) as [<-|Hne].
    + rewrite Nat.eqb_refl. apply list_lookup_insert_Some in Ex as [(_ & [= <- <-] & _)|[]]; [|done].
      destruct HR' as [H1 H2 H3 H4 H5 H6 H7 H8 H9]. constructor; simpl in *; congruence.
    + rewrite list_lookup_insert_ne in Ex by done. rewrite (proj2 (Nat.eqb_neq j i)) by done.
      assert (Ewj : store_world s j = Some (MkWorld (pr_fs s) (pr_rv s) x k (pr_uid s)))
        by (unfold store_world; by rewrite Ex).
      pose proof (HP j _ Ewj) as HRj. simpl.
      destruct HR' as [H1 H2 H3 H4 H5 _ _ _ H9], HRj as [_ _ _ _ _ H6 H7 H8 _].
      constructor; simpl in *; try congruence; done.
  - intros j. cbn [g_logs]. unfold log_at. rewrite Elog. by destruct (Nat.eqb_spec j i) as [->|].
  - cbn [g_kv]. destruct Hev as [(L & K & _)|(y & L & K & _)]; rewrite K; rewrite L in Elog.
    + assert (new = []) as -> by (eapply app_inv_head; rewrite app_nil_r; by symmetry). done.
    + apply app_inv_head in Elog as <-. done.
  - rewrite Erv. destruct Hev as [(L & _ & V)|(y & L & _ & V & Y)]; rewrite L in Elog.
    + left. split; [|done]. eapply app_inv_head. rewrite app_nil_r. by symmetry.
    + right. apply app_inv_head in Elog as <-. exists y. split; [done|]. by rewrite Y.
Qed.

(** C23: resourceVersions are monotonic over all resources: on a run of requests
    on any of the stores that share the counter, the events published, whatever
    the store, carry strictly increasing versions in the order of the requests;
    the log of each store grows by its own events, and the objects on disk are
    those at the start with all the events applied; each store stays in the
    relation with its contract. *)
Theorem versions_global s g tr s' g' :
  PR s g → prun (s, g) tr (s', g') → (pr_rv s + N.of_nat (length tr) <= max_u64)%N →
  PR s' g' ∧ StronglySorted N.lt (pr_rv s :: map (λ x, ev_rv x.2) (run_events tr)) ∧
  (∀ i, g_logs g' i = g_logs g i ++ own_events i tr) ∧
  g_kv g' = apply_events (run_events tr) (g_kv g).
Proof.
  intros HP Hrun. remember (s, g) as c eqn:Ec. remember (s', g') as c' eqn:Ec'.
  revert s g HP Ec. induction Hrun as [c|c [i new] [s1 g1] tr c2 Hs Hrun IH];
    intros s g HP Ec Hb; subst.
  { injection Ec as <- <-. split; [done|]. split; [repeat constructor|].
    split; [|done]. intros i. unfold own_events. simpl. by rewrite app_nil_r. }
  cbn [length] in Hb.
  destruct (pstep_PR s g i new s1 g1 HP ltac:(lia) Hs) as (HP1 & Hlogs & Hkv & Hnew).
  assert (Hv : (pr_rv s1 <= pr_rv s + 1)%N) by (destruct Hnew as [(_ & ->)|(x & _ & _ & ->)]; lia).
  destruct (IH eq_refl s1 g1 HP1 eq_refl ltac:(lia)) as (HP' & Hsort & Hl & Hk).
  split; [done|]. unfold run_events in *. cbn [map concat snd]. split; [|split].
  - rewrite map_app. apply StronglySorted_inv in Hsort as [S1 S2].
    destruct Hnew as [(-> & E)|(x & -> & Ex & E)]; rewrite E in S2; simpl.
    + by constructor.
    + rewrite Ex. constructor; [by constructor|]. constructor; [lia|].
      eapply Forall_impl; [exact S2|]. simpl. lia.
  - intros j. rewrite Hl, Hlogs. unfold own_events. cbn [List.filter fst].
    rewrite (Nat.eqb_sym i j). destruct (j =? i)%nat; [|done]. cbn [map concat snd].
    by rewrite <- app_assoc.
  - rewrite Hk, Hkv. unfold apply_events. by rewrite fold_left_app.
Qed.
End requests.

(** ** Versions with gaps *)

Section gaps.
Context {Obj : Type} `{ApiObjectLaws Obj} (root : path).

(** C31: the versions of one resource have gaps, because all resources share the
    counter, and a watch across a gap is refused although nothing is lost: when
    every event the resource ever had is still in the ring, a watch from an
    older version that is not the one just before the first event gets the
    Expired error instead of these events. *)
Theorem gap_expires (w : world Obj) (a : astate Obj) key opts v mk x l :
  R root w a → watch_args key opts v mk → (0 < v < max_u64)%N →
  a_log a = x :: l → (length (a_log a) ≤ b_capacity (ws_b (wd_watch w)))%nat →
  (v + 1 < ev_rv x.2)%N → (v < a_rv a)%N →
  b_ring (ws_b (wd_watch w)) = map snd (a_log a) ∧
  ∃ w', watch root key opts w = (w', Val (Ok (ws_next (wd_watch w)))) ∧
    (λ y, (w_ch y, w_ch_closed y)) <$> ws_heap (wd_watch w') !! ws_next (wd_watch w)
    = Some ([MkWEvent Error (WStatus (StatusOf (ErrExpired v (a_rv a))))], true).
Proof.
  intros HR Hargs Hv El Hlen Hgap Hva.
  assert (Ering : b_ring (ws_b (wd_watch w)) = map snd (a_log a)).
  { rewrite (r_ring _ _ _ HR). unfold recent. rewrite length_map.
    by replace (length (a_log a) - b_capacity (ws_b (wd_watch w))) with 0 by lia. }
  split; [done|].
  assert (Hnone : replay_locked v (b_ring (ws_b (wd_watch w))) = None).
  { rewrite Ering, El. simpl. rewrite u64_inc_small by lia. by rewrite (proj2 (N.ltb_lt _ _)). }
  destruct (watch_refused root w a key opts v mk HR Hargs ltac:(lia) Hnone) as [E _].
  eexists. split; [exact E|]. cbn [wd_watch set_wd_watch ws_heap]. by rewrite lookup_insert_eq.
Qed.
End gaps.

(** ** Waiting for the server *)

(** One turn of the loop of [WaitForReady]: the context's error when it is
    done, the time [DialTimeout] takes and whether it connects, and the time
    [Sleep] takes, at least 200ms. *)
Record dial_turn := MkDial { dt_ctx : option err; dt_time : Z; dt_ok : bool; dt_sleep : Z }.

Definition millisecond : Z := 1000000.

Fixpoint wait_loop (fuel : nat) (turn : nat → dial_turn) (i : nat) (dial_addr : string)
    (deadline now : Z) : option (res unit) :=
  match fuel with
  | 0 => None
  | S fuel' =>
      if (now <? deadline)%Z then
        let t := turn i in
        match dt_ctx t with
        | Some e => Some (Err e)
        | None =>
            if dt_ok t then Some (Ok tt)
            else wait_loop fuel' turn (S i) dial_addr deadline (now + dt_time t + dt_sleep t)
        end
      else Some (Err (ErrText ("apiserver at " +:+ dial_addr +:+ " not ready")))
  end.

Definition wait_for_ready (fuel : nat) (turn : nat → dial_turn) (dial_addr : string) (now timeout : Z)
    : option (res unit) := wait_loop fuel turn 0 dial_addr (now + timeout) now.

Definition clocked (turn : nat → dial_turn) : Prop :=
  ∀ i, (0 <= dt_time (turn i))%Z ∧ (200 * millisecond <= dt_sleep (turn i))%Z.

(** When turn [i] starts. *)
Fixpoint turn_start (turn : nat → dial_turn) (now : Z) (i : nat) : Z :=
  match i with
  | 0 => now
  | S i' => turn_start turn now i' + dt_time (turn i') + dt_sleep (turn i')
  end.

(** What decides at a turn: the deadline, then the context, then the dial. *)
Definition decided (turn : nat → dial_turn) (addr : string) (deadline now : Z) (i : nat) : option (res unit) :=
  if (turn_start turn now i <? deadline)%Z then
    match dt_ctx (turn i) with
    | Some e => Some (Err e)
    | None => if dt_ok (turn i) then Some (Ok tt) else None
    end
  else Some (Err (ErrText ("apiserver at " +:+ addr +:+ " not ready"))).

Lemma wait_loop_returns turn addr deadline now fuel i :
  clocked turn →
  (deadline - turn_start turn now i <= (Z.of_nat fuel - 1) * (200 * millisecond))%Z →
  (0 < fuel)%nat →
  ∃ n r, (i ≤ n < i + fuel)%nat ∧ decided turn addr deadline now n = Some r ∧
    (∀ j, (i ≤ j < n)%nat → decided turn addr deadline now j = None) ∧
    wait_loop fuel turn i addr deadline (turn_start turn now i) = Some r.
Proof.
  intros Hc. revert i. induction fuel as [|fuel IH]; intros i Hb Hf; [lia|].
  assert (Hstop : ∀ r, decided turn addr deadline now i = Some r →
    wait_loop (S fuel) turn i addr deadline (turn_start turn now i) = Some r →
    ∃ n r, (i ≤ n < i + S fuel)%nat ∧ decided turn addr deadline now n = Some r ∧
    (∀ j, (i ≤ j < n)%nat → decided turn addr deadline now j = None) ∧
    wait_loop (S fuel) turn i addr deadline (turn_start turn now i) = Some r).
  { intros r Hd Hw. exists i, r. split; [lia|]. split; [done|]. split; [intros; lia|done]. }
  unfold decided in Hstop at 1. simpl in Hstop |- *.
  destruct (Z.ltb_spec (turn_start turn now i) deadline) as [Hlt|Hge]; [|by eapply Hstop].
  destruct (dt_ctx (turn i)) as [e|] eqn:Ec; [by eapply Hstop|].
  destruct (dt_ok (turn i)) eqn:Eo; [by eapply Hstop|]. clear Hstop.
  destruct (Hc i) as [H1 H2]. unfold millisecond in *.
  assert (Hf' : (0 < fuel)%nat) by (destruct fuel; lia).
  destruct (IH (S i)) as (n & r & Hn & Hd & Hj & Hw); [simpl; lia|done|].
  exists n, r. split; [lia|]. split; [done|]. split; [|done].
  intros j Hij. destruct (decide (j = i)) as [->|]; [|apply Hj; lia].
  unfold decided. by rewrite (proj2 (Z.ltb_lt _ _)), Ec, Eo.
Qed.

(** [WaitForReady] returns, whatever the dials do: each turn sleeps at least
    200ms, so after at most timeout/200ms + 2 turns it gives nil because a dial
    connected, the error of the context, or "not ready" because the deadline
    passed, the first of them to occur. *)
Theorem wait_for_ready_returns turn addr now timeout :
  clocked turn →
  let fuel := S (S (Z.to_nat (timeout / (200 * millisecond)))) in
  ∃ n r, (n < fuel)%nat ∧ decided turn addr (now + timeout) now n = Some r ∧
    (∀ j, (j < n)%nat → decided turn addr (now + timeout) now j = None) ∧
    wait_for_ready fuel turn addr now timeout = Some r.
Proof.
  intros Hc fuel.
  destruct (wait_loop_returns turn addr (now + timeout) now fuel 0 Hc) as (n & r & Hn & Hd & Hj & Hw).
  - unfold fuel. simpl turn_start. unfold millisecond.
    pose proof (Z.mod_pos_bound timeout (200 * 1000000)). pose proof (Z.div_mod timeout (200 * 1000000)). lia.
  - unfold fuel. lia.
  - exists n, r. split; [lia|]. split; [done|]. split; [intros; apply Hj; lia|done].
Qed.
