(* ===== verification/ApiSamples.v ===== *)
(** * The assembled API server at concrete states

    The stores built on an empty data directory, requests on two of them, and
    the witnesses of the theorems of Apiserver. *)

From S2P Require Import Prelude GoStrings Fs Counter Watch Keys Store StoreFacts StoreSpec.
From S2P Require Import StoreList StoreRuns StoreWatch Samples StoreSamples Tables Fields Apiserver.

Definition sample_build : M (process kobj) (res (gmap string (rest_storage unit unit))) :=
  build_v1_storage (Obj := kobj) (Strat := unit) (Url := unit) "/data" tt tt tt tt tt tt tt.

Definition p_start : process kobj := MkProcess (wd_fs k_empty) 0 [] 0.

Lemma stores_ready_witness :
  ∃ s' v1, sample_build p_start = (s', Val (Ok v1)) ∧ length (pr_stores s') = 5 ∧
    ∀ i w, store_world s' i = Some w → R k_root w k_a0.
Proof.
  destruct (stores_ready (Obj := kobj) (Strat := unit) (Url := unit) tt tt tt tt tt tt tt "/data"
              k_root_good ltac:(discriminate) (wd_fs k_empty) 0 1
              ltac:(reflexivity) ltac:(apply layout_check_sound; vm_compute; reflexivity)
              ltac:(vm_compute; reflexivity))
    as (s' & v1 & pods & E & _ & _ & _ & Hlen & HR).
  exists s', v1. split; [exact E|]. split; [exact Hlen|]. intros i w Hw.
  replace k_a0 with (MkA (abs (Obj := kobj) (fs_nodes (wd_fs k_empty))) 1 [] 0)
    by (vm_compute; reflexivity).
  exact (HR i w Hw).
Defined.

(** The relation of every store with its contract, computed. *)
Definition PR_check (s : process kobj) (g : gstate (Obj := kobj)) : bool :=
  forallb (λ i, match store_world s i with Some w => R_check w (view g s i) | None => true end)
    (seq 0 (length (pr_stores s))).

Lemma PR_check_sound s g : PR_check s g = true → PR k_root s g.
Proof.
  unfold PR_check. rewrite List.forallb_forall. intros Hc i w Ew.
  assert (Hi : (i < length (pr_stores s))%nat).
  { unfold store_world in Ew. apply fmap_Some in Ew as (x & Ex & _). by eapply lookup_lt_Some. }
  specialize (Hc i ltac:(apply List.in_seq; lia)). rewrite Ew in Hc. by apply R_check_sound.
Qed.

Definition p0 : process kobj := (sample_build p_start).1.
Definition g0 : gstate (Obj := kobj) := MkG ∅ (λ _, []).

(** A namespace, then a Pod. *)
Definition ns_key : string := "/namespaces/default".
Definition ns_path : path := k_root ++ ["namespaces"; "default.json"].
Definition op_ns : op kobj := OpCreate ns_key ns_path (k_pod "" "default" "v1") false.

Lemma ns_valid : op_valid k_root op_ns.
Proof.
  split; [|reflexivity]. exists "namespaces", "", "default". split; [reflexivity|].
  split; [discriminate|]. split; [reflexivity|]. split; [by apply (bool_decide_unpack _)|].
  split; [by left|]. by split.
Qed.

Definition on_op (i : nat) (o : op kobj) (c : process kobj * gstate (Obj := kobj))
    : process kobj * gstate (Obj := kobj) :=
  ((on_store i (op_run k_root o) c.1).1,
   MkG (a_kv (op_spec o (view c.2 c.1 i)).1)
       (log_at i (a_log (op_spec o (view c.2 c.1 i)).1) (g_logs c.2))).

Definition new_of (i : nat) (o : op kobj) (c : process kobj * gstate (Obj := kobj)) :
    list (path * event kobj) :=
  drop (length (g_logs c.2 i)) (a_log (op_spec o (view c.2 c.1 i)).1).

#[export] Instance log_eq_dec : EqDecision (path * event kobj).
Proof. solve_decision. Defined.

(** The side conditions of one request. *)
Definition op_check (i : nat) (o : op kobj) (c : process kobj * gstate (Obj := kobj)) : bool :=
  match store_world c.1 i with
  | Some w => takes_check (wd_watch w)
  | None => false
  end &&
  match (on_store i (op_run k_root o) c.1).2 with Val _ => true | _ => false end &&
  bool_decide (a_log (op_spec o (view c.2 c.1 i)).1 = g_logs c.2 i ++ new_of i o c).

Lemma op_pstep i o c : op_valid k_root o → op_check i o c = true →
  pstep k_root c (i, new_of i o c) (on_op i o c).
Proof.
  destruct c as [s g]. intros Hv. unfold op_check. cbn [fst snd].
  destruct (store_world s i) as [w|] eqn:Ew; [|done].
  rewrite !andb_true_iff, bool_decide_eq_true. intros [[Ht Hr] Hl].
  destruct (on_store i (op_run k_root o) s) as [s' [r|]] eqn:E; [|done].
  unfold on_op. cbn [fst snd]. rewrite E. cbn [fst].
  eapply (pstep_op k_root s g i w o); [done|done|by apply takes_check_sound|exact E|done].
Qed.

Lemma prun_pair c tr c' : prun k_root c tr c' → prun k_root (c.1, c.2) tr (c'.1, c'.2).
Proof. by destruct c, c'. Qed.

Definition c0 : process kobj * gstate (Obj := kobj) := (p0, g0).
Definition c1 : process kobj * gstate (Obj := kobj) := on_op 1 op_ns c0.
Definition c2 : process kobj * gstate (Obj := kobj) := on_op 0 op_web c1.
Definition tr2 : list (nat * list (path * event kobj)) :=
  [(1, new_of 1 op_ns c0); (0, new_of 0 op_web c1)].

Lemma run2 : prun k_root c0 tr2 c2.
Proof.
  apply (prun_cons k_root c0 _ c1).
  { apply op_pstep; [apply ns_valid|vm_compute; reflexivity]. }
  apply (prun_cons k_root c1 _ c2); [|apply prun_nil].
  apply op_pstep; [apply web_valid|vm_compute; reflexivity].
Qed.

Lemma versions_global_witness :
  map (λ x, ev_rv x.2) (run_events tr2) = [2; 3]%N ∧
  map (λ x, ev_rv x.2) (g_logs c2.2 0) = [3]%N ∧ PR k_root c2.1 c2.2.
Proof.
  split; [vm_compute; reflexivity|]. split; [vm_compute; reflexivity|].
  exact (proj1 (versions_global k_root k_root_good c0.1 c0.2 tr2 c2.1 c2.2
           ltac:(apply PR_check_sound; vm_compute; reflexivity) (prun_pair _ _ _ run2) ltac:(vm_compute; discriminate))).
Defined.

(** The Pods' store: its one event has version 3, the namespace's had 2. *)
Definition pods_world : world kobj := match store_world c2.1 0 with Some w => w | None => k_empty end.

Lemma gap_expires_witness :
  ∃ w', watch k_root "/pods/default" (k_opts "1") pods_world = (w', Val (Ok 0)) ∧
    (λ y, (w_ch y, w_ch_closed y)) <$> ws_heap (wd_watch w') !! 0
    = Some ([MkWEvent Error (WStatus (StatusOf (ErrExpired 1 3)))], true).
Proof.
  assert (HR : R k_root pods_world (view c2.2 c2.1 0)) by (apply R_check_sound; vm_compute; reflexivity).
  destruct (a_log (view c2.2 c2.1 0)) as [|x l] eqn:El; [by vm_compute in El|].
  destruct (gap_expires k_root pods_world (view c2.2 c2.1 0) "/pods/default" (k_opts "1") 1 k_mk x l HR
              k_watch_args) as (_ & w' & E & Hch).
  - by vm_compute.
  - exact El.
  - vm_compute. lia.
  - apply (f_equal (λ l, match l with x :: _ => ev_rv x.2 | [] => 0%N end)) in El.
    cbv beta iota in El. rewrite <- El. by vm_compute.
  - by vm_compute.
  - exists w'. split; [exact E|exact Hch].
Defined.

(** Nothing listens until the third turn. *)
Lemma wait_for_ready_returns_witness :
  let turn i := MkDial None 0 (2 <=? i)%nat (200 * millisecond) in
  ∃ n r, (n < 7)%nat ∧ decided turn "a" (7 + 1000 * millisecond) 7 n = Some r ∧
    (∀ j, (j < n)%nat → decided turn "a" (7 + 1000 * millisecond) 7 j = None) ∧
    wait_for_ready 7 turn "a" 7 (1000 * millisecond) = Some r.
Proof.
  intros turn. exact (wait_for_ready_returns turn "a" 7 (1000 * millisecond) ltac:(intros i; simpl; unfold millisecond; lia)).
Defined.
