(* ===== verification/Pki.v ===== *)
(** * Certificates and the kubeconfig ([internal/pki/pki.go])

    The certificates of the server are made by crypto/x509, crypto/rsa,
    encoding/pem and math/rand code, addresses parsed by [net], and the
    kubeconfig written by client-go: the class [PkiLib] holds these calls and
    [PkiLaws] what they are documented to do.  A time is in nanoseconds; the
    modes of the files are not in the model of the file system. *)

From S2P Require Import Prelude GoStrings Fs Translate.

(** [x509.Certificate], the fields the source sets and reads; [xc_raw] is the
    encoding of a parsed certificate. *)
Record cert (Ip : Type) := MkCert {
  xc_serial : Z; xc_common_name : string; xc_not_before : Z; xc_not_after : Z;
  xc_key_usage : list string; xc_ext_usage : list string; xc_is_ca : bool; xc_basic_valid : bool;
  xc_ips : list Ip; xc_dns : list string; xc_raw : string }.
Arguments MkCert {Ip} _ _ _ _ _ _ _ _ _ _ _.
Arguments xc_serial {Ip} _.
Arguments xc_not_before {Ip} _.
Arguments xc_not_after {Ip} _.
Arguments xc_key_usage {Ip} _.
Arguments xc_ext_usage {Ip} _.
Arguments xc_is_ca {Ip} _.
Arguments xc_ips {Ip} _.
Arguments xc_dns {Ip} _.
Arguments xc_raw {Ip} _.

(** [clientcmdapi.AuthInfo], as far as the source looks at it; the last two
    fields say whether the pointers are set. *)
Record auth_info := MkAuthInfo {
  ai_username : string; ai_token : string; ai_cert_data : string; ai_cert : string;
  ai_provider : bool; ai_exec : bool }.

Definition no_auth : auth_info := MkAuthInfo "" "" "" "" false false.

(** [clientcmdapi.Config], as [WriteKubeconfig] fills it. *)
Record kubeconfig := MkKubeconfig {
  kc_clusters : gmap string (string * string);      (* Server, CertificateAuthorityData *)
  kc_contexts : gmap string (string * string);      (* Cluster, AuthInfo *)
  kc_auth_infos : gmap string auth_info;
  kc_current : string }.

Class PkiLib (K Key Ip : Type) := {
  generate_key : M K (res Key);                       (* rsa.GenerateKey *)
  rand_int : M K (res Z);                             (* rand.Int below 2^128 *)
  read_clock : M K Z;                                 (* time.Now() *)
  create_certificate : cert Ip → cert Ip → Key → Key → M K (res string);
                                                      (* template, parent, public, private *)
  parse_certificate : string → res (cert Ip);
  marshal_key : Key → string;                         (* x509.MarshalPKCS1PrivateKey *)
  pem_encode : string → string → string;              (* type, bytes *)
  pem_decode : string → option string;                (* the bytes of the first block *)
  verify_cert : Z → cert Ip → cert Ip → res unit;     (* the time, the root, the certificate *)
  verify_hostname : cert Ip → string → res unit;
  parse_ip : string → option Ip;
  ip_string : Ip → string;
  is_loopback : Ip → bool;
  minify_config : kubeconfig → res kubeconfig;
  write_config : kubeconfig → path → M fs (res unit); (* clientcmd.WriteToFile *)
  load_config : path → M fs (res kubeconfig)          (* clientcmd.LoadFromFile *)
}.

(** The file system and the rest of the process. *)
Record pki_state (K : Type) := MkPki { pk_fs : fs; pk_ext : K }.
Arguments MkPki {K} _ _.
Arguments pk_fs {K} _.
Arguments pk_ext {K} _.

Section pki.
Context {K Key Ip : Type} `{PkiLib K Key Ip}.

Definition on_files {A} (m : M fs A) : M (pki_state K) A :=
  zoom pk_fs (λ f s, MkPki f (pk_ext s)) m.
Definition on_ext {A} (m : M K A) : M (pki_state K) A :=
  zoom pk_ext (λ k s, MkPki (pk_fs s) k) m.

Definition has_loopback_ip (h : string) : bool :=
  match parse_ip h with Some ip => is_loopback ip | None => false end.

Definition ensure_loopback (hosts : list string) : list string :=
  let '(has_localhost, has_loopback) :=
    fold_left (λ '(a, b) h,
      if String.eqb h "localhost" then (true, b)
      else if has_loopback_ip h then (a, true) else (a, b)) hosts (false, false) in
  let out := hosts in
  let out := if negb has_localhost then out ++ ["localhost"] else out in
  if negb has_loopback then out ++ ["127.0.0.1"] else out.

(** [os.Chmod]: the file must exist. *)
Definition os_chmod (p : path) : M fs (res unit) :=
  syscall "chmod" (λ m, (m, match resolve m p with Ok _ => Ok tt | Err e => Err e end)) no_part.

(** The deferred [f.Close()] is after the [Chmod]; its error is dropped. *)
Definition write_pem (p : path) (typ der : string) : M fs (res unit) :=
  let? _ := wrap "pki: open" (os_create p) in
  let* r := (let? _ := wrap "pki: encode" (os_write p (pem_encode typ der)) in os_chmod p) in
  os_close ;;;
  ret r.

Definition file_exists (p : path) : M fs bool :=
  let* r := os_stat p in ret (is_ok r).

Definition load_cert (p : path) : M fs (res (cert Ip)) :=
  let? b := os_read_file p in
  match pem_decode b with
  | None => fail (ErrText "pki: no PEM block")
  | Some der => of_res (parse_certificate der)
  end.

(** The loop over the hosts in [existingValid]. *)
Definition covers (c : cert Ip) (h : string) : bool :=
  match parse_ip h with
  | Some ip => is_ok (verify_hostname c (ip_string ip))
  | None => is_ok (verify_hostname c h)
  end.

Definition in_window (now : Z) (c : cert Ip) : bool :=
  negb ((now <? xc_not_before c)%Z || (xc_not_after c <? now)%Z).

Definition existing_valid (ca_path srv_path : path) (hosts : list string) : M (pki_state K) bool :=
  let* ca := on_files (load_cert ca_path) in
  match ca with
  | Err _ => ret false
  | Ok ca =>
      let* srv := on_files (load_cert srv_path) in
      match srv with
      | Err _ => ret false
      | Ok srv =>
          let* now := on_ext read_clock in
          if negb (in_window now ca) then ret false
          else if negb (in_window now srv) then ret false
          else
            let* vnow := on_ext read_clock in      (* Verify reads the clock *)
            match verify_cert vnow ca srv with
            | Err _ => ret false
            | Ok _ => ret (forallb (covers srv) hosts)
            end
      end
  end.

(** [serial]: the clock when the random source fails. *)
Definition serial : M (pki_state K) Z :=
  let* r := on_ext rand_int in
  match r with Ok n => ret n | Err _ => on_ext read_clock end.

Definition add_host (c : cert Ip) (h : string) : cert Ip :=
  match parse_ip h with
  | Some ip => MkCert (xc_serial c) (xc_common_name Ip c) (xc_not_before c) (xc_not_after c)
                 (xc_key_usage c) (xc_ext_usage c) (xc_is_ca c) (xc_basic_valid Ip c)
                 (xc_ips c ++ [ip]) (xc_dns c) (xc_raw c)
  | None => MkCert (xc_serial c) (xc_common_name Ip c) (xc_not_before c) (xc_not_after c)
              (xc_key_usage c) (xc_ext_usage c) (xc_is_ca c) (xc_basic_valid Ip c)
              (xc_ips c) (xc_dns c ++ [h]) (xc_raw c)
  end.

Definition ca_template (sn now validity : Z) : cert Ip :=
  MkCert sn "experiment-k8s-apiserver-ca" now (now + validity)
    ["CertSign"; "CRLSign"; "DigitalSignature"] [] true true [] [] "".
Definition server_template (sn now validity : Z) (hosts : list string) : cert Ip :=
  fold_left add_host hosts
    (MkCert sn "experiment-k8s-apiserver" now (now + validity)
       ["DigitalSignature"; "KeyEncipherment"] ["ServerAuth"] false false [] [] "").

Definition ca_cert_path (dir : path) : path := join_path dir ["ca.crt"].
Definition ca_key_path (dir : path) : path := join_path dir ["ca.key"].
Definition srv_cert_path (dir : path) : path := join_path dir ["server.crt"].
Definition srv_key_path (dir : path) : path := join_path dir ["server.key"].

(** The part of [EnsureServerCert] that makes new material. *)
Definition generate (dir : path) (hosts : list string) (validity : Z) : M (pki_state K) (res unit) :=
  let? ca_key := wrap "pki: generate ca key" (on_ext generate_key) in
  let* t := on_ext read_clock in
  let now := (t - 60 * second)%Z in
  let* ca_serial := serial in
  let ca_tmpl := ca_template ca_serial now validity in
  let? ca_der := wrap "pki: create ca cert" (on_ext (create_certificate ca_tmpl ca_tmpl ca_key ca_key)) in
  let? srv_key := wrap "pki: generate server key" (on_ext generate_key) in
  let* srv_serial := serial in
  let srv_tmpl := server_template srv_serial now validity hosts in
  let? ca := wrap "pki: parse ca" (of_res (parse_certificate ca_der)) in
  let? srv_der := wrap "pki: create server cert" (on_ext (create_certificate srv_tmpl ca srv_key ca_key)) in
  let? _ := on_files (write_pem (ca_cert_path dir) "CERTIFICATE" ca_der) in
  let? _ := on_files (write_pem (ca_key_path dir) "RSA PRIVATE KEY" (marshal_key ca_key)) in
  let? _ := on_files (write_pem (srv_cert_path dir) "CERTIFICATE" srv_der) in
  let? _ := on_files (write_pem (srv_key_path dir) "RSA PRIVATE KEY" (marshal_key srv_key)) in
  ok tt.

(** The sanity check on existing material: the keys are looked at only when the
    certificates are valid. *)
Definition complete (dir : path) (hosts : list string) : M (pki_state K) bool :=
  let* v := existing_valid (ca_cert_path dir) (srv_cert_path dir) hosts in
  if v then
    let* k := on_files (file_exists (ca_key_path dir)) in
    if k then on_files (file_exists (srv_key_path dir)) else ret false
  else ret false.

Definition ensure_server_cert (dir : path) (hosts : list string) (validity : Z) : M (pki_state K) (res unit) :=
  if (validity <=? 0)%Z then fail (ErrText "pki: validity must be positive")
  else
    let? _ := wrap "pki: mkdir" (on_files (os_mkdir_all dir)) in
    let hosts := ensure_loopback hosts in
    let* done := complete dir hosts in
    if done then ok tt else generate dir hosts validity.

Definition write_kubeconfig (p : path) (server : string) (ca_path : path) : M fs (res unit) :=
  let? ca_data := wrap "pki: read ca" (os_read_file ca_path) in
  let cfg := MkKubeconfig {["experiment" := (server, ca_data)]} {["experiment" := ("experiment", "anonymous")]}
               {["anonymous" := no_auth]} "experiment" in
  let? cfg := wrap "pki: minify kubeconfig" (of_res (minify_config cfg)) in
  let? _ := wrap "pki: mkdir kubeconfig parent" (os_mkdir_all (dir_of p)) in
  wrap "pki: write kubeconfig" (write_config cfg p).
End pki.

(** ** What the libraries do *)

Definition trunc_second (t : Z) : Z := (t / second * second)%Z.

Class PkiLaws (K Key Ip : Type) `{PkiLib K Key Ip} := {
  valid_dns : string → Prop;        (* a host name that VerifyHostname accepts *)
  pem_roundtrip d : pem_decode (pem_encode "CERTIFICATE" d) = Some d;
  (* a certificate has the fields of its template, its times in whole seconds
     (DER has no fractions); [Ip] is an address, in whichever form it is kept *)
  created_cert tmpl parent pub priv k k' der :
    create_certificate tmpl parent pub priv k = (k', Val (Ok der)) →
    ∃ c, parse_certificate der = Ok c ∧
      xc_not_before c = trunc_second (xc_not_before tmpl) ∧
      xc_not_after c = trunc_second (xc_not_after tmpl) ∧
      xc_ips c = xc_ips tmpl ∧ xc_dns c = xc_dns tmpl;
  (* a server certificate signed with the key of a self-signed CA verifies *)
  signed_verifies ca_tmpl ca_key k1 k1' ca_der ca tmpl key k2 k2' der c now :
    create_certificate ca_tmpl ca_tmpl ca_key ca_key k1 = (k1', Val (Ok ca_der)) →
    parse_certificate ca_der = Ok ca →
    create_certificate tmpl ca key ca_key k2 = (k2', Val (Ok der)) →
    parse_certificate der = Ok c →
    xc_is_ca ca_tmpl = true → "CertSign" ∈ xc_key_usage ca_tmpl → "ServerAuth" ∈ xc_ext_usage tmpl →
    in_window now ca = true → in_window now c = true → verify_cert now ca c = Ok tt;
  hostname_dns c h : h ∈ xc_dns c → valid_dns h → verify_hostname c h = Ok tt;
  hostname_ip c ip : ip ∈ xc_ips c → verify_hostname c (ip_string ip) = Ok tt;
  loopback_literal : has_loopback_ip "127.0.0.1" = true;
  localhost_name : parse_ip "localhost" = None ∧ valid_dns "localhost"
}.

(** ** The hosts *)

Section hosts.
Context {K Key Ip : Type} `{PkiLaws K Key Ip}.

Lemma loopback_flags hosts a b :
  fold_left (λ '(a, b) h,
      if String.eqb h "localhost" then (true, b)
      else if has_loopback_ip h then (a, true) else (a, b)) hosts (a, b)
  = (a || existsb (λ h, String.eqb h "localhost") hosts, b || existsb has_loopback_ip hosts).
Proof.
  revert a b. induction hosts as [|h hosts IH]; intros a b; simpl; [by rewrite !orb_false_r|].
  destruct (String.eqb_spec h "localhost") as [->|Hne].
  - rewrite IH. unfold has_loopback_ip at 2. rewrite (proj1 localhost_name).
    by rewrite orb_true_r.
  - destruct (has_loopback_ip h); rewrite IH; simpl; by rewrite ?orb_true_r.
Qed.

(** The hosts of the certificate are those asked for, in their order, then
    localhost and 127.0.0.1, each only when the list has no such entry; doing it
    again adds nothing. *)
Theorem loopback_added hosts :
  ∃ extra, ensure_loopback hosts = hosts ++ extra ∧ extra `sublist_of` ["localhost"; "127.0.0.1"] ∧
    "localhost" ∈ ensure_loopback hosts ∧
    (∃ h, h ∈ ensure_loopback hosts ∧ has_loopback_ip h = true) ∧
    ensure_loopback (ensure_loopback hosts) = ensure_loopback hosts.
Proof.
  assert (Hex : ∀ (P : string → bool) l, existsb P l = true ↔ ∃ h, h ∈ l ∧ P h = true).
  { intros P l. rewrite existsb_exists. by setoid_rewrite list_elem_of_In. }
  assert (Hdone : ∀ l, "localhost" ∈ l → (∃ h, h ∈ l ∧ has_loopback_ip h = true) → ensure_loopback l = l).
  { intros l H1 H2. unfold ensure_loopback. rewrite loopback_flags. simpl.
    rewrite (proj2 (Hex (λ h, String.eqb h "localhost") l)), (proj2 (Hex has_loopback_ip l)); [done|done|].
    exists "localhost". by split. }
  assert (Hall : ∃ extra, ensure_loopback hosts = hosts ++ extra ∧
    extra `sublist_of` ["localhost"; "127.0.0.1"] ∧ "localhost" ∈ ensure_loopback hosts ∧
    (∃ h, h ∈ ensure_loopback hosts ∧ has_loopback_ip h = true)).
  { unfold ensure_loopback. rewrite loopback_flags. simpl.
    destruct (existsb (λ h, String.eqb h "localhost") hosts) eqn:E1;
      [apply Hex in E1 as (h1 & H1 & ->%String.eqb_eq)|];
    (destruct (existsb has_loopback_ip hosts) eqn:E2; [apply Hex in E2 as (h2 & H2 & E2)|]); simpl.
    - exists []. rewrite app_nil_r. split; [done|]. split; [apply sublist_nil_l|]. split; [done|eauto].
    - exists ["127.0.0.1"]. split; [done|]. split; [by repeat constructor|]. split; [set_solver|].
      exists "127.0.0.1". split; [set_solver|apply loopback_literal].
    - exists ["localhost"]. split; [done|]. split; [by repeat constructor|]. split; [set_solver|].
      exists h2. split; [set_solver|done].
    - exists ["localhost"; "127.0.0.1"]. rewrite <- app_assoc. split; [done|]. split; [done|].
      split; [set_solver|]. exists "127.0.0.1". split; [set_solver|apply loopback_literal]. }
  destruct Hall as (extra & E & Hs & H1 & H2). exists extra. split; [done|]. split; [done|].
  split; [done|]. split; [done|]. by apply Hdone.
Qed.
End hosts.

(** ** Files *)

Section files.
Context {K Key Ip : Type} `{PkiLib K Key Ip}.

Lemma above_sibling m d x y n : no_file_above m (d ++ [x]) → no_file_above (<[d ++ [y] := n]> m) (d ++ [x]).
Proof.
  unfold no_file_above. rewrite !List.Forall_forall. intros Ha q Hq.
  rewrite lookup_node_insert_ne; [by apply Ha|]. intros <-.
  apply prefixes_length in Hq. rewrite !length_app in Hq. simpl in Hq. lia.
Qed.

Lemma dirs_child d y n m : Forall (λ q, lookup_node m q = Some Dir) (prefixes [] d ++ [d]) →
  Forall (λ q, lookup_node (<[d ++ [y] := n]> m) q = Some Dir) (prefixes [] d ++ [d]).
Proof.
  rewrite !List.Forall_forall. intros Ha q Hq. rewrite lookup_node_insert_ne; [by apply Ha|].
  intros <-. apply in_app_or in Hq as [Hq|[Hq|[]]].
  - apply prefixes_length in Hq. rewrite length_app in Hq. simpl in Hq. lia.
  - apply (f_equal length) in Hq. rewrite length_app in Hq. simpl in Hq. lia.
Qed.

Lemma mkdirs_made todo m m' : mkdirs todo m = (m', Ok tt) →
  Forall (λ q, lookup_node m' q = Some Dir) todo ∧ grown todo m m'.
Proof.
  intros E. destruct (decide (Forall (λ q, is_file (lookup_node m q) = false) todo)) as [Hf|Hf].
  { destruct (mkdirs_spec todo m Hf) as (m1 & E1 & Hg & Hd). rewrite E1 in E. by injection E as ->. }
  exfalso. apply Hf. clear Hf. revert m E.
  induction todo as [|q todo IH]; intros m E; [constructor|]. simpl in E.
  destruct (lookup_node m q) as [[d|]|] eqn:El; [done| |].
  - constructor; [by rewrite El|by apply IH].
  - assert (Hp : proper q) by (split; intros ->; done).
    constructor; [by rewrite El|]. apply IH in E. eapply Forall_impl; [exact E|]. simpl. intros p Hp'.
    destruct (decide (q = p)) as [<-|]; [by rewrite El|by rewrite lookup_node_insert_ne in Hp'].
Qed.

Lemma mkdir_inv p f f' : quiet f → os_mkdir_all p f = (f', Val (Ok tt)) →
  quiet f' ∧ Forall (λ q, lookup_node (fs_nodes f') q = Some Dir) (prefixes [] p ++ [p]) ∧
  grown (prefixes [] p ++ [p]) (fs_nodes f) (fs_nodes f').
Proof.
  unfold os_mkdir_all, syscall. intros ->.
  destruct (mkdirs _ _) as [m r] eqn:E. intros [= <- ->]. split; [done|]. by apply mkdirs_made.
Qed.

Lemma mkdir_done p m : Forall (λ q, lookup_node m q = Some Dir) (prefixes [] p ++ [p]) →
  os_mkdir_all p (MkFs m []) = (MkFs m [], Val (Ok tt)).
Proof. intros Hd. apply syscall_quiet; [done|]. by apply mkdirs_noop. Qed.

Lemma write_pem_inv p typ der m f' : write_pem p typ der (MkFs m []) = (f', Val (Ok tt)) →
  f' = MkFs (<[p := File (pem_encode typ der)]> m) [].
Proof.
  unfold write_pem. intros (f1 & [] & E1%wrap_inv & E)%ebind_inv.
  assert (f1 = MkFs (<[p := File ""]> m) []) as ->.
  { unfold os_create, syscall, create_node in E1. simpl in E1.
    destruct (resolve m (dir_of p)) as [[]|]; [by injection E1| |by injection E1].
    by destruct (lookup_node m p) as [[]|]; injection E1 as <-. }
  apply bind_inv in E as (f2 & r & E2 & E). apply bind_inv in E as (f3 & [c|e] & E3 & E);
    (injection E as <- ->; apply ebind_inv in E2 as (f4 & [] & E4%wrap_inv & E2);
     cbv [os_write syscall fs_sched fs_nodes] in E4; injection E4 as <-;
     cbv [os_chmod syscall fs_sched fs_nodes] in E2; injection E2 as <- _;
     cbv [os_close syscall fs_sched fs_nodes] in E3; injection E3 as <-;
     by rewrite insert_insert_eq).
Qed.

Lemma load_cert_file d x m typ der : x ≠ "" → no_file_above m (d ++ [x]) →
  m !! (d ++ [x]) = Some (File (pem_encode typ der)) → pem_decode (pem_encode typ der) = Some der →
  load_cert (Ip := Ip) (d ++ [x]) (MkFs m []) = (MkFs m [], Val (parse_certificate der)).
Proof.
  intros Hx Ha Hm Hd. unfold load_cert.
  erewrite ebind_ok; [|apply syscall_quiet; [done|]; simpl;
    rewrite resolve_open, lookup_node_proper, Hm by auto using proper_snoc; done].
  cbv beta. by rewrite Hd.
Qed.

Lemma file_exists_file d x m n : x ≠ "" → no_file_above m (d ++ [x]) → m !! (d ++ [x]) = Some n →
  file_exists (d ++ [x]) (MkFs m []) = (MkFs m [], Val true).
Proof.
  intros Hx Ha Hm. unfold file_exists.
  erewrite bind_val; [|apply syscall_quiet; [done|]; simpl;
    rewrite resolve_open, lookup_node_proper, Hm by auto using proper_snoc; done].
  done.
Qed.
End files.

(** ** Making the material twice *)

Section ensure.
Context {K Key Ip : Type} `{PkiLaws K Key Ip}.

Lemma template_fields sn now v hosts :
  let c := server_template (Ip := Ip) sn now v hosts in
  xc_not_before c = now ∧ xc_not_after c = (now + v)%Z ∧ xc_ext_usage c = ["ServerAuth"] ∧
  xc_ips c = omap parse_ip hosts ∧ xc_dns c = List.filter (λ h, negb (bool_decide (is_Some (parse_ip h)))) hosts.
Proof.
  simpl. unfold server_template.
  assert (Hfold : ∀ c0 : cert Ip, let c := fold_left add_host hosts c0 in
    xc_not_before c = xc_not_before c0 ∧ xc_not_after c = xc_not_after c0 ∧
    xc_ext_usage c = xc_ext_usage c0 ∧ xc_ips c = xc_ips c0 ++ omap parse_ip hosts ∧
    xc_dns c = xc_dns c0 ++ List.filter (λ h, negb (bool_decide (is_Some (parse_ip h)))) hosts);
    [|exact (Hfold (MkCert sn "experiment-k8s-apiserver" now (now + v)
        ["DigitalSignature"; "KeyEncipherment"] ["ServerAuth"] false false [] [] ""))].
  induction hosts as [|h hs IH]; intros c0; simpl; [by rewrite !app_nil_r|].
  destruct (IH (add_host c0 h)) as (-> & -> & -> & -> & ->). unfold add_host.
  destruct (parse_ip h) as [ip|]; simpl; by rewrite <- ?app_assoc.
Qed.

(** A server certificate made for the hosts is accepted for each of them. *)
Lemma template_covers sn now v hosts c :
  xc_ips c = xc_ips (server_template (Ip := Ip) sn now v hosts) →
  xc_dns c = xc_dns (server_template (Ip := Ip) sn now v hosts) →
  Forall (λ h, parse_ip h = None → valid_dns h) hosts → forallb (covers c) hosts = true.
Proof.
  destruct (template_fields sn now v hosts) as (_ & _ & _ & -> & ->). intros Ei Ed Hv.
  rewrite List.Forall_forall in Hv. apply forallb_forall. intros h Hh. unfold covers.
  destruct (parse_ip h) as [ip|] eqn:Ep.
  - rewrite (hostname_ip c ip); [done|]. rewrite Ei. apply list_elem_of_omap. exists h.
    split; [by apply list_elem_of_In|done].
  - rewrite (hostname_dns c h); [done| |by apply Hv]. rewrite Ed. apply list_elem_of_In, filter_In.
    split; [done|]. by rewrite Ep.
Qed.

Lemma loopback_valid hosts : Forall (λ h, parse_ip h = None → valid_dns h) hosts →
  Forall (λ h, parse_ip h = None → valid_dns h) (ensure_loopback hosts).
Proof.
  intros Hv. unfold ensure_loopback. rewrite loopback_flags. simpl.
  pose proof loopback_literal as Hl. unfold has_loopback_ip in Hl.
  destruct localhost_name as [_ Hn].
  destruct (existsb (λ h, String.eqb h "localhost") hosts), (existsb has_loopback_ip hosts); simpl;
    rewrite ?Forall_app; repeat split; try done; each ltac:(try done; by destruct (parse_ip "127.0.0.1")).
Qed.

(** What [generate] leaves: the four files, and certificates that verify, made
    for [v] from a minute before [t0]. *)
Definition minted (dir : path) (hosts : list string) (t0 v : Z) (ca srv : cert Ip)
    (m m' : gmap path node) : Prop :=
  ∃ ca_der ca_key srv_der srv_key,
    m' = <[dir ++ ["server.key"] := File (pem_encode "RSA PRIVATE KEY" srv_key)]>
        (<[dir ++ ["server.crt"] := File (pem_encode "CERTIFICATE" srv_der)]>
        (<[dir ++ ["ca.key"] := File (pem_encode "RSA PRIVATE KEY" ca_key)]>
        (<[dir ++ ["ca.crt"] := File (pem_encode "CERTIFICATE" ca_der)]> m))) ∧
    parse_certificate ca_der = Ok ca ∧ parse_certificate srv_der = Ok srv ∧
    (∀ c, c = ca ∨ c = srv → xc_not_before c = trunc_second (t0 - 60 * second) ∧
                              xc_not_after c = trunc_second (t0 - 60 * second + v)) ∧
    forallb (covers srv) hosts = true ∧
    (∀ now, in_window now ca = true → in_window now srv = true → verify_cert now ca srv = Ok tt).

(** One call of the libraries' state: a key, a random number, a reading of the
    clock, a certificate. *)
Definition ext_call (k k' : K) : Prop :=
  (∃ o, generate_key k = (k', o)) ∨ (∃ o, rand_int k = (k', o)) ∨ (∃ o, read_clock k = (k', o)) ∨
  (∃ tmpl parent pub priv o, create_certificate tmpl parent pub priv k = (k', o)).

Lemma paths_good dir x : good_base dir → good_seg x → join_path dir [x] = dir ++ [x].
Proof. intros Hd Hx. apply join_path_good; [done|]. by apply Forall_singleton. Qed.

Lemma serial_inv s s' n : serial s = (s', Val n) → pk_fs s' = pk_fs s ∧ rtc ext_call (pk_ext s) (pk_ext s').
Proof.
  unfold serial. intros (s1 & [r|e] & (k1 & E1 & ->)%zoom_inv & E)%bind_inv; simpl in *.
  - injection E as <- _. split; [done|]. apply rtc_once. right. left. by eexists.
  - apply zoom_inv in E as (k2 & E2 & ->). split; [done|]. simpl in *.
    eapply rtc_l; [right; left; by eexists|]. apply rtc_once. right. right. left. by eexists.
Qed.

Lemma generate_inv dir hosts v m k s' : good_base dir →
  Forall (λ h, parse_ip h = None → valid_dns h) hosts →
  generate dir hosts v (MkPki (MkFs m []) k) = (s', Val (Ok tt)) →
  ∃ k0 k0' t0 ca srv, rtc ext_call k k0 ∧ read_clock k0 = (k0', Val t0) ∧ rtc ext_call k0' (pk_ext s') ∧
    fs_sched (pk_fs s') = [] ∧ minted dir hosts t0 v ca srv m (fs_nodes (pk_fs s')).
Proof.
  intros Hd Hv. unfold generate, ca_cert_path, ca_key_path, srv_cert_path, srv_key_path.
  rewrite !paths_good by (done || (split; [done|]; split; [done|]; split; done)).
  intros (s1 & ca_key & (k1 & E1 & ->)%wrap_inv%zoom_inv & E)%ebind_inv.
  apply bind_inv in E as (s2 & t0 & (k2 & Et & ->)%zoom_inv & E).
  apply bind_inv in E as (s3 & sn1 & E3 & E).
  apply ebind_inv in E as (s4 & ca_der & (k4 & E4 & ->)%wrap_inv%zoom_inv & E).
  apply ebind_inv in E as (s5 & srv_key & (k5 & E5 & ->)%wrap_inv%zoom_inv & E).
  apply bind_inv in E as (s6 & sn2 & E6 & E).
  apply ebind_inv in E as (s7 & ca & Eca%wrap_inv & E). injection Eca as <- Eca.
  apply ebind_inv in E as (s8 & srv_der & (k8 & E8 & ->)%wrap_inv%zoom_inv & E).
  simpl in *. apply serial_inv in E3 as [F3 C3]. apply serial_inv in E6 as [F6 C6]. simpl in *.
  rewrite F6, F3 in E. clear F3 F6.
  apply ebind_inv in E as (s9 & [] & (f9 & E9%write_pem_inv & ->)%zoom_inv & E). subst f9.
  apply ebind_inv in E as (s10 & [] & (f10 & E10%write_pem_inv & ->)%zoom_inv & E). subst f10.
  apply ebind_inv in E as (s11 & [] & (f11 & E11%write_pem_inv & ->)%zoom_inv & E). subst f11.
  apply ebind_inv in E as (s12 & [] & (f12 & E12%write_pem_inv & ->)%zoom_inv & E). subst f12.
  injection E as <-.
  destruct (created_cert _ _ _ _ _ _ _ E4) as (ca' & Eca' & Hca1 & Hca2 & _).
  rewrite Eca in Eca'. injection Eca' as <-.
  destruct (created_cert _ _ _ _ _ _ _ E8) as (srv & Esrv & Hs1 & Hs2 & Hs3 & Hs4).
  exists k1, k2, t0, ca, srv. split; [apply rtc_once; left; by eexists|]. split; [exact Et|]. split.
  { simpl. etransitivity; [exact C3|]. eapply rtc_l; [right; right; right; by repeat eexists|].
    eapply rtc_l; [left; by eexists|]. eapply rtc_r; [exact C6|]. right. right. right. by repeat eexists. }
  split; [done|]. destruct (template_fields sn2 (t0 - 60 * second) v hosts) as (Hb & Ha & Hx & _ & _).
  exists ca_der, (marshal_key ca_key), srv_der, (marshal_key srv_key).
  split; [done|]. split; [done|]. split; [done|]. split.
  { intros c [->| ->]; [by rewrite Hca1, Hca2|by rewrite Hs1, Hs2, Hb, Ha]. }
  split; [by eapply template_covers|]. intros now Hw1 Hw2.
  eapply signed_verifies; [exact E4|exact Eca|exact E8|exact Esrv|done|set_solver|rewrite Hx; set_solver|done..].
Qed.

(** The files that were made are found again. *)
Lemma minted_found dir hosts t0 v ca srv m0 m : good_base dir →
  Forall (λ q, lookup_node m0 q = Some Dir) (prefixes [] dir ++ [dir]) →
  minted dir hosts t0 v ca srv m0 m →
  Forall (λ q, lookup_node m q = Some Dir) (prefixes [] dir ++ [dir]) ∧
  load_cert (ca_cert_path dir) (MkFs m []) = (MkFs m [], Val (Ok ca)) ∧
  load_cert (srv_cert_path dir) (MkFs m []) = (MkFs m [], Val (Ok srv)) ∧
  file_exists (ca_key_path dir) (MkFs m []) = (MkFs m [], Val true) ∧
  file_exists (srv_key_path dir) (MkFs m []) = (MkFs m [], Val true).
Proof.
  intros Hg Hdirs (ca_der & ck & srv_der & sk & Hm & Eca & Esrv & _).
  assert (Hall : Forall (λ q, lookup_node m q = Some Dir) (prefixes [] dir ++ [dir]))
    by (rewrite Hm; by repeat apply dirs_child).
  split; [done|].
  assert (Ha : ∀ x, no_file_above m (dir ++ [x])).
  { intros x. unfold no_file_above. rewrite prefixes_app. eapply Forall_impl; [exact Hall|].
    simpl. by intros q ->. }
  assert (Hne : ∀ x y, x ≠ y → dir ++ [x] ≠ dir ++ [y]) by (intros x y Hxy [= E]%app_inv_head; done).
  unfold ca_cert_path, ca_key_path, srv_cert_path, srv_key_path.
  rewrite !paths_good by (done || (split; [done|]; split; [done|]; split; done)).
  rewrite <- Eca, <- Esrv.
  split; [|split; [|split]].
  - eapply load_cert_file; [done|apply Ha| |apply pem_roundtrip].
    rewrite Hm, !lookup_insert_ne by (by apply Hne). apply lookup_insert_eq.
  - eapply load_cert_file; [done|apply Ha| |apply pem_roundtrip].
    rewrite Hm, !lookup_insert_ne by (by apply Hne). apply lookup_insert_eq.
  - eapply file_exists_file; [done|apply Ha|].
    rewrite Hm, !lookup_insert_ne by (by apply Hne). apply lookup_insert_eq.
  - eapply file_exists_file; [done|apply Ha|]. rewrite Hm. apply lookup_insert_eq.
Qed.

Lemma covered_twice dir hosts t0 v ca srv m0 m k k1 k2 t1 t2 :
  good_base dir → Forall (λ q, lookup_node m0 q = Some Dir) (prefixes [] dir ++ [dir]) →
  minted dir hosts t0 v ca srv m0 m →
  read_clock k = (k1, Val t1) → read_clock k1 = (k2, Val t2) →
  (∀ t, t = t1 ∨ t = t2 → in_window t ca = true ∧ in_window t srv = true) →
  complete dir hosts (MkPki (MkFs m []) k) = (MkPki (MkFs m []) k2, Val true).
Proof.
  intros Hg Hdirs Hm E1 E2 Ht.
  destruct (minted_found _ _ _ _ _ _ _ _ Hg Hdirs Hm) as (_ & Hca & Hsrv & Hck & Hsk).
  destruct Hm as (ca_der & ck & srv_der & sk & _ & _ & _ & _ & Hcov & Hver).
  destruct (Ht t1) as [Ht1 Ht1']; [auto|]. destruct (Ht t2) as [Ht2 Ht2']; [auto|].
  unfold complete, existing_valid.
  erewrite bind_val; [|erewrite bind_val; [|apply zoom_run; exact Hca]].
  2:{ cbv beta iota. erewrite bind_val; [|apply zoom_run; exact Hsrv]. cbv beta iota.
      erewrite bind_val; [|apply zoom_run; exact E1]. cbv beta. rewrite Ht1, Ht1'. simpl.
      erewrite bind_val; [|apply zoom_run; exact E2]. cbv beta.
      rewrite Hver by done. by rewrite Hcov. }
  cbv beta iota. erewrite bind_val; [|apply zoom_run; exact Hck].
  cbv beta iota. unfold on_files. erewrite zoom_run; [|exact Hsk]. done.
Qed.

(** Without a ca.crt there is nothing to keep. *)
Lemma complete_without dir hosts m k : good_base dir → m !! (dir ++ ["ca.crt"]) = None →
  complete dir hosts (MkPki (MkFs m []) k) = (MkPki (MkFs m []) k, Val false).
Proof.
  intros Hg Hno. unfold complete, existing_valid, ca_cert_path, load_cert, os_read_file.
  rewrite paths_good by (done || (split; [done|]; split; [done|]; split; done)).
  unfold bind, ebind, bind, on_files, zoom, syscall. simpl.
  unfold resolve. rewrite lookup_node_proper, Hno by by apply proper_snoc.
  by destruct (existsb _ _).
Qed.

(** C34: the serving material is made once.  When a directory without a ca.crt
    is given material, the certificates that lie there afterwards begin a minute
    before a time the making read from the clock and end after the validity
    asked for (both in whole seconds); and asking again, for the same hosts,
    when both readings of the clock fall in the windows of these two
    certificates, returns and leaves every file as it is. *)
Theorem ensure_idempotent dir hosts v s s1 :
  good_base dir → quiet (pk_fs s) → Forall (λ h, parse_ip h = None → valid_dns h) hosts →
  fs_nodes (pk_fs s) !! (dir ++ ["ca.crt"]) = None →
  ensure_server_cert dir hosts v s = (s1, Val (Ok tt)) →
  ∃ ca srv,
    load_cert (ca_cert_path dir) (pk_fs s1) = (pk_fs s1, Val (Ok ca)) ∧
    load_cert (srv_cert_path dir) (pk_fs s1) = (pk_fs s1, Val (Ok srv)) ∧
    (∃ k0 k0' t0, rtc ext_call (pk_ext s) k0 ∧ read_clock k0 = (k0', Val t0) ∧
       rtc ext_call k0' (pk_ext s1) ∧
       ∀ c, c = ca ∨ c = srv → xc_not_before c = trunc_second (t0 - 60 * second) ∧
                                xc_not_after c = trunc_second (t0 - 60 * second + v)) ∧
    ∀ k1 k2 t1 t2, read_clock (pk_ext s1) = (k1, Val t1) → read_clock k1 = (k2, Val t2) →
      (∀ t, t = t1 ∨ t = t2 → in_window t ca = true ∧ in_window t srv = true) →
      ensure_server_cert dir hosts v s1 = (MkPki (pk_fs s1) k2, Val (Ok tt)).
Proof.
  intros Hg Hq Hv Hno. unfold ensure_server_cert. destruct (Z.leb_spec v 0) as [|Hpos]; [done|].
  intros (s2 & [] & (f & E & ->)%wrap_inv%zoom_inv & E2)%ebind_inv.
  apply mkdir_inv in E as (Hqf & Hdirs & Hgrown); [|done]. destruct f as [m sched]; unfold quiet in Hqf; simpl in *; subst sched.
  assert (Hno' : m !! (dir ++ ["ca.crt"]) = None).
  { destruct (Hgrown (dir ++ ["ca.crt"])) as [->|(_ & _ & Hin & _)]; [done|].
    apply in_app_or in Hin as [Hin|[Hin|[]]].
    - apply prefixes_length in Hin. rewrite length_app in Hin. simpl in Hin. lia.
    - apply (f_equal length) in Hin. rewrite length_app in Hin. simpl in Hin. lia. }
  erewrite bind_val in E2 by by apply complete_without.
  destruct (generate_inv dir (ensure_loopback hosts) v m (pk_ext s) s1)
    as (k0 & k0' & t0 & ca & srv & C1 & Et & C2 & Hs & Hm); [done|by apply loopback_valid|done|].
  destruct s1 as [[m1 sched1] k]; simpl in *; subst sched1.
  destruct (minted_found _ _ _ _ _ _ _ _ Hg Hdirs Hm) as (Hd & Hca & Hsrv & _).
  exists ca, srv. split; [exact Hca|]. split; [exact Hsrv|]. split.
  { exists k0, k0', t0. split; [done|]. split; [done|]. split; [done|]. by destruct Hm as (? & ? & ? & ? & _ & _ & _ & Hwin & _). }
  intros k1 k2 t1 t2 E4 E5 Ht.
  erewrite ebind_ok; [|unfold wrap; erewrite bind_val; [|apply zoom_run, mkdir_done, Hd]; reflexivity].
  cbv beta zeta. simpl. erewrite bind_val; [|eapply covered_twice; [exact Hg|exact Hdirs|exact Hm|exact E4|exact E5|exact Ht]]. done.
Qed.
End ensure.
