(* ===== verification/Commands.v ===== *)
(** * The commands ([cmd/apiserver/main.go], [cmd/kubelet-lite/main.go])

    What [run] of each command does before it serves: directories,
    certificates, the kubeconfig and the server for the API server; the volume
    root and the clients for the kubelet, whose goroutines are in Lifecycle.
    The generic server is an argument of [run]; the client libraries are
    arguments of [kubelet_setup]. *)

From S2P Require Import Prelude GoStrings Fs Translate Store Apiserver Pki.

(** ** The API server *)

(** [os.MkdirAll] of a path as it was given. *)
Definition make_dirs (s : string) : M fs (res unit) :=
  if String.eqb s "" then fail (ErrIO "mkdir") else os_mkdir_all (clean s).

Definition server_url (bind_addr : string) (bind_port : Z) : string :=
  "https://" +:+ bind_addr +:+ ":" +:+ format_int bind_port.

(** 365*24*time.Hour. *)
Definition cert_validity : Z := 365 * 24 * 3600 * second.

(** The body of the loop of [patchKubeconfigForAnonymous]. *)
Definition patch_auth (a : auth_info) : auth_info :=
  if String.eqb (ai_username a) "" && String.eqb (ai_token a) "" && String.eqb (ai_cert_data a) ""
     && String.eqb (ai_cert a) "" && negb (ai_provider a) && negb (ai_exec a)
  then MkAuthInfo "anonymous" (ai_token a) (ai_cert_data a) (ai_cert a) (ai_provider a) (ai_exec a)
  else a.

Section apiserver.
Context {K Key Ip : Type} `{PkiLib K Key Ip}.

Definition patch_kubeconfig_for_anonymous (p : path) : M fs (res unit) :=
  let? cfg := load_config p in
  write_config (MkKubeconfig (kc_clusters cfg) (kc_contexts cfg) (patch_auth <$> kc_auth_infos cfg)
                  (kc_current cfg)) p.

(** [run] up to the call of [Build]. *)
Definition prepare (bind_addr : string) (bind_port : Z) (cert_dir data_dir kubeconfig_out : string)
    : M (pki_state K) (res unit) :=
  let? _ := on_files (make_dirs cert_dir) in
  let? _ := on_files (make_dirs data_dir) in
  let hosts := [bind_addr; "127.0.0.1"; "localhost"] in
  let? _ := wrap "pki" (ensure_server_cert (clean cert_dir) hosts cert_validity) in
  let server := server_url bind_addr bind_port in
  let ca_path := join_path (clean cert_dir) ["ca.crt"] in
  let? _ := wrap "kubeconfig" (on_files (write_kubeconfig (clean kubeconfig_out) server ca_path)) in
  wrap "patch kubeconfig" (on_files (patch_kubeconfig_for_anonymous (clean kubeconfig_out))).

(** The process of the command: that of the server, and what the certificates
    need. *)
Record command (Obj : Type) := MkCommand { cm_process : process Obj; cm_ext : K }.
Arguments MkCommand {Obj} _ _.
Arguments cm_process {Obj} _.
Arguments cm_ext {Obj} _.

Definition on_pki {Obj A} (m : M (pki_state K) A) : M (command Obj) A :=
  zoom (λ s, MkPki (pr_fs (cm_process s)) (cm_ext s))
       (λ x s, MkCommand (set_pr_fs (pk_fs x) (cm_process s)) (pk_ext x)) m.
Definition on_process {Obj A} (m : M (process Obj) A) : M (command Obj) A :=
  zoom cm_process (λ p s, MkCommand p (cm_ext s)) m.

(** [run]: [build_] is [Build], [serve] is [Run] of the generic server. *)
Definition run_apiserver {Obj} (build_ : options → M (process Obj) (res unit))
    (serve : M (process Obj) (res unit))
    (bind_addr : string) (bind_port : Z) (cert_dir data_dir kubeconfig_out log_url : string)
    : M (command Obj) (res unit) :=
  let? _ := on_pki (prepare bind_addr bind_port cert_dir data_dir kubeconfig_out) in
  let? _ := wrap "build" (on_process (build_
    (MkOptions bind_addr bind_port cert_dir data_dir "" log_url))) in
  on_process serve.
End apiserver.

(** ** The kubelet *)

Inductive feature :=
  | WatchListClient | ClientsAllowCBOR | ClientsPreferCBOR | InOrderInformers
  | InOrderInformersBatchProcess | InformerResourceVersion | OtherFeature (name : string).

(** [staticGates.Enabled]. *)
Definition enabled (f : feature) : bool :=
  match f with
  | WatchListClient => true
  | ClientsAllowCBOR | ClientsPreferCBOR => false
  | InOrderInformers | InOrderInformersBatchProcess | InformerResourceVersion => true
  | OtherFeature _ => false
  end.

Section kubelet.
(** The state the libraries share, the host's files in it; a client
    configuration, a clientset, a Docker client. *)
Context {S Cfg Cs Dk : Type} (get_fs : S → fs) (set_fs : fs → S → S).
(** [filepath.Abs], [clientcmd.BuildConfigFromFlags], [cfg.UserAgent = ...],
    [kubernetes.NewForConfig], [kubelet.NewDockerRuntime]. *)
Context (abs : string → res string) (build_config : string → M S (res Cfg))
        (set_user_agent : string → Cfg → Cfg) (new_for_config : Cfg → M S (res Cs))
        (new_docker_runtime : M S (res Dk)).

Definition setup_volume_root (volume_root : string) : M S (res string) :=
  if String.eqb volume_root "" then ok ""
  else
    let? abs_root := wrap "resolve volume-root" (of_res (abs volume_root)) in
    let? _ := wrap ("create volume-root " +:+ quote abs_root) (zoom get_fs set_fs (make_dirs abs_root)) in
    ok abs_root.

(** [run] before its goroutines: the arguments of [kubelet.New]. *)
Definition kubelet_setup (kubeconfig volume_root : string) : M S (res (Cs * Dk * option path)) :=
  let? root := setup_volume_root volume_root in
  let? cfg := build_config kubeconfig in
  let? cs := new_for_config (set_user_agent "kubelet-lite/v1" cfg) in
  let? dk := new_docker_runtime in
  ok (cs, dk, if String.eqb root "" then None else Some (clean root)).
End kubelet.

(** ** Who the clients of the API server trust *)

Class ConfigLaws (K Key Ip : Type) `{PkiLib K Key Ip} := {
  (* a configuration that holds its current context alone is kept *)
  minify_law n cl au x y :
    let cfg := MkKubeconfig {[cl := x]} {[n := (cl, au)]} {[au := y]} n in minify_config cfg = Ok cfg;
  (* what is written in a directory that exists is loaded *)
  write_law c p m f' : proper p → resolve m (dir_of p) = Ok Dir →
    write_config c p (MkFs m []) = (f', Val (Ok tt)) →
    ∃ d, f' = MkFs (<[p := File d]> m) [] ∧
         ∀ m', resolve m' p = Ok (File d) → load_config p (MkFs m' []) = (MkFs m' [], Val (Ok c))
}.

Section trust.
Context {K Key Ip : Type} `{PkiLaws K Key Ip} `{!ConfigLaws K Key Ip}.

(** The certificate in the text of a PEM file. *)
Definition pem_cert (b : string) : res (cert Ip) :=
  match pem_decode b with
  | None => Err (ErrText "pki: no PEM block")
  | Some der => parse_certificate der
  end.

(** The files in [dir] hold a CA and a server certificate that verifies against
    it, for the hosts. *)
Definition serving (dir : path) (hosts : list string) (m : gmap path node) : Prop :=
  ∃ ca_pem srv_pem ca srv now,
    m !! (dir ++ ["ca.crt"]) = Some (File ca_pem) ∧ pem_cert ca_pem = Ok ca ∧
    m !! (dir ++ ["server.crt"]) = Some (File srv_pem) ∧ pem_cert srv_pem = Ok srv ∧
    verify_cert now ca srv = Ok tt ∧ forallb (covers srv) hosts = true.

Lemma read_inv {A : Type} (p : path) (m : gmap path node) (k : string → M fs (res A)) f' a : proper p →
  (let? b := os_read_file p in k b) (MkFs m []) = (f', Val (Ok a)) →
  ∃ b, m !! p = Some (File b) ∧ k b (MkFs m []) = (f', Val (Ok a)).
Proof.
  intros Hp (f1 & b & E1 & E)%ebind_inv. unfold os_read_file, syscall in E1. simpl in E1.
  destruct (resolve m p) as [[d|]|] eqn:Er; [|done..]. injection E1 as <- <-. exists d. split; [|done].
  apply resolve_ok in Er as [Hl _]. by rewrite lookup_node_proper in Hl.
Qed.

Lemma load_cert_inv (p : path) (m : gmap path node) f (c : cert Ip) : proper p →
  load_cert p (MkFs m []) = (f, Val (Ok c)) →
  f = MkFs m [] ∧ ∃ b, m !! p = Some (File b) ∧ pem_cert b = Ok c.
Proof.
  intros Hp. unfold load_cert. intros (b & Hb & E)%read_inv; [|done]. unfold pem_cert.
  destruct (pem_decode b) as [der|] eqn:Ed; [|done]. injection E as <- E. split; [done|].
  exists b. split; [done|]. by rewrite Ed.
Qed.

Lemma sibling_proper dir x : x ≠ "" → proper (dir ++ [x]).
Proof. apply proper_snoc. Qed.

Lemma existing_valid_inv dir hosts m k s' : good_base dir →
  existing_valid (ca_cert_path dir) (srv_cert_path dir) hosts (MkPki (MkFs m []) k) = (s', Val true) →
  pk_fs s' = MkFs m [] ∧ serving dir hosts m.
Proof.
  intros Hd. unfold existing_valid, ca_cert_path, srv_cert_path.
  rewrite !paths_good by (done || (split; [done|]; split; [done|]; split; done)).
  intros (s1 & [ca|e] & (f1 & E1 & ->)%zoom_inv & E)%bind_inv; [|done].
  apply load_cert_inv in E1 as (-> & ca_pem & Hca & Eca); [|by apply sibling_proper].
  apply bind_inv in E as (s2 & [srv|e] & (f2 & E2 & ->)%zoom_inv & E); [|done].
  apply load_cert_inv in E2 as (-> & srv_pem & Hsrv & Esrv); [|by apply sibling_proper].
  apply bind_inv in E as (s3 & now & (k3 & _ & ->)%zoom_inv & E).
  destruct (negb (in_window now ca)); [done|]. destruct (negb (in_window now srv)); [done|].
  apply bind_inv in E as (s4 & vnow & (k4 & _ & ->)%zoom_inv & E).
  destruct (verify_cert vnow ca srv) as [[]|] eqn:Ev; [|done]. injection E as <- Hcov.
  split; [done|]. by exists ca_pem, srv_pem, ca, srv, vnow.
Qed.

(** Looking at existing material writes nothing. *)
Definition unwritten (s s' : pki_state K) : Prop := quiet (pk_fs s) → pk_fs s' = pk_fs s.

#[export] Instance unwritten_preorder : PreOrder unwritten.
Proof. split; [done|]. intros s1 s2 s3 Ha Hb Hq. by rewrite Hb, Ha by (rewrite ?Ha by done; done). Qed.

Lemma read_unwritten {A : Type} (what : string) (op : gmap path node → res A) part (f f' : fs) o :
  quiet f → syscall what (λ m, (m, op m)) part f = (f', o) → f' = f.
Proof. destruct f as [m sch]. unfold quiet, syscall. simpl. intros ->. by intros [= <- _]. Qed.

Lemma load_unwritten p : moves unwritten (on_files (load_cert p)).
Proof.
  intros s. apply wp_zoom, wp_ebind. unfold wp. destruct (os_read_file p (pk_fs s)) as [f [[b|e]|k]] eqn:E;
    simpl; intros Hq; apply read_unwritten in E as ->; try done. by destruct (pem_decode b).
Qed.

Lemma exists_unwritten p : moves unwritten (on_files (file_exists p)).
Proof.
  intros s. apply wp_zoom, wp_bind. unfold wp. destruct (os_stat p (pk_fs s)) as [f [r|k]] eqn:E;
    simpl; intros Hq; by apply read_unwritten in E as ->.
Qed.

Lemma complete_unwritten dir hosts : moves unwritten (complete dir hosts).
Proof.
  unfold complete, existing_valid.
  whole_steps ltac:(first [apply load_unwritten|apply exists_unwritten|by apply moves_zoom]).
Qed.

Lemma complete_inv dir hosts m k s' b : good_base dir →
  complete dir hosts (MkPki (MkFs m []) k) = (s', Val b) →
  pk_fs s' = MkFs m [] ∧ (b = true → serving dir hosts m).
Proof.
  intros Hd E. split; [by apply (moves_run _ _ _ _ _ (complete_unwritten dir hosts) E)|]. intros ->.
  unfold complete in E. apply bind_inv in E as (s1 & [|] & E1 & E); [|done].
  by apply existing_valid_inv in E1 as [_ Hs].
Qed.

Lemma minted_serving dir hosts t0 v ca srv m m' : minted dir hosts t0 v ca srv m m' → (0 < v)%Z → serving dir hosts m'.
Proof.
  intros (ca_der & ck & srv_der & sk & -> & Eca & Esrv & Hwin & Hcov & Hver) Hv.
  assert (Hne : ∀ x y, x ≠ y → dir ++ [x] ≠ dir ++ [y]) by (intros x y Hxy [= E]%app_inv_head; done).
  assert (Hin : ∀ c, c = ca ∨ c = srv → in_window (trunc_second (t0 - 60 * second)) c = true).
  { intros c Hc. destruct (Hwin c Hc) as [Hb He]. unfold in_window.
    rewrite Hb, He, negb_true_iff, orb_false_iff, !Z.ltb_ge. split; [done|]. unfold trunc_second.
    apply Z.mul_le_mono_nonneg_r; [done|]. apply Z.div_le_mono; [done|lia]. }
  exists (pem_encode "CERTIFICATE" ca_der), (pem_encode "CERTIFICATE" srv_der), ca, srv,
    (trunc_second (t0 - 60 * second)). unfold pem_cert. rewrite !pem_roundtrip.
  split; [by rewrite !lookup_insert_ne by (by apply Hne); rewrite lookup_insert_eq|]. split; [done|].
  split; [by rewrite !lookup_insert_ne by (by apply Hne); rewrite lookup_insert_eq|]. split; [done|].
  split; [|done]. apply Hver; apply Hin; auto.
Qed.

Lemma ensure_serving dir hosts v m k s' : good_base dir → Forall (λ h, parse_ip h = None → valid_dns h) hosts →
  ensure_server_cert dir hosts v (MkPki (MkFs m []) k) = (s', Val (Ok tt)) →
  fs_sched (pk_fs s') = [] ∧ serving dir (ensure_loopback hosts) (fs_nodes (pk_fs s')).
Proof.
  intros Hd Hv. unfold ensure_server_cert. destruct (Z.leb_spec v 0) as [|Hpos]; [done|].
  intros (s1 & [] & (f1 & E1 & ->)%wrap_inv%zoom_inv & E)%ebind_inv.
  apply mkdir_inv in E1 as (Hq & _ & _); [|done]. destruct f1 as [m1 sch]. unfold quiet in Hq. simpl in *. subst sch.
  apply bind_inv in E as (s2 & b & E2 & E). apply complete_inv in E2 as [Hf Hs]; [|done].
  destruct b; [injection E as <-; rewrite Hf; split; [done|by apply Hs]|].
  destruct s2 as [f2 k2]. simpl in Hf. subst f2.
  destruct (generate_inv dir (ensure_loopback hosts) v m1 k2 s') as (k0 & k0' & t0 & ca & srv & _ & _ & _ & Hsch & Hm);
    [done|by apply loopback_valid|done|]. split; [done|]. by eapply minted_serving.
Qed.

Lemma loopback_split hosts : ∃ extra, ensure_loopback hosts = hosts ++ extra.
Proof.
  unfold ensure_loopback. rewrite loopback_flags. simpl.
  destruct (existsb (λ h, String.eqb h "localhost") hosts), (existsb has_loopback_ip hosts); simpl;
    rewrite <- ?app_assoc; [exists []; by rewrite app_nil_r|by eexists..].
Qed.

Lemma serving_stays dir hosts hosts' m m' :
  (∀ x n, m !! (dir ++ [x]) = Some n → m' !! (dir ++ [x]) = Some n) → hosts' ⊆ hosts →
  serving dir hosts m → serving dir hosts' m'.
Proof.
  intros Hm Hsub (cp & sp & ca & srv & now & Hc & Ec & Hs & Es & Ev & Hcov).
  exists cp, sp, ca, srv, now. split; [by apply Hm|]. split; [done|]. split; [by apply Hm|].
  split; [done|]. split; [done|]. rewrite forallb_forall in Hcov |- *. intros h Hh. apply Hcov.
  rewrite <- list_elem_of_In in Hh |- *. by apply Hsub.
Qed.

Lemma dirs_resolve d m : Forall (λ q, lookup_node m q = Some Dir) (prefixes [] d ++ [d]) → resolve m d = Ok Dir.
Proof.
  intros [Ha Hd]%Forall_app. rewrite Forall_singleton in Hd. rewrite resolve_open; [by rewrite Hd|].
  unfold no_file_above. eapply Forall_impl; [exact Ha|]. simpl. by intros q ->.
Qed.

Lemma written_resolves d x b m : x ≠ "" → resolve m d = Ok Dir → resolve (<[d ++ [x] := File b]> m) (d ++ [x]) = Ok (File b).
Proof.
  intros Hx Hd. rewrite resolve_open by by apply no_file_above_insert, resolve_dir_above.
  by rewrite lookup_node_proper, lookup_insert_eq by by apply proper_snoc.
Qed.

(** Writing the kubeconfig and patching it: the file that is left. *)
Lemma kubeconfig_written od x server ca_path m f1 f2 : x ≠ "" → proper ca_path →
  write_kubeconfig (od ++ [x]) server ca_path (MkFs m []) = (f1, Val (Ok tt)) →
  patch_kubeconfig_for_anonymous (od ++ [x]) f1 = (f2, Val (Ok tt)) →
  ∃ ca m1 d1 d2, m !! ca_path = Some (File ca) ∧ grown (prefixes [] od ++ [od]) m m1 ∧
    f2 = MkFs (<[od ++ [x] := File d2]> (<[od ++ [x] := File d1]> m1)) [] ∧
    load_config (od ++ [x]) f2 = (f2, Val (Ok (MkKubeconfig {["experiment" := (server, ca)]}
      {["experiment" := ("experiment", "anonymous")]}
      {["anonymous" := MkAuthInfo "anonymous" "" "" "" false false]} "experiment"))).
Proof.
  intros Hx Hcp. unfold write_kubeconfig. intros (fa & ca & Er%wrap_inv & E)%ebind_inv.
  unfold os_read_file, syscall in Er. simpl in Er. destruct (resolve m ca_path) as [[d|]|] eqn:Eres; [|done..].
  injection Er as <- <-. apply resolve_ok in Eres as [Hca _]. rewrite lookup_node_proper in Hca by done.
  apply ebind_inv in E as (fb & cfg & Emin%wrap_inv & E). unfold of_res in Emin.
  rewrite minify_law in Emin. injection Emin as <- <-.
  apply ebind_inv in E as (fc & [] & Emk%wrap_inv & E%wrap_inv). rewrite dir_of_snoc in Emk.
  apply mkdir_inv in Emk as (Hq & Hdirs & Hgrown); [|done]. destruct fc as [m1 sch]. unfold quiet in Hq.
  simpl in *. subst sch. pose proof (proper_snoc od x Hx) as Hp.
  destruct (write_law _ (od ++ [x]) m1 f1 Hp ltac:(rewrite dir_of_snoc; by apply dirs_resolve) E)
    as (d1 & -> & Hl1).
  unfold patch_kubeconfig_for_anonymous. intros (fd & c2 & El & Ew)%ebind_inv.
  rewrite Hl1 in El by (apply written_resolves; [done|by apply dirs_resolve]). injection El as <- <-.
  assert (Hdir : resolve (<[od ++ [x] := File d1]> m1) (dir_of (od ++ [x])) = Ok Dir).
  { rewrite dir_of_snoc. by apply dirs_resolve, dirs_child. }
  destruct (write_law _ (od ++ [x]) _ f2 Hp Hdir Ew) as (d2 & -> & Hl2).
  exists d, m1, d1, d2. split; [done|]. split; [done|]. split; [done|]. rewrite dir_of_snoc in Hdir.
  rewrite Hl2 by by apply written_resolves. cbn [kc_clusters kc_contexts kc_auth_infos kc_current].
  rewrite map_fmap_singleton. done.
Qed.

(** C35: when the preparation of the API server succeeds, a client that loads
    the kubeconfig it wrote gets the address that is served, an identity that
    asks no questions, and as its only trust the CA with which the serving
    certificate verifies, for the address bound and for the loopback names;
    whether the material was there before or was made. *)
Theorem kubeconfig_trusts bind_addr bind_port cert_dir data_dir kubeconfig_out m k s' od x :
  good_base (clean cert_dir) → (parse_ip bind_addr = None → valid_dns bind_addr) →
  clean kubeconfig_out = od ++ [x] → x ≠ "" → ¬ clean cert_dir `prefix_of` od →
  prepare bind_addr bind_port cert_dir data_dir kubeconfig_out (MkPki (MkFs m []) k) = (s', Val (Ok tt)) →
  serving (clean cert_dir) [bind_addr; "127.0.0.1"; "localhost"] (fs_nodes (pk_fs s')) ∧
  ∃ ca_pem c, fs_nodes (pk_fs s') !! (clean cert_dir ++ ["ca.crt"]) = Some (File ca_pem) ∧
    load_config (clean kubeconfig_out) (pk_fs s') = (pk_fs s', Val (Ok c)) ∧
    kc_contexts c !! kc_current c = Some ("experiment", "anonymous") ∧
    kc_clusters c = {["experiment" := (server_url bind_addr bind_port, ca_pem)]} ∧
    kc_auth_infos c = {["anonymous" := MkAuthInfo "anonymous" "" "" "" false false]}.
Proof.
  intros Hg Hv Hout Hx Hpre. unfold prepare. rewrite Hout.
  assert (Hmk : ∀ d f f', quiet f → make_dirs d f = (f', Val (Ok tt)) → quiet f').
  { intros d f f' Hq. unfold make_dirs. destruct (String.eqb d ""); [done|]. intros E. by apply mkdir_inv in E as [? _]. }
  intros (s1 & [] & (f1 & E1 & ->)%zoom_inv & E)%ebind_inv. apply Hmk in E1; [|done].
  apply ebind_inv in E as (s2 & [] & (f2 & E2 & ->)%zoom_inv & E). apply Hmk in E2; [|done].
  destruct f2 as [m2 sch]. unfold quiet in E2. simpl in *. subst sch.
  apply ebind_inv in E as (s3 & [] & E3%wrap_inv & E).
  apply ensure_serving in E3 as [Hs3 Hserve]; [|done|].
  2:{ constructor; [done|]. constructor; [|constructor; [by intros _; apply localhost_name|done]].
      pose proof loopback_literal as Hl. unfold has_loopback_ip in Hl. by destruct (parse_ip "127.0.0.1"). }
  destruct s3 as [[m3 sch3] k3]. simpl in *. subst sch3.
  apply ebind_inv in E as (s4 & [] & (f4 & E4 & ->)%wrap_inv%zoom_inv & E).
  apply wrap_inv, zoom_inv in E as (f5 & E5 & ->). simpl in *.
  rewrite paths_good in E4 by (done || (split; [done|]; split; [done|]; split; done)).
  assert (Hpc : proper (clean cert_dir ++ ["ca.crt"])) by by apply proper_snoc.
  destruct (kubeconfig_written od x _ _ _ _ _ Hx Hpc E4 E5)
    as (ca & m4 & d1 & d2 & Hca & Hgr & -> & Hl).
  assert (Hkeep : ∀ y n, m3 !! (clean cert_dir ++ [y]) = Some n →
    <[od ++ [x] := File d2]> (<[od ++ [x] := File d1]> m4) !! (clean cert_dir ++ [y]) = Some n).
  { intros y n Hn. assert (Hne : od ++ [x] ≠ clean cert_dir ++ [y]).
    { intros E. apply app_inj_tail in E as [-> _]. by apply Hpre. }
    rewrite !lookup_insert_ne by done. destruct (Hgr (clean cert_dir ++ [y])) as [->|(E & _)]; [done|congruence]. }
  split.
  - eapply serving_stays; [exact Hkeep| |exact Hserve].
    destruct (loopback_split [bind_addr; "127.0.0.1"; "localhost"]) as [extra ->]. set_solver.
  - eexists ca, _. split; [by apply Hkeep|]. split; [exact Hl|]. simpl. by rewrite lookup_singleton_eq.
Qed.
End trust.
