(* ===== verification/PkiSamples.v ===== *)
(** * Concrete certificates

    A certificate library that satisfies [PkiLaws]: DER is an injective
    encoding of the certificate, a clock that advances a second per reading,
    addresses written in digits and dots.  The witnesses of Pki run on it. *)

From stdpp Require Import countable.
From S2P Require Import Prelude GoStrings Fs Translate Pki.

(** ** Certificates as strings *)

Definition cert_tuple (c : cert string) :=
  (xc_serial c, xc_common_name _ c, (xc_not_before c, xc_not_after c),
   (xc_key_usage c, xc_ext_usage c), (xc_is_ca c, xc_basic_valid _ c), (xc_ips c, xc_dns c), xc_raw c).

Definition tuple_cert (x : Z * string * (Z * Z) * (list string * list string) * (bool * bool)
    * (list string * list string) * string) : cert string :=
  let '(a, b, (d, e), (f, g), (h, i), (j, k), l) := x in MkCert a b d e f g h i j k l.

#[export] Instance cert_eq_dec : EqDecision (cert string).
Proof. solve_decision. Defined.

#[export] Instance cert_countable : Countable (cert string).
Proof. apply (inj_countable' cert_tuple tuple_cert). by intros []. Defined.

Fixpoint bits (p : positive) : string :=
  match p with
  | xH => ""
  | xO p => String "0" (bits p)
  | xI p => String "1" (bits p)
  end.

Fixpoint unbits (s : string) : option positive :=
  match s with
  | "" => Some xH
  | String c s => p ← unbits s; if Ascii.eqb c "0" then Some (xO p) else Some (xI p)
  end.

Lemma unbits_bits p : unbits (bits p) = Some p.
Proof. induction p as [p IH|p IH|]; simpl; by rewrite ?IH. Qed.

(** ** Kubeconfigs as strings *)

(** A list of strings: a mark before each byte, another after each string. *)
Fixpoint pack_string (s rest : string) : string :=
  match s with
  | "" => String "." rest
  | String c s => String "-" (String c (pack_string s rest))
  end.
Definition pack (l : list string) : string := fold_right pack_string "" l.

Fixpoint unpack (s : string) : list string :=
  match s with
  | String m (String c s' as s1) =>
      if Ascii.eqb m "." then "" :: unpack s1
      else match unpack s' with x :: l => String c x :: l | [] => [] end
  | String _ "" => [""]
  | "" => []
  end.

Lemma unpack_pack l : unpack (pack l) = l.
Proof.
  induction l as [|x l IH]; [done|]. change (pack (x :: l)) with (pack_string x (pack l)).
  induction x as [|c x IHx]; cbn [pack_string].
  - destruct (pack l) eqn:E; [by rewrite <- IH|]. cbn [unpack]. by rewrite <- IH.
  - cbn [unpack]. by rewrite IHx.
Qed.

Definition bool_text (b : bool) : string := if b then "1" else "".
Definition text_bool (s : string) : bool := negb (String.eqb s "").

Definition pack_pairs (m : gmap string (string * string)) : string :=
  pack (map (λ '(k, (x, y)), pack [k; x; y]) (map_to_list m)).
Definition unpack_pairs (s : string) : gmap string (string * string) :=
  list_to_map (omap (λ e, match unpack e with [k; x; y] => Some (k, (x, y)) | _ => None end) (unpack s)).
Definition pack_auths (m : gmap string auth_info) : string :=
  pack (map (λ '(k, a), pack [k; ai_username a; ai_token a; ai_cert_data a; ai_cert a;
                              bool_text (ai_provider a); bool_text (ai_exec a)]) (map_to_list m)).
Definition unpack_auths (s : string) : gmap string auth_info :=
  list_to_map (omap (λ e, match unpack e with
    | [k; u; t; d; c; p; x] => Some (k, MkAuthInfo u t d c (text_bool p) (text_bool x))
    | _ => None end) (unpack s)).

Lemma entries_back {A} (f : string * A → string) (g : string → option (string * A)) (m : gmap string A) :
  (∀ e, g (f e) = Some e) → list_to_map (omap g (map f (map_to_list m))) = m.
Proof.
  intros Hgf. replace (omap g _) with (map_to_list m); [apply list_to_map_to_list|].
  induction (map_to_list m) as [|e l IH]; simpl; [done|]. rewrite Hgf. f_equal. exact IH.
Qed.

Lemma pairs_back m : unpack_pairs (pack_pairs m) = m.
Proof. unfold unpack_pairs, pack_pairs. rewrite unpack_pack. apply entries_back. intros [k [x y]]. by rewrite unpack_pack. Qed.

Lemma auths_back m : unpack_auths (pack_auths m) = m.
Proof.
  unfold unpack_auths, pack_auths. rewrite unpack_pack. apply entries_back.
  intros [k [u t d c p x]]. rewrite unpack_pack. by destruct p, x.
Qed.

Definition config_text (c : kubeconfig) : string :=
  pack [pack_pairs (kc_clusters c); pack_pairs (kc_contexts c); pack_auths (kc_auth_infos c); kc_current c].
Definition text_config (s : string) : option kubeconfig :=
  match unpack s with
  | [a; b; c; d] => Some (MkKubeconfig (unpack_pairs a) (unpack_pairs b) (unpack_auths c) d)
  | _ => None
  end.

Lemma config_back c : text_config (config_text c) = Some c.
Proof. destruct c. unfold text_config, config_text. rewrite unpack_pack. simpl. by rewrite !pairs_back, auths_back. Qed.

(** ** The library *)

Definition digit_or_dot (c : Ascii.ascii) : bool :=
  Ascii.eqb c "." || ((48 <=? Ascii.N_of_ascii c)%N && (Ascii.N_of_ascii c <=? 57)%N).
Fixpoint all_bytes (f : Ascii.ascii → bool) (s : string) : bool :=
  match s with "" => true | String c s => f c && all_bytes f s end.

Definition sample_parse_ip (s : string) : option string :=
  if negb (String.eqb s "") && all_bytes digit_or_dot s then Some s else None.

Definition der_of (tmpl : cert string) : string :=
  bits (encode (MkCert (xc_serial tmpl) (xc_common_name _ tmpl) (trunc_second (xc_not_before tmpl))
    (trunc_second (xc_not_after tmpl)) (xc_key_usage tmpl) (xc_ext_usage tmpl) (xc_is_ca tmpl)
    (xc_basic_valid _ tmpl) (xc_ips tmpl) (xc_dns tmpl) "")).

Definition sample_verify (now : Z) (ca c : cert string) : res unit :=
  if xc_is_ca ca && in_window now ca && in_window now c && bool_decide ("ServerAuth" ∈ xc_ext_usage c)
  then Ok tt else Err (ErrExt "x509: certificate signed by unknown authority").

(** The state is the clock. *)
#[export] Instance sample_pki : PkiLib Z nat string := {
  generate_key := λ k, (k, Val (Ok 7));
  rand_int := λ k, (k, Val (Ok 42%Z));
  read_clock := λ k, ((k + second)%Z, Val k);
  create_certificate tmpl _ _ _ := λ k, (k, Val (Ok (der_of tmpl)));
  parse_certificate s :=
    match (p ← unbits s; decode (A := cert string) p) with
    | Some c => Ok c
    | None => Err (ErrExt "x509: malformed certificate")
    end;
  marshal_key _ := "key";
  pem_encode typ d := "-----BEGIN-----" +:+ d;
  pem_decode s := if String.prefix "-----BEGIN-----" s then Some (str_drop 15 s) else None;
  verify_cert := sample_verify;
  verify_hostname c h := if bool_decide (h ∈ xc_dns c ++ xc_ips c) then Ok tt else Err (ErrExt "x509: host name");
  parse_ip := sample_parse_ip;
  ip_string ip := ip;
  is_loopback ip := String.prefix "127." ip;
  minify_config := Ok;
  write_config c p := let? _ := os_create p in os_write p (config_text c);
  load_config p := let? b := os_read_file p in
    match text_config b with
    | Some c => ok c
    | None => fail (ErrExt "kubeconfig: malformed")
    end }.

Lemma parse_der tmpl : parse_certificate (der_of tmpl)
  = Ok (MkCert (xc_serial tmpl) (xc_common_name _ tmpl) (trunc_second (xc_not_before tmpl))
    (trunc_second (xc_not_after tmpl)) (xc_key_usage tmpl) (xc_ext_usage tmpl) (xc_is_ca tmpl)
    (xc_basic_valid _ tmpl) (xc_ips tmpl) (xc_dns tmpl) "").
Proof. simpl. unfold der_of. rewrite unbits_bits. simpl. by rewrite decode_encode. Qed.

#[export] Instance sample_laws : PkiLaws Z nat string.
Proof.
  refine {| valid_dns := λ _, True |}; [by intros []|..|reflexivity|by split].
  - intros tmpl parent pub priv k k' der [= <- <-]. eexists. split; [apply parse_der|done].
  - intros ct ck k1 k1' cd ca tmpl key k2 k2' der c now [= <- <-] Eca [= <- <-] Ec Hca _ Hx H1 H2.
    rewrite parse_der in Eca, Ec. injection Eca as Eca. injection Ec as Ec.
    simpl. unfold sample_verify. rewrite H1, H2, <- Eca, <- Ec. simpl.
    by rewrite Hca, bool_decide_true.
  - intros c h Hh _. simpl. rewrite bool_decide_true; [done|set_solver].
  - intros c ip Hip. simpl. rewrite bool_decide_true; [done|set_solver].
Defined.

(** ** Witnesses *)

Lemma loopback_added_witness : ∃ extra,
  ensure_loopback ["web.example"; "127.0.0.2"] = ["web.example"; "127.0.0.2"] ++ extra ∧
  extra `sublist_of` ["localhost"; "127.0.0.1"] ∧
  "localhost" ∈ ensure_loopback ["web.example"; "127.0.0.2"] ∧
  (∃ h, h ∈ ensure_loopback ["web.example"; "127.0.0.2"] ∧ has_loopback_ip h = true) ∧
  ensure_loopback (ensure_loopback ["web.example"; "127.0.0.2"]) = ensure_loopback ["web.example"; "127.0.0.2"].
Proof. exact (loopback_added ["web.example"; "127.0.0.2"]). Defined.

Definition pki0 : pki_state Z := MkPki (MkFs ∅ []) (1000 * second)%Z.
Definition pki1 : pki_state Z := (ensure_server_cert ["pki"] ["web.example"] (3600 * second) pki0).1.

Example pki_made :
  ensure_server_cert ["pki"] ["web.example"] (3600 * second) pki0 = (pki1, Val (Ok tt)).
Proof. vm_compute. reflexivity. Qed.

(** The certificates are good from 940 s to 4540 s; the second call, at 1001 s
    and 1002 s, leaves the files. *)
Lemma ensure_idempotent_witness :
  read_clock (pk_ext pki1) = ((1002 * second)%Z, Val (1001 * second)%Z) ∧
  ensure_server_cert ["pki"] ["web.example"] (3600 * second) pki1
    = (MkPki (pk_fs pki1) (1003 * second)%Z, Val (Ok tt)).
Proof.
  split; [vm_compute; reflexivity|].
  destruct (ensure_idempotent ["pki"] ["web.example"] (3600 * second) pki0 pki1)
    as (ca & srv & Eca & Esrv & _ & Hagain).
  - apply Forall_singleton. vm_compute. repeat split; discriminate.
  - reflexivity.
  - apply Forall_singleton. intros _. exact I.
  - reflexivity.
  - vm_compute. reflexivity.
  - vm_compute in Eca, Esrv. injection Eca as <-. injection Esrv as <-.
    apply (Hagain (1002 * second)%Z (1003 * second)%Z (1001 * second)%Z (1002 * second)%Z);
      [vm_compute; reflexivity..|].
    intros t [->| ->]; split; vm_compute; reflexivity.
Defined.
