(* ===== verification/CommandSamples.v ===== *)
(** * The commands on concrete states

    Kubeconfigs are written with the encoding of PkiSamples; the preparation of
    the API server runs on an empty file system. *)

From S2P Require Import Prelude GoStrings Fs Translate Pki PkiSamples Commands.

#[export] Instance sample_config_laws : ConfigLaws Z nat string.
Proof.
  split; [done|]. intros c p m f' Hp Hd E. simpl in E.
  apply ebind_inv in E as (f1 & [] & E1 & E). unfold os_create, syscall, create_node in E1. simpl in E1.
  rewrite Hd, lookup_node_proper in E1 by done.
  assert (f1 = MkFs (<[p := File ""]> m) []) as -> by (by destruct (m !! p) as [[]|]; injection E1 as <-).
  unfold os_write, syscall in E. simpl in E. injection E as <-. exists (config_text c).
  split; [by rewrite insert_insert_eq|]. intros m' Hm'. simpl.
  erewrite ebind_ok; [|apply syscall_quiet; [done|]; simpl; by rewrite Hm'].
  cbv beta. by rewrite config_back.
Qed.

Definition prepared : pki_state Z * outcome (res unit) :=
  prepare "127.0.0.1" 6443 "run/pki" "data" "run/kubeconfig" pki0.

Example prepared_value : prepared.2 = Val (Ok tt).
Proof. vm_compute. reflexivity. Qed.

Lemma prepared_ok : prepared = (prepared.1, Val (Ok tt)).
Proof. rewrite <- prepared_value. apply surjective_pairing. Qed.

Lemma kubeconfig_trusts_witness :
  ∃ s', prepared = (s', Val (Ok tt)) ∧
    serving ["run"; "pki"] ["127.0.0.1"; "127.0.0.1"; "localhost"] (fs_nodes (pk_fs s')) ∧
    ∃ ca_pem c, fs_nodes (pk_fs s') !! ["run"; "pki"; "ca.crt"] = Some (File ca_pem) ∧
      kc_clusters c = {["experiment" := ("https://127.0.0.1:6443", ca_pem)]}.
Proof.
  pose proof prepared_ok as E. exists prepared.1. revert E. generalize prepared.1. intros s' E. split; [exact E|].
  destruct (kubeconfig_trusts "127.0.0.1" 6443 "run/pki" "data" "run/kubeconfig" ∅ (1000 * second)%Z s' ["run"] "kubeconfig")
    as [Hs (ca & c & Hca & _ & _ & Hc & _)].
  - apply Forall_cons_2; [|apply Forall_singleton]; vm_compute; repeat split; discriminate.
  - intros _. exact I.
  - reflexivity.
  - discriminate.
  - apply (bool_decide_unpack _). vm_compute. exact I.
  - exact E.
  - split; [exact Hs|]. exists ca, c. split; [exact Hca|exact Hc].
Defined.

(** The kubelet's set-up with clients that are there and no volume root. *)
Example kubelet_set_up :
  kubelet_setup (S := fs) id (λ f _, f) (λ s, Ok ("/" +:+ s)) (λ k, ok k) (λ ua c, ua +:+ c) (λ c, ok c) (ok tt)
    "kubeconfig" "" (MkFs ∅ [])
  = (MkFs ∅ [], Val (Ok ("kubelet-lite/v1kubeconfig", tt, None))) ∧
  (kubelet_setup (S := fs) id (λ f _, f) (λ s, Ok ("/" +:+ s)) (λ k, ok k) (λ ua c, ua +:+ c) (λ c, ok c) (ok tt)
    "kubeconfig" "vols" (MkFs ∅ [])).2 = Val (Ok ("kubelet-lite/v1kubeconfig", tt, Some [""; "vols"])).
Proof. split; vm_compute; reflexivity. Qed.
