(* ===== verification/KubeSamples.v ===== *)
(** * A concrete daemon and API client, and the kubelet's witnesses

    A small Docker daemon and API server with the behaviour [SDKLaws] and the
    theorems ask for, and the theorems about the kubelet applied to states on
    which the definitions evaluate. *)

From S2P Require Import Prelude GoStrings Fs Translate Projection Docker.
From S2P Require Import Reconciler ReconcilerFacts ReconcilerReap ReconcilerEnd.

(** ** The daemon *)

(** Containers by name: their labels, and whether they run.  The id of a
    container is its name after [id:].  Only names of the kubelet are shown.
    The parameter says whether containers start. *)
Record toy (starts : bool) := MkToy {
  t_images : gset string; t_boxes : gmap string (gmap string string * bool) }.
Arguments MkToy {starts}.
Arguments t_images {starts}.
Arguments t_boxes {starts}.

Section daemon.
Context {starts : bool}.
Abbreviation daemon_state := (toy starts).

Definition toy_show (n : string) (x : gmap string string * bool) : option dcontainer :=
  if has_prefix "klite_" n
  then Some (MkDContainer ("id:" +:+ n) x.1 (MkView ("id:" +:+ n) "img" "sha" x.2 5 0 0 false))
  else None.

Definition toy_daemon (d : daemon_state) : gmap string dcontainer := map_imap toy_show (t_boxes d).

Lemma toy_lookup (d : daemon_state) n : toy_daemon d !! n = t_boxes d !! n ≫= toy_show n.
Proof. apply map_lookup_imap. Qed.

Definition toy_name (ref : string) : string := trim_prefix "id:" ref.

(** The container a reference means. *)
Definition toy_find (d : daemon_state) (ref : string) : option (gmap string string * bool) :=
  if has_prefix "klite_" (toy_name ref) then t_boxes d !! toy_name ref else None.

Lemma has_prefix_split p s : has_prefix p s = true → ∃ t, s = p +:+ t.
Proof.
  revert s. induction p as [|a p IH]; intros s; [by exists s|]. destruct s as [|b s]; [done|].
  cbn [has_prefix]. intros [->%Ascii.eqb_eq [t ->]%IH]%andb_true_iff. by exists t.
Qed.

Lemma toy_refers (d : daemon_state) ref n c : toy_daemon d !! n = Some c → refers ref (n, c) = String.eqb (toy_name ref) n.
Proof.
  rewrite toy_lookup. destruct (t_boxes d !! n) as [x|]; [|done]. simpl. unfold toy_show.
  destruct (has_prefix "klite_" n) eqn:En; [|done]. intros [= <-].
  unfold refers, toy_name, trim_prefix. cbn [fst snd dc_id].
  destruct (has_prefix "id:" ref) eqn:Ei.
  - apply has_prefix_split in Ei as [t ->]. rewrite str_drop_append.
    change (String.eqb ("id:" +:+ t) (String "i" (String "d" (String ":" n)))) with (String.eqb t n).
    assert (En2 : String.eqb ("id:" +:+ t) n = false) by (apply String.eqb_neq; by intros <-).
    by rewrite En2.
  - assert (Ex : String.eqb ref ("id:" +:+ n) = false).
    { apply String.eqb_neq. intros ->. by rewrite has_prefix_app in Ei. }
    change (String "i" (String "d" (String ":" n))) with ("id:" +:+ n). by rewrite Ex, orb_false_r.
Qed.

Definition not_found : err := ErrExt "docker: not found".

(** Start or stop: set the flag of a container. *)
Definition toy_set (run : bool) (ref : string) : M daemon_state (res unit) := λ d,
  if run && negb starts then (d, Val (Err (ErrExt "docker: cannot start")))
  else match toy_find d ref with
  | Some x => (MkToy (t_images d) (<[toy_name ref := (x.1, run)]> (t_boxes d)), Val (Ok tt))
  | None => (d, Val (Err not_found))
  end.

Definition toy_inspect (ref : string) : M daemon_state (res inspect_json) := λ d,
  (d, Val (match toy_find d ref with
           | Some x => Ok (MkInspect ("id:" +:+ toy_name ref) "img" "sha"
                             (Some (MkInspectState x.2 0 false (Some 5%Z) None)))
           | None => Err not_found
           end)).

#[export] Instance toy_sdk : DockerSDK daemon_state := {|
  sdk_image_inspect ref := λ d, (d, Val (if bool_decide (ref ∈ t_images d) then Ok tt else Err not_found));
  sdk_image_pull ref := λ d, (MkToy ({[ref]} ∪ t_images d) (t_boxes d), Val (Ok (MkPullStream [] None false)));
  sdk_create cfg n := λ d,
    if negb (has_prefix "klite_" n) then (d, Val (Err (ErrExt "docker: bad name")))
    else match t_boxes d !! n with
         | Some _ => (d, Val (Err (ErrExt "docker: conflict")))
         | None => (MkToy (t_images d) (<[n := (dk_labels cfg, false)]> (t_boxes d)), Val (Ok ("id:" +:+ n)))
         end;
  sdk_start := toy_set true;
  sdk_remove ref := λ d,
    match toy_find d ref with
    | Some _ => (MkToy (t_images d) (delete (toy_name ref) (t_boxes d)), Val (Ok tt))
    | None => (d, Val (Err not_found))
    end;
  sdk_inspect := toy_inspect;
  sdk_stop ref _ := toy_set false ref;
  sdk_list := λ d, (d, Val (Ok
    (map (λ x, MkListEntry (dc_labels x.2) ["/" +:+ x.1])
       (List.filter (λ x, bool_decide (is_Some (dc_labels x.2 !! "io.k8s.pod.uid")))
          (map_to_list (toy_daemon d))))))
|}.

(** ** Its laws *)

Lemma toy_shown (d : daemon_state) n c : toy_daemon d !! n = Some c →
  dc_id c = "id:" +:+ n ∧ has_prefix "klite_" n = true ∧
  ∃ x, t_boxes d !! n = Some x ∧ toy_show n x = Some c.
Proof.
  rewrite toy_lookup. destruct (t_boxes d !! n) as [x|]; [|done]. simpl. intros E. pose proof E as E'.
  unfold toy_show in E. destruct (has_prefix "klite_" n) eqn:Ep; [|done]. injection E as <-. split; [done|]. split; [done|]. by exists x.
Qed.

Lemma toy_find_none (d : daemon_state) ref : toy_find d ref = None →
  ∀ n c, toy_daemon d !! n = Some c → refers ref (n, c) = false.
Proof.
  intros Hf n c Hc. rewrite (toy_refers d) by done. apply String.eqb_neq. intros E.
  apply toy_shown in Hc as (_ & Hp & x & Hx & _). unfold toy_find in Hf. rewrite E, Hp in Hf. congruence.
Qed.

Lemma toy_find_some (d : daemon_state) ref x : toy_find d ref = Some x →
  ∃ c, toy_daemon d !! toy_name ref = Some c ∧ refers ref (toy_name ref, c) = true ∧
       toy_show (toy_name ref) x = Some c.
Proof.
  unfold toy_find. destruct (has_prefix "klite_" (toy_name ref)) eqn:Ep; [|done]. intros Hx.
  assert (Hs : ∃ c, toy_show (toy_name ref) x = Some c) by (unfold toy_show; rewrite Ep; eauto).
  destruct Hs as [c Hc]. exists c.
  assert (Hd : toy_daemon d !! toy_name ref = Some c) by (rewrite toy_lookup, Hx; done).
  split; [done|]. split; [|done]. by rewrite (toy_refers d), String.eqb_refl.
Qed.

Lemma toy_set_law run ref (d : daemon_state) : ∃ d' r, toy_set run ref d = (d', Val r) ∧
  (∀ n, match toy_daemon d !! n, toy_daemon d' !! n with
        | Some c, Some c' => dc_id c' = dc_id c ∧ dc_labels c' = dc_labels c ∧
                             (refers ref (n, c) = false → c' = c)
        | None, None => True
        | _, _ => False
        end).
Proof.
  unfold toy_set. destruct (run && negb starts).
  { eexists _, _. split; [done|]. intros n. by destruct (toy_daemon d !! n). }
  destruct (toy_find d ref) as [x|] eqn:E.
  - eexists _, _. split; [done|]. intros n. destruct (toy_find_some d ref x E) as (c & Hc & Href & Hs).
    destruct (decide (n = toy_name ref)) as [->|Hn].
    + rewrite Hc, toy_lookup. simpl. rewrite lookup_insert_eq. simpl. unfold toy_show in *.
      destruct (has_prefix "klite_" (toy_name ref)); [|done]. injection Hs as <-. simpl.
      split; [done|]. split; [done|]. congruence.
    + rewrite !toy_lookup. simpl. rewrite lookup_insert_ne by done.
      by destruct (t_boxes d !! n ≫= toy_show n).
  - eexists _, _. split; [done|]. intros n. by destruct (toy_daemon d !! n).
Qed.

#[export] Program Instance toy_laws : SDKLaws daemon_state := {|
  daemon := toy_daemon;
  daemon_images := t_images
|}.
Next Obligation.
  intros d n1 c1 n2 c2 (E1 & _)%toy_shown (E2 & _)%toy_shown E. rewrite E1, E2 in E. by injection E.
Qed.
Next Obligation. intros d n c (-> & _)%toy_shown. rewrite toy_lookup.
  by destruct (t_boxes d !! ("id:" +:+ n)). Qed.
Next Obligation. by intros d n c (-> & _)%toy_shown. Qed.
Next Obligation.
  intros ref d. eexists _, _. split; [reflexivity|]. split; [done|]. split; [done|].
  case_bool_decide; [done|by intros _].
Qed.
Next Obligation. intros ref d. eexists _, _. split; [reflexivity|]. split; [done|]. intros _ _. simpl. set_solver. Qed.
Next Obligation.
  intros cfg n d. cbn [sdk_create toy_sdk]. destruct (has_prefix "klite_" n) eqn:Ep; cbn [negb];
    [|eexists _, _; split; [reflexivity|done]].
  destruct (t_boxes d !! n) eqn:Eb; [eexists _, _; split; [reflexivity|done]|]. eexists _, _. split; [reflexivity|].
  split; [by rewrite toy_lookup, Eb|].
  exists (MkDContainer ("id:" +:+ n) (dk_labels cfg) (MkView ("id:" +:+ n) "img" "sha" false 5 0 0 false)).
  split; [done|]. split; [done|]. apply map_eq. intros k. rewrite toy_lookup. simpl.
  destruct (decide (k = n)) as [->|Hk].
  - rewrite !lookup_insert_eq. simpl. unfold toy_show. by rewrite Ep.
  - by rewrite !lookup_insert_ne, toy_lookup by done.
Qed.
Next Obligation. intros ref d. apply toy_set_law. Qed.
Next Obligation.
  intros ref d. simpl. destruct (toy_find d ref) as [x|] eqn:E.
  - eexists _, _. split; [reflexivity|]. apply map_eq. intros n. rewrite toy_lookup. simpl.
    destruct (decide (n = toy_name ref)) as [->|Hn].
    + rewrite lookup_delete_eq. symmetry. apply map_lookup_filter_None. right. intros c Hc.
      by rewrite (toy_refers d), String.eqb_refl.
    + rewrite lookup_delete_ne, <- toy_lookup by done. destruct (toy_daemon d !! n) as [c|] eqn:Ec; symmetry.
      * apply map_lookup_filter_Some. split; [done|]. rewrite (toy_refers d) by done.
        apply String.eqb_neq. auto.
      * apply map_lookup_filter_None. by left.
  - eexists _, _. split; [reflexivity|]. split; [done|]. intros _. by apply toy_find_none.
Qed.
Next Obligation.
  intros ref d. eexists _, _. split; [reflexivity|]. split; [done|].
  destruct (toy_find d ref) as [x|] eqn:E; [|intros _; by apply toy_find_none].
  destruct (toy_find_some d ref x E) as (c & Hc & Href & Hs). exists (toy_name ref), c.
  split; [done|]. split; [done|]. unfold toy_show in Hs.
  destruct (has_prefix "klite_" (toy_name ref)); [|done]. injection Hs as <-. done.
Qed.
Next Obligation. intros ref secs d. apply toy_set_law. Qed.
Next Obligation. intros d. eexists _, _. split; [reflexivity|]. by split. Qed.
End daemon.

(** ** The API server, the lister and the queue *)

Record toy_kube := MkTK {
  tk_cms : gmap string config_map; tk_secrets : gmap string secret;
  tk_phases : list phase; tk_deleted : list string }.

Definition api_not_found : err := ErrExt "NotFound".

Definition found {A} (o : option A) : res A :=
  match o with Some a => Ok a | None => Err api_not_found end.

#[export] Instance toy_api : KubeAPI toy_kube := {|
  get_config_map _ n := λ k, (k, Val (found (tk_cms k !! n)));
  get_secret _ n := λ k, (k, Val (found (tk_secrets k !! n)));
  patch_pod_status _ _ st := λ k,
    (MkTK (tk_cms k) (tk_secrets k) (tk_phases k ++ [ps_phase st]) (tk_deleted k), Val (Ok tt));
  delete_pod _ n _ := λ k,
    (MkTK (tk_cms k) (tk_secrets k) (tk_phases k) (tk_deleted k ++ [n]), Val (Ok tt));
  create_event _ := λ k, (k, Val (Ok tt))
|}.

Lemma toy_kube_returns : kube_returns (K := toy_kube).
Proof. repeat split; intros; by eexists _, _. Qed.

#[export] Instance toy_lister : PodLister (list pod) := {|
  lister_get l ns n := found (List.find (λ p, String.eqb (pod_key p) (ns +:+ "/" +:+ n)) l);
  lister_list l := Ok l
|}.

#[export] Instance toy_queue : WorkQueue (list string) := {|
  queue_get := λ q, match q with [] => (q, Val None) | k :: q' => (q', Val (Some k)) end;
  queue_add k := λ q, (q ++ [k], Val tt);
  queue_add_rate_limited k := λ q, (q ++ [k], Val tt);
  queue_forget _ := ret tt;
  queue_done _ := ret tt;
  queue_shut_down := ret tt
|}.

Lemma toy_reliable : reliable (D := toy true).
Proof.
  split; [|split].
  - intros ref pol d d' r [->| ->]; cbn; unfold bind, ebind, image_exists, pull, bind; cbn.
    + by intros [= _ <-].
    + case_bool_decide; cbn; by intros [= _ <-].
  - intros n d d' r. cbn. unfold rt_inspect, bind. cbn. destruct (toy_find d n); by intros [= _ <-].
  - intros n sp d d' r Hn Hnone. change (toy_daemon d !! n = None) in Hnone. rewrite toy_lookup in Hnone.
    cbn [create_and_start dockerRT]. unfold rt_create_and_start, bind. cbn [sdk_create toy_sdk].
    rewrite Hn. cbn [negb]. destruct (t_boxes d !! n) as [x|].
    { simpl in Hnone. unfold toy_show in Hnone. by rewrite Hn in Hnone. }
    cbn [sdk_start toy_sdk]. unfold toy_set, toy_find. cbn [andb negb].
    change (toy_name ("id:" +:+ n)) with n. rewrite Hn. cbn [t_boxes]. rewrite lookup_insert_eq.
    by intros [= _ <-].
Qed.

(** ** States *)

Abbreviation toy_state := (rstate toy_kube (toy true) (list pod) (list string)).

Definition k_sys (e : err) : string := "error".
Definition k_dur (z : Z) : string := "30s".
Definition k_uuid (n : N) : string := "11111111-1111-1111-1111-111111111111".
Definition k_root : option path := Some ["vols"].

Definition kube0 : toy_kube := MkTK ∅ ∅ [] [].
(** A daemon with a container of [ex_pod], one of a Pod that is gone, and one
    that is not the kubelet's. *)
Definition labels_of (uid name : string) : gmap string string :=
  <["io.k8s.pod.uid" := uid]> (<["io.k8s.container.name" := name]> ∅).
Definition toy0 {b} : toy b := MkToy ∅
  (<["klite_u1_a" := (labels_of "u1" "a", true)]>
  (<["klite_u2_x" := (labels_of "u2" "x", true)]>
  (<["klite_other" := (∅, true)]> ∅))).
Definition rs0 : toy_state := MkR kube0 (MkFs ∅ []) toy0 [ex_pod] [] (<["u1" := "boom"]> ∅) 0.

Definition run_reconcile (p : pod) (s : toy_state) : toy_state * outcome (res unit) :=
  reconcile_pod k_root 100 Z.of_N k_uuid k_sys k_dur map_to_list p s.

(** Does the daemon show exactly these names? *)
Definition shows (ns : list string) (s : toy_state) : bool :=
  bool_decide (list_to_set ns = (dom (toy_daemon (rs_docker s)) : gset string)).

(** ** The reconciler *)

Lemma reconcile_only_adds_witness :
  shows ["klite_u1_a"; "klite_u1_b"; "klite_u2_x"; "klite_other"] (run_reconcile ex_pod rs0).1 = true ∧
  boxes rs0 ⊆ boxes (run_reconcile ex_pod rs0).1.
Proof.
  split; [vm_compute; reflexivity|].
  exact (proj1 (reconcile_only_adds k_root 100 Z.of_N k_uuid k_sys k_dur map_to_list ex_pod rs0 eq_refl)).
Defined.

Lemma ex_pod_pullable :
  Forall (λ c, pullable (resolve_pull_policy (c_pull_policy c) (c_image c))) (p_containers ex_pod).
Proof. repeat constructor. Qed.

Lemma ex_pod_specs : ∃ s1 specs, specs_of k_root map_to_list ex_pod rs0 = (s1, Val (Ok specs)).
Proof. eexists _, _. reflexivity. Qed.

Lemma reconcile_converges_witness :
  ∃ s' r, run_reconcile ex_pod rs0 = (s', Val r) ∧
    ∀ c, c ∈ p_containers ex_pod → is_Some (boxes s' !! container_name "u1" (c_name c)).
Proof.
  destruct ex_pod_specs as (s1 & specs & E).
  destruct (reconcile_converges k_root 100 Z.of_N k_uuid k_sys k_dur map_to_list toy_kube_returns
              ex_pod rs0 s1 specs toy_reliable ltac:(discriminate) eq_refl ex_pod_pullable E)
    as (s' & r & E' & Hall & _).
  exists s', r. split; [exact E'|exact Hall].
Defined.

Lemma failure_reported_once_witness :
  ∃ s' r, mark_failed_once ex_pod "bang" rs0 = (s', Val r) ∧
    (is_ok r = true → mark_failed_once ex_pod "bang" s' = (s', Val (Ok tt))).
Proof.
  destruct (failure_reported_once toy_kube_returns ex_pod "bang" rs0) as (s' & r & k' & E & _ & _ & _ & H).
  { vm_compute. discriminate. }
  exists s', r. split; [exact E|exact H].
Defined.

Lemma recovered_failure_unreported_witness :
  ∃ s' r, run_reconcile ex_pod rs0 = (s', Val r) ∧ mark_failed_once ex_pod "boom" s' = (s', Val (Ok tt)).
Proof.
  destruct ex_pod_specs as (s1 & specs & E).
  destruct (recovered_failure_unreported k_root 100 Z.of_N k_uuid k_sys k_dur map_to_list toy_kube_returns
              ex_pod "boom" rs0 s1 specs eq_refl toy_reliable ltac:(discriminate) eq_refl ex_pod_pullable E)
    as (s' & r & k & views & k' & E' & _ & H).
  exists s', r. split; [exact E'|exact H].
Defined.

(** ** Reaping *)

Lemma reap_removes_pod_witness :
  ∃ s' r, reap_by_uid k_root "u2" rs0 = (s', Val r) ∧
    ∀ n c, boxes rs0 !! n = Some c → uid_of c ≠ "u2" → boxes s' !! n = Some c.
Proof.
  destruct (reap_removes_pod k_root "u2" rs0 ltac:(discriminate) eq_refl) as (s' & r & E & H & _).
  exists s', r. split; [exact E|exact H].
Defined.

Lemma orphans_reaped_witness :
  shows ["klite_u1_a"; "klite_other"] (reap_orphans k_root map_to_list rs0).1 = true ∧
  ∃ s' r, reap_orphans k_root map_to_list rs0 = (s', Val r) ∧
    ∀ n, boxes rs0 !! n = None → boxes s' !! n = None.
Proof.
  split; [vm_compute; reflexivity|].
  destruct (orphans_reaped k_root map_to_list (λ g, Permutation_refl _) rs0 eq_refl) as (s' & r & E & H & _).
  exists s', r. split; [exact E|exact H].
Defined.

(** ** Terminating *)

Definition deleted_pod : pod :=
  MkPod "u1" "default" "web" true (Some 5%Z) [ex_container "a"; ex_container "b"] [].

Definition rs_rec : rstate (toy_kube * list kube_call) (toy true * list docker_call) (list pod) (list string) :=
  MkR (kube0, []) (MkFs ∅ []) (toy0, []) [] [] ∅ 0.

Lemma terminate_in_reverse_witness :
  ∃ s' r did rest, terminate_pod Z.of_N k_uuid k_dur deleted_pod rs_rec = (s', Val r) ∧
    ["klite_u1_b"; "klite_u1_a"] = did ++ rest ∧
    calls s' = flat_map (λ n, CInspect n :: (if bool_decide (is_Some (there rs_rec !! n))
                                    then [CStop n 5000000000] else [])) did ++
      match rest with [] => [] | n :: _ => [CInspect n] end.
Proof.
  destruct (terminate_in_reverse Z.of_N k_uuid k_dur toy_kube_returns deleted_pod rs_rec
              ltac:(discriminate)) as (s' & r & did & rest & E & Hn & Hc & _).
  exists s', r, did, rest. split; [exact E|]. split; [exact Hn|exact Hc].
Defined.

(** Both containers are asked about, the one that exists stopped, the Pod deleted. *)
Example terminate_runs :
  let s' := (terminate_pod Z.of_N k_uuid k_dur deleted_pod rs_rec).1 in
  calls s' = [CInspect "klite_u1_b"; CInspect "klite_u1_a"; CStop "klite_u1_a" 5000000000] ∧
  deletes (requests s') = [KDelete "default" "web" 0].
Proof. split; vm_compute; reflexivity. Qed.

(** ** The runtime *)

Lemma ensure_pulled_policy_witness :
  ∃ d' r, rt_ensure_pulled "img" "Never" (toy0 (b := true)) = (d', Val r) ∧ is_ok r = false.
Proof.
  destruct (ensure_pulled_policy "img" "Never" (toy0 (b := true))) as (d' & r & E & _ & H & _).
  exists d', r. split; [exact E|]. apply H; [reflexivity|]. simpl. set_solver.
Defined.

(** On a daemon that starts nothing. *)
Definition sick_spec : container_spec := spec_of ex_pod "" 0 (ex_container "c") [] [].

Lemma failed_start_leaves_nothing_witness :
  let d := toy0 (b := false) in
  ∃ d' e, rt_create_and_start "klite_u1_c" sick_spec d = (d', Val (Err e)) ∧
    (dom (toy_daemon d') = dom (toy_daemon d)
     ∨ ∃ id d1 e1, sdk_remove id d1 = (d', Val (Err e1))).
Proof.
  intros d. assert (E : ∃ d' e, rt_create_and_start "klite_u1_c" sick_spec d = (d', Val (Err e)))
    by (eexists _, _; reflexivity).
  destruct E as (d' & e & E). exists d', e. split; [exact E|].
  exact (failed_start_leaves_nothing "klite_u1_c" sick_spec d d' e eq_refl E).
Defined.

(** ** Environments and volumes *)

Definition kube1 : toy_kube := MkTK (<["cm" := MkConfigMap (<["k" := "v"]> ∅) ∅]> ∅) ∅ [] [].

Definition env_container : container :=
  MkContainer "a" "img" [] [] "" ""
    [MkEnvVar "X" "1" None; MkEnvVar "Y" "" (Some (MkValueFrom (Some (MkKeyRef "cm" "k" None)) None))]
    [MkEnvFrom "P_" (Some (MkObjectRef "cm" None)) None] [].

Lemma resolve_env_total_witness :
  resolve_env "default" env_container kube1 = (kube1, Val (Ok ["P_k=v"; "X=1"; "Y=v"])) ∧
  ∃ r, resolve_env "default" env_container kube1 = (kube1, Val r).
Proof.
  split; [vm_compute; reflexivity|].
  destruct (@resolve_env_total toy_kube toy_api "default" kube1 (λ n, found (tk_cms kube1 !! n))
              (λ n, found (tk_secrets kube1 !! n)) ltac:(reflexivity) ltac:(reflexivity) env_container)
    as (r & E & _).
  exists r. exact E.
Defined.

(** A volume whose directory holds a stale key. *)
Definition old_volume : gmap path node :=
  <[["vols"] := Dir]> (<[["vols"; "old"] := File "x"]> ∅).
Definition new_keys : gmap string string := <["k" := "v"]> ∅.

Lemma new_keys_good k b : new_keys !! k = Some b → good_key k.
Proof.
  unfold new_keys. intros [[<- _]|[_ E]]%lookup_insert_Some; [by apply (bool_decide_unpack _); vm_compute|].
  by rewrite lookup_empty in E.
Qed.

Lemma projection_exact_witness :
  ∃ m', write_key_files map_to_list ["vols"] new_keys (MkFs old_volume []) = (MkFs m' [], Val (Ok tt)) ∧
    ∀ k, m' !! ["vols"; k] = File <$> new_keys !! k.
Proof.
  destruct (projection_exact map_to_list (λ m, Permutation_refl _) ["vols"] new_keys
              ltac:(apply (bool_decide_unpack _); vm_compute; exact I) new_keys_good old_volume)
    as (m' & E & H & _).
  - apply Forall_cons_2; [done|apply Forall_nil_2].
  - reflexivity.
  - intros k n. unfold old_volume. intros [[E _]|[_ [[E E2]|[_ E]]%lookup_insert_Some]]%lookup_insert_Some.
    + discriminate E.
    + injection E as <-. split; [apply (bool_decide_unpack _); vm_compute; exact I|]. by exists "x".
    + by rewrite lookup_empty in E.
  - exists m'. split; [exact E|exact H].
Defined.
