(* ===== verification/KubeRaceSamples.v ===== *)
(** * The kubelet's goroutines on the concrete daemon

    The witnesses of KubeRaces: the daemon of KubeSamples with turns of the
    other goroutines, one that creates a container and one that removes one. *)

From S2P Require Import Prelude GoStrings Fs Translate Projection Docker.
From S2P Require Import Reconciler ReconcilerFacts ReconcilerReap KubeRaces KubeSamples.

Abbreviation daemon_true := (toy true).

(** The worker creates the second container of [ex_pod]; the reaper removes the
    container of the Pod that is gone. *)
Definition turn_create (d : daemon_true) : daemon_true :=
  MkToy (t_images d) (<["klite_u1_b" := (labels_of "u1" "b", true)]> (t_boxes d)).
Definition turn_remove (d : daemon_true) : daemon_true :=
  MkToy (t_images d) (delete "klite_u2_x" (t_boxes d)).

Definition rs_shared (turns : list (daemon_true → daemon_true))
  : rstate toy_kube (shared daemon_true) (list pod) (list string) :=
  MkR kube0 (MkFs ∅ []) (MkShared toy0 turns) [ex_pod] [] ∅ 0.

(** A container of a known Pod. *)
Definition first_there (m : gmap string dcontainer) : Prop := is_Some (m !! "klite_u1_a").

Lemma first_kept turns : Forall (λ t, t = turn_create ∨ t = turn_remove) turns → kept first_there turns.
Proof.
  unfold kept. intros Hts. eapply Forall_impl; [exact Hts|]. intros t Ht d. unfold first_there.
  change (is_Some (toy_daemon d !! "klite_u1_a") → is_Some (toy_daemon (t d) !! "klite_u1_a")).
  destruct Ht as [->| ->]; rewrite !toy_lookup; simpl;
    [rewrite lookup_insert_ne by done|rewrite lookup_delete_ne by done]; done.
Qed.

Lemma toy_klite (d : daemon_true) n c : toy_daemon d !! n = Some c → klite n.
Proof. by intros (_ & Hp & _)%toy_shown. Qed.

Lemma reaper_spares_witness :
  let s := rs_shared [turn_create; turn_create] in
  wp (reap_orphans k_root map_to_list) (λ s' o, first_there (there s') ∧
     (o = Val (Ok tt) → removes_all (D := daemon_true) →
      ∀ n, doomed (next_docker (rs_docker s)) (map p_uid [ex_pod]) n →
      kept (absent n) (sh_turns (rs_docker s)) → there s' !! n = None)) s.
Proof.
  intros s. apply (reaper_spares k_root map_to_list (λ g, Permutation_refl _) first_there s [ex_pod]).
  - reflexivity.
  - intros n c Hc _. exact (toy_klite _ n c Hc).
  - intros m m' Hm. unfold first_there. rewrite Hm; [done|]. intros (c & Hc & _ & Hu). apply Hu.
    assert (E : toy_daemon (turn_create toy0) !! "klite_u1_a"
      = Some (MkDContainer "id:klite_u1_a" (labels_of "u1" "a") (MkView "id:klite_u1_a" "img" "sha" true 5 0 0 false)))
      by (vm_compute; reflexivity).
    change (toy_daemon (turn_create toy0) !! "klite_u1_a" = Some c) in Hc. rewrite E in Hc. injection Hc as <-.
    change (uid_of _) with "u1". by left.
  - unfold first_there. change (is_Some (toy_daemon (turn_create toy0) !! "klite_u1_a")).
    vm_compute. by eexists.
  - apply first_kept. repeat (apply Forall_cons_2; [by left|]). apply Forall_nil_2.
Defined.

(** The worker on [ex_pod], which owns both of its names: a container of another
    Pod stays away. *)
Lemma other_absent turns : Forall (λ t, t = turn_remove) turns → kept (absent "klite_u2_x") turns.
Proof.
  unfold kept. intros Hts. eapply Forall_impl; [exact Hts|]. intros t -> d. unfold absent.
  change (toy_daemon d !! "klite_u2_x" = None → toy_daemon (turn_remove d) !! "klite_u2_x" = None).
  rewrite !toy_lookup. simpl. by rewrite lookup_delete_eq.
Qed.

Definition rs_removed : rstate toy_kube (shared daemon_true) (list pod) (list string) :=
  MkR kube0 (MkFs ∅ []) (MkShared (turn_remove toy0) [turn_remove; turn_remove]) [ex_pod] [] ∅ 0.

Lemma worker_spares_witness :
  wp (reconcile_pod k_root 100 Z.of_N k_uuid k_sys k_dur map_to_list ex_pod)
     (λ s' _, absent "klite_u2_x" (there s')) rs_removed.
Proof.
  apply (worker_spares k_root 100 Z.of_N k_uuid k_sys k_dur map_to_list ex_pod (absent "klite_u2_x") rs_removed).
  - intros m m' Hm. unfold absent. rewrite Hm; [done|]. intros (c & Hc & En).
    apply list_elem_of_In in Hc. simpl in Hc. destruct Hc as [<-|[<-|[]]]; discriminate En.
  - discriminate.
  - vm_compute. reflexivity.
  - apply other_absent. repeat (apply Forall_cons_2; [done|]). apply Forall_nil_2.
Defined.

(** A daemon with nothing of [ex_pod]. *)
Definition toy_clean : daemon_true := MkToy ∅ (<["klite_u2_x" := (labels_of "u2" "x", true)]> ∅).
Definition rs_clean : rstate toy_kube (toy true) (list pod) (list string) :=
  MkR kube0 (MkFs ∅ []) toy_clean [] [] ∅ 0.

Lemma leaked_until_reaped_witness :
  ∃ s1, on_delete k_root (OPod ex_pod) rs_clean = (s1, Val tt) ∧
    ∃ s2 r, reconcile_pod k_root 100 Z.of_N k_uuid k_sys k_dur map_to_list ex_pod s1 = (s2, Val r) ∧
      ∀ c, c ∈ p_containers ex_pod → is_Some (boxes s2 !! container_name "u1" (c_name c)).
Proof.
  destruct (leaked_until_reaped k_root 100 Z.of_N k_uuid k_sys k_dur map_to_list map_to_list
    (λ g, Permutation_refl _) toy_kube_returns ex_pod rs_clean toy_reliable) as (s1 & E1 & _ & H).
  - discriminate.
  - reflexivity.
  - exact ex_pod_pullable.
  - intros n c. change (boxes rs_clean) with (toy_daemon toy_clean). rewrite toy_lookup. simpl.
    intros Hc. destruct (decide (n = "klite_u2_x")) as [->|Hn].
    + rewrite lookup_insert_eq in Hc. simpl in Hc. injection Hc as <-. discriminate.
    + by rewrite lookup_insert_ne, lookup_empty in Hc.
  - exists s1. split; [exact E1|].
    assert (Hs : ∃ s1' specs, specs_of k_root map_to_list ex_pod s1 = (s1', Val (Ok specs))).
    { assert (E2 : s1 = (on_delete k_root (OPod ex_pod) rs_clean).1) by (by rewrite E1). rewrite E2.
      eexists _, _. vm_compute. reflexivity. }
    destruct Hs as (s1' & specs & Hs). destruct (H s1' specs Hs) as (s2 & r & E & Hall & _).
    exists s2, r. split; [exact E|exact Hall].
Defined.
