(* ===== verification/WorkerSamples.v ===== *)
(** * A start of the kubelet on concrete states

    A queue that is its own view satisfies the laws of the work queue; the
    kubelet starts on a daemon that holds a container of a Pod that is gone,
    one of a live Pod and one that is not the kubelet's, with a live Pod and a
    Pod being deleted in the lister. *)

From S2P Require Import Prelude GoStrings Fs Translate Projection Docker.
From S2P Require Import Reconciler ReconcilerFacts ReconcilerReap KubeReturns Worker.
From S2P Require Import KubeSamples.

(** ** The queue and the lister *)

#[export] Instance view_queue : WorkQueue queue_view := {|
  queue_get := λ v, match view_get v with
                    | Some (k, v') => (v', Val (Some k))
                    | None => (v, if qv_down v then Val None else Stuck Deadlocked)
                    end;
  queue_add k := modify (view_add k);
  queue_add_rate_limited k := modify (view_later k);
  queue_forget _ := ret tt;
  queue_done k := modify (view_done k);
  queue_shut_down := modify view_down
|}.

#[export] Program Instance view_queue_laws : WorkQueueLaws queue_view := {| view := λ v, v |}.
Next Obligation.
  intros v. simpl. destruct (view_get v) as [[k v']|] eqn:E; [by exists v'|].
  intros Hd. exists v. by rewrite Hd.
Qed.
Next Obligation. intros k v. by eexists. Qed.
Next Obligation. intros k v. by eexists. Qed.
Next Obligation. intros k v. by eexists. Qed.
Next Obligation. intros k v. by eexists. Qed.
Next Obligation. intros v. by eexists. Qed.

Lemma find_key (l : list pod) p : p ∈ l → NoDup (map pod_key l) →
  List.find (λ x, String.eqb (pod_key x) (pod_key p)) l = Some p.
Proof.
  induction l as [|x l IH]; [by intros ?%elem_of_nil|]. intros Hp Hnd.
  change (NoDup (pod_key x :: map pod_key l)) in Hnd. apply NoDup_cons in Hnd as [Hx Hnd]. simpl.
  destruct (String.eqb_spec (pod_key x) (pod_key p)) as [E|E]; apply elem_of_cons in Hp as [->|Hp]; try done.
  - destruct Hx. rewrite E. by apply list_elem_of_fmap_2.
  - by apply IH.
Qed.

#[export] Program Instance toy_lister_laws : PodListerLaws (list pod).
Next Obligation.
  intros l pods p [= <-] Hp Hnd. cbn [lister_get toy_lister]. fold (pod_key p). by rewrite (find_key l p).
Qed.

(** ** The state *)

(** A key of the examples, taken apart. *)
Definition ex_split (key : string) : res (string * string) :=
  match index_of key "/" with
  | None => Ok ("", key)
  | Some i => Ok (str_take i key, str_drop (S i) key)
  end.

Definition gone_pod : pod := MkPod "u3" "default" "db" true None [ex_container "c"] [].
Definition start_pods : list pod := [ex_pod; gone_pod].
Definition start_queue : queue_view :=
  MkQV ["default/db"; "default/web"] {["default/db"; "default/web"]} ∅ [] false.

Abbreviation start_state := (rstate toy_kube (toy true) (list pod) queue_view).
Definition rs_start : start_state := MkR kube0 (MkFs ∅ []) toy0 start_pods start_queue ∅ 0.

Definition calm_toy (_ : toy_kube) (f : fs) : Prop := quiet f.

Lemma calm_request {A} (m : M toy_kube A) : (∀ k, ∃ k' a, m k = (k', Val a)) →
  ∀ f, returns (λ k, calm_toy k f) m.
Proof. intros Hm f k Hk. unfold wp. destruct (Hm k) as (k' & a & ->). split; [done|by eexists]. Qed.

Lemma ex_specs p : p ∈ start_pods → p_deleting p = false → ∀ s : start_state,
  ∃ specs, specs_of k_root map_to_list p s = (s, Val (Ok specs)).
Proof.
  intros [->|[->|[]%elem_of_nil]%elem_of_cons]%elem_of_cons Hlive s; [|done].
  destruct s. eexists. reflexivity.
Qed.

Lemma ex_specs_return p : p ∈ start_pods → p_deleting p = false →
  returns (calm calm_toy) (specs_of k_root map_to_list p : M start_state _).
Proof. intros Hp Hlive s Hs. unfold wp. destruct (ex_specs p Hp Hlive s) as [specs ->]. split; [done|by eexists]. Qed.

Lemma start_split p : p ∈ start_pods → ex_split (pod_key p) = Ok (p_namespace p, p_name p).
Proof. by intros [->|[->|[]%elem_of_nil]%elem_of_cons]%elem_of_cons. Qed.

Lemma start_keys : NoDup (map pod_key start_pods).
Proof. by apply (bool_decide_unpack _). Qed.

Lemma start_settled : settled start_queue.
Proof. split; [done|]. split; by apply (bool_decide_unpack _). Qed.

Lemma toy_removes_all : removes_all (D := toy true).
Proof.
  intros n d d' r. cbn. unfold rt_remove, bind. cbn. destruct (toy_find d n); by intros [= _ <-].
Qed.

Lemma toy_lists (d d' : toy true) r : list_managed d = (d', Val r) → is_ok r = true.
Proof. cbn. unfold rt_list_managed, bind. cbn. by intros [= _ <-]. Qed.

Definition run_start (s : start_state) : start_state * outcome (res unit) :=
  run_main k_root map_to_list true
    (process_many k_root 100 Z.of_N k_uuid k_sys k_dur map_to_list ex_split 2) s.

(** Does the daemon show exactly these names? *)
Definition shows_start (ns : list string) (s : start_state) : bool :=
  bool_decide (list_to_set ns = (dom (toy_daemon (rs_docker s)) : gset string)).

(** ** The witnesses *)

Lemma kubelet_starts_witness :
  shows_start ["klite_u1_a"; "klite_u1_b"; "klite_other"] (run_start rs_start).1 = true ∧
  ∃ s', run_start rs_start = (s', Val (Ok tt)) ∧
    (∀ n c, boxes s' !! n = Some c → uid_of c = "" ∨ uid_of c ∈ ["u1"; "u3"]) ∧
    (∀ c, c ∈ p_containers ex_pod → is_Some (boxes s' !! container_name "u1" (c_name c))).
Proof.
  split; [vm_compute; reflexivity|].
  destruct (kubelet_starts k_root 100 Z.of_N k_uuid k_sys k_dur map_to_list map_to_list ex_split calm_toy
    (λ f ns n st, calm_request _ ltac:(intros; by eexists _, _) f)
    (λ f ns n g, calm_request _ ltac:(intros; by eexists _, _) f)
    (λ f e, calm_request _ ltac:(intros; by eexists _, _) f)
    start_pods start_keys start_split ex_specs_return toy_kube_returns
    (λ g, Permutation_refl _) (λ k f Hf, Hf)
    (λ k d f, ltac:(destruct f as [m [|x l]]; by intros Hf))
    rs_start toy_reliable toy_removes_all toy_lists eq_refl eq_refl start_settled
    ltac:(apply Permutation_swap)) as (s' & failed & E & Hup & Hgone & _).
  exists s'. split; [exact E|]. split; [exact Hgone|]. intros c Hc.
  apply (Hup ex_pod c); [by left| |done]. split; [done|]. split; [done|].
  split; [exact ex_pod_pullable|]. intros s Hs.
  destruct (ex_specs ex_pod ltac:(by left) eq_refl s) as [specs Es]. by exists s, specs.
Defined.

Definition down_queue : queue_view :=
  MkQV ["default/web"] {["default/web"]} ∅ ["default/db"] true.
Definition rs_down : start_state := MkR kube0 (MkFs ∅ []) toy0 start_pods down_queue ∅ 0.

Lemma worker_stops_witness :
  ∃ s', run_worker k_root 100 Z.of_N k_uuid k_sys k_dur map_to_list ex_split 2 rs_down = (s', Val tt) ∧
    qv_queue (rs_queue s') = [] ∧ qv_later (rs_queue s') = ["default/db"].
Proof.
  destruct (worker_stops k_root 100 Z.of_N k_uuid k_sys k_dur map_to_list ex_split calm_toy
    (λ f ns n st, calm_request _ ltac:(intros; by eexists _, _) f)
    (λ f ns n g, calm_request _ ltac:(intros; by eexists _, _) f)
    (λ f e, calm_request _ ltac:(intros; by eexists _, _) f)
    start_pods start_keys start_split ex_specs_return rs_down 2 eq_refl eq_refl) as (s' & E & Hq & Hl & _).
  - split; [done|]. split; [by apply (bool_decide_unpack _)|apply NoDup_singleton].
  - done.
  - intros k [->|[]%elem_of_nil]%elem_of_cons. by left.
  - simpl. lia.
  - exists s'. split; [exact E|]. by split.
Defined.
