(* ===== verification/DeletionSamples.v ===== *)
(** * The deletion of a Pod on a concrete state

    [Deletion.pod_deleted_in_two_phases] on the Pod and the daemon of
    KubeSamples: a Pod with a period of 5 seconds, one of whose two containers
    exists. *)

From S2P Require Import Prelude GoStrings Fs Translate Projection Docker.
From S2P Require Import Reconciler ReconcilerFacts ReconcilerEnd Strategy Deletion.
From S2P Require Import KubeSamples.

(** The object of [deleted_pod] in the API server. *)
Definition deleted_obj : pod_obj unit unit unit := MkPodObj tt (MkPodSpec (Some 5%Z) tt) tt.

(** The daemon answers: both containers are looked at, the last one first, the
    one that exists is stopped, and one deletion is asked for. *)
Lemma pod_deleted_in_two_phases_witness :
  (check_graceful_delete (NsStatus := unit) (PodO deleted_obj) (Some None)).2 = true ∧
  ∃ s' r,
    reconcile_pod k_root 0 Z.of_N k_uuid k_sys k_dur map_to_list deleted_pod rs_rec = (s', Val r) ∧
    calls s' = [CInspect "klite_u1_b"; CInspect "klite_u1_a"; CStop "klite_u1_a" 5000000000] ∧
    deletes (requests s') = [KDelete "default" "web" 0].
Proof.
  destruct (pod_deleted_in_two_phases (NsStatus := unit) k_root 0 Z.of_N k_uuid k_sys k_dur map_to_list toy_kube_returns
              deleted_obj deleted_pod rs_rec 5 eq_refl ltac:(reflexivity) ltac:(reflexivity)
              ltac:(discriminate) ltac:(discriminate) ltac:(split; reflexivity))
    as (Hgr & (s' & r & did & rest & E & Hn & Hc & Hd & _ & Hrest) & _).
  rewrite (Hrest (proj1 (proj2 toy_reliable))) in Hn, Hc, Hd. rewrite app_nil_r in Hn. rewrite <- Hn in Hc.
  split; [exact Hgr|]. exists s', r. split; [exact E|].
  split; [etransitivity; [exact Hc|vm_compute; reflexivity]|exact Hd].
Defined.
